(** * A shallow embedding of the JSON editor's document engine

    The development follows [src/features/editor/state.ts] (the second part of
    the bundled [App.tsx]): the node store ([buildNode], [buildValue]), the
    document operations, the history manager, the search engine and the
    reducer [editorReducer].

    Conventions.
    - A JavaScript string is a [string]: a sequence of code units, here
      restricted to the range U+0000..U+00FF.
    - A JavaScript number is an IEEE-754 double, modelled by the Standard
      Library's specification type [spec_float].
    - [Record<string, T>] used as a dictionary is a [gmap string T]; the
      plain objects that are JSON *values* are association lists kept in
      the order in which JavaScript enumerates own properties.  A
      dictionary of the program is a plain object, and reading a key it
      does not hold falls through to [Object.prototype]: [m !! k] stands
      for [obj[k]] when [k] is stored in [m] or is not the name of an
      inherited property ([inherited]).  Statements about identifiers that
      reach a lookup from outside say so in their hypotheses.
    - [structuredClone] is the identity: the embedding is pure, so a value
      can never be observed through an alias.
    - Recursion that JavaScript performs over the node map (which may
      contain cycles) takes a [fuel] argument and returns [None] when the
      fuel runs out; [None] stands for a computation that does not return.
    - [createId] draws from a counter: the only property of
      [crypto.randomUUID] the engine relies on is that ids are fresh.
    - [localStorage] is not part of the state: what the reducer writes to
      it is left out, and the one command that reads it back
      ([CLEAR_LOCAL]) does so after removing every key it reads.
    - A reading of the clock ([Date.now()]) is an argument of the command
      that takes it. *)

From Stdlib Require Import ZArith String Ascii List Floats.SpecFloat.
From stdpp Require Import base option list gmap strings pretty sorting.

Local Open Scope string_scope.
Local Open Scope list_scope.
Local Open Scope Z_scope.

(** ** Platform built-ins on strings *)

Module JsString.

(** [WhiteSpace] and [LineTerminator] code points below U+0100. *)
Definition isWhiteSpace (c : ascii) : bool :=
  let n := N_of_ascii c in
  ((9 <=? n) && (n <=? 13) || (n =? 32) || (n =? 160))%N.

Fixpoint trimStart (s : string) : string :=
  match s with
  | String c rest => if isWhiteSpace c then trimStart rest else s
  | EmptyString => EmptyString
  end.

Definition trimEnd (s : string) : string :=
  String.rev (trimStart (String.rev s)).

(** [String.prototype.trim] *)
Definition trim (s : string) : string := trimEnd (trimStart s).

(** Simple case mapping of one code unit below U+0100: A-Z and the
    Latin-1 capitals U+00C0..U+00DE (without the multiplication sign). *)
Definition lowerChar (c : ascii) : ascii :=
  let n := N_of_ascii c in
  if ((65 <=? n) && (n <=? 90) || (192 <=? n) && (n <=? 222) && negb (n =? 215))%N
  then ascii_of_N (n + 32) else c.

(** [String.prototype.toLowerCase] *)
Fixpoint toLowerCase (s : string) : string :=
  match s with
  | String c rest => String (lowerChar c) (toLowerCase rest)
  | EmptyString => EmptyString
  end.

(** [String.prototype.includes]: [q] occurs in [s] as a substring. *)
Fixpoint includes (s q : string) : bool :=
  String.prefix q s ||
  match s with
  | String _ rest => includes rest q
  | EmptyString => false
  end.

(** JavaScript truthiness of a string. *)
Definition truthy (s : string) : bool := negb (String.eqb s "").

(** Truthiness of [string | undefined]. *)
Definition truthyOpt (s : option string) : bool :=
  match s with Some x => truthy x | None => false end.

End JsString.

(** ** Numbers *)

Definition JsNumber : Type := spec_float.

Module JsNum.
Definition isNaN (n : JsNumber) : bool :=
  match n with S754_nan => true | _ => false end.

Definition isFinite (n : JsNumber) : bool :=
  match n with S754_zero _ | S754_finite _ _ _ => true | _ => false end.

Definition zero : JsNumber := S754_zero false.
Definition one : JsNumber := S754_finite false 1 0.
Definition posInfinity : JsNumber := S754_infinity false.
Definition negInfinity : JsNumber := S754_infinity true.

(** ToBoolean on a number: false for +0, -0 and NaN. *)
Definition toBoolean (n : JsNumber) : bool :=
  match n with S754_zero _ | S754_nan => false | _ => true end.
End JsNum.

(** ** Plain values (what [JSON.parse] returns, what [JSON.stringify] takes) *)

#[local] Set Warnings "-register-all".

Inductive JsValue : Type :=
| JNull
| JBool (b : bool)
| JNumber (n : JsNumber)
| JString (s : string)
| JArray (items : list JsValue)
| JObject (props : list (string * JsValue)).

(** *** Own-property order of an ordinary object

    [OrdinaryOwnPropertyKeys] lists array indices first, in ascending
    numeric order, then the other string keys in creation order. *)

Module JsObject.

Definition isDigit (c : ascii) : bool :=
  let n := N_of_ascii c in ((48 <=? n) && (n <=? 57))%N.

Fixpoint digitsValue (acc : N) (s : string) : option N :=
  match s with
  | EmptyString => Some acc
  | String c rest =>
      if isDigit c then digitsValue (acc * 10 + (N_of_ascii c - 48))%N rest
      else None
  end.

(** The array index a property key denotes, if any: a canonical numeric
    string (no sign, no leading zero) of an integer below 2^32 - 1. *)
Definition arrayIndex (k : string) : option N :=
  match k with
  | EmptyString => None
  | String c rest =>
      if (N_of_ascii c =? 48)%N && negb (String.eqb rest "") then None
      else match digitsValue 0%N k with
           | Some n => if (n <=? 4294967294)%N then Some n else None
           | None => None
           end
  end.

Section Props.
Context {V : Type}.

Definition hasOwn (o : list (string * V)) (k : string) : bool :=
  existsb (fun p => String.eqb (fst p) k) o.

Fixpoint update (o : list (string * V)) (k : string) (v : V) : list (string * V) :=
  match o with
  | [] => []
  | (k', v') :: rest =>
      if String.eqb k' k then (k', v) :: rest else (k', v') :: update rest k v
  end.

(** Position of a new array-index key: before the first own key that is
    not an array index or that is a larger one. *)
Fixpoint insertIndex (o : list (string * V)) (i : N) (k : string) (v : V)
  : list (string * V) :=
  match o with
  | [] => [(k, v)]
  | (k', v') :: rest =>
      match arrayIndex k' with
      | Some j => if (j <? i)%N then (k', v') :: insertIndex rest i k v
                  else (k, v) :: o
      | None => (k, v) :: o
      end
  end.

(** A new own property takes its place in the enumeration order. *)
Definition insertNew (o : list (string * V)) (k : string) (v : V) : list (string * V) :=
  match arrayIndex k with
  | Some i => insertIndex o i k v
  | None => o ++ [(k, v)]
  end.

(** [obj[k] = v] on an object created by the literal [{}].  An own
    property is overwritten.  Otherwise the assignment looks the key
    up along the prototype chain: for ["__proto__"] it finds the
    accessor of [Object.prototype], whose setter changes the
    prototype (or ignores a primitive) and creates no own property;
    every other inherited property is a writable data property, so the
    assignment defines an own property.  This is what happens while the
    prototype of the object is still [Object.prototype], hence for every
    object whose entries have distinct keys: its one key [__proto__] is
    assigned while the accessor is in reach. *)
Definition set (o : list (string * V)) (k : string) (v : V) : list (string * V) :=
  if hasOwn o k then update o k v
  else if String.eqb k "__proto__" then o
  else insertNew o k v.

(** The key sequences that own-property enumeration can produce:
    array indices in ascending order, then keys that are no indices. *)
Fixpoint enumerationOrder (lo : option N) (ks : list string) : bool :=
  match ks with
  | [] => true
  | k :: rest =>
      match arrayIndex k with
      | Some i =>
          match lo with
          | Some j => (j <? i)%N
          | None => true
          end && enumerationOrder (Some i) rest
      | None =>
          forallb (fun k' => match arrayIndex k' with Some _ => false | None => true end) rest
      end
  end.

End Props.

(** The properties an object created by [{}] inherits from
    [Object.prototype].  For such a key [obj[k]] is a function (for
    [__proto__] the prototype itself) when the object has no own
    property [k]: the value is truthy and none of its fields [type],
    [id], [value], [entries], [items] is defined. *)
Definition inheritedNames : list string :=
  ["constructor"; "__defineGetter__"; "__defineSetter__"; "hasOwnProperty";
   "__lookupGetter__"; "__lookupSetter__"; "isPrototypeOf";
   "propertyIsEnumerable"; "toString"; "valueOf"; "__proto__";
   "toLocaleString"].

Definition inherited (k : string) : bool :=
  existsb (String.eqb k) inheritedNames.

End JsObject.

(** ** The node store *)

Inductive NodeType : Type :=
| TObject | TArray | TString | TNumber | TBoolean | TNull.

Record ObjectEntry : Type := mkEntry { key : string; childId : string }.

Inductive JsonNode : Type :=
| ObjectNode (id : string) (entries : list ObjectEntry)
| ArrayNode (id : string) (items : list string)
| StringNode (id : string) (value : string)
| NumberNode (id : string) (value : JsNumber)
| BooleanNode (id : string) (value : bool)
| NullNode (id : string).

Definition node_id (n : JsonNode) : string :=
  match n with
  | ObjectNode i _ | ArrayNode i _ | StringNode i _
  | NumberNode i _ | BooleanNode i _ | NullNode i => i
  end.

Definition node_type (n : JsonNode) : NodeType :=
  match n with
  | ObjectNode _ _ => TObject
  | ArrayNode _ _ => TArray
  | StringNode _ _ => TString
  | NumberNode _ _ => TNumber
  | BooleanNode _ _ => TBoolean
  | NullNode _ => TNull
  end.

(** The child references of a node, in sequence order. *)
Definition children (n : JsonNode) : list string :=
  match n with
  | ObjectNode _ entries => map childId entries
  | ArrayNode _ items => items
  | _ => []
  end.

Record DocumentState : Type := mkDoc {
  rootId : string;
  nodes : gmap string JsonNode
}.

#[global] Instance ObjectEntry_eq_dec : EqDecision ObjectEntry.
Proof. solve_decision. Defined.
#[global] Instance NodeType_eq_dec : EqDecision NodeType.
Proof. solve_decision. Defined.

(** [createId]: the [n]-th identifier drawn.  Distinct draws give distinct
    identifiers. *)
Definition mkId (n : nat) : string := "id-" +:+ pretty n.

Definition createId (next : nat) : string * nat := (mkId next, S next).

(** [buildNode(value, nodes)]: the identifier is drawn before the children
    are built, the node is stored after them. *)
Fixpoint buildNode (value : JsValue) (nodes : gmap string JsonNode) (next : nat)
  {struct value} : string * gmap string JsonNode * nat :=
  let '(id, next) := createId next in
  match value with
  | JArray items =>
      let '(childIds, nodes, next) :=
        (fix mapItems (items : list JsValue) nodes next :=
           match items with
           | [] => ([], nodes, next)
           | item :: rest =>
               let '(c, nodes, next) := buildNode item nodes next in
               let '(cs, nodes, next) := mapItems rest nodes next in
               (c :: cs, nodes, next)
           end) items nodes next in
      (id, <[id := ArrayNode id childIds]> nodes, next)
  | JNull => (id, <[id := NullNode id]> nodes, next)
  | JObject props =>
      let '(entries, nodes, next) :=
        (fix mapEntries (props : list (string * JsValue)) nodes next :=
           match props with
           | [] => ([], nodes, next)
           | (k, child) :: rest =>
               let '(c, nodes, next) := buildNode child nodes next in
               let '(es, nodes, next) := mapEntries rest nodes next in
               (mkEntry k c :: es, nodes, next)
           end) props nodes next in
      (id, <[id := ObjectNode id entries]> nodes, next)
  | JNumber value => (id, <[id := NumberNode id value]> nodes, next)
  | JBool value => (id, <[id := BooleanNode id value]> nodes, next)
  | JString value => (id, <[id := StringNode id value]> nodes, next)
  end.

Definition buildDocumentFromValue (value : JsValue) (next : nat) : DocumentState * nat :=
  let '(rootId, nodes, next) := buildNode value ∅ next in
  (mkDoc rootId nodes, next).

(** The two inner loops of [buildNode], by name. *)
Definition buildItems :=
  fix mapItems (items : list JsValue) (nodes : gmap string JsonNode) (next : nat)
    : list string * gmap string JsonNode * nat :=
    match items with
    | [] => ([], nodes, next)
    | item :: rest =>
        let '(c, nodes, next) := buildNode item nodes next in
        let '(cs, nodes, next) := mapItems rest nodes next in
        (c :: cs, nodes, next)
    end.

Definition buildEntries :=
  fix mapEntries (props : list (string * JsValue)) (nodes : gmap string JsonNode)
      (next : nat) : list ObjectEntry * gmap string JsonNode * nat :=
    match props with
    | [] => ([], nodes, next)
    | (k, child) :: rest =>
        let '(c, nodes, next) := buildNode child nodes next in
        let '(es, nodes, next) := mapEntries rest nodes next in
        (mkEntry k c :: es, nodes, next)
    end.

(** Nesting depth of a value. *)
Fixpoint depth (v : JsValue) : nat :=
  match v with
  | JArray items => S (foldr (fun x => Nat.max (depth x)) 0%nat items)
  | JObject props => S (foldr (fun p => Nat.max (depth (snd p))) 0%nat props)
  | _ => 1%nat
  end.

(** The values JavaScript can hold: the keys of every object are distinct
    and stand in own-property enumeration order. *)
Fixpoint representable (v : JsValue) : bool :=
  match v with
  | JArray items => forallb representable items
  | JObject props =>
      JsObject.enumerationOrder None (map fst props)
      && bool_decide (NoDup (map fst props))
      && forallb (fun p => representable (snd p)) props
  | _ => true
  end.

(** Some object inside the value has the own key [__proto__]. *)
Fixpoint hasProtoKey (v : JsValue) : bool :=
  match v with
  | JArray items => existsb hasProtoKey items
  | JObject props =>
      existsb (fun p => String.eqb (fst p) "__proto__" || hasProtoKey (snd p)) props
  | _ => false
  end.

(** [array.forEach(callback)] where the callback updates a state [S] and
    may fail to return. *)
Fixpoint forEachM {S A : Type} (callback : S -> A -> option S) (s : S) (l : list A)
  : option S :=
  match l with
  | [] => Some s
  | x :: rest => s' ← callback s x; forEachM callback s' rest
  end.

(** [buildValue(doc, nodeId)].  An absent node gives [null]; for an
    absent identifier that names an inherited property the program reads
    the inherited value and answers [undefined], which the embedding does
    not follow. *)
Fixpoint buildValue (fuel : nat) (doc : DocumentState) (nodeId : string)
  : option JsValue :=
  match fuel with
  | O => None
  | S fuel =>
      match nodes doc !! nodeId with
      | None => Some JNull
      | Some (ObjectNode _ entries) =>
          obj ← forEachM (fun obj entry =>
                            v ← buildValue fuel doc (childId entry);
                            Some (JsObject.set obj (key entry) v))
                         [] entries;
          Some (JObject obj)
      | Some (ArrayNode _ items) =>
          vs ← mapM (buildValue fuel doc) items;
          Some (JArray vs)
      | Some (NullNode _) => Some JNull
      | Some (StringNode _ value) => Some (JString value)
      | Some (NumberNode _ value) => Some (JNumber value)
      | Some (BooleanNode _ value) => Some (JBool value)
      end
  end.

Definition documentToJson (fuel : nat) (doc : DocumentState) : option JsValue :=
  buildValue fuel doc (rootId doc).

(** ** Sets of strings

    A JavaScript [Set] iterates in insertion order; it is modelled by the
    list of its members in that order. *)

Module JsSet.
Abbreviation t := (list string).
Definition has (s : t) (x : string) : bool := bool_decide (x ∈ s).
Definition add (s : t) (x : string) : t := if has s x then s else s ++ [x].
Definition delete (s : t) (x : string) : t := filter (fun y => y ≠ x) s.
(** [new Set(iterable)] *)
Definition ofArray (l : list string) : t := foldl add [] l.
(** [items.forEach((id) => set.add(id))] *)
Definition addAll (s : t) (l : list string) : t := foldl add s l.
End JsSet.

(** ** Editor state *)

Record ParseError : Type := mkParseError {
  message : string;
  line : option N;
  column : option N
}.

Inductive NoticeType : Type := NSuccess | NError | NInfo.
Record Notice : Type := mkNotice { noticeType : NoticeType; noticeMessage : string }.

Record SnippetMeta : Type := mkSnippet {
  snippetId : string; snippetName : string; updatedAt : JsNumber
}.

Record HistoryEntry : Type := mkEntryH {
  h_doc : option DocumentState;
  h_rawText : string;
  h_expanded : list string;
  h_selectedId : option string;
  h_preSearchExpanded : option (list string);
  h_anchorPath : list string
}.

Inductive OutputMode : Type := Pretty | Minified.

Record EditorState : Type := mkState {
  rawText : string;
  lastValidText : string;
  doc : option DocumentState;
  parseError : option ParseError;
  expanded : JsSet.t;
  selectedId : option string;
  searchQuery : string;
  searchMatches : list string;
  activeMatch : Z;
  searchFilterOnly : bool;
  outputMode : OutputMode;
  indent : JsNumber;
  undoStack : list HistoryEntry;
  redoStack : list HistoryEntry;
  autoParse : bool;
  autoSaveEnabled : bool;
  snippets : list SnippetMeta;
  snippetContents : gmap string string;
  notice : option Notice;
  preSearchExpanded : option JsSet.t;
  anchorPath : list string
}.

(** Functional record update, [{ ...state, field: v }]. *)
Class Setter {T : Type} (proj : EditorState -> T) : Type :=
  setField : T -> EditorState -> EditorState.
Arguments setField {T} proj {Setter} v s.

#[global] Instance set_rawText : Setter rawText := fun v s =>
  {| rawText := v; lastValidText := lastValidText s; doc := doc s; parseError := parseError s; expanded := expanded s; selectedId := selectedId s; searchQuery := searchQuery s; searchMatches := searchMatches s; activeMatch := activeMatch s; searchFilterOnly := searchFilterOnly s; outputMode := outputMode s; indent := indent s; undoStack := undoStack s; redoStack := redoStack s; autoParse := autoParse s; autoSaveEnabled := autoSaveEnabled s; snippets := snippets s; snippetContents := snippetContents s; notice := notice s; preSearchExpanded := preSearchExpanded s; anchorPath := anchorPath s |}.
#[global] Instance set_lastValidText : Setter lastValidText := fun v s =>
  {| rawText := rawText s; lastValidText := v; doc := doc s; parseError := parseError s; expanded := expanded s; selectedId := selectedId s; searchQuery := searchQuery s; searchMatches := searchMatches s; activeMatch := activeMatch s; searchFilterOnly := searchFilterOnly s; outputMode := outputMode s; indent := indent s; undoStack := undoStack s; redoStack := redoStack s; autoParse := autoParse s; autoSaveEnabled := autoSaveEnabled s; snippets := snippets s; snippetContents := snippetContents s; notice := notice s; preSearchExpanded := preSearchExpanded s; anchorPath := anchorPath s |}.
#[global] Instance set_doc : Setter doc := fun v s =>
  {| rawText := rawText s; lastValidText := lastValidText s; doc := v; parseError := parseError s; expanded := expanded s; selectedId := selectedId s; searchQuery := searchQuery s; searchMatches := searchMatches s; activeMatch := activeMatch s; searchFilterOnly := searchFilterOnly s; outputMode := outputMode s; indent := indent s; undoStack := undoStack s; redoStack := redoStack s; autoParse := autoParse s; autoSaveEnabled := autoSaveEnabled s; snippets := snippets s; snippetContents := snippetContents s; notice := notice s; preSearchExpanded := preSearchExpanded s; anchorPath := anchorPath s |}.
#[global] Instance set_parseError : Setter parseError := fun v s =>
  {| rawText := rawText s; lastValidText := lastValidText s; doc := doc s; parseError := v; expanded := expanded s; selectedId := selectedId s; searchQuery := searchQuery s; searchMatches := searchMatches s; activeMatch := activeMatch s; searchFilterOnly := searchFilterOnly s; outputMode := outputMode s; indent := indent s; undoStack := undoStack s; redoStack := redoStack s; autoParse := autoParse s; autoSaveEnabled := autoSaveEnabled s; snippets := snippets s; snippetContents := snippetContents s; notice := notice s; preSearchExpanded := preSearchExpanded s; anchorPath := anchorPath s |}.
#[global] Instance set_expanded : Setter expanded := fun v s =>
  {| rawText := rawText s; lastValidText := lastValidText s; doc := doc s; parseError := parseError s; expanded := v; selectedId := selectedId s; searchQuery := searchQuery s; searchMatches := searchMatches s; activeMatch := activeMatch s; searchFilterOnly := searchFilterOnly s; outputMode := outputMode s; indent := indent s; undoStack := undoStack s; redoStack := redoStack s; autoParse := autoParse s; autoSaveEnabled := autoSaveEnabled s; snippets := snippets s; snippetContents := snippetContents s; notice := notice s; preSearchExpanded := preSearchExpanded s; anchorPath := anchorPath s |}.
#[global] Instance set_selectedId : Setter selectedId := fun v s =>
  {| rawText := rawText s; lastValidText := lastValidText s; doc := doc s; parseError := parseError s; expanded := expanded s; selectedId := v; searchQuery := searchQuery s; searchMatches := searchMatches s; activeMatch := activeMatch s; searchFilterOnly := searchFilterOnly s; outputMode := outputMode s; indent := indent s; undoStack := undoStack s; redoStack := redoStack s; autoParse := autoParse s; autoSaveEnabled := autoSaveEnabled s; snippets := snippets s; snippetContents := snippetContents s; notice := notice s; preSearchExpanded := preSearchExpanded s; anchorPath := anchorPath s |}.
#[global] Instance set_searchQuery : Setter searchQuery := fun v s =>
  {| rawText := rawText s; lastValidText := lastValidText s; doc := doc s; parseError := parseError s; expanded := expanded s; selectedId := selectedId s; searchQuery := v; searchMatches := searchMatches s; activeMatch := activeMatch s; searchFilterOnly := searchFilterOnly s; outputMode := outputMode s; indent := indent s; undoStack := undoStack s; redoStack := redoStack s; autoParse := autoParse s; autoSaveEnabled := autoSaveEnabled s; snippets := snippets s; snippetContents := snippetContents s; notice := notice s; preSearchExpanded := preSearchExpanded s; anchorPath := anchorPath s |}.
#[global] Instance set_searchMatches : Setter searchMatches := fun v s =>
  {| rawText := rawText s; lastValidText := lastValidText s; doc := doc s; parseError := parseError s; expanded := expanded s; selectedId := selectedId s; searchQuery := searchQuery s; searchMatches := v; activeMatch := activeMatch s; searchFilterOnly := searchFilterOnly s; outputMode := outputMode s; indent := indent s; undoStack := undoStack s; redoStack := redoStack s; autoParse := autoParse s; autoSaveEnabled := autoSaveEnabled s; snippets := snippets s; snippetContents := snippetContents s; notice := notice s; preSearchExpanded := preSearchExpanded s; anchorPath := anchorPath s |}.
#[global] Instance set_activeMatch : Setter activeMatch := fun v s =>
  {| rawText := rawText s; lastValidText := lastValidText s; doc := doc s; parseError := parseError s; expanded := expanded s; selectedId := selectedId s; searchQuery := searchQuery s; searchMatches := searchMatches s; activeMatch := v; searchFilterOnly := searchFilterOnly s; outputMode := outputMode s; indent := indent s; undoStack := undoStack s; redoStack := redoStack s; autoParse := autoParse s; autoSaveEnabled := autoSaveEnabled s; snippets := snippets s; snippetContents := snippetContents s; notice := notice s; preSearchExpanded := preSearchExpanded s; anchorPath := anchorPath s |}.
#[global] Instance set_searchFilterOnly : Setter searchFilterOnly := fun v s =>
  {| rawText := rawText s; lastValidText := lastValidText s; doc := doc s; parseError := parseError s; expanded := expanded s; selectedId := selectedId s; searchQuery := searchQuery s; searchMatches := searchMatches s; activeMatch := activeMatch s; searchFilterOnly := v; outputMode := outputMode s; indent := indent s; undoStack := undoStack s; redoStack := redoStack s; autoParse := autoParse s; autoSaveEnabled := autoSaveEnabled s; snippets := snippets s; snippetContents := snippetContents s; notice := notice s; preSearchExpanded := preSearchExpanded s; anchorPath := anchorPath s |}.
#[global] Instance set_outputMode : Setter outputMode := fun v s =>
  {| rawText := rawText s; lastValidText := lastValidText s; doc := doc s; parseError := parseError s; expanded := expanded s; selectedId := selectedId s; searchQuery := searchQuery s; searchMatches := searchMatches s; activeMatch := activeMatch s; searchFilterOnly := searchFilterOnly s; outputMode := v; indent := indent s; undoStack := undoStack s; redoStack := redoStack s; autoParse := autoParse s; autoSaveEnabled := autoSaveEnabled s; snippets := snippets s; snippetContents := snippetContents s; notice := notice s; preSearchExpanded := preSearchExpanded s; anchorPath := anchorPath s |}.
#[global] Instance set_indent : Setter indent := fun v s =>
  {| rawText := rawText s; lastValidText := lastValidText s; doc := doc s; parseError := parseError s; expanded := expanded s; selectedId := selectedId s; searchQuery := searchQuery s; searchMatches := searchMatches s; activeMatch := activeMatch s; searchFilterOnly := searchFilterOnly s; outputMode := outputMode s; indent := v; undoStack := undoStack s; redoStack := redoStack s; autoParse := autoParse s; autoSaveEnabled := autoSaveEnabled s; snippets := snippets s; snippetContents := snippetContents s; notice := notice s; preSearchExpanded := preSearchExpanded s; anchorPath := anchorPath s |}.
#[global] Instance set_undoStack : Setter undoStack := fun v s =>
  {| rawText := rawText s; lastValidText := lastValidText s; doc := doc s; parseError := parseError s; expanded := expanded s; selectedId := selectedId s; searchQuery := searchQuery s; searchMatches := searchMatches s; activeMatch := activeMatch s; searchFilterOnly := searchFilterOnly s; outputMode := outputMode s; indent := indent s; undoStack := v; redoStack := redoStack s; autoParse := autoParse s; autoSaveEnabled := autoSaveEnabled s; snippets := snippets s; snippetContents := snippetContents s; notice := notice s; preSearchExpanded := preSearchExpanded s; anchorPath := anchorPath s |}.
#[global] Instance set_redoStack : Setter redoStack := fun v s =>
  {| rawText := rawText s; lastValidText := lastValidText s; doc := doc s; parseError := parseError s; expanded := expanded s; selectedId := selectedId s; searchQuery := searchQuery s; searchMatches := searchMatches s; activeMatch := activeMatch s; searchFilterOnly := searchFilterOnly s; outputMode := outputMode s; indent := indent s; undoStack := undoStack s; redoStack := v; autoParse := autoParse s; autoSaveEnabled := autoSaveEnabled s; snippets := snippets s; snippetContents := snippetContents s; notice := notice s; preSearchExpanded := preSearchExpanded s; anchorPath := anchorPath s |}.
#[global] Instance set_autoParse : Setter autoParse := fun v s =>
  {| rawText := rawText s; lastValidText := lastValidText s; doc := doc s; parseError := parseError s; expanded := expanded s; selectedId := selectedId s; searchQuery := searchQuery s; searchMatches := searchMatches s; activeMatch := activeMatch s; searchFilterOnly := searchFilterOnly s; outputMode := outputMode s; indent := indent s; undoStack := undoStack s; redoStack := redoStack s; autoParse := v; autoSaveEnabled := autoSaveEnabled s; snippets := snippets s; snippetContents := snippetContents s; notice := notice s; preSearchExpanded := preSearchExpanded s; anchorPath := anchorPath s |}.
#[global] Instance set_autoSaveEnabled : Setter autoSaveEnabled := fun v s =>
  {| rawText := rawText s; lastValidText := lastValidText s; doc := doc s; parseError := parseError s; expanded := expanded s; selectedId := selectedId s; searchQuery := searchQuery s; searchMatches := searchMatches s; activeMatch := activeMatch s; searchFilterOnly := searchFilterOnly s; outputMode := outputMode s; indent := indent s; undoStack := undoStack s; redoStack := redoStack s; autoParse := autoParse s; autoSaveEnabled := v; snippets := snippets s; snippetContents := snippetContents s; notice := notice s; preSearchExpanded := preSearchExpanded s; anchorPath := anchorPath s |}.
#[global] Instance set_snippets : Setter snippets := fun v s =>
  {| rawText := rawText s; lastValidText := lastValidText s; doc := doc s; parseError := parseError s; expanded := expanded s; selectedId := selectedId s; searchQuery := searchQuery s; searchMatches := searchMatches s; activeMatch := activeMatch s; searchFilterOnly := searchFilterOnly s; outputMode := outputMode s; indent := indent s; undoStack := undoStack s; redoStack := redoStack s; autoParse := autoParse s; autoSaveEnabled := autoSaveEnabled s; snippets := v; snippetContents := snippetContents s; notice := notice s; preSearchExpanded := preSearchExpanded s; anchorPath := anchorPath s |}.
#[global] Instance set_snippetContents : Setter snippetContents := fun v s =>
  {| rawText := rawText s; lastValidText := lastValidText s; doc := doc s; parseError := parseError s; expanded := expanded s; selectedId := selectedId s; searchQuery := searchQuery s; searchMatches := searchMatches s; activeMatch := activeMatch s; searchFilterOnly := searchFilterOnly s; outputMode := outputMode s; indent := indent s; undoStack := undoStack s; redoStack := redoStack s; autoParse := autoParse s; autoSaveEnabled := autoSaveEnabled s; snippets := snippets s; snippetContents := v; notice := notice s; preSearchExpanded := preSearchExpanded s; anchorPath := anchorPath s |}.
#[global] Instance set_notice : Setter notice := fun v s =>
  {| rawText := rawText s; lastValidText := lastValidText s; doc := doc s; parseError := parseError s; expanded := expanded s; selectedId := selectedId s; searchQuery := searchQuery s; searchMatches := searchMatches s; activeMatch := activeMatch s; searchFilterOnly := searchFilterOnly s; outputMode := outputMode s; indent := indent s; undoStack := undoStack s; redoStack := redoStack s; autoParse := autoParse s; autoSaveEnabled := autoSaveEnabled s; snippets := snippets s; snippetContents := snippetContents s; notice := v; preSearchExpanded := preSearchExpanded s; anchorPath := anchorPath s |}.
#[global] Instance set_preSearchExpanded : Setter preSearchExpanded := fun v s =>
  {| rawText := rawText s; lastValidText := lastValidText s; doc := doc s; parseError := parseError s; expanded := expanded s; selectedId := selectedId s; searchQuery := searchQuery s; searchMatches := searchMatches s; activeMatch := activeMatch s; searchFilterOnly := searchFilterOnly s; outputMode := outputMode s; indent := indent s; undoStack := undoStack s; redoStack := redoStack s; autoParse := autoParse s; autoSaveEnabled := autoSaveEnabled s; snippets := snippets s; snippetContents := snippetContents s; notice := notice s; preSearchExpanded := v; anchorPath := anchorPath s |}.
#[global] Instance set_anchorPath : Setter anchorPath := fun v s =>
  {| rawText := rawText s; lastValidText := lastValidText s; doc := doc s; parseError := parseError s; expanded := expanded s; selectedId := selectedId s; searchQuery := searchQuery s; searchMatches := searchMatches s; activeMatch := activeMatch s; searchFilterOnly := searchFilterOnly s; outputMode := outputMode s; indent := indent s; undoStack := undoStack s; redoStack := redoStack s; autoParse := autoParse s; autoSaveEnabled := autoSaveEnabled s; snippets := snippets s; snippetContents := snippetContents s; notice := notice s; preSearchExpanded := preSearchExpanded s; anchorPath := v |}.

Notation "s <| f := v |>" := (setField f v s)
  (at level 1, f at level 9, v at level 200, left associativity,
   format "s  <| f  :=  v |>").

(** ** Actions *)

(** [string | number | boolean | null], the payload of an edit. *)
Inductive PrimValue : Type :=
| PString (s : string)
| PNumber (n : JsNumber)
| PBoolean (b : bool)
| PNull.

Inductive ParentType : Type := PObject | PArray.
Inductive SortScope : Type := ScopeSelected | ScopeAll.
Inductive Direction : Type := Up | Down.

Definition directionValue (d : Direction) : Z :=
  match d with Up => -1 | Down => 1 end.

(** The actions of the reducer.  [now] is the reading of [Date.now()]
    taken while the command is handled. *)
Inductive Action : Type :=
| SET_RAW_TEXT (text : string)
| PARSE_TEXT
| LOAD_TEXT (text : string)
| EDIT_PRIMITIVE (nodeId : string) (value : PrimValue) (newType : option NodeType)
| RENAME_KEY (parentId childId newKey : string)
| ADD_NODE (parentId : string) (parentType : ParentType) (key : option string)
           (newType : NodeType)
| DELETE_NODE (parentId childId : string)
| SET_SELECTED (nodeId : option string)
| TOGGLE_EXPANDED (nodeId : string)
| EXPAND_ALL
| COLLAPSE_ALL
| SET_SEARCH_QUERY (query : string)
| MOVE_MATCH (direction : Direction)
| TOGGLE_FILTER_MODE (enabled : bool)
| SET_OUTPUT_MODE (mode : OutputMode)
| SET_INDENT (indent : JsNumber)
| SORT_KEYS (scope : SortScope)
| MOVE_ARRAY_ITEM (parentId childId : string) (direction : Direction)
| UNDO
| REDO
| SET_AUTOPARSE (enabled : bool)
| SET_AUTOSAVE (enabled : bool)
| SAVE_SNIPPET (name : string) (now : JsNumber)
| LOAD_SNIPPET (id : string)
| RENAME_SNIPPET (id name : string) (now : JsNumber)
| DELETE_SNIPPET (id : string)
| OVERWRITE_SNIPPET (id : string) (now : JsNumber)
| CLEAR_LOCAL
| SET_NOTICE (notice : option Notice)
| ANCHOR_TO (nodeId : option string).

(** ** Built-ins the engine receives from the platform

    Parsing and serialisation are boundary functions of the engine;
    [Number.prototype.toString] and [String.prototype.localeCompare] are
    left to the platform as well. *)

Inductive ParseOutcome : Type :=
| Parsed (value : JsValue)
| SyntaxError (message : string).

Class Platform : Type := {
  JSON_parse : string -> ParseOutcome;
  JSON_stringify : JsValue -> JsNumber -> string;
  Number_toString : JsNumber -> string;
  localeCompare : string -> string -> Z
}.

(** ** Small list helpers with JavaScript's conventions *)

(** [arr[i]] for an integer [i]: [undefined] out of range. *)
Definition js_index {A} (l : list A) (i : Z) : option A :=
  if i <? 0 then None else l !! Z.to_nat i.

(** [arr.indexOf(x)] *)
Fixpoint indexOf (l : list string) (x : string) : Z :=
  match l with
  | [] => -1
  | y :: rest =>
      if String.eqb y x then 0
      else let i := indexOf rest x in if i <? 0 then -1 else i + 1
  end.

(** [arr.find(p)] *)
Definition js_find {A} (p : A -> bool) (l : list A) : option A := List.find p l.

(** [arr[arr.length - 1]] *)
Definition lastOf {A} (l : list A) : option A := last l.

(** [a ?? b] *)
Definition nullish {A} (a : option A) (b : A) : A := default b a.

(** [Array.prototype.sort] with a comparison function.  The sort is
    stable; for a consistent comparison function the result is the unique
    stable ordering, which insertion from the right computes. *)
Section Sort.
Context {A : Type} (compareFn : A -> A -> Z).

Fixpoint insertSorted (x : A) (l : list A) : list A :=
  match l with
  | [] => [x]
  | y :: rest => if 0 <? compareFn x y then y :: insertSorted x rest else x :: l
  end.

Definition Array_sort (l : list A) : list A := foldr insertSorted [] l.
End Sort.

(** ** The engine *)

Section Engine.
Context `{Platform}.

(** *** Parsing *)

Fixpoint takeDigits (s : string) : string :=
  match s with
  | String c rest => if JsObject.isDigit c then String c (takeDigits rest) else ""
  | EmptyString => ""
  end.

Definition dropString (n : nat) (s : string) : string :=
  String.substring n (String.length s - n) s.

(** The first capture group of [message.match(/position (\d+)/i)]. *)
Fixpoint positionMatch (message : string) : option string :=
  let here :=
    if String.prefix "position " (JsString.toLowerCase message)
    then let digits := takeDigits (dropString 9 message) in
         if String.eqb digits "" then None else Some digits
    else None in
  match here with
  | Some digits => Some digits
  | None =>
      match message with
      | String _ rest => positionMatch rest
      | EmptyString => None
      end
  end.

(** [s.split('\n')] *)
Fixpoint splitLines (s : string) : list string :=
  match s with
  | EmptyString => [""]
  | String c rest =>
      if Ascii.eqb c "010"%char then "" :: splitLines rest
      else match splitLines rest with
           | l :: ls => String c l :: ls
           | [] => [String c ""]
           end
  end.

Definition getLineColumn (text : string) (index : N) : N * N :=
  let before := String.substring 0 (N.to_nat index) text in
  let lines := splitLines before in
  (N.of_nat (length lines),
   N.of_nat (String.length (nullish (lastOf lines) "")) + 1)%N.

Definition parseJson (text : string) : JsValue + ParseError :=
  match JSON_parse text with
  | Parsed value => inl value
  | SyntaxError message =>
      match positionMatch message with
      | Some digits =>
          let index := nullish (JsObject.digitsValue 0%N digits) 0%N in
          let '(line, column) := getLineColumn text index in
          inr (mkParseError message (Some line) (Some column))
      | None => inr (mkParseError message None None)
      end
  end.

Definition formatJson (value : JsValue) (indent : JsNumber) : string :=
  JSON_stringify value indent.

(** *** History *)

Definition snapshotState (state : EditorState) : HistoryEntry :=
  {| h_doc := doc state;
     h_rawText := rawText state;
     h_expanded := expanded state;
     h_selectedId := selectedId state;
     h_preSearchExpanded := preSearchExpanded state;
     h_anchorPath := anchorPath state |}.

Definition withHistory (state next : EditorState) (push : bool) : EditorState :=
  if push then
    let undo := take 50 (snapshotState state :: undoStack state) in
    next <| undoStack := undo |> <| redoStack := [] |>
  else next.

(** *** Parent links and anchors *)

(** [buildParentMap(doc)].  When a child has several parents the last
    node visited wins: the program visits the nodes in the order of
    [Object.values], the embedding in the order of the keys, so the two
    agree on a document in which no child has two parents.  The
    assignment [parents[c] = id] defines no property for the child
    [__proto__], and a read [parents[c]] falls through to
    [Object.prototype] like every lookup. *)
Definition buildParentMap (doc : DocumentState) : gmap string string :=
  map_fold (fun _ node parents =>
              foldl (fun ps c => <[c := node_id node]> ps) parents (children node))
           ∅ (nodes doc).

(** [while (current) { expanded.add(current); current = parents[current] }] *)
Fixpoint expandAncestors (fuel : nat) (current : option string)
    (parents : gmap string string) (expanded : JsSet.t) : option JsSet.t :=
  if JsString.truthyOpt current then
    match fuel, current with
    | S fuel, Some c =>
        expandAncestors fuel (parents !! c) parents (JsSet.add expanded c)
    | _, _ => None
    end
  else Some expanded.

Fixpoint collectSubtreeIds (fuel : nat) (doc : DocumentState) (rootId : string)
    (bucket : JsSet.t) : option JsSet.t :=
  match fuel with
  | O => None
  | S fuel =>
      match nodes doc !! rootId with
      | None => Some bucket
      | Some node =>
          forEachM (fun b c => collectSubtreeIds fuel doc c b)
                   (JsSet.add bucket rootId) (children node)
      end
  end.

(** The loop of [buildAnchorPath]: the ids from the target up. *)
Fixpoint walkUp (fuel : nat) (current : option string)
    (parents : gmap string string) (path : list string) : option (list string) :=
  if JsString.truthyOpt current then
    match fuel, current with
    | S fuel, Some c => walkUp fuel (parents !! c) parents (path ++ [c])
    | _, _ => None
    end
  else Some path.

Definition buildAnchorPath (fuel : nat) (doc : DocumentState) (targetId : string)
  : option (list string) :=
  let parents := buildParentMap doc in
  path ← walkUp fuel (Some targetId) parents [];
  let result := reverse path in
  match result with
  | first :: _ => if String.eqb first (rootId doc) then Some result else Some []
  | [] => Some []
  end.

Definition resolveAnchorPath (fuel : nat) (doc : DocumentState)
    (anchorPath : list string) : option (list string) :=
  match lastOf anchorPath with
  | Some targetId =>
      if JsString.truthy targetId then
        path ← buildAnchorPath fuel doc targetId;
        Some (if decide (path = []) then [rootId doc] else path)
      else Some [rootId doc]
  | None => Some [rootId doc]
  end.

(** *** Search *)

(** [node.type === 'null' ? 'null' : String(node.value)] for a scalar. *)
Definition valueString (node : JsonNode) : string :=
  match node with
  | StringNode _ value => value
  | NumberNode _ value => Number_toString value
  | BooleanNode _ value => if value then "true" else "false"
  | _ => "null"
  end.

(** The inner function [visit] of [findSearchMatches]; [matches] is the
    array the closure pushes to.  An absent identifier that names an
    inherited property is visited by the program as a scalar with the
    text [undefined]; the embedding passes it by. *)
Fixpoint visit (fuel : nat) (doc : DocumentState) (lower : string)
    (nodeId : string) (matches : list string) : option (list string) :=
  match fuel with
  | O => None
  | S fuel =>
      match nodes doc !! nodeId with
      | None => Some matches
      | Some (ObjectNode _ entries) =>
          forEachM (fun matches entry =>
                      let matches :=
                        if JsString.includes (JsString.toLowerCase (key entry)) lower
                        then matches ++ [childId entry] else matches in
                      visit fuel doc lower (childId entry) matches)
                   matches entries
      | Some (ArrayNode _ items) =>
          forEachM (fun matches item => visit fuel doc lower item matches)
                   matches items
      | Some node =>
          if JsString.includes (JsString.toLowerCase (valueString node)) lower
          then Some (matches ++ [node_id node]) else Some matches
      end
  end.

Definition findSearchMatches (fuel : nat) (doc : DocumentState) (query : string)
    (rootId : string) : option (list string) :=
  visit fuel doc (JsString.toLowerCase query) rootId [].

Definition applySearch (fuel : nat) (state : EditorState)
    (docOverride : option DocumentState) (anchorOverride : option (list string))
  : option EditorState :=
  let doc' := match docOverride with Some d => Some d | None => doc state end in
  let anchorPath' := nullish anchorOverride (anchorPath state) in
  match doc' with
  | Some doc' =>
      if JsString.truthy (JsString.trim (searchQuery state)) then
        let anchorRoot := nullish (lastOf anchorPath') (rootId doc') in
        matches ←
          findSearchMatches fuel doc' (JsString.trim (searchQuery state)) anchorRoot;
        let currentActiveId := js_index (searchMatches state) (activeMatch state) in
        let nextActiveIndex :=
          match currentActiveId with
          | Some i => if JsString.truthy i then indexOf matches i else -1
          | None => -1
          end in
        let activeMatch' :=
          if 0 <=? nextActiveIndex then nextActiveIndex
          else if decide (matches = []) then -1 else 0 in
        let parents := buildParentMap doc' in
        expanded' ←
          (if JsString.truthyOpt (js_index matches activeMatch')
           then expandAncestors fuel (js_index matches activeMatch') parents
                  (expanded state)
           else Some (expanded state));
        let expanded' := JsSet.addAll expanded' anchorPath' in
        Some (state <| searchMatches := matches |> <| activeMatch := activeMatch' |>
                    <| expanded := expanded' |> <| anchorPath := anchorPath' |>)
      else
        Some (state <| searchMatches := [] |> <| activeMatch := -1 |>
                    <| anchorPath := anchorPath' |>)
  | None =>
      Some (state <| searchMatches := [] |> <| activeMatch := -1 |>
                  <| anchorPath := anchorPath' |>)
  end.

(** *** Document operations *)

Definition finalizeDocumentChange (fuel : nat) (state : EditorState)
    (doc' : DocumentState) (focusId : option string) : option EditorState :=
  value ← documentToJson fuel doc';
  let formatted := formatJson value (indent state) in
  nextAnchorPath ← resolveAnchorPath fuel doc' (anchorPath state);
  base ← applySearch fuel
           (state <| doc := Some doc' |> <| rawText := formatted |>
                  <| lastValidText := formatted |> <| parseError := None |>
                  <| selectedId := match focusId with
                                   | Some f => Some f
                                   | None => selectedId state
                                   end |>
                  <| preSearchExpanded := preSearchExpanded state |>
                  <| anchorPath := nextAnchorPath |>)
           (Some doc') (Some nextAnchorPath);
  Some (withHistory state base true).

Definition errorNotice (text : string) : option Notice :=
  Some (mkNotice NError text).

(** The default node of each type. *)
Definition newNodeOf (newType : NodeType) (childId : string) : JsonNode :=
  match newType with
  | TObject => ObjectNode childId []
  | TArray => ArrayNode childId []
  | TString => StringNode childId ""
  | TNumber => NumberNode childId JsNum.zero
  | TBoolean => BooleanNode childId false
  | TNull => NullNode childId
  end.

(** [parent] is the node object read before [doc.nodes[childId]] is
    assigned: a later [push] on it reaches the map only while the object
    is still stored under [parentId]. *)
Definition storeParent (nodes' : gmap string JsonNode) (parentId childId : string)
    (parent' : JsonNode) : gmap string JsonNode :=
  if decide (childId = parentId) then nodes' else <[parentId := parent']> nodes'.

Definition addNodeToDocument (fuel : nat) (state : EditorState) (parentId : string)
    (parentType : ParentType) (key' : option string) (newType : NodeType)
    (next : nat) : option (EditorState * nat) :=
  match doc state with
  | None => Some (state, next)
  | Some doc' =>
      match nodes doc' !! parentId with
      | None => Some (state, next)
      | Some parent =>
          let rejected :=
            match parentType, parent with
            | PObject, ObjectNode _ entries =>
                match key' with
                | Some k =>
                    if JsString.truthy k && JsString.truthy (JsString.trim k) then
                      match js_find (fun entry => String.eqb (key entry) (JsString.trim k))
                                    entries with
                      | Some _ =>
                          Some (state <| notice :=
                                  errorNotice "Duplicate key inside this object." |>)
                      | None => None
                      end
                    else Some (state <| notice :=
                                 errorNotice "Key is required for object properties." |>)
                | None => Some (state <| notice :=
                                  errorNotice "Key is required for object properties." |>)
                end
            | PObject, _ => Some state
            | PArray, _ => None
            end in
          match rejected with
          | Some state' => Some (state', next)
          | None =>
              let '(childId', next) := createId next in
              let newNode := newNodeOf newType childId' in
              let nodes1 := <[childId' := newNode]> (nodes doc') in
              match parentType, parent with
              | PObject, ObjectNode pid entries =>
                  let pushed :=
                    ObjectNode pid
                      (entries ++ [mkEntry (JsString.trim (nullish key' "")) childId']) in
                  s ← finalizeDocumentChange fuel state
                        (mkDoc (rootId doc') (storeParent nodes1 parentId childId' pushed))
                        (Some childId');
                  Some (s, next)
              | PArray, ArrayNode pid items =>
                  let pushed := ArrayNode pid (items ++ [childId']) in
                  s ← finalizeDocumentChange fuel state
                        (mkDoc (rootId doc') (storeParent nodes1 parentId childId' pushed))
                        (Some childId');
                  Some (s, next)
              | _, _ => Some (state, next)
              end
          end
      end
  end.

(** The inner function [removeSubtree] of [deleteNode]. *)
Fixpoint removeSubtree (fuel : nat) (nodes' : gmap string JsonNode) (id : string)
  : option (gmap string JsonNode) :=
  match fuel with
  | O => None
  | S fuel =>
      match nodes' !! id with
      | None => Some nodes'
      | Some node =>
          nodes' ← forEachM (fun m c => removeSubtree fuel m c)
                            nodes' (children node);
          Some (delete id nodes')
      end
  end.

(** [parent.entries = parent.entries.filter(...)] and the same for
    [items]. *)
Definition withoutChild (parent : JsonNode) (childId' : string) : JsonNode :=
  match parent with
  | ObjectNode pid entries =>
      ObjectNode pid (filter (fun entry => childId entry ≠ childId') entries)
  | ArrayNode pid items => ArrayNode pid (filter (fun i => i ≠ childId') items)
  | _ => parent
  end.

(** [deleteNode].  The guard [!parent] lets an absent [parentId] that
    names an inherited property through (the subtree of the child is then
    removed all the same); the embedding follows the program for every
    other [parentId]. *)
Definition deleteNode (fuel : nat) (state : EditorState) (parentId childId' : string)
  : option EditorState :=
  match doc state with
  | None => Some state
  | Some doc' =>
      match nodes doc' !! parentId with
      | None => Some state
      | Some parent =>
          nodes1 ← removeSubtree fuel (nodes doc') childId';
          (* the assignment to [parent.entries] is seen through the map
             only if the parent object is still stored in it *)
          let nodes2 :=
            match nodes1 !! parentId with
            | Some _ => <[parentId := withoutChild parent childId']> nodes1
            | None => nodes1
            end in
          finalizeDocumentChange fuel state (mkDoc (rootId doc') nodes2) (Some parentId)
      end
  end.

Definition moveArrayItem (fuel : nat) (state : EditorState) (parentId childId' : string)
    (direction : Direction) : option EditorState :=
  match doc state with
  | None => Some state
  | Some doc' =>
      match nodes doc' !! parentId with
      | Some (ArrayNode pid items) =>
          let index := indexOf items childId' in
          if index =? -1 then Some state
          else
            let target := index + directionValue direction in
            if (target <? 0) || (Z.of_nat (length items) <=? target) then Some state
            else
              let removed := take (Z.to_nat index) items ++ drop (S (Z.to_nat index)) items in
              let items' :=
                take (Z.to_nat target) removed ++ [childId']
                ++ drop (Z.to_nat target) removed in
              finalizeDocumentChange fuel state
                (mkDoc (rootId doc') (<[parentId := ArrayNode pid items']> (nodes doc')))
                (Some childId')
      | _ => Some state
      end
  end.

(** [target.key = trimmed] on the first entry that points at the child. *)
Fixpoint renameFirst (entries : list ObjectEntry) (childId' trimmed : string)
  : list ObjectEntry :=
  match entries with
  | [] => []
  | entry :: rest =>
      if String.eqb (childId entry) childId'
      then mkEntry trimmed (childId entry) :: rest
      else entry :: renameFirst rest childId' trimmed
  end.

Definition renameKey (fuel : nat) (state : EditorState)
    (parentId childId' newKey : string) : option EditorState :=
  match doc state with
  | None => Some state
  | Some doc' =>
      let trimmed := JsString.trim newKey in
      if negb (JsString.truthy trimmed) then
        Some (state <| notice := errorNotice "Key cannot be empty." |>)
      else
        match nodes doc' !! parentId with
        | Some (ObjectNode pid entries) =>
            match js_find (fun entry => String.eqb (key entry) trimmed
                                        && negb (String.eqb (childId entry) childId'))
                          entries with
            | Some _ =>
                Some (state <| notice :=
                        errorNotice "Keys must be unique within the object." |>)
            | None =>
                match js_find (fun entry => String.eqb (childId entry) childId') entries with
                | None => Some state
                | Some _ =>
                    finalizeDocumentChange fuel state
                      (mkDoc (rootId doc')
                             (<[parentId := ObjectNode pid
                                              (renameFirst entries childId' trimmed)]>
                                (nodes doc')))
                      (Some childId')
                end
            end
        | _ => Some state
        end
  end.

(** [String(value ?? '')] *)
Definition primToString (value : PrimValue) : string :=
  match value with
  | PString s => s
  | PNumber n => Number_toString n
  | PBoolean b => if b then "true" else "false"
  | PNull => ""
  end.

(** [Boolean(value)] *)
Definition primToBoolean (value : PrimValue) : bool :=
  match value with
  | PString s => JsString.truthy s
  | PNumber n => JsNum.toBoolean n
  | PBoolean b => b
  | PNull => false
  end.

(** [editPrimitive].  The guard [!node] lets an absent [nodeId] that
    names an inherited property through (a node is then stored under that
    name); the embedding follows the program for every other [nodeId]. *)
Definition editPrimitive (fuel : nat) (state : EditorState) (nodeId : string)
    (value : PrimValue) (newType : option NodeType) : option EditorState :=
  match doc state with
  | None => Some state
  | Some doc' =>
      match nodes doc' !! nodeId with
      | None | Some (ObjectNode _ _) | Some (ArrayNode _ _) => Some state
      | Some node =>
          let type := nullish newType (node_type node) in
          let nextNode : JsonNode + EditorState :=
            match type with
            | TString => inl (StringNode nodeId (primToString value))
            | TNumber =>
                match value with
                | PNumber n =>
                    if JsNum.isNaN n
                    then inr (state <| notice :=
                                errorNotice "Numbers must be valid JSON numbers." |>)
                    else inl (NumberNode nodeId n)
                | _ => inr (state <| notice :=
                              errorNotice "Numbers must be valid JSON numbers." |>)
                end
            | TBoolean => inl (BooleanNode nodeId (primToBoolean value))
            | TNull => inl (NullNode nodeId)
            | TObject | TArray => inl node
            end in
          match nextNode with
          | inr rejected => Some rejected
          | inl nextNode =>
              finalizeDocumentChange fuel state
                (mkDoc (rootId doc') (<[nodeId := nextNode]> (nodes doc')))
                (Some nodeId)
          end
      end
  end.

(** The inner function [sortObject] of [sortKeys]; the node map is the
    mutable store it sorts in place. *)
Fixpoint sortObject (fuel : nat) (nodes' : gmap string JsonNode) (nodeId : string)
  : option (gmap string JsonNode) :=
  match fuel with
  | O => None
  | S fuel =>
      match nodes' !! nodeId with
      | None => Some nodes'
      | Some (ObjectNode i entries) =>
          let sorted :=
            Array_sort (fun a b => localeCompare (key a) (key b)) entries in
          forEachM (fun m entry => sortObject fuel m (childId entry))
                   (<[nodeId := ObjectNode i sorted]> nodes') sorted
      | Some (ArrayNode _ items) =>
          forEachM (fun m item => sortObject fuel m item) nodes' items
      | Some _ => Some nodes'
      end
  end.

Definition sortKeys (fuel : nat) (state : EditorState) (scope : SortScope)
  : option EditorState :=
  match doc state with
  | None => Some state
  | Some doc' =>
      nodes' ←
        match scope with
        | ScopeAll => sortObject fuel (nodes doc') (rootId doc')
        | ScopeSelected =>
            match selectedId state with
            | Some sel =>
                if JsString.truthy sel then sortObject fuel (nodes doc') sel
                else Some (nodes doc')
            | None => Some (nodes doc')
            end
        end;
      finalizeDocumentChange fuel state (mkDoc (rootId doc') nodes') (selectedId state)
  end.

Definition applyParse (fuel : nat) (state : EditorState) (text : string) (next : nat)
  : option (EditorState * nat) :=
  match parseJson text with
  | inr error => Some (state <| parseError := Some error |>, next)
  | inl value =>
      let '(doc', next) := buildDocumentFromValue value next in
      let formatted := formatJson value (indent state) in
      let base :=
        state <| doc := Some doc' |> <| parseError := None |>
              <| rawText := formatted |> <| lastValidText := formatted |>
              <| expanded := JsSet.ofArray [rootId doc'] |>
              <| selectedId := Some (rootId doc') |>
              <| anchorPath := [rootId doc'] |>
              <| preSearchExpanded :=
                   if JsString.truthy (JsString.trim (searchQuery state))
                   then Some (JsSet.ofArray [rootId doc']) else None |> in
      withSearch ← applySearch fuel base (Some doc') (Some [rootId doc']);
      Some (withHistory state withSearch true, next)
  end.

(** *** The initial state *)

Definition DEFAULT_JSON : JsValue :=
  JObject
    [("profile",
      JObject [("name", JString "Avery Analyst"); ("team", JString "Product");
               ("active", JBool true)]);
     ("features", JArray [JString "search"; JString "edit"; JString "undo"]);
     ("stats",
      JObject [("saves", JNumber (S754_finite false 12 0));
               ("snippets", JNumber (S754_finite false 3 0));
               ("lastEdited", JString "today")])].

Definition SAMPLE_TEXT : string :=
  JSON_stringify DEFAULT_JSON (S754_finite false 2 0).

(** [buildInitialState()] when the local storage holds none of the
    editor's keys: [loadAutoSaveEnabled] answers [true] and
    [loadStoredState] answers [null]. *)
Definition buildInitialState (next : nat) : EditorState * nat :=
  let '(doc', next) := buildDocumentFromValue DEFAULT_JSON next in
  ({| rawText := SAMPLE_TEXT;
      lastValidText := SAMPLE_TEXT;
      doc := Some doc';
      parseError := None;
      expanded := JsSet.ofArray [rootId doc'];
      selectedId := Some (rootId doc');
      searchQuery := "";
      searchMatches := [];
      activeMatch := -1;
      searchFilterOnly := false;
      outputMode := Pretty;
      indent := S754_finite false 2 0;
      undoStack := [];
      redoStack := [];
      autoParse := false;
      autoSaveEnabled := true;
      snippets := [];
      snippetContents := ∅;
      notice := None;
      preSearchExpanded := None;
      anchorPath := [rootId doc'] |}, next).

(** *** The reducer *)

Definition editorReducer (fuel : nat) (state : EditorState) (action : Action)
    (next : nat) : option (EditorState * nat) :=
  let pure (s : option EditorState) := s ← s; Some (s, next) in
  match action with
  | SET_RAW_TEXT text =>
      let next' := state <| rawText := text |> <| parseError := None |> in
      if autoParse state then applyParse fuel next' text next else Some (next', next)
  | PARSE_TEXT => applyParse fuel state (rawText state) next
  | LOAD_TEXT text => applyParse fuel state text next
  | EDIT_PRIMITIVE nodeId value newType =>
      pure (editPrimitive fuel state nodeId value newType)
  | RENAME_KEY parentId childId' newKey =>
      pure (renameKey fuel state parentId childId' newKey)
  | ADD_NODE parentId parentType key' newType =>
      addNodeToDocument fuel state parentId parentType key' newType next
  | DELETE_NODE parentId childId' => pure (deleteNode fuel state parentId childId')
  | SET_SELECTED nodeId => pure (Some (state <| selectedId := nodeId |>))
  | TOGGLE_EXPANDED nodeId =>
      let expanded' :=
        if JsSet.has (expanded state) nodeId
        then JsSet.delete (expanded state) nodeId
        else JsSet.add (expanded state) nodeId in
      pure (Some (state <| expanded := expanded' |>))
  | EXPAND_ALL =>
      match doc state with
      | None => pure (Some state)
      | Some doc' =>
          let anchorRoot := nullish (lastOf (anchorPath state)) (rootId doc') in
          pure (expanded' ← collectSubtreeIds fuel doc' anchorRoot [];
                Some (state <| expanded := JsSet.addAll expanded' (anchorPath state) |>))
      end
  | COLLAPSE_ALL =>
      match doc state with
      | Some doc' =>
          pure (Some (state <| expanded :=
                        JsSet.ofArray (if decide (anchorPath state = [])
                                       then [rootId doc'] else anchorPath state) |>))
      | None => pure (Some state)
      end
  | SET_SEARCH_QUERY query =>
      let trimmed := query in
      let enteringSearch :=
        negb (JsString.truthy (JsString.trim (searchQuery state)))
        && JsString.truthy (JsString.trim trimmed) in
      let clearingSearch :=
        JsString.truthy (JsString.trim (searchQuery state))
        && negb (JsString.truthy (JsString.trim trimmed)) in
      let preSearchExpanded1 :=
        if enteringSearch then Some (expanded state) else preSearchExpanded state in
      let '(expanded', preSearchExpanded2) :=
        match clearingSearch, preSearchExpanded state with
        | true, Some saved => (saved, None)
        | _, _ => (expanded state, preSearchExpanded1)
        end in
      pure (applySearch fuel
              (state <| searchQuery := trimmed |> <| expanded := expanded' |>
                     <| preSearchExpanded := preSearchExpanded2 |>)
              None None)
  | TOGGLE_FILTER_MODE enabled =>
      pure (applySearch fuel (state <| searchFilterOnly := enabled |>) None None)
  | MOVE_MATCH direction =>
      match searchMatches state with
      | [] => pure (Some state)
      | _ =>
          let len := Z.of_nat (length (searchMatches state)) in
          let nextIndex :=
            Z.rem (activeMatch state + directionValue direction + len) len in
          pure (expanded' ←
                  match doc state with
                  | Some doc' =>
                      expandAncestors fuel (js_index (searchMatches state) nextIndex)
                        (buildParentMap doc') (expanded state)
                  | None => Some (expanded state)
                  end;
                Some (state <| activeMatch := nextIndex |>
                            <| expanded := JsSet.addAll expanded' (anchorPath state) |>
                            <| selectedId := js_index (searchMatches state) nextIndex |>))
      end
  | SET_OUTPUT_MODE mode => pure (Some (state <| outputMode := mode |>))
  | SET_INDENT indent' =>
      match doc state with
      | None => pure (Some (state <| indent := indent' |>))
      | Some doc' =>
          pure (value ← documentToJson fuel doc';
                let formatted := formatJson value indent' in
                Some (state <| indent := indent' |> <| rawText := formatted |>
                            <| lastValidText := formatted |>))
      end
  | SORT_KEYS scope => pure (sortKeys fuel state scope)
  | MOVE_ARRAY_ITEM parentId childId' direction =>
      pure (moveArrayItem fuel state parentId childId' direction)
  | UNDO =>
      match undoStack state with
      | [] => pure (Some state)
      | previous :: remaining =>
          let redo := snapshotState state in
          let restored :=
            state <| doc := h_doc previous |> <| rawText := h_rawText previous |>
                  <| expanded := JsSet.ofArray (h_expanded previous) |>
                  <| selectedId := h_selectedId previous |>
                  <| anchorPath := h_anchorPath previous |>
                  <| undoStack := remaining |>
                  <| redoStack := take 50 (redo :: redoStack state) |>
                  <| parseError := None |>
                  <| preSearchExpanded :=
                       JsSet.ofArray <$> h_preSearchExpanded previous |> in
          pure (applySearch fuel restored (doc restored) (Some (anchorPath restored)))
      end
  | REDO =>
      match redoStack state with
      | [] => pure (Some state)
      | nextEntry :: remaining =>
          let undo := snapshotState state in
          let restored :=
            state <| doc := h_doc nextEntry |> <| rawText := h_rawText nextEntry |>
                  <| expanded := JsSet.ofArray (h_expanded nextEntry) |>
                  <| selectedId := h_selectedId nextEntry |>
                  <| anchorPath := h_anchorPath nextEntry |>
                  <| redoStack := remaining |>
                  <| undoStack := take 50 (undo :: undoStack state) |>
                  <| parseError := None |>
                  <| preSearchExpanded :=
                       JsSet.ofArray <$> h_preSearchExpanded nextEntry |> in
          pure (applySearch fuel restored (doc restored) (Some (anchorPath restored)))
      end
  | SET_AUTOPARSE enabled => pure (Some (state <| autoParse := enabled |>))
  | SET_AUTOSAVE enabled => pure (Some (state <| autoSaveEnabled := enabled |>))
  | SAVE_SNIPPET name now =>
      match doc state with
      | None => pure (Some (state <| notice := errorNotice "Load or parse JSON first." |>))
      | Some _ =>
          let '(id, next) := createId next in
          let snippet :=
            mkSnippet id (if JsString.truthy name then name else "Untitled snippet")
                      now in
          Some (state <| snippets := snippet :: snippets state |>
                      <| snippetContents := <[id := rawText state]> (snippetContents state) |>
                      <| notice := Some (mkNotice NSuccess "Snippet saved locally.") |>,
                next)
      end
  | LOAD_SNIPPET id =>
      match snippetContents state !! id with
      | Some text =>
          if JsString.truthy text then applyParse fuel state text next
          else pure (Some state)
      | None => pure (Some state)
      end
  | RENAME_SNIPPET id name now =>
      pure (Some (state <| snippets :=
                    map (fun s => if String.eqb (snippetId s) id
                                  then mkSnippet (snippetId s) name now else s)
                        (snippets state) |>))
  | DELETE_SNIPPET id =>
      pure (Some (state <| snippets :=
                    List.filter (fun s => negb (String.eqb (snippetId s) id))
                                (snippets state) |>
                        <| snippetContents := delete id (snippetContents state) |>))
  | OVERWRITE_SNIPPET id now =>
      match doc state with
      | None => pure (Some (state <| notice := errorNotice "Load or parse JSON first." |>))
      | Some _ =>
          match js_find (fun s => String.eqb (snippetId s) id) (snippets state) with
          | None => pure (Some state)
          | Some _ =>
              pure (Some (state <| snippetContents :=
                            <[id := rawText state]> (snippetContents state) |>
                                <| snippets :=
                            map (fun s => if String.eqb (snippetId s) id
                                          then mkSnippet (snippetId s) (snippetName s) now
                                          else s)
                                (snippets state) |>
                                <| notice := Some (mkNotice NSuccess "Snippet updated.") |>))
          end
      end
  | CLEAR_LOCAL => Some (buildInitialState next)
  | SET_NOTICE notice' => pure (Some (state <| notice := notice' |>))
  | ANCHOR_TO nodeId =>
      match doc state with
      | None => pure (Some state)
      | Some doc' =>
          let targetId := nullish nodeId (rootId doc') in
          pure (path ← buildAnchorPath fuel doc' targetId;
                match lastOf path with
                | None => Some state
                | Some focus =>
                    let expanded' := JsSet.addAll (expanded state) path in
                    subtree ← collectSubtreeIds fuel doc' focus [];
                    let selectedId' :=
                      if JsSet.has subtree (nullish (selectedId state) "")
                      then selectedId state else Some focus in
                    applySearch fuel
                      (state <| anchorPath := path |> <| expanded := expanded' |>
                             <| selectedId := selectedId' |>)
                      (Some doc') (Some path)
                end)
      end
  end.

End Engine.

(** ** A small platform to run the engine on examples

    Serialisation is compact and escapes nothing, numbers print as
    integers, comparison is by code unit, and the parser knows a few
    texts. *)

Module Demo.

Definition dq : string := String "034"%char EmptyString.

Definition numberToString (n : JsNumber) : string :=
  match n with
  | S754_zero _ => "0"
  | S754_nan => "NaN"
  | S754_infinity false => "Infinity"
  | S754_infinity true => "-Infinity"
  | S754_finite s m _ => (if s then "-" else "") +:+ pretty (Zpos m)
  end.

Fixpoint join (sep : string) (l : list string) : string :=
  match l with
  | [] => ""
  | [x] => x
  | x :: rest => x +:+ sep +:+ join sep rest
  end.

Fixpoint stringify (v : JsValue) : string :=
  match v with
  | JNull => "null"
  | JBool b => if b then "true" else "false"
  | JNumber n => if JsNum.isFinite n then numberToString n else "null"
  | JString s => dq +:+ s +:+ dq
  | JArray items => "[" +:+ join "," (map stringify items) +:+ "]"
  | JObject props =>
      "{" +:+ join "," (map (fun p => dq +:+ fst p +:+ dq +:+ ":" +:+ stringify (snd p))
                            props) +:+ "}"
  end.

Definition sampleValue : JsValue :=
  JObject [("a", JNumber JsNum.one); ("b", JArray [JBool true; JNull])].

Definition parse (text : string) : ParseOutcome :=
  if String.eqb text "[1]" then Parsed (JArray [JNumber JsNum.one])
  else if String.eqb text "[true,null]" then Parsed (JArray [JBool true; JNull])
  else if String.eqb text "sample" then Parsed sampleValue
  else SyntaxError "Unexpected token } in JSON at position 4".

Definition compareStrings (a b : string) : Z :=
  match String.compare a b with Lt => -1 | Eq => 0 | Gt => 1 end.

#[export] Instance platform : Platform := {|
  JSON_parse := parse;
  JSON_stringify v _ := stringify v;
  Number_toString := numberToString;
  localeCompare := compareStrings
|}.

(** The state of a fresh session before any document is loaded. *)
Definition emptyState : EditorState := {|
  rawText := ""; lastValidText := ""; doc := None; parseError := None;
  expanded := []; selectedId := None; searchQuery := ""; searchMatches := [];
  activeMatch := -1; searchFilterOnly := false; outputMode := Pretty;
  indent := S754_finite false 2 0; undoStack := []; redoStack := [];
  autoParse := false; autoSaveEnabled := true; snippets := [];
  snippetContents := ∅; notice := None; preSearchExpanded := None;
  anchorPath := [] |}.

(** The state after loading [sampleValue] into a fresh session. *)
Definition sampleState : EditorState :=
  Eval vm_compute in
    match applyParse 10 emptyState "sample" 0 with
    | Some (s, _) => s
    | None => emptyState
    end.

(** The sample session after renaming the key [a] to [first]. *)
Definition renamedState : EditorState :=
  Eval vm_compute in
    match editorReducer 10 sampleState (RENAME_KEY "id-0" "id-1" "first") 5 with
    | Some (s, _) => s
    | None => sampleState
    end.

(** The sample session after one [UNDO]. *)
Definition undoneState : EditorState :=
  Eval vm_compute in
    match editorReducer 10 sampleState UNDO 5 with
    | Some (s, _) => s
    | None => sampleState
    end.

End Demo.

(** ** Invariants of documents and states *)

(** No cycles: child references strictly decrease a rank below [B]. *)
Definition acyclic (B : nat) (m : gmap string JsonNode) : Prop :=
  ∃ rank : string -> nat,
    ∀ k n, m !! k = Some n ->
      (rank k < B)%nat ∧ ∀ c, c ∈ children n -> (rank c < rank k)%nat.

(** Child references decrease the rank. *)
Definition ranked (rank : string -> nat) (m : gmap string JsonNode) : Prop :=
  ∀ k n, m !! k = Some n -> ∀ c, c ∈ children n -> (rank c < rank k)%nat.

(** Every node is stored under its own identifier. *)
Definition ids_consistent (m : gmap string JsonNode) : Prop :=
  ∀ k n, m !! k = Some n -> node_id n = k.

(** The identifiers not yet drawn are unused. *)
Definition ids_fresh (next : nat) (m : gmap string JsonNode) : Prop :=
  ∀ j, (next <= j)%nat -> m !! mkId j = None.

(** The text a parse command submits to the parser. *)
Definition parseCommandText (state : EditorState) (action : Action) : option string :=
  match action with
  | PARSE_TEXT => Some (rawText state)
  | LOAD_TEXT text => Some text
  | _ => None
  end.

(** Documents used as concrete inputs. *)
Definition cyclicDoc : DocumentState :=
  mkDoc "a" {[ "a" := ArrayNode "a" ["a"] ]}.

Definition protoValue : JsValue := JObject [("__proto__", JNumber JsNum.one)].


(** What [buildNode] does to the node map between two values of the
    counter: it leaves every other key alone and stores, for each
    identifier drawn, a node under that identifier whose children were
    drawn later. *)
Definition built (m m' : gmap string JsonNode) (next next' : nat) : Prop :=
  (next <= next')%nat
  ∧ (∀ k, (∀ j, (next <= j < next')%nat -> k ≠ mkId j) -> m' !! k = m !! k)
  ∧ (∀ j, (next <= j < next')%nat ->
       ∃ n, m' !! mkId j = Some n ∧ node_id n = mkId j
            ∧ ∀ c, c ∈ children n -> ∃ j', (j < j' < next')%nat ∧ c = mkId j').

(** The position in the drawing order of an identifier drawn before
    [bound] ([bound] itself for any other string). *)
Definition idIndex (bound : nat) (k : string) : nat :=
  match list_find (fun j => mkId j = k) (seq 0 bound) with
  | Some (_, j) => j
  | None => bound
  end.

(** [m'] holds no node that [m] does not hold, and a node of [m'] keeps
    the identifier of the node of [m] under the same key and refers to no
    child that node did not refer to. *)
Definition refines (m m' : gmap string JsonNode) : Prop :=
  ∀ k n', m' !! k = Some n' ->
    ∃ n, m !! k = Some n ∧ node_id n' = node_id n ∧ children n' ⊆ children n.

(** A document the engine can traverse: no cycle, nodes stored under
    their identifiers, no identifier in use that is still to be drawn. *)
Definition doc_ok (B next : nat) (d : DocumentState) : Prop :=
  acyclic B (nodes d) ∧ ids_consistent (nodes d) ∧ ids_fresh next (nodes d).

Definition entry_ok (B next : nat) (h : HistoryEntry) : Prop :=
  ∀ d, h_doc h = Some d -> doc_ok B next d.

(** The state invariant: the current document and every document kept in
    the history can be traversed. *)
Definition state_ok (B next : nat) (s : EditorState) : Prop :=
  (∀ d, doc s = Some d -> doc_ok B next d)
  ∧ Forall (entry_ok B next) (undoStack s)
  ∧ Forall (entry_ok B next) (redoStack s).

(** The state without what [applySearch] recomputes. *)
Definition searchView (s : EditorState) : EditorState :=
  s <| searchMatches := [] |> <| activeMatch := -1 |> <| expanded := [] |>
    <| anchorPath := [] |>.

(** The state a document change leads to, up to what [applySearch]
    recomputes. *)
Definition changedState `{Platform} (state : EditorState) (doc' : DocumentState)
    (value : JsValue) (focusId : option string) : EditorState :=
  state <| doc := Some doc' |>
        <| rawText := formatJson value (indent state) |>
        <| lastValidText := formatJson value (indent state) |>
        <| parseError := None |>
        <| selectedId := match focusId with
                         | Some f => Some f
                         | None => selectedId state
                         end |>
        <| undoStack := take 50 (snapshotState state :: undoStack state) |>
        <| redoStack := [] |>.

(** ** Accepted mutations

    The commands that change the document, and the guards under which the
    engine applies them.  Everything else the reducer answers with the
    state it was given, possibly with a notice or a parse error. *)

Definition isMutation (action : Action) : bool :=
  match action with
  | PARSE_TEXT | LOAD_TEXT _ | LOAD_SNIPPET _ | EDIT_PRIMITIVE _ _ _
  | RENAME_KEY _ _ _ | ADD_NODE _ _ _ _ | DELETE_NODE _ _
  | MOVE_ARRAY_ITEM _ _ _ | SORT_KEYS _ => true
  | _ => false
  end.

Definition parses `{Platform} (text : string) : bool :=
  match JSON_parse text with Parsed _ => true | SyntaxError _ => false end.

Definition isScalar (node : JsonNode) : bool :=
  match node with ObjectNode _ _ | ArrayNode _ _ => false | _ => true end.

Definition acceptsEdit (node : JsonNode) (value : PrimValue)
    (newType : option NodeType) : bool :=
  isScalar node
  && match nullish newType (node_type node), value with
     | TNumber, PNumber n => negb (JsNum.isNaN n)
     | TNumber, _ => false
     | _, _ => true
     end.

Definition keyTaken (entries : list ObjectEntry) (k : string) : bool :=
  existsb (fun entry => String.eqb (key entry) k) entries.

Definition keyTakenByOther (entries : list ObjectEntry) (k childId' : string) : bool :=
  existsb (fun entry => String.eqb (key entry) k
                        && negb (String.eqb (childId entry) childId')) entries.

Definition hasChild (entries : list ObjectEntry) (childId' : string) : bool :=
  existsb (fun entry => String.eqb (childId entry) childId') entries.

Definition acceptsAdd (parent : JsonNode) (parentType : ParentType)
    (key' : option string) : bool :=
  match parentType, parent with
  | PObject, ObjectNode _ entries =>
      match key' with
      | Some k => JsString.truthy k && JsString.truthy (JsString.trim k)
                  && negb (keyTaken entries (JsString.trim k))
      | None => false
      end
  | PArray, ArrayNode _ _ => true
  | _, _ => false
  end.

Definition acceptsMove (parent : JsonNode) (childId' : string) (direction : Direction)
  : bool :=
  match parent with
  | ArrayNode _ items =>
      let index := indexOf items childId' in
      negb (index =? -1)
      && negb ((index + directionValue direction <? 0)
               || (Z.of_nat (length items) <=? index + directionValue direction))
  | _ => false
  end.

Definition accepts `{Platform} (state : EditorState) (action : Action) : bool :=
  match action with
  | PARSE_TEXT => parses (rawText state)
  | LOAD_TEXT text => parses text
  | LOAD_SNIPPET id =>
      match snippetContents state !! id with
      | Some text => JsString.truthy text && parses text
      | None => false
      end
  | EDIT_PRIMITIVE nodeId value newType =>
      match d ← doc state; nodes d !! nodeId with
      | Some node => acceptsEdit node value newType
      | None => false
      end
  | RENAME_KEY parentId childId' newKey =>
      match d ← doc state; nodes d !! parentId with
      | Some (ObjectNode _ entries) =>
          JsString.truthy (JsString.trim newKey)
          && negb (keyTakenByOther entries (JsString.trim newKey) childId')
          && hasChild entries childId'
      | _ => false
      end
  | ADD_NODE parentId parentType key' _ =>
      match d ← doc state; nodes d !! parentId with
      | Some parent => acceptsAdd parent parentType key'
      | None => false
      end
  | DELETE_NODE parentId _ =>
      match d ← doc state; nodes d !! parentId with
      | Some _ => true
      | None => false
      end
  | MOVE_ARRAY_ITEM parentId childId' direction =>
      match d ← doc state; nodes d !! parentId with
      | Some parent => acceptsMove parent childId' direction
      | None => false
      end
  | SORT_KEYS _ => match doc state with Some _ => true | None => false end
  | _ => false
  end.

(** The history after an accepted mutation of [state]. *)
Definition pushed `{Platform} (state state' : EditorState) : Prop :=
  undoStack state' = take 50 (snapshotState state :: undoStack state)
  ∧ redoStack state' = [].

(** What a rejected command leaves as it was. *)
Definition untouched (state state' : EditorState) : Prop :=
  doc state' = doc state
  ∧ rawText state' = rawText state
  ∧ lastValidText state' = lastValidText state
  ∧ undoStack state' = undoStack state
  ∧ redoStack state' = redoStack state.

(** *** The documents accepted mutations lead to *)

Definition editedNode `{Platform} (nodeId : string) (node : JsonNode) (value : PrimValue)
    (newType : option NodeType) : JsonNode :=
  match nullish newType (node_type node) with
  | TString => StringNode nodeId (primToString value)
  | TNumber => match value with PNumber n => NumberNode nodeId n | _ => node end
  | TBoolean => BooleanNode nodeId (primToBoolean value)
  | TNull => NullNode nodeId
  | TObject | TArray => node
  end.

Definition editedDoc `{Platform} (d : DocumentState) (nodeId : string) (node : JsonNode)
    (value : PrimValue) (newType : option NodeType) : DocumentState :=
  mkDoc (rootId d) (<[nodeId := editedNode nodeId node value newType]> (nodes d)).

Definition renamedDoc (d : DocumentState) (parentId childId' newKey : string)
    (pid : string) (entries : list ObjectEntry) : DocumentState :=
  mkDoc (rootId d)
        (<[parentId := ObjectNode pid
                         (renameFirst entries childId' (JsString.trim newKey))]>
           (nodes d)).

Definition withChild (parent : JsonNode) (key' : option string) (childId' : string)
  : JsonNode :=
  match parent with
  | ObjectNode pid entries =>
      ObjectNode pid (entries ++ [mkEntry (JsString.trim (nullish key' "")) childId'])
  | ArrayNode pid items => ArrayNode pid (items ++ [childId'])
  | _ => parent
  end.

Definition addedDoc (d : DocumentState) (parentId : string) (parent : JsonNode)
    (key' : option string) (newType : NodeType) (next : nat) : DocumentState :=
  mkDoc (rootId d)
        (storeParent (<[mkId next := newNodeOf newType (mkId next)]> (nodes d))
                     parentId (mkId next) (withChild parent key' (mkId next))).

Definition deletedDoc (d : DocumentState) (parentId childId' : string)
    (parent : JsonNode) (nodes1 : gmap string JsonNode) : DocumentState :=
  mkDoc (rootId d)
        (match nodes1 !! parentId with
         | Some _ => <[parentId := withoutChild parent childId']> nodes1
         | None => nodes1
         end).

Definition movedItems (items : list string) (childId' : string) (direction : Direction)
  : list string :=
  let index := indexOf items childId' in
  let target := index + directionValue direction in
  let removed := take (Z.to_nat index) items ++ drop (S (Z.to_nat index)) items in
  take (Z.to_nat target) removed ++ [childId'] ++ drop (Z.to_nat target) removed.

Definition movedDoc (d : DocumentState) (parentId childId' : string)
    (direction : Direction) (pid : string) (items : list string) : DocumentState :=
  mkDoc (rootId d)
        (<[parentId := ArrayNode pid (movedItems items childId' direction)]> (nodes d)).

(** The node a sort-keys command starts from. *)
Definition sortStart (state : EditorState) (d : DocumentState) (scope : SortScope)
  : option string :=
  match scope with
  | ScopeAll => Some (rootId d)
  | ScopeSelected =>
      match selectedId state with
      | Some sel => if JsString.truthy sel then Some sel else None
      | None => None
      end
  end.

(** *** History replay *)

(** The record the [UNDO] case hands to [applySearch]. *)
Definition undoTarget (state : EditorState) (previous : HistoryEntry)
    (remaining : list HistoryEntry) : EditorState :=
  state <| doc := h_doc previous |> <| rawText := h_rawText previous |>
        <| expanded := JsSet.ofArray (h_expanded previous) |>
        <| selectedId := h_selectedId previous |>
        <| anchorPath := h_anchorPath previous |>
        <| undoStack := remaining |>
        <| redoStack := take 50 (snapshotState state :: redoStack state) |>
        <| parseError := None |>
        <| preSearchExpanded := JsSet.ofArray <$> h_preSearchExpanded previous |>.

(** The record the [REDO] case hands to [applySearch]. *)
Definition redoTarget (state : EditorState) (nextEntry : HistoryEntry)
    (remaining : list HistoryEntry) : EditorState :=
  state <| doc := h_doc nextEntry |> <| rawText := h_rawText nextEntry |>
        <| expanded := JsSet.ofArray (h_expanded nextEntry) |>
        <| selectedId := h_selectedId nextEntry |>
        <| anchorPath := h_anchorPath nextEntry |>
        <| redoStack := remaining |>
        <| undoStack := take 50 (snapshotState state :: undoStack state) |>
        <| parseError := None |>
        <| preSearchExpanded := JsSet.ofArray <$> h_preSearchExpanded nextEntry |>.

(** A sequence of commands dispatched one after the other. *)
Fixpoint runActions `{Platform} (fuel : nat) (state : EditorState) (next : nat)
    (actions : list Action) {struct actions} : option (EditorState * nat) :=
  match actions with
  | [] => Some (state, next)
  | action :: rest =>
      match editorReducer fuel state action next with
      | Some (state', next') => runActions fuel state' next' rest
      | None => None
      end
  end.
(** ** Further definitions *)

(** An identifier that is not the name of a property objects inherit: a
    lookup of it in a dictionary of the program finds what is stored
    under it and nothing else. *)
Definition plain (k : string) : Prop := JsObject.inherited k = false.

(** The identifiers of nodes and snippets a command names: those under
    which it looks up a node or a snippet, and those it selects, which a
    later command looks up. *)
Definition namedIds (action : Action) : list string :=
  match action with
  | SET_SELECTED (Some nodeId) => [nodeId]
  | EDIT_PRIMITIVE nodeId _ _ => [nodeId]
  | RENAME_KEY parentId childId' _ => [parentId; childId']
  | ADD_NODE parentId _ _ _ => [parentId]
  | DELETE_NODE parentId childId' => [parentId; childId']
  | MOVE_ARRAY_ITEM parentId childId' _ => [parentId; childId']
  | LOAD_SNIPPET id => [id]
  | ANCHOR_TO (Some nodeId) => [nodeId]
  | _ => []
  end.

(** The value without the own keys [__proto__] of its objects. *)
Fixpoint stripProto (v : JsValue) : JsValue :=
  match v with
  | JArray items => JArray (map stripProto items)
  | JObject props =>
      JObject (List.filter (fun p => negb (String.eqb (fst p) "__proto__"))
                 (map (fun p => (fst p, stripProto (snd p))) props))
  | _ => v
  end.


(** The identifiers reachable from [start] along child references of
    stored nodes; [start] itself is one of them. *)
Inductive reachable (m : gmap string JsonNode) (start : string) : string -> Prop :=
| reach_start : reachable m start start
| reach_child (k c : string) (n : JsonNode) :
    reachable m start k -> m !! k = Some n -> c ∈ children n ->
    reachable m start c.

(** The maps [removeSubtree] goes through: parts of [m] in which the
    children of a removed node are removed as well. *)
Definition removal_state (m cur : gmap string JsonNode) : Prop :=
  (∀ k n, cur !! k = Some n -> m !! k = Some n)
  ∧ (∀ k n, m !! k = Some n -> cur !! k = None ->
       ∀ c, c ∈ children n -> cur !! c = None).


(** The keys of an object node, in entry order. *)
Definition keys (n : JsonNode) : list string :=
  match n with
  | ObjectNode _ entries => map key entries
  | _ => []
  end.

(** An object node with its entries sorted by key; any other node as it
    is. *)
Definition sortedNode `{Platform} (n : JsonNode) : JsonNode :=
  match n with
  | ObjectNode i entries =>
      ObjectNode i (Array_sort (fun a b => localeCompare (key a) (key b)) entries)
  | _ => n
  end.

(** No two neighbours of the list stand in the wrong order. *)
Definition inOrder {A : Type} (compareFn : A -> A -> Z) (l : list A) : Prop :=
  ∀ i x y, l !! i = Some x -> l !! S i = Some y -> compareFn x y <= 0.

(** The maps [sortObject] goes through: every node is the node of [m] or
    that node sorted. *)
Definition sorting_state `{Platform} (m cur : gmap string JsonNode) : Prop :=
  ∀ k, cur !! k = m !! k ∨ cur !! k = sortedNode <$> m !! k.


(** [q] stands at the start of [s]. *)
Definition startsWith (q s : string) : Prop := ∃ post, s = q +:+ post.

(** [q] occurs in [s] as a run of consecutive characters. *)
Definition occursIn (q s : string) : Prop := ∃ pre post, s = pre +:+ q +:+ post.

#[global] Instance startsWith_dec (q : string) : ∀ s, Decision (startsWith q s).
Proof.
  induction q as [|a q IH]; intros s.
  - left. by exists s.
  - destruct s as [|b s].
    + right. intros (post & Heq). discriminate Heq.
    + destruct (decide (a = b)) as [->|Hne].
      * destruct (IH s) as [Hyes|Hno].
        -- left. destruct Hyes as (post & ->). by exists post.
        -- right. intros (post & Heq). injection Heq as ->. apply Hno. by exists post.
      * right. intros (post & Heq). injection Heq as -> _. done.
Defined.

#[global] Instance occursIn_dec (q : string) : ∀ s, Decision (occursIn q s).
Proof.
  induction s as [|c s IH].
  - destruct (decide (startsWith q "")) as [Hyes|Hno].
    + left. destruct Hyes as (post & Heq). by exists "", post.
    + right. intros (pre & post & Heq). destruct pre as [|x pre]; [|discriminate Heq].
      apply Hno. by exists post.
  - destruct (decide (startsWith q (String c s))) as [Hyes|Hno].
    + left. destruct Hyes as (post & Heq). by exists "", post.
    + destruct IH as [Hyes|Hno'].
      * left. destruct Hyes as (pre & post & ->). by exists (String c pre), post.
      * right. intros (pre & post & Heq). destruct pre as [|x pre].
        -- apply Hno. by exists post.
        -- injection Heq as -> ->. apply Hno'. by exists pre, post.
Defined.

(** The text of a scalar that a search looks at: a string as it is, a
    number as the platform prints it, a boolean as [true] or [false],
    null as [null]. *)
Definition scalarText `{Platform} (node : JsonNode) : option string :=
  match node with
  | StringNode _ value => Some value
  | NumberNode _ value => Some (Number_toString value)
  | BooleanNode _ true => Some "true"
  | BooleanNode _ false => Some "false"
  | NullNode _ => Some "null"
  | ObjectNode _ _ | ArrayNode _ _ => None
  end.

(** The query occurs in the key of the entry, without regard to case. *)
Definition keyMatch (lower : string) (entry : ObjectEntry) : Prop :=
  occursIn lower (JsString.toLowerCase (key entry)).

(** The query occurs in the text of the scalar, without regard to case. *)
Definition valueMatch `{Platform} (lower : string) (node : JsonNode) : Prop :=
  ∃ text, scalarText node = Some text ∧ occursIn lower (JsString.toLowerCase text).

#[global] Instance valueMatch_dec `{Platform} (lower : string) (node : JsonNode) :
  Decision (valueMatch lower node).
Proof.
  unfold valueMatch. destruct (scalarText node) as [text|].
  - destruct (decide (occursIn lower (JsString.toLowerCase text))) as [Hyes|Hno].
    + left. by exists text.
    + right. intros (text' & [= <-] & Hocc). done.
  - right. intros (text' & Heq & _). discriminate Heq.
Defined.

(** [x] is a search hit below [root]: the child of an entry with a
    matching key in an object reachable from [root], or the identifier
    held by a matching scalar reachable from [root]. *)
Definition isHit `{Platform} (d : DocumentState) (lower root x : string) : Prop :=
  (∃ k i entries entry,
     reachable (nodes d) root k ∧ nodes d !! k = Some (ObjectNode i entries)
     ∧ entry ∈ entries ∧ childId entry = x ∧ keyMatch lower entry)
  ∨ (∃ k node,
       reachable (nodes d) root k ∧ nodes d !! k = Some node
       ∧ node_id node = x ∧ valueMatch lower node).

(** The hits below a node in the order of a depth-first walk: the child
    of an entry with a matching key comes before the hits below that
    child. *)
Fixpoint hitList `{Platform} (fuel : nat) (d : DocumentState) (lower nodeId : string)
  : list string :=
  match fuel with
  | O => []
  | S fuel =>
      match nodes d !! nodeId with
      | None => []
      | Some (ObjectNode _ entries) =>
          flat_map (fun entry =>
                      (if decide (keyMatch lower entry) then [childId entry] else [])
                      ++ hitList fuel d lower (childId entry))
                   entries
      | Some (ArrayNode _ items) => flat_map (hitList fuel d lower) items
      | Some node => if decide (valueMatch lower node) then [node_id node] else []
      end
  end.

(** What [applySearch] leaves of the search: the index of the active
    match is [-1] without matches and a position in the list otherwise;
    the match that was active stays active when it is still a match. *)
Definition activeOk (previous : option string) (matches : list string) (active : Z)
  : Prop :=
  (matches = [] -> active = -1)
  ∧ (matches ≠ [] -> 0 <= active < Z.of_nat (length matches))
  ∧ (∀ i, previous = Some i -> JsString.truthy i = true -> i ∈ matches ->
          js_index matches active = Some i).


(** The commands that change neither the document nor the text nor the
    history. *)
Definition isView (action : Action) : bool :=
  match action with
  | SET_SELECTED _ | TOGGLE_EXPANDED _ | EXPAND_ALL | COLLAPSE_ALL
  | SET_SEARCH_QUERY _ | MOVE_MATCH _ | TOGGLE_FILTER_MODE _ | SET_OUTPUT_MODE _
  | SET_AUTOPARSE _ | SET_AUTOSAVE _ | SET_NOTICE _ | ANCHOR_TO _ => true
  | _ => false
  end.

(** The commands of the snippet store. *)
Definition isSnippetStore (action : Action) : bool :=
  match action with
  | SAVE_SNIPPET _ _ | RENAME_SNIPPET _ _ _ | DELETE_SNIPPET _
  | OVERWRITE_SNIPPET _ _ => true
  | _ => false
  end.

(** Neither history stack holds more than 50 entries. *)
Definition history_bounded (s : EditorState) : Prop :=
  (length (undoStack s) <= 50)%nat ∧ (length (redoStack s) <= 50)%nat.

(** The keys of every object of the document are pairwise distinct, and
    so are its children. *)
Definition unique_keys (d : DocumentState) : Prop :=
  ∀ k i entries, nodes d !! k = Some (ObjectNode i entries) ->
    NoDup (map key entries) ∧ NoDup (map childId entries).

(** No node refers to an identifier that is still to be drawn. *)
Definition refs_drawn (next : nat) (d : DocumentState) : Prop :=
  ∀ k n c j, nodes d !! k = Some n -> c ∈ children n -> (next <= j)%nat -> c ≠ mkId j.

(** Both, for a document. *)
Definition keys_ok (next : nat) (d : DocumentState) : Prop :=
  unique_keys d ∧ refs_drawn next d.

(** The document of the state and the documents kept in its history. *)
Definition keys_inv (next : nat) (s : EditorState) : Prop :=
  (∀ d, doc s = Some d -> keys_ok next d)
  ∧ Forall (fun h => ∀ d, h_doc h = Some d -> keys_ok next d) (undoStack s)
  ∧ Forall (fun h => ∀ d, h_doc h = Some d -> keys_ok next d) (redoStack s).

(** Every node of [m'] is a node of [m] that lost or reordered entries or
    items at most. *)
Definition entries_kept (m m' : gmap string JsonNode) : Prop :=
  ∀ k n', m' !! k = Some n' ->
    ∃ n, m !! k = Some n ∧ children n' ⊆ children n
         ∧ ∀ i' entries', n' = ObjectNode i' entries' ->
             ∃ i entries, n = ObjectNode i entries ∧ entries' ⊆+ entries.

(** Each identifier of the list is followed by its child: the list leads
    down along child references. *)
Definition leadsDown (d : DocumentState) (path : list string) : Prop :=
  ∀ i p c, path !! i = Some p -> path !! S i = Some c ->
    ∃ n, nodes d !! p = Some n ∧ c ∈ children n.

(** *** The position a parser reports *)

(** The character [a] matches the pattern character [b] without regard
    to case: it is [b], or the capital of the small letter [b]. *)
Definition matchesIgnoringCase (a b : ascii) : Prop :=
  a = b ∨ ((97 <= N_of_ascii b <= 122)%N ∧ (N_of_ascii a + 32 = N_of_ascii b)%N).

(** One of the characters [0] to [9]. *)
Definition isDigitChar (c : ascii) : Prop := (48 <= N_of_ascii c <= 57)%N.

(** The pattern [/position (\d+)/i] matches the message at index [i]:
    nine characters that spell [position] and a blank without regard to
    case, then a digit. *)
Definition positionAt (msg : string) (i : nat) : Prop :=
  Forall2 matchesIgnoringCase (list_ascii_of_string (substring i 9 msg))
          (list_ascii_of_string "position ")
  ∧ match String.get (i + 9) msg with
    | Some c => isDigitChar c
    | None => False
    end.

(** A string without a line feed. *)
Definition oneLine (s : string) : Prop :=
  "010"%char ∉ list_ascii_of_string s.

#[global] Instance matchesIgnoringCase_dec (a b : ascii) :
  Decision (matchesIgnoringCase a b).
Proof. unfold matchesIgnoringCase. apply _. Defined.

#[global] Instance isDigitChar_dec (c : ascii) : Decision (isDigitChar c).
Proof. unfold isDigitChar. apply _. Defined.

#[global] Instance positionAt_dec (msg : string) (i : nat) : Decision (positionAt msg i).
Proof.
  unfold positionAt. destruct (String.get (i + 9) msg); apply _.
Defined.


(** ** Identifiers that name no inherited property *)

(** No identifier of the document is the name of an inherited property:
    its root, the keys of its node map, the identifiers its nodes hold
    and their child references. *)
Definition plain_doc (d : DocumentState) : Prop :=
  plain (rootId d)
  ∧ ∀ k n, nodes d !! k = Some n ->
      plain k ∧ plain (node_id n) ∧ Forall plain (children n).

Definition plain_entry (h : HistoryEntry) : Prop :=
  (∀ d, h_doc h = Some d -> plain_doc d)
  ∧ Forall plain (h_anchorPath h)
  ∧ (∀ i, h_selectedId h = Some i -> plain i).

(** The identifiers a later command may look up are plain: those of the
    document, of the anchor path, of the matches, the selected one and
    those of the history. *)
Definition plain_state (s : EditorState) : Prop :=
  (∀ d, doc s = Some d -> plain_doc d)
  ∧ Forall plain (anchorPath s)
  ∧ Forall plain (searchMatches s)
  ∧ (∀ i, selectedId s = Some i -> plain i)
  ∧ Forall plain_entry (undoStack s)
  ∧ Forall plain_entry (redoStack s).

(** The fields of the state that hold identifiers a later command looks
    up. *)
Definition sameIds (state state' : EditorState) : Prop :=
  doc state' = doc state
  ∧ anchorPath state' = anchorPath state
  ∧ searchMatches state' = searchMatches state
  ∧ selectedId state' = selectedId state
  ∧ undoStack state' = undoStack state
  ∧ redoStack state' = redoStack state.

(** The document is a tree: no stored identifier is the empty string, no
    node has the root among its children, and no identifier is a child of
    two stored nodes. *)
Definition treeShaped (d : DocumentState) : Prop :=
  (∀ k n, nodes d !! k = Some n -> k ≠ "")
  ∧ (∀ k n, nodes d !! k = Some n -> rootId d ∉ children n)
  ∧ (∀ k1 n1 k2 n2 c,
       nodes d !! k1 = Some n1 -> nodes d !! k2 = Some n2 ->
       c ∈ children n1 -> c ∈ children n2 -> k1 = k2).
(** ** Parsing errors *)

Lemma splitLines_length (s : string) : (1 <= length (splitLines s))%nat.
Proof.
  induction s as [|c s IH]; simpl; [lia|].
  destruct (Ascii.eqb c "010"); simpl; [lia|].
  destruct (splitLines s); simpl in *; lia.
Qed.

Lemma getLineColumn_one_based (text : string) (index : N) :
  (1 <= fst (getLineColumn text index))%N ∧ (1 <= snd (getLineColumn text index))%N.
Proof.
  unfold getLineColumn; simpl. split; [|lia].
  pose proof (splitLines_length (substring 0 (N.to_nat index) text)). lia.
Qed.

Lemma N_of_ascii_inj (a b : ascii) : N_of_ascii a = N_of_ascii b -> a = b.
Proof.
  intros Heq. rewrite <- (ascii_N_embedding a), <- (ascii_N_embedding b).
  by rewrite Heq.
Qed.

Lemma lowerChar_matches (a b : ascii) :
  ((97 <= N_of_ascii b <= 122)%N ∨ N_of_ascii b = 32%N) ->
  JsString.lowerChar a = b <-> matchesIgnoringCase a b.
Proof.
  intros Hb. unfold JsString.lowerChar, matchesIgnoringCase.
  pose proof (N_ascii_bounded a) as Ha.
  cbv zeta.
  destruct ((65 <=? N_of_ascii a) && (N_of_ascii a <=? 90)
            || (192 <=? N_of_ascii a) && (N_of_ascii a <=? 222)
               && negb (N_of_ascii a =? 215))%N eqn:Hcond.
  - assert (Hup : (65 <= N_of_ascii a <= 90 ∨ 192 <= N_of_ascii a <= 222)%N).
    { apply orb_prop in Hcond as [Hc|Hc].
      - apply andb_prop in Hc as [?%N.leb_le ?%N.leb_le]. lia.
      - apply andb_prop in Hc as [Hc _].
        apply andb_prop in Hc as [?%N.leb_le ?%N.leb_le]. lia. }
    split.
    + intros <-. rewrite N_ascii_embedding in Hb by lia.
      rewrite N_ascii_embedding by lia. right. lia.
    + intros [->|[Hrange Heq]]; [lia|].
      apply N_of_ascii_inj. rewrite N_ascii_embedding by lia. done.
  - assert (Hlow : ¬ (65 <= N_of_ascii a <= 90)%N).
    { intros [H1 H2]. apply N.leb_le in H1, H2. by rewrite H1, H2 in Hcond. }
    split; [by left|]. intros [->|[Hrange Heq]]; [done|lia].
Qed.

Lemma lower_word (w pat : string) :
  Forall (fun b => (97 <= N_of_ascii b <= 122)%N ∨ N_of_ascii b = 32%N)
         (list_ascii_of_string pat) ->
  JsString.toLowerCase w = pat
  <-> Forall2 matchesIgnoringCase (list_ascii_of_string w) (list_ascii_of_string pat).
Proof.
  revert pat. induction w as [|a w IH]; intros [|b pat] Hpat; simpl.
  - split; [constructor|done].
  - split; [done|]. intros Hf. inversion Hf.
  - split; [done|]. intros Hf. inversion Hf.
  - apply Forall_cons in Hpat as [Hb Hpat]. split.
    + intros [= Hc Hw]. constructor; [by apply lowerChar_matches|by apply IH].
    + intros Hf. apply Forall2_cons in Hf as [Hc Hw].
      f_equal; [by apply lowerChar_matches|by apply IH].
Qed.

Lemma lower_substring (s : string) :
  ∀ n m, substring n m (JsString.toLowerCase s)
         = JsString.toLowerCase (substring n m s).
Proof.
  induction s as [|c s IH]; intros [|n] [|m]; simpl; try done.
  - by rewrite IH.
Qed.

Lemma isDigit_char (c : ascii) : JsObject.isDigit c = true <-> isDigitChar c.
Proof.
  unfold JsObject.isDigit, isDigitChar. cbv zeta.
  rewrite andb_true_iff, !N.leb_le. done.
Qed.

Lemma takeDigits_starts (s : string) :
  takeDigits s ≠ ""
  <-> match String.get 0 s with Some c => isDigitChar c | None => False end.
Proof.
  destruct s as [|c s]; simpl; [done|].
  rewrite <- isDigit_char. by destruct (JsObject.isDigit c).
Qed.

Lemma get_dropped (s : string) :
  ∀ n k, String.get k (substring n (String.length s - n) s) = String.get (n + k) s.
Proof.
  induction s as [|c s IH]; intros [|n] k; simpl; try done.
  - destruct k as [|k]; [done|].
    specialize (IH 0%nat k). rewrite Nat.sub_0_r in IH. by rewrite IH.
Qed.

(** What the pattern finds at the start of a message. *)
Lemma here_matches (m : string) :
  (if String.prefix "position " (JsString.toLowerCase m)
   then if String.eqb (takeDigits (dropString 9 m)) "" then false else true
   else false) = true
  <-> positionAt m 0.
Proof.
  unfold positionAt, dropString.
  assert (Hpat : Forall (fun b => (97 <= N_of_ascii b <= 122)%N ∨ N_of_ascii b = 32%N)
                        (list_ascii_of_string "position ")).
  { cbn [list_ascii_of_string].
    repeat (apply Forall_cons; split;
            [vm_compute; first [by right | left; split; discriminate]|]).
    by apply Forall_nil. }
  pose proof (lower_word (substring 0 9 m) "position " Hpat) as Hw.
  rewrite <- lower_substring in Hw.
  pose proof (prefix_correct "position " (JsString.toLowerCase m)) as Hpre.
  cbn [String.length] in Hpre.
  pose proof (takeDigits_starts (substring 9 (String.length m - 9) m)) as Hdig.
  rewrite get_dropped in Hdig. cbn [Nat.add] in *.
  destruct (String.prefix "position " (JsString.toLowerCase m)).
  - destruct (String.eqb_spec (takeDigits (substring 9 (String.length m - 9) m)) "")
      as [Heq|Hne].
    + split; [done|]. intros [_ Hd]. apply Hdig in Hd. done.
    + split; [|done]. intros _. split; [by apply Hw, Hpre|by apply Hdig].
  - split; [done|]. intros [Hword _]. apply Hw, Hpre in Hword. done.
Qed.

Lemma positionMatch_here (m : string) :
  positionAt m 0 ->
  positionMatch m = Some (takeDigits (substring 9 (String.length m - 9) m)).
Proof.
  intros Hat. apply here_matches in Hat.
  destruct m as [|c m]; cbn [positionMatch]; unfold dropString in *;
    destruct (String.prefix _ _); try done;
    destruct (String.eqb _ ""); done.
Qed.

Lemma positionMatch_skip (c : ascii) (m : string) :
  ¬ positionAt (String c m) 0 ->
  positionMatch (String c m) = positionMatch m.
Proof.
  intros Hat. rewrite <- here_matches in Hat.
  cbn [positionMatch]. unfold dropString in *.
  destruct (String.prefix _ _); [|done].
  destruct (String.eqb _ ""); [done|]. by destruct Hat.
Qed.

(** The leftmost match decides what [positionMatch] answers. *)
Lemma positionMatch_first (m : string) :
  ∀ i, positionAt m i -> (∀ j, (j < i)%nat -> ¬ positionAt m j) ->
       positionMatch m
       = Some (takeDigits (substring (i + 9) (String.length m - (i + 9)) m)).
Proof.
  induction m as [|c m IH]; intros i Hat Hfirst.
  - destruct Hat as [_ Hget]. by destruct i.
  - destruct i as [|i].
    + by apply positionMatch_here.
    + rewrite positionMatch_skip by (apply Hfirst; lia).
      rewrite (IH i); [done|exact Hat|].
      intros j Hj Hatj. apply (Hfirst (S j)); [lia|exact Hatj].
Qed.

Lemma positionMatch_none (m : string) :
  (∀ i, ¬ positionAt m i) -> positionMatch m = None.
Proof.
  induction m as [|c m IH]; intros Hno.
  - cbn [positionMatch]. done.
  - rewrite positionMatch_skip by apply Hno. apply IH.
    intros i Hat. apply (Hno (S i)). exact Hat.
Qed.

(** *** The digits of the position *)

Lemma string_app_cons (x : ascii) (a b : string) :
  String x a +:+ b = String x (a +:+ b).
Proof. reflexivity. Qed.

Lemma string_app_nil_l (b : string) : "" +:+ b = b.
Proof. reflexivity. Qed.

Lemma string_app_nil_r (a : string) : a +:+ "" = a.
Proof.
  induction a as [|x a IH]; [done|]. by rewrite string_app_cons, IH.
Qed.

Lemma string_app_assoc (a b c : string) : (a +:+ b) +:+ c = a +:+ (b +:+ c).
Proof.
  induction a as [|x a IH]; [done|]. by rewrite !string_app_cons, IH.
Qed.

Lemma string_app_length (a b : string) :
  String.length (a +:+ b) = (String.length a + String.length b)%nat.
Proof.
  induction a as [|x a IH]; [done|]. rewrite string_app_cons. simpl. by rewrite IH.
Qed.

Lemma chars_app (a b : string) :
  list_ascii_of_string (a +:+ b) = list_ascii_of_string a ++ list_ascii_of_string b.
Proof.
  induction a as [|x a IH]; [done|]. rewrite string_app_cons. simpl. by rewrite IH.
Qed.

Lemma takeDigits_app (d rest : string) :
  Forall isDigitChar (list_ascii_of_string d) ->
  match rest with String c _ => ¬ isDigitChar c | EmptyString => True end ->
  takeDigits (d +:+ rest) = d.
Proof.
  induction d as [|a d IH]; intros Hd Hrest.
  - rewrite string_app_nil_l. destruct rest as [|c rest]; [done|]. simpl.
    destruct (JsObject.isDigit c) eqn:Hc; [|done]. by apply isDigit_char in Hc.
  - rewrite string_app_cons. simpl in *.
    apply Forall_cons in Hd as [Ha Hd]. apply isDigit_char in Ha. rewrite Ha.
    f_equal. by apply IH.
Qed.

Lemma digitsValue_zeros (zeros t : string) :
  Forall (eq "0"%char) (list_ascii_of_string zeros) ->
  JsObject.digitsValue 0 (zeros +:+ t) = JsObject.digitsValue 0 t.
Proof.
  induction zeros as [|a zeros IH]; intros Hz; [done|].
  rewrite string_app_cons. simpl in *.
  apply Forall_cons in Hz as [<- Hz]. simpl. by apply IH.
Qed.

Lemma pretty_N_char_digit (y : N) :
  (y < 10)%N -> N_of_ascii (pretty_N_char y) = (48 + y)%N.
Proof.
  intros Hy.
  assert (Hcases : y ∈ [0; 1; 2; 3; 4; 5; 6; 7; 8; 9]%N).
  { rewrite !elem_of_cons. lia. }
  rewrite !elem_of_cons in Hcases.
  repeat (destruct Hcases as [->|Hcases]; [done|]).
  by apply elem_of_nil in Hcases.
Qed.

Lemma pretty_N_go_digits (x : N) :
  ∀ s, ∃ d,
    pretty_N_go x s = d +:+ s
    ∧ Forall isDigitChar (list_ascii_of_string d)
    ∧ ∀ acc t,
        JsObject.digitsValue acc (d +:+ t)
        = JsObject.digitsValue (acc * 10 ^ N.of_nat (String.length d) + x)%N t.
Proof.
  induction (N.lt_wf_0 x) as [x _ IH]; intros s.
  destruct (decide (x = 0%N)) as [->|Hx].
  - exists "". rewrite pretty_N_go_0. split; [done|]. split; [constructor|].
    intros acc t. simpl. f_equal. lia.
  - rewrite pretty_N_go_step by lia.
    destruct (IH (x `div` 10)%N) with (s := String (pretty_N_char (x `mod` 10)) s)
      as (d' & Heq & Hd' & Hval).
    { apply N.div_lt; lia. }
    assert (Hmod : (x `mod` 10 < 10)%N) by (apply N.mod_lt; lia).
    pose proof (pretty_N_char_digit (x `mod` 10)%N Hmod) as Hchar.
    exists (d' +:+ String (pretty_N_char (x `mod` 10)) "").
    split; [by rewrite Heq, string_app_assoc, string_app_cons, string_app_nil_l|]. split.
    + rewrite chars_app. apply Forall_app. split; [done|].
      cbn [list_ascii_of_string]. apply Forall_singleton.
      unfold isDigitChar. rewrite Hchar. clear -Hmod.
        revert Hmod. generalize (x `mod` 10)%N. intros y Hy. lia.
    + intros acc t. rewrite string_app_assoc, Hval, string_app_cons, string_app_nil_l.
      cbn [JsObject.digitsValue].
      assert (Hdig : JsObject.isDigit (pretty_N_char (x `mod` 10)) = true).
      { apply isDigit_char. unfold isDigitChar. rewrite Hchar. clear -Hmod.
        revert Hmod. generalize (x `mod` 10)%N. intros y Hy. lia. }
      rewrite Hdig, Hchar. f_equal.
      rewrite string_app_length. cbn [String.length].
      replace (N.of_nat (String.length d' + 1)) with (N.succ (N.of_nat (String.length d')))
        by lia.
      rewrite N.pow_succ_r'.
      assert (Hdm : x = (10 * (x `div` 10) + x `mod` 10)%N) by (apply N.div_mod; lia).
      clear -Hdm. revert Hdm.
      generalize (x `div` 10)%N (x `mod` 10)%N (10 ^ N.of_nat (String.length d'))%N.
      intros q r P ->. nia.
Qed.

Lemma pretty_N_digits (p : N) :
  Forall isDigitChar (list_ascii_of_string (pretty p))
  ∧ JsObject.digitsValue 0 (pretty p) = Some p.
Proof.
  unfold pretty, pretty_N. destruct (decide (p = 0%N)) as [->|Hp].
  - split; [|done]. apply Forall_singleton. unfold isDigitChar. simpl. lia.
  - destruct (pretty_N_go_digits p "") as (d & Heq & Hd & Hval).
    rewrite string_app_nil_r in Heq. rewrite Heq. split; [done|].
    rewrite <- (string_app_nil_r d), Hval. simpl; f_equal; lia.
Qed.

(** The number a run of digits denotes: leading zeros and all. *)
Lemma position_digits (zeros rest : string) (p : N) :
  Forall (eq "0"%char) (list_ascii_of_string zeros) ->
  match rest with String c _ => ¬ isDigitChar c | EmptyString => True end ->
  takeDigits (zeros +:+ pretty p +:+ rest) = zeros +:+ pretty p
  ∧ JsObject.digitsValue 0 (zeros +:+ pretty p) = Some p.
Proof.
  intros Hz Hrest. destruct (pretty_N_digits p) as [Hd Hv]. split.
  - rewrite <- string_app_assoc. apply takeDigits_app; [|done].
    rewrite chars_app. apply Forall_app. split; [|done].
    eapply Forall_impl; [exact Hz|]. intros c <-. unfold isDigitChar. simpl. lia.
  - by rewrite digitsValue_zeros.
Qed.

(** *** Lines *)

Lemma splitLines_lines (s : string) :
  String.concat (String "010" "") (splitLines s) = s
  ∧ Forall oneLine (splitLines s).
Proof.
  assert (Hempty : oneLine "").
  { unfold oneLine. cbn [list_ascii_of_string]. apply not_elem_of_nil. }
  induction s as [|c s [IHc IHl]]; cbn [splitLines].
  - split; [done|]. by apply Forall_singleton.
  - pose proof (splitLines_length s) as Hlen.
    destruct (Ascii.eqb_spec c "010") as [->|Hc].
    + split; [|by constructor].
      destruct (splitLines s) as [|l ls]; [simpl in Hlen; lia|].
      cbn [String.concat]. rewrite string_app_nil_l, string_app_cons, string_app_nil_l.
      by rewrite <- IHc.
    + destruct (splitLines s) as [|l ls]; [simpl in Hlen; lia|].
      apply Forall_cons in IHl as [Hl Hls]. split.
      * destruct ls as [|l' ls]; cbn [String.concat] in *; [by rewrite IHc|].
        by rewrite string_app_cons, IHc.
      * constructor; [|done]. unfold oneLine in *. cbn [list_ascii_of_string].
        apply not_elem_of_cons. split; [congruence|done].
Qed.

Lemma getLineColumn_lines (text : string) (index : N) :
  ∃ lines lastLine,
    String.concat (String "010" "") lines = substring 0 (N.to_nat index) text
    ∧ Forall oneLine lines
    ∧ last lines = Some lastLine
    ∧ getLineColumn text index
      = (N.of_nat (length lines), (N.of_nat (String.length lastLine) + 1)%N).
Proof.
  unfold getLineColumn. cbv zeta.
  destruct (splitLines_lines (substring 0 (N.to_nat index) text)) as [Hc Hl].
  pose proof (splitLines_length (substring 0 (N.to_nat index) text)) as Hlen.
  destruct (last (splitLines (substring 0 (N.to_nat index) text))) as [lastLine|] eqn:Hlast.
  - exists (splitLines (substring 0 (N.to_nat index) text)), lastLine.
    unfold lastOf. rewrite Hlast. done.
  - apply last_None in Hlast. rewrite Hlast in Hlen. simpl in Hlen. lia.
Qed.

Section ParseErrors.
Context `{Platform}.

Lemma parseJson_failure (text msg : string) :
  JSON_parse text = SyntaxError msg ->
  ∃ error, parseJson text = inr error
    ∧ message error = msg
    ∧ (∀ l, line error = Some l -> (1 <= l)%N)
    ∧ (∀ c, column error = Some c -> (1 <= c)%N)
    ∧ (is_Some (line error) <-> is_Some (positionMatch msg))
    ∧ (is_Some (column error) <-> is_Some (positionMatch msg)).
Proof.
  intros Hfail. unfold parseJson. rewrite Hfail.
  destruct (positionMatch msg) as [digits|] eqn:Hpos.
  - pose proof (getLineColumn_one_based text
                  (nullish (JsObject.digitsValue 0%N digits) 0%N)) as [Hl Hc].
    destruct (getLineColumn _ _) as [l c]; simpl in *.
    eexists; split; [reflexivity|]; simpl.
    repeat split; eauto; intros; simplify_eq; done.
  - eexists; split; [reflexivity|]; simpl.
    repeat split; try done; intros []; done.
Qed.

Lemma parseJson_position (text msg : string) :
  JSON_parse text = SyntaxError msg ->
  ∃ error, parseJson text = inr error
    ∧ message error = msg
    ∧ (∀ i zeros p rest,
         positionAt msg i -> (∀ j, (j < i)%nat -> ¬ positionAt msg j) ->
         substring (i + 9) (String.length msg - (i + 9)) msg
         = zeros +:+ pretty p +:+ rest ->
         Forall (eq "0"%char) (list_ascii_of_string zeros) ->
         match rest with String c _ => ¬ isDigitChar c | EmptyString => True end ->
         ∃ lines lastLine,
           String.concat (String "010" "") lines = substring 0 (N.to_nat p) text
           ∧ Forall oneLine lines
           ∧ last lines = Some lastLine
           ∧ line error = Some (N.of_nat (length lines))
           ∧ column error = Some (N.of_nat (String.length lastLine) + 1)%N)
    ∧ ((∀ i, ¬ positionAt msg i) -> line error = None ∧ column error = None).
Proof.
  intros Hfail. unfold parseJson. rewrite Hfail.
  destruct (positionMatch msg) as [digits|] eqn:Hpos.
  - destruct (getLineColumn text (nullish (JsObject.digitsValue 0 digits) 0%N))
      as [l c] eqn:Hlc.
    eexists. split; [reflexivity|]. cbn [message line column].
    split; [done|]. split.
    + intros i zeros p rest Hat Hfirst Hsub Hz Hrest.
      rewrite (positionMatch_first msg i Hat Hfirst), Hsub in Hpos.
      destruct (position_digits zeros rest p Hz Hrest) as [Htake Hval].
      rewrite Htake in Hpos. injection Hpos as <-.
      rewrite Hval in Hlc. change (getLineColumn text p = (l, c)) in Hlc.
      destruct (getLineColumn_lines text p) as (lines & lastLine & Hc & Hl & Hlast & Heq).
      exists lines, lastLine. rewrite Hlc in Heq. injection Heq as -> ->. done.
    + intros Hno. by rewrite (positionMatch_none msg Hno) in Hpos.
  - eexists. split; [reflexivity|]. cbn [message line column].
    split; [done|]. split; [|done].
    intros i zeros p rest Hat Hfirst _ _ _.
    by rewrite (positionMatch_first msg i Hat Hfirst) in Hpos.
Qed.

(** C9: a parse or load-text command whose text does not parse returns the
    state with only [parseError] set: the document, the last valid text
    and both history stacks are those of the state before.  The error
    carries the parser's message.  When the message reports a position
    (the leftmost place where it reads [position], whatever the case,
    then a blank and digits), the error carries the line and the column
    of that position: split the text before the position at its line
    feeds; the line is the number of pieces, the column one more than
    the length of the last piece, so both count from 1.  When the message
    reports no position the error carries neither. *)
Theorem parse_failure_is_non_destructive
    (fuel : nat) (state : EditorState) (action : Action) (text msg : string)
    (next : nat) :
  parseCommandText state action = Some text ->
  JSON_parse text = SyntaxError msg ->
  ∃ error state',
    editorReducer fuel state action next = Some (state', next)
    ∧ state' = state <| parseError := Some error |>
    ∧ doc state' = doc state
    ∧ lastValidText state' = lastValidText state
    ∧ rawText state' = rawText state
    ∧ undoStack state' = undoStack state
    ∧ redoStack state' = redoStack state
    ∧ parseError state' = Some error
    ∧ message error = msg
    ∧ (∀ l, line error = Some l -> (1 <= l)%N)
    ∧ (∀ c, column error = Some c -> (1 <= c)%N)
    ∧ (∀ i zeros p rest,
         positionAt msg i -> (∀ j, (j < i)%nat -> ¬ positionAt msg j) ->
         substring (i + 9) (String.length msg - (i + 9)) msg
         = zeros +:+ pretty p +:+ rest ->
         Forall (eq "0"%char) (list_ascii_of_string zeros) ->
         match rest with String c _ => ¬ isDigitChar c | EmptyString => True end ->
         ∃ lines lastLine,
           String.concat (String "010" "") lines = substring 0 (N.to_nat p) text
           ∧ Forall oneLine lines
           ∧ last lines = Some lastLine
           ∧ line error = Some (N.of_nat (length lines))
           ∧ column error = Some (N.of_nat (String.length lastLine) + 1)%N)
    ∧ ((∀ i, ¬ positionAt msg i) -> line error = None ∧ column error = None).
Proof.
  intros Hcmd Hfail.
  destruct (parseJson_position text msg Hfail) as (error & Hparse & Hmsg & Hpos & Hnone).
  destruct (parseJson_failure text msg Hfail) as (error' & Hparse' & _ & Hl & Hc & _).
  rewrite Hparse in Hparse'. injection Hparse' as <-.
  exists error, (state <| parseError := Some error |>).
  split.
  - destruct action; simpl in Hcmd; simplify_eq; simpl;
      unfold applyParse; rewrite Hparse; reflexivity.
  - do 8 (split; [done|]). done.
Qed.

End ParseErrors.

(** The demo parser rejects a text whose fifth character, on the second
    line, cannot be parsed; the engine of a sample session keeps its
    document and reports line 2, column 1. *)
Lemma parse_failure_is_non_destructive_witness :
  positionAt "Unexpected token } in JSON at position 4" 30
  ∧ (∀ j, (j < 30)%nat -> ¬ positionAt "Unexpected token } in JSON at position 4" j)
  ∧ ∃ error state',
      editorReducer (H := Demo.platform) 0 Demo.sampleState
        (LOAD_TEXT (String "[" (String "1" (String "," (String "010" "}"))))) 5
      = Some (state', 5%nat)
      ∧ state' = Demo.sampleState <| parseError := Some error |>
      ∧ doc state' = doc Demo.sampleState
      ∧ lastValidText state' = lastValidText Demo.sampleState
      ∧ rawText state' = rawText Demo.sampleState
      ∧ undoStack state' = undoStack Demo.sampleState
      ∧ redoStack state' = redoStack Demo.sampleState
      ∧ parseError state' = Some error
      ∧ message error = "Unexpected token } in JSON at position 4"
      ∧ line error = Some 2%N
      ∧ column error = Some 1%N.
Proof.
  assert (Hat : positionAt "Unexpected token } in JSON at position 4" 30).
  { apply (bool_decide_unpack _). vm_compute. reflexivity. }
  assert (Hfirst : ∀ j, (j < 30)%nat ->
            ¬ positionAt "Unexpected token } in JSON at position 4" j).
  { assert (Hall : Forall (fun j => ¬ positionAt "Unexpected token } in JSON at position 4" j)
                          (seq 0 30)).
    { apply (bool_decide_unpack _). vm_compute. reflexivity. }
    intros j Hj. rewrite Forall_forall in Hall. apply Hall, elem_of_seq. lia. }
  split; [exact Hat|]. split; [exact Hfirst|].
  destruct (parse_failure_is_non_destructive (H := Demo.platform)
              0 Demo.sampleState
              (LOAD_TEXT (String "[" (String "1" (String "," (String "010" "}")))))
              (String "[" (String "1" (String "," (String "010" "}"))))
              "Unexpected token } in JSON at position 4" 5 eq_refl eq_refl)
    as (error & state' & Hred & Hstate & Hd & Hl & Hr & Hu & Hre & Hpe & Hmsg & _ & _
        & Hpos & _).
  exists error, state'. do 9 (split; [assumption|]).
  destruct (Hpos 30%nat "" 4%N "" Hat Hfirst eq_refl (Forall_nil_2 _) I)
    as (lines & lastLine & Hlines & Hone & Hlast & Hline & Hcol).
  vm_compute in Hred. rewrite Hstate in Hred. injection Hred as Herr.
  by rewrite <- Herr.
Defined.

(** ** Editing a scalar *)

Section EditPrimitive.
Context `{Platform}.

(** A value that is no number, or the number NaN, is rejected for the
    type [number]: the state is returned with an error notice only. *)
Lemma editPrimitive_rejects_NaN_and_non_numbers
    (fuel : nat) (state : EditorState) (d : DocumentState) (nodeId : string)
    (node : JsonNode) (value : PrimValue) (newType : option NodeType) :
  doc state = Some d ->
  nodes d !! nodeId = Some node ->
  children node = [] -> node_type node ≠ TObject -> node_type node ≠ TArray ->
  nullish newType (node_type node) = TNumber ->
  (∀ n, value = PNumber n -> JsNum.isNaN n = true) ->
  editPrimitive fuel state nodeId value newType
  = Some (state <| notice := errorNotice "Numbers must be valid JSON numbers." |>).
Proof.
  intros Hdoc Hnode _ Hobj Harr Hty Hval. unfold editPrimitive.
  rewrite Hdoc, Hnode.
  destruct node; simpl in *; try done; rewrite Hty;
    destruct value as [| n | |]; try done;
    rewrite (Hval n eq_refl); done.
Qed.

(** C5: the number node [id-1] of the sample document takes the value
    [Infinity] from an edit of type [number]: the edit is accepted, no
    notice is raised, and the stored payload is not a finite number. *)
Theorem edit_number_accepts_infinity (fuel : nat) :
  ∃ state',
    editorReducer (4 + fuel) Demo.sampleState
      (EDIT_PRIMITIVE "id-1" (PNumber JsNum.posInfinity) (Some TNumber)) 5
    = Some (state', 5%nat)
    ∧ notice state' = None
    ∧ (d ← doc state'; nodes d !! "id-1")
      = Some (NumberNode "id-1" JsNum.posInfinity)
    ∧ doc state' ≠ doc Demo.sampleState
    ∧ JsNum.isFinite JsNum.posInfinity = false.
Proof.
  set (r := editorReducer _ _ _ _).
  vm_compute in r. subst r.
  eexists; split; [reflexivity|].
  repeat split; try reflexivity.
  vm_compute. intros Heq. discriminate Heq.
Qed.

End EditPrimitive.

(** ** Callbacks over a list *)

Lemma bind_step {A B : Type} (x : option A) (f : A -> option B) (a : A) :
  x = Some a -> x ≫= f = f a.
Proof. intros ->. reflexivity. Qed.

Lemma forEachM_invariant {S A : Type} (f : S -> A -> option S) (P : S -> Prop)
    (l : list A) (s : S) :
  P s ->
  (∀ s x, x ∈ l -> P s -> ∃ s', f s x = Some s' ∧ P s') ->
  ∃ s', forEachM f s l = Some s' ∧ P s'.
Proof.
  revert s. induction l as [|x l IH]; intros s Hs Hstep; simpl.
  - eauto.
  - destruct (Hstep s x) as (s1 & -> & Hs1); [left | done |]. simpl.
    apply IH; [done|]. intros s2 y Hy. apply Hstep. by right.
Qed.

Lemma forEachM_app {S A : Type} (f : S -> A -> option S) (l1 l2 : list A) (s : S) :
  forEachM f s (l1 ++ l2) = s' ← forEachM f s l1; forEachM f s' l2.
Proof.
  revert s. induction l1 as [|x l1 IH]; intros s; simpl; [done|].
  destruct (f s x); simpl; auto.
Qed.

(** ** Conversion to a plain value *)

Lemma buildValue_returns (rank : string -> nat) (d : DocumentState) :
  (∀ k n, nodes d !! k = Some n -> ∀ c, c ∈ children n -> (rank c < rank k)%nat) ->
  ∀ fuel nodeId,
    (0 < fuel)%nat ->
    (∀ n, nodes d !! nodeId = Some n -> (rank nodeId < fuel)%nat) ->
    is_Some (buildValue fuel d nodeId).
Proof.
  intros Hrank fuel. induction fuel as [|fuel IH]; intros nodeId Hpos Hfuel; [lia|].
  simpl. destruct (nodes d !! nodeId) as [node|] eqn:Hnode; [|done].
  specialize (Hfuel node eq_refl).
  assert (Hchild : ∀ c, c ∈ children node -> is_Some (buildValue fuel d c)).
  { intros c Hc. pose proof (Hrank _ _ Hnode c Hc).
    apply IH; [lia|]. intros; lia. }
  destruct node as [i entries | i items | | | |]; try done.
  - destruct (forEachM_invariant
                (fun obj entry => v ← buildValue fuel d (childId entry);
                                  Some (JsObject.set obj (key entry) v))
                (fun _ => True) entries []) as (obj & -> & _); [done| |done].
    intros obj entry Hentry _.
    destruct (Hchild (childId entry)) as [v ->];
      [simpl; by apply list_elem_of_fmap_2|]. simpl. eauto.
  - simpl in Hchild.
    assert (is_Some (mapM (buildValue fuel d) items)) as [vs ->]; [|done].
    apply mapM_is_Some. apply Forall_forall. intros c Hc. by apply Hchild.
Qed.

Lemma buildValue_absent (fuel : nat) (d : DocumentState) (c : string) :
  nodes d !! c = None -> buildValue (S fuel) d c = Some JNull.
Proof. intros Hc. simpl. by rewrite Hc. Qed.

(** X9: on a document without a cycle among its child
    references the conversion returns a value once the fuel exceeds the
    depth bound, whatever other invariant the document violates; an
    absent node whose identifier is no name of an inherited property
    converts to [null], also at its position in an array. *)
Theorem documentToJson_total_without_cycles
    (B fuel : nat) (d : DocumentState) :
  acyclic B (nodes d) ->
  (B < fuel)%nat ->
  (∃ v, documentToJson fuel d = Some v)
  ∧ (∀ c, nodes d !! c = None -> JsObject.inherited c = false ->
          buildValue fuel d c = Some JNull)
  ∧ (∀ k i items vs j c,
       nodes d !! k = Some (ArrayNode i items) ->
       buildValue fuel d k = Some (JArray vs) ->
       items !! j = Some c -> nodes d !! c = None ->
       JsObject.inherited c = false ->
       vs !! j = Some JNull).
Proof.
  intros (rank & Hrank) Hfuel. split; [|split].
  - apply (buildValue_returns rank); [| lia |].
    + intros k n Hk. by apply Hrank.
    + intros n Hn. destruct (Hrank _ _ Hn). lia.
  - intros c Hc _. destruct fuel; [lia|]. by apply buildValue_absent.
  - intros k i items vs j c Hk Hv Hj Hc _.
    destruct fuel as [|fuel]; [done|]. simpl in Hv. rewrite Hk in Hv.
    destruct (mapM (buildValue fuel d) items) as [vs'|] eqn:Hmap; [|done].
    simpl in Hv. simplify_eq.
    apply mapM_Some in Hmap.
    destruct (Forall2_lookup_l _ _ _ _ _ Hmap Hj) as (v & Hvj & Hbuild).
    rewrite Hvj. destruct fuel; [done|].
    rewrite buildValue_absent in Hbuild by done. congruence.
Qed.

Lemma documentToJson_total_without_cycles_witness :
  (∃ v, documentToJson 3 (mkDoc "r" {[ "r" := ArrayNode "r" ["gone"] ]}) = Some v)
  ∧ (∀ c, nodes (mkDoc "r" {[ "r" := ArrayNode "r" ["gone"] ]}) !! c = None ->
          JsObject.inherited c = false ->
          buildValue 3 (mkDoc "r" {[ "r" := ArrayNode "r" ["gone"] ]}) c = Some JNull)
  ∧ (∀ k i items vs j c,
       nodes (mkDoc "r" {[ "r" := ArrayNode "r" ["gone"] ]}) !! k
         = Some (ArrayNode i items) ->
       buildValue 3 (mkDoc "r" {[ "r" := ArrayNode "r" ["gone"] ]}) k
         = Some (JArray vs) ->
       items !! j = Some c ->
       nodes (mkDoc "r" {[ "r" := ArrayNode "r" ["gone"] ]}) !! c = None ->
       JsObject.inherited c = false ->
       vs !! j = Some JNull).
Proof.
  apply (documentToJson_total_without_cycles 2 3); [|lia].
  exists (fun k => if decide (k = "r") then 1%nat else 0%nat).
  intros k n Hk. simpl in Hk.
  destruct (decide (k = "r")) as [->|Hne].
  - rewrite lookup_singleton_eq in Hk. simplify_eq. simpl.
    split; [lia|]. intros c Hc. apply list_elem_of_singleton in Hc. subst.
    simpl. lia.
  - rewrite lookup_singleton_ne in Hk by done. done.
Defined.

Lemma buildValue_cyclicDoc (fuel : nat) : buildValue fuel cyclicDoc "a" = None.
Proof.
  induction fuel as [|fuel IH]; [done|].
  simpl. rewrite lookup_singleton_eq. simpl. by rewrite IH.
Qed.

(** The document whose root array lists itself as its item is a value of
    the document type; its conversion returns for no amount of fuel. *)
Lemma documentToJson_diverges_on_cycle :
  nodes cyclicDoc !! rootId cyclicDoc = Some (ArrayNode "a" ["a"])
  ∧ ∀ fuel, documentToJson fuel cyclicDoc = None.
Proof.
  split; [reflexivity|]. intros fuel. apply buildValue_cyclicDoc.
Qed.

(** ** Round trip through the node store *)

(** C1: the value with the single own key [__proto__] (as [JSON.parse]
    returns it for that text) is built into a document with one entry,
    and the conversion back yields the empty object: the assignment in
    [buildValue] reaches the setter of [Object.prototype] and defines no
    property. *)
Theorem roundtrip_loses_proto_key (fuel : nat) :
  (∃ n, nodes (buildDocumentFromValue protoValue 0).1 !! "id-0"
        = Some (ObjectNode "id-0" [mkEntry "__proto__" n]))
  ∧ documentToJson (2 + fuel) (buildDocumentFromValue protoValue 0).1
    = Some (JObject [])
  ∧ JObject [] ≠ protoValue.
Proof.
  split; [|split].
  - eexists. vm_compute. reflexivity.
  - vm_compute. reflexivity.
  - discriminate.
Qed.

(** ** Identifiers *)

Lemma mkId_inj (i j : nat) : mkId i = mkId j -> i = j.
Proof.
  unfold mkId. intros Heq. simpl in Heq. simplify_eq.
  by apply (inj pretty).
Qed.

(** ** The structure of built documents *)

Lemma JsValue_nested_ind (P : JsValue -> Prop) :
  P JNull -> (∀ b, P (JBool b)) -> (∀ n, P (JNumber n)) -> (∀ s, P (JString s)) ->
  (∀ items, Forall P items -> P (JArray items)) ->
  (∀ props, Forall (fun p => P (snd p)) props -> P (JObject props)) ->
  ∀ v, P v.
Proof.
  intros Hnull Hbool Hnum Hstr Harr Hobj.
  fix IH 1. intros [| b | n | s | items | props].
  - exact Hnull.
  - apply Hbool.
  - apply Hnum.
  - apply Hstr.
  - apply Harr. induction items as [|x items IHitems]; constructor.
    + apply IH.
    + exact IHitems.
  - apply Hobj. induction props as [|[k x] props IHprops]; constructor.
    + apply IH.
    + exact IHprops.
Qed.

Lemma buildNode_array (items : list JsValue) (m : gmap string JsonNode) (next : nat) :
  buildNode (JArray items) m next
  = let '(childIds, m', next') := buildItems items m (S next) in
    (mkId next, <[mkId next := ArrayNode (mkId next) childIds]> m', next').
Proof. reflexivity. Qed.

Lemma buildNode_object (props : list (string * JsValue)) (m : gmap string JsonNode)
    (next : nat) :
  buildNode (JObject props) m next
  = let '(entries, m', next') := buildEntries props m (S next) in
    (mkId next, <[mkId next := ObjectNode (mkId next) entries]> m', next').
Proof. reflexivity. Qed.

Lemma built_refl (m : gmap string JsonNode) (next : nat) : built m m next next.
Proof. split; [lia|]. split; [done|]. intros j Hj. lia. Qed.

Lemma built_trans (m m1 m2 : gmap string JsonNode) (n n1 n2 : nat) :
  built m m1 n n1 -> built m1 m2 n1 n2 -> built m m2 n n2.
Proof.
  intros (Hle1 & Hframe1 & Hnew1) (Hle2 & Hframe2 & Hnew2).
  split; [lia|]. split.
  - intros k Hk. rewrite Hframe2.
    + apply Hframe1. intros j Hj. apply Hk. lia.
    + intros j Hj. apply Hk. lia.
  - intros j Hj. destruct (decide (j < n1)%nat) as [Hlt|Hge].
    + destruct (Hnew1 j) as (nd & Hnd & Hid & Hch); [lia|].
      exists nd. split; [|split; [done|]].
      * rewrite Hframe2; [done|].
        intros j' Hj' Heq. apply mkId_inj in Heq. lia.
      * intros c Hc. destruct (Hch c Hc) as (j' & Hj' & ->).
        exists j'. split; [lia|done].
    + destruct (Hnew2 j) as (nd & Hnd & Hid & Hch); [lia|].
      exists nd. split; [done|]. split; [done|].
      intros c Hc. destruct (Hch c Hc) as (j' & Hj' & ->).
      exists j'. split; [lia|done].
Qed.

Lemma built_store (m m1 : gmap string JsonNode) (next next' : nat) (node : JsonNode) :
  built m m1 (S next) next' ->
  node_id node = mkId next ->
  (∀ c, c ∈ children node -> ∃ j', (next < j' < next')%nat ∧ c = mkId j') ->
  built m (<[mkId next := node]> m1) next next'.
Proof.
  intros (Hle & Hframe & Hnew) Hid Hch.
  split; [lia|]. split.
  - intros k Hk. rewrite lookup_insert_ne.
    + apply Hframe. intros j Hj. apply Hk. lia.
    + intros <-. apply (Hk next); [lia|done].
  - intros j Hj. destruct (decide (j = next)) as [->|Hne].
    + exists node. rewrite lookup_insert_eq. done.
    + destruct (Hnew j) as (nd & Hnd & Hrest); [lia|].
      exists nd. rewrite lookup_insert_ne; [done|].
      intros Heq. apply mkId_inj in Heq. lia.
Qed.

Lemma buildNode_built (v : JsValue) :
  ∀ m next id m' next',
    buildNode v m next = (id, m', next') ->
    id = mkId next ∧ (next < next')%nat ∧ built m m' next next'.
Proof.
  induction v as [| b | n | s | items IH | props IH] using JsValue_nested_ind;
    intros m next id m' next' Hbuild.
  1-4: simpl in Hbuild; simplify_eq; (split; [done|]); (split; [lia|]);
       (apply built_store; [apply built_refl | done | intros c Hc; by apply elem_of_nil in Hc]).
  - rewrite buildNode_array in Hbuild.
    destruct (buildItems items m (S next)) as [[cs m1] n1] eqn:Hitems.
    simplify_eq.
    assert (built m m1 (S next) next'
            ∧ Forall (fun c => ∃ j, (S next <= j < next')%nat ∧ c = mkId j) cs)
      as [Hb Hcs].
    { clear -IH Hitems. revert m cs m1 next' Hitems. generalize (S next) as n0.
      induction IH as [|x items Hx _ IHitems]; intros n0 m cs m1 next' Hitems.
      - simpl in Hitems. simplify_eq. split; [apply built_refl | constructor].
      - simpl in Hitems.
        destruct (buildNode x m n0) as [[c ma] na] eqn:Hx1.
        destruct (buildItems items ma na) as [[cs' mb] nb] eqn:Hrest.
        simplify_eq.
        destruct (Hx _ _ _ _ _ Hx1) as (-> & Hlt & Hba).
        destruct (IHitems _ _ _ _ _ Hrest) as (Hbb & Hcs').
        pose proof Hbb as (Hle & _).
        split; [by eapply built_trans|]. constructor.
        + exists n0. split; [lia|done].
        + eapply Forall_impl; [exact Hcs'|]. simpl.
          intros c (j & Hj & ->). exists j. split; [lia|done]. }
    pose proof Hb as (Hle & _).
    split; [done|]. split; [lia|].
    apply built_store; [done | done |]. simpl.
    intros c Hc. rewrite Forall_forall in Hcs.
    destruct (Hcs c Hc) as (j & Hj & ->). exists j. split; [lia|done].
  - rewrite buildNode_object in Hbuild.
    destruct (buildEntries props m (S next)) as [[es m1] n1] eqn:Hentries.
    simplify_eq.
    assert (built m m1 (S next) next'
            ∧ Forall (fun e => ∃ j, (S next <= j < next')%nat ∧ childId e = mkId j) es)
      as [Hb Hes].
    { clear -IH Hentries. revert m es m1 next' Hentries. generalize (S next) as n0.
      induction IH as [|[k x] props Hx _ IHprops]; intros n0 m es m1 next' Hentries.
      - simpl in Hentries. simplify_eq. split; [apply built_refl | constructor].
      - simpl in Hentries.
        destruct (buildNode x m n0) as [[c ma] na] eqn:Hx1.
        destruct (buildEntries props ma na) as [[es' mb] nb] eqn:Hrest.
        simplify_eq. simpl in Hx.
        destruct (Hx _ _ _ _ _ Hx1) as (-> & Hlt & Hba).
        destruct (IHprops _ _ _ _ _ Hrest) as (Hbb & Hes').
        pose proof Hbb as (Hle & _).
        split; [by eapply built_trans|]. constructor.
        + exists n0. split; [lia|done].
        + eapply Forall_impl; [exact Hes'|]. simpl.
          intros e (j & Hj & Heq). exists j. split; [lia|done]. }
    pose proof Hb as (Hle & _).
    split; [done|]. split; [lia|].
    apply built_store; [done | done |]. simpl.
    intros c Hc. apply list_elem_of_fmap in Hc as (e & -> & He).
    rewrite Forall_forall in Hes.
    destruct (Hes e He) as (j & Hj & ->). exists j. split; [lia|done].
Qed.

Lemma buildItems_built (items : list JsValue) :
  ∀ m next cs m' next',
    buildItems items m next = (cs, m', next') ->
    built m m' next next'
    ∧ Forall (fun c => ∃ j, (next <= j < next')%nat ∧ c = mkId j) cs.
Proof.
  induction items as [|x items IH]; intros m next cs m' next' Hbuild; simpl in Hbuild.
  - simplify_eq. split; [apply built_refl | constructor].
  - destruct (buildNode x m next) as [[c ma] na] eqn:Hx.
    destruct (buildItems items ma na) as [[cs' mb] nb] eqn:Hrest.
    simplify_eq.
    destruct (buildNode_built _ _ _ _ _ _ Hx) as (-> & Hlt & Hba).
    destruct (IH _ _ _ _ _ Hrest) as (Hbb & Hcs').
    pose proof Hbb as (Hle & _).
    split; [by eapply built_trans|]. constructor.
    + exists next. split; [lia|done].
    + eapply Forall_impl; [exact Hcs'|]. simpl.
      intros c (j & Hj & ->). exists j. split; [lia|done].
Qed.

Lemma buildEntries_built (props : list (string * JsValue)) :
  ∀ m next es m' next',
    buildEntries props m next = (es, m', next') ->
    built m m' next next'
    ∧ Forall (fun e => ∃ j, (next <= j < next')%nat ∧ childId e = mkId j) es.
Proof.
  induction props as [|[k x] props IH]; intros m next es m' next' Hbuild;
    simpl in Hbuild.
  - simplify_eq. split; [apply built_refl | constructor].
  - destruct (buildNode x m next) as [[c ma] na] eqn:Hx.
    destruct (buildEntries props ma na) as [[es' mb] nb] eqn:Hrest.
    simplify_eq.
    destruct (buildNode_built _ _ _ _ _ _ Hx) as (-> & Hlt & Hba).
    destruct (IH _ _ _ _ _ Hrest) as (Hbb & Hes').
    pose proof Hbb as (Hle & _).
    split; [by eapply built_trans|]. constructor.
    + exists next. split; [lia|done].
    + eapply Forall_impl; [exact Hes'|]. simpl.
      intros e (j & Hj & Heq). exists j. split; [lia|done].
Qed.

Lemma idIndex_mkId (bound j : nat) : (j < bound)%nat -> idIndex bound (mkId j) = j.
Proof.
  intros Hj. unfold idIndex.
  destruct (list_find _ _) as [[i x]|] eqn:Hfind.
  - apply list_find_Some in Hfind as (_ & Heq & _). by apply mkId_inj.
  - apply list_find_None in Hfind. rewrite Forall_forall in Hfind.
    destruct (Hfind j); [|done]. apply elem_of_seq. lia.
Qed.

Lemma built_key (m' : gmap string JsonNode) (next next' : nat) (k : string)
    (n : JsonNode) :
  built ∅ m' next next' -> m' !! k = Some n ->
  ∃ j, (next <= j < next')%nat ∧ k = mkId j.
Proof.
  intros (_ & Hframe & _) Hk.
  destruct (decide (Exists (fun j => k = mkId j) (seq next (next' - next))))
    as [Hex|Hnex].
  - apply Exists_exists in Hex as (j & Hj & ->). apply elem_of_seq in Hj.
    exists j. split; [lia|done].
  - rewrite Hframe in Hk; [by rewrite lookup_empty in Hk|].
    intros j Hj ->. apply Hnex, Exists_exists. exists j. split; [|done].
    apply elem_of_seq. lia.
Qed.

(** A document built from a value has no cycle, stores every node under
    its own identifier and uses no identifier that is still to be drawn. *)
Lemma built_doc_ok (m' : gmap string JsonNode) (next next' : nat) :
  built ∅ m' next next' ->
  acyclic (S next') m' ∧ ids_consistent m' ∧ ids_fresh next' m'.
Proof.
  intros Hb. pose proof Hb as (Hle & Hframe & Hnew). split; [|split].
  - exists (fun k => next' - idIndex next' k)%nat.
    intros k n Hk. split; [lia|].
    destruct (built_key _ _ _ _ _ Hb Hk) as (j & Hj & ->).
    destruct (Hnew j Hj) as (n' & Hn' & _ & Hch). simplify_eq.
    intros c Hc. destruct (Hch c Hc) as (j' & Hj' & ->).
    rewrite !idIndex_mkId by lia. lia.
  - intros k n Hk.
    destruct (built_key _ _ _ _ _ Hb Hk) as (j & Hj & ->).
    destruct (Hnew j Hj) as (n' & Hn' & Hid & _). by simplify_eq.
  - intros j Hj. rewrite Hframe; [apply lookup_empty|].
    intros j' Hj' Heq. apply mkId_inj in Heq. lia.
Qed.

(** ** Own properties in enumeration order *)

Section OwnProperties.
Context {V : Type}.
Implicit Types (o : list (string * V)) (k : string) (v : V).

Lemma hasOwn_false o k : k ∉ map fst o -> JsObject.hasOwn o k = false.
Proof.
  induction o as [|[k' v'] o IH]; simpl; [done|].
  intros Hk. apply not_elem_of_cons in Hk as [Hne Hk].
  rewrite IH by done. rewrite orb_false_r.
  apply String.eqb_neq. congruence.
Qed.

Lemma enumerationOrder_app_l (lo : option N) (l1 l2 : list string) :
  JsObject.enumerationOrder lo (l1 ++ l2) = true ->
  JsObject.enumerationOrder lo l1 = true.
Proof.
  revert lo. induction l1 as [|k l1 IH]; intros lo; simpl; [done|].
  destruct (JsObject.arrayIndex k) as [i|].
  - intros [Hlo Hrest]%andb_prop. rewrite Hlo. simpl. by apply IH.
  - rewrite forallb_app. by intros [Hl1 _]%andb_prop.
Qed.

Lemma enumerationOrder_last_index (lo : N) (l : list string) k (i : N) :
  JsObject.enumerationOrder (Some lo) (l ++ [k]) = true ->
  JsObject.arrayIndex k = Some i -> (lo < i)%N.
Proof.
  revert lo. induction l as [|k' l IH]; intros lo; simpl.
  - intros Hord Hk. rewrite Hk in Hord.
    apply andb_prop in Hord as [Hlt _]. by apply N.ltb_lt.
  - intros Hord Hk. destruct (JsObject.arrayIndex k') as [j|].
    + apply andb_prop in Hord as [Hlt Hrest]. apply N.ltb_lt in Hlt.
      specialize (IH j Hrest Hk). lia.
    + rewrite forallb_app in Hord. apply andb_prop in Hord as [_ Hlast].
      simpl in Hlast. by rewrite Hk in Hlast.
Qed.

Lemma insertIndex_snoc (lo : option N) o k v (i : N) :
  JsObject.enumerationOrder lo (map fst o ++ [k]) = true ->
  JsObject.arrayIndex k = Some i ->
  JsObject.insertIndex o i k v = o ++ [(k, v)].
Proof.
  revert lo. induction o as [|[k' v'] o IH]; intros lo Hord Hk; simpl; [done|].
  simpl in Hord. destruct (JsObject.arrayIndex k') as [j|].
  - apply andb_prop in Hord as [_ Hrest].
    pose proof (enumerationOrder_last_index _ _ _ _ Hrest Hk) as Hlt.
    apply N.ltb_lt in Hlt. rewrite Hlt. f_equal. by eapply IH.
  - rewrite forallb_app in Hord. apply andb_prop in Hord as [_ Hlast].
    simpl in Hlast. by rewrite Hk in Hlast.
Qed.

(** Assigning the keys of an object in their enumeration order appends
    each of them, except the key [__proto__]. *)
Lemma set_snoc o k v :
  JsObject.enumerationOrder None (map fst o ++ [k]) = true ->
  k ∉ map fst o -> k ≠ "__proto__" ->
  JsObject.set o k v = o ++ [(k, v)].
Proof.
  intros Hord Hnew Hproto. unfold JsObject.set.
  rewrite hasOwn_false by done.
  apply String.eqb_neq in Hproto. rewrite Hproto.
  unfold JsObject.insertNew.
  destruct (JsObject.arrayIndex k) as [i|] eqn:Hk; [|done].
  by eapply insertIndex_snoc.
Qed.

End OwnProperties.

Lemma forEachM_set_rebuilds (fuel : nat) (d : DocumentState)
    (es : list ObjectEntry) (props : list (string * JsValue)) :
  Forall2 (fun e p => key e = fst p ∧ buildValue fuel d (childId e) = Some (snd p))
          es props ->
  ∀ acc,
    JsObject.enumerationOrder None (map fst (acc ++ props)) = true ->
    NoDup (map fst (acc ++ props)) ->
    "__proto__" ∉ map fst props ->
    forEachM (fun obj entry => v ← buildValue fuel d (childId entry);
                               Some (JsObject.set obj (key entry) v))
             acc es
    = Some (acc ++ props).
Proof.
  induction 1 as [|e [k v] es props [Hkey Hval] _ IH]; intros acc Hord Hnd Hproto;
    simpl.
  - by rewrite app_nil_r.
  - simpl in Hkey, Hval. rewrite Hval. simpl. rewrite Hkey.
    apply not_elem_of_cons in Hproto as [Hne Hproto].
    rewrite (set_snoc acc k v).
    + rewrite IH; rewrite <- ?app_assoc; done.
    + rewrite map_app in Hord. simpl in Hord.
      replace (map fst acc ++ k :: map fst props)
        with ((map fst acc ++ [k]) ++ map fst props) in Hord
        by (by rewrite <- app_assoc).
      by apply enumerationOrder_app_l in Hord.
    + rewrite map_app in Hnd. apply NoDup_app in Hnd as (_ & Hdisj & _).
      intros Hin. apply (Hdisj k Hin). simpl. left.
    + done.
Qed.

Lemma depth_item (x : JsValue) (items : list JsValue) :
  x ∈ items -> (depth x <= foldr (fun x => Nat.max (depth x)) 0 items)%nat.
Proof.
  induction items as [|y items IH]; [intros Hin; by apply elem_of_nil in Hin|].
  intros [->|Hin]%elem_of_cons; simpl; [lia|]. specialize (IH Hin). lia.
Qed.

Lemma depth_prop (p : string * JsValue) (props : list (string * JsValue)) :
  p ∈ props -> (depth (snd p) <= foldr (fun p => Nat.max (depth (snd p))) 0 props)%nat.
Proof.
  induction props as [|q props IH]; [intros Hin; by apply elem_of_nil in Hin|].
  intros [->|Hin]%elem_of_cons; simpl; [lia|]. specialize (IH Hin). lia.
Qed.

Lemma hasProtoKey_object (props : list (string * JsValue)) :
  hasProtoKey (JObject props) = false ->
  ("__proto__" ∉ map fst props)
  ∧ Forall (fun p => hasProtoKey (snd p) = false) props.
Proof.
  simpl. induction props as [|[k v] props IH]; simpl.
  - intros _. split; [apply not_elem_of_nil | constructor].
  - intros [[Hk Hv]%orb_false_elim Hrest]%orb_false_elim.
    destruct (IH Hrest) as [Hnot Hall]. split.
    + apply not_elem_of_cons. split; [|done].
      apply String.eqb_neq in Hk. congruence.
    + by constructor.
Qed.

(** What a value costs in fuel and what the conversion needs of the
    document: that it holds the nodes built for the value. *)
Lemma buildValue_of_built (v : JsValue) :
  representable v = true -> hasProtoKey v = false ->
  ∀ m next id m' next' d fuel,
    buildNode v m next = (id, m', next') ->
    (∀ j, (next <= j < next')%nat -> nodes d !! mkId j = m' !! mkId j) ->
    (depth v <= fuel)%nat ->
    buildValue fuel d id = Some v.
Proof.
  induction v as [| b | n | s | items IH | props IH] using JsValue_nested_ind;
    intros Hrep Hproto m next id m' next' d fuel Hbuild Hagree Hfuel.
  1-4: simpl in Hbuild; simplify_eq;
       (destruct fuel as [|fuel]; [simpl in Hfuel; lia|]); simpl;
       rewrite Hagree by lia; rewrite lookup_insert_eq; reflexivity.
  - rewrite buildNode_array in Hbuild.
    destruct (buildItems items m (S next)) as [[cs m1] n1] eqn:Hitems.
    simplify_eq.
    destruct fuel as [|fuel]; [simpl in Hfuel; lia|]. simpl.
    pose proof (buildItems_built _ _ _ _ _ _ Hitems) as [(Hle & _) _].
    rewrite Hagree by lia. rewrite lookup_insert_eq.
    assert (Hagree1 : ∀ j, (S next <= j < next')%nat ->
                           nodes d !! mkId j = m1 !! mkId j).
    { intros j Hj. rewrite Hagree by lia. apply lookup_insert_ne.
      intros Heq%mkId_inj. lia. }
    assert (mapM (buildValue fuel d) cs = Some items) as ->; [|done].
    apply mapM_Some.
    assert (Hdepth : ∀ x, x ∈ items -> (depth x <= fuel)%nat).
    { intros x Hx. pose proof (depth_item x items Hx). simpl in Hfuel. lia. }
    simpl in Hrep, Hproto.
    clear Hagree Hfuel Hle. revert m cs m1 next' Hitems Hagree1 Hrep Hproto Hdepth.
    generalize (S next) as n0.
    induction IH as [|x items Hx _ IHitems];
      intros n0 m cs m1 next' Hitems Hagree Hrep Hproto Hdepth; simpl in Hitems.
    + simplify_eq. constructor.
    + destruct (buildNode x m n0) as [[c ma] na] eqn:Hx1.
      destruct (buildItems items ma na) as [[cs' mb] nb] eqn:Hrest.
      simplify_eq. simpl in Hrep, Hproto.
      apply andb_prop in Hrep as [Hrepx Hrep].
      apply orb_false_elim in Hproto as [Hprotox Hproto].
      destruct (buildNode_built _ _ _ _ _ _ Hx1) as (-> & Hlt & _).
      pose proof (buildItems_built _ _ _ _ _ _ Hrest) as [(Hle & Hframe & _) _].
      constructor.
      * eapply (Hx Hrepx Hprotox _ _ _ _ _ d fuel Hx1).
        -- intros j Hj. rewrite Hagree by lia. apply Hframe.
           intros j' Hj' Heq%mkId_inj. lia.
        -- apply Hdepth. left.
      * eapply (IHitems _ _ _ _ _ Hrest); try done.
        -- intros j Hj. apply Hagree. lia.
        -- intros y Hy. apply Hdepth. by right.
  - rewrite buildNode_object in Hbuild.
    destruct (buildEntries props m (S next)) as [[es m1] n1] eqn:Hentries.
    simplify_eq.
    destruct fuel as [|fuel]; [simpl in Hfuel; lia|]. simpl.
    pose proof (buildEntries_built _ _ _ _ _ _ Hentries) as [(Hle & _) _].
    rewrite Hagree by lia. rewrite lookup_insert_eq.
    assert (Hagree1 : ∀ j, (S next <= j < next')%nat ->
                           nodes d !! mkId j = m1 !! mkId j).
    { intros j Hj. rewrite Hagree by lia. apply lookup_insert_ne.
      intros Heq%mkId_inj. lia. }
    assert (Hdepth : ∀ p, p ∈ props -> (depth (snd p) <= fuel)%nat).
    { intros p Hp. pose proof (depth_prop p props Hp). simpl in Hfuel. lia. }
    destruct (hasProtoKey_object props Hproto) as [Hnoproto Hprotos].
    simpl in Hrep. apply andb_prop in Hrep as [[Hord Hnd]%andb_prop Hreps].
    apply bool_decide_eq_true in Hnd.
    rewrite (forEachM_set_rebuilds fuel d es props); [done | | done | done | done].
    clear Hagree Hfuel Hle Hproto Hnoproto Hord Hnd.
    revert m es m1 next' Hentries Hagree1 Hreps Hprotos Hdepth.
    generalize (S next) as n0.
    induction IH as [|[k x] props Hx _ IHprops];
      intros n0 m es m1 next' Hentries Hagree Hreps Hprotos Hdepth;
      simpl in Hentries.
    + simplify_eq. constructor.
    + destruct (buildNode x m n0) as [[c ma] na] eqn:Hx1.
      destruct (buildEntries props ma na) as [[es' mb] nb] eqn:Hrest.
      simplify_eq. simpl in Hreps, Hx.
      apply andb_prop in Hreps as [Hrepx Hreps].
      apply Forall_cons in Hprotos as [Hprotox Hprotos]. simpl in Hprotox.
      destruct (buildNode_built _ _ _ _ _ _ Hx1) as (-> & Hlt & _).
      pose proof (buildEntries_built _ _ _ _ _ _ Hrest) as [(Hle & Hframe & _) _].
      constructor.
      * split; [done|]. simpl.
        eapply (Hx Hrepx Hprotox _ _ _ _ _ d fuel Hx1).
        -- intros j Hj. rewrite Hagree by lia. apply Hframe.
           intros j' Hj' Heq%mkId_inj. lia.
        -- apply (Hdepth (k, x)). left.
      * eapply (IHprops _ _ _ _ _ Hrest); try done.
        -- intros j Hj. apply Hagree. lia.
        -- intros y Hy. apply Hdepth. by right.
Qed.

(** X1: the round trip of the node store.  For every value JavaScript can
    hold in which no object has the own key [__proto__], converting the
    document built from the value gives the value back: the same keys in
    the same order, the same items, the same scalars. *)
Lemma roundtrip_without_proto_key (v : JsValue) (next fuel : nat) :
  representable v = true -> hasProtoKey v = false ->
  (depth v <= fuel)%nat ->
  documentToJson fuel (buildDocumentFromValue v next).1 = Some v.
Proof.
  intros Hrep Hproto Hfuel. unfold buildDocumentFromValue, documentToJson.
  destruct (buildNode v ∅ next) as [[id m'] next'] eqn:Hbuild. simpl.
  by eapply buildValue_of_built.
Qed.

(** ** Documents that can be traversed *)

Lemma refines_refl (m : gmap string JsonNode) : refines m m.
Proof. intros k n Hk. exists n. done. Qed.

Lemma refines_trans (m1 m2 m3 : gmap string JsonNode) :
  refines m1 m2 -> refines m2 m3 -> refines m1 m3.
Proof.
  intros H12 H23 k n3 Hk.
  destruct (H23 k n3 Hk) as (n2 & Hk2 & Hid2 & Hch2).
  destruct (H12 k n2 Hk2) as (n1 & Hk1 & Hid1 & Hch1).
  exists n1. split; [done|]. split; [congruence|]. set_solver.
Qed.

Lemma refines_delete (m : gmap string JsonNode) (k : string) : refines m (delete k m).
Proof.
  intros k' n Hk. apply lookup_delete_Some in Hk as [_ Hk]. exists n. done.
Qed.

Lemma refines_insert (m : gmap string JsonNode) (k : string) (old new : JsonNode) :
  m !! k = Some old -> node_id new = node_id old -> children new ⊆ children old ->
  refines m (<[k := new]> m).
Proof.
  intros Hold Hid Hch k' n Hk. destruct (decide (k = k')) as [->|Hne].
  - rewrite lookup_insert_eq in Hk. simplify_eq. exists old. done.
  - rewrite lookup_insert_ne in Hk by done. exists n. done.
Qed.

Lemma refines_acyclic (B : nat) (m m' : gmap string JsonNode) :
  refines m m' -> acyclic B m -> acyclic B m'.
Proof.
  intros Href (rank & Hrank). exists rank. intros k n' Hk.
  destruct (Href k n' Hk) as (n & Hn & _ & Hch).
  destruct (Hrank k n Hn) as [Hb Hdec]. split; [done|].
  intros c Hc. apply Hdec. by apply Hch.
Qed.

Lemma refines_doc_ok (B next : nat) (r : string) (m m' : gmap string JsonNode) :
  refines m m' -> doc_ok B next (mkDoc r m) -> doc_ok B next (mkDoc r m').
Proof.
  intros Href (Hac & Hids & Hfresh). simpl in *. split; [|split]; simpl.
  - by eapply refines_acyclic.
  - intros k n' Hk. destruct (Href k n' Hk) as (n & Hn & Hid & _).
    rewrite Hid. by apply Hids.
  - intros j Hj. destruct (m' !! mkId j) as [n'|] eqn:Hk; [|done].
    destruct (Href _ n' Hk) as (n & Hn & _). rewrite Hfresh in Hn; done.
Qed.

Lemma acyclic_mono (B B' : nat) (m : gmap string JsonNode) :
  (B <= B')%nat -> acyclic B m -> acyclic B' m.
Proof.
  intros Hle (rank & Hrank). exists rank. intros k n Hk.
  destruct (Hrank k n Hk). split; [lia|done].
Qed.

Lemma doc_ok_mono (B B' next next' : nat) (d : DocumentState) :
  (B <= B')%nat -> (next <= next')%nat -> doc_ok B next d -> doc_ok B' next' d.
Proof.
  intros HB Hn (Hac & Hids & Hfresh). split; [|split]; [|done|].
  - by eapply acyclic_mono.
  - intros j Hj. apply Hfresh. lia.
Qed.

Lemma entry_ok_mono (B B' next next' : nat) (h : HistoryEntry) :
  (B <= B')%nat -> (next <= next')%nat -> entry_ok B next h -> entry_ok B' next' h.
Proof. intros HB Hn Hok d Hd. eapply doc_ok_mono; eauto. Qed.

Lemma state_ok_mono (B B' next next' : nat) (s : EditorState) :
  (B <= B')%nat -> (next <= next')%nat -> state_ok B next s -> state_ok B' next' s.
Proof.
  intros HB Hn (Hdoc & Hundo & Hredo). split; [|split].
  - intros d Hd. eapply doc_ok_mono; eauto.
  - eapply Forall_impl; [exact Hundo|]. intros h. by apply entry_ok_mono.
  - eapply Forall_impl; [exact Hredo|]. intros h. by apply entry_ok_mono.
Qed.

(** *** Traversals return *)

Section Traversals.
Context `{Platform}.
Context (rank : string -> nat).

Lemma ranked_refines (m m' : gmap string JsonNode) :
  refines m m' -> ranked rank m -> ranked rank m'.
Proof.
  intros Href Hrank k n' Hk c Hc.
  destruct (Href k n' Hk) as (n & Hn & _ & Hch).
  apply (Hrank k n Hn). by apply Hch.
Qed.

Lemma visit_returns (d : DocumentState) (lower : string) :
  ranked rank (nodes d) ->
  ∀ fuel nodeId matches,
    (0 < fuel)%nat ->
    (∀ n, nodes d !! nodeId = Some n -> (rank nodeId < fuel)%nat) ->
    is_Some (visit fuel d lower nodeId matches).
Proof.
  intros Hrank fuel. induction fuel as [|fuel IH]; intros nodeId matches Hpos Hfuel;
    [lia|].
  simpl. destruct (nodes d !! nodeId) as [node|] eqn:Hnode; [|done].
  specialize (Hfuel node eq_refl).
  assert (Hchild : ∀ c ms, c ∈ children node -> is_Some (visit fuel d lower c ms)).
  { intros c ms Hc. pose proof (Hrank _ _ Hnode c Hc).
    apply IH; [lia|]. intros; lia. }
  destruct node as [i entries | i items | | | |];
    try (destruct (JsString.includes _ _); done).
  - match goal with
    | |- is_Some (forEachM ?f ?s ?l) =>
        destruct (forEachM_invariant f (fun _ => True) l s) as (ms & -> & _)
    end; [done| |done].
    intros ms entry Hentry _.
    edestruct (Hchild (childId entry)) as [ms' ->];
      [simpl; by apply list_elem_of_fmap_2|]. eauto.
  - match goal with
    | |- is_Some (forEachM ?f ?s ?l) =>
        destruct (forEachM_invariant f (fun _ => True) l s) as (ms & -> & _)
    end; [done| |done].
    intros ms item Hitem _.
    edestruct (Hchild item) as [ms' ->]; [done|]. eauto.
Qed.

Lemma collectSubtreeIds_returns (d : DocumentState) :
  ranked rank (nodes d) ->
  ∀ fuel nodeId bucket,
    (0 < fuel)%nat ->
    (∀ n, nodes d !! nodeId = Some n -> (rank nodeId < fuel)%nat) ->
    is_Some (collectSubtreeIds fuel d nodeId bucket).
Proof.
  intros Hrank fuel. induction fuel as [|fuel IH]; intros nodeId bucket Hpos Hfuel;
    [lia|].
  simpl. destruct (nodes d !! nodeId) as [node|] eqn:Hnode; [|done].
  specialize (Hfuel node eq_refl).
  match goal with
  | |- is_Some (forEachM ?f ?s ?l) =>
      destruct (forEachM_invariant f (fun _ => True) l s) as (b & -> & _)
  end; [done| |done].
  intros b c Hc _. pose proof (Hrank _ _ Hnode c Hc).
  edestruct (IH c b) as [b' ->]; [lia | intros; lia | eauto].
Qed.

Lemma removeSubtree_refines :
  ∀ fuel m id m', removeSubtree fuel m id = Some m' -> refines m m'.
Proof.
  induction fuel as [|fuel IH]; intros m id m' Hrm; [done|].
  simpl in Hrm. destruct (m !! id) as [node|] eqn:Hnode.
  - destruct (forEachM _ m (children node)) as [m1|] eqn:Hfold; [|done].
    simpl in Hrm. simplify_eq.
    eapply refines_trans; [|apply refines_delete].
    clear Hnode. revert m Hfold. induction (children node) as [|c cs IHcs];
      intros m Hfold; simpl in Hfold.
    + simplify_eq. apply refines_refl.
    + destruct (removeSubtree fuel m c) as [m2|] eqn:Hc; [|done]. simpl in Hfold.
      eapply refines_trans; [by eapply IH | by apply IHcs].
  - simplify_eq. apply refines_refl.
Qed.

Lemma removeSubtree_returns :
  ∀ fuel m id,
    ranked rank m -> (0 < fuel)%nat ->
    (∀ n, m !! id = Some n -> (rank id < fuel)%nat) ->
    is_Some (removeSubtree fuel m id).
Proof.
  induction fuel as [|fuel IH]; intros m id Hrank Hpos Hfuel; [lia|].
  simpl. destruct (m !! id) as [node|] eqn:Hnode; [|done].
  specialize (Hfuel node eq_refl).
  match goal with
  | |- is_Some (m' ← forEachM ?f ?s ?l; _) =>
      destruct (forEachM_invariant f (fun m' => refines m m') l s) as (m1 & -> & _)
  end; [apply refines_refl| |done].
  intros m' c Hc Href. pose proof (Hrank _ _ Hnode c Hc).
  edestruct (IH m' c) as [m2 Hm2].
  - by eapply ranked_refines.
  - lia.
  - intros; lia.
  - exists m2. split; [done|].
    eapply refines_trans; [exact Href | by eapply removeSubtree_refines].
Qed.

End Traversals.

(** *** Sorting *)

Section SortFacts.
Context {A : Type} (compareFn : A -> A -> Z).

Lemma insertSorted_Permutation (x : A) (l : list A) :
  insertSorted compareFn x l ≡ₚ x :: l.
Proof.
  induction l as [|y l IH]; simpl; [done|].
  destruct (0 <? compareFn x y); [|done].
  rewrite IH. apply Permutation_swap.
Qed.

Lemma Array_sort_Permutation (l : list A) : Array_sort compareFn l ≡ₚ l.
Proof.
  induction l as [|x l IH]; simpl; [done|].
  rewrite insertSorted_Permutation. by rewrite IH.
Qed.

End SortFacts.

Lemma forEachM_refines {A : Type}
    (f : gmap string JsonNode -> A -> option (gmap string JsonNode)) (l : list A) :
  (∀ m x m', x ∈ l -> f m x = Some m' -> refines m m') ->
  ∀ m m', forEachM f m l = Some m' -> refines m m'.
Proof.
  induction l as [|x l IH]; intros Hf m m' Hfold; simpl in Hfold.
  - simplify_eq. apply refines_refl.
  - destruct (f m x) as [m1|] eqn:Hx; [|done]. simpl in Hfold.
    eapply refines_trans.
    + eapply Hf; [left | done].
    + apply IH; [|done]. intros m2 y m3 Hy. apply Hf. by right.
Qed.

Section MoreTraversals.
Context `{Platform}.

Lemma sorted_children (entries : list ObjectEntry) :
  map childId (Array_sort (fun a b => localeCompare (key a) (key b)) entries)
  ≡ₚ map childId entries.
Proof. apply Permutation_map', Array_sort_Permutation. Qed.

Lemma sorted_children_subseteq (i : string) (entries : list ObjectEntry) :
  children (ObjectNode i (Array_sort (fun a b => localeCompare (key a) (key b)) entries))
  ⊆ children (ObjectNode i entries).
Proof. cbn [children]. intros c. by rewrite sorted_children. Qed.

Lemma sortObject_refines :
  ∀ fuel m id m', sortObject fuel m id = Some m' -> refines m m'.
Proof.
  induction fuel as [|fuel IH]; intros m id m' Hsort; [done|].
  simpl in Hsort. destruct (m !! id) as [[i entries | i items | | | |]|] eqn:Hnode;
    simplify_eq; try apply refines_refl.
  - eapply refines_trans.
    + apply (refines_insert m id (ObjectNode i entries)
               (ObjectNode i (Array_sort (fun a b => localeCompare (key a) (key b))
                                         entries))); [done | done |].
      apply sorted_children_subseteq.
    + eapply forEachM_refines; [|exact Hsort]. intros m1 e m2 _. apply IH.
  - eapply forEachM_refines; [|exact Hsort]. intros m1 e m2 _. apply IH.
Qed.

Lemma sortObject_returns (rank : string -> nat) :
  ∀ fuel m id,
    ranked rank m -> (0 < fuel)%nat ->
    (∀ n, m !! id = Some n -> (rank id < fuel)%nat) ->
    is_Some (sortObject fuel m id).
Proof.
  induction fuel as [|fuel IH]; intros m id Hrank Hpos Hfuel; [lia|].
  simpl. destruct (m !! id) as [node|] eqn:Hnode; [|done].
  specialize (Hfuel node eq_refl).
  assert (Hstep : ∀ m' c, refines m m' -> c ∈ children node ->
                          ∃ m'', sortObject fuel m' c = Some m'' ∧ refines m m'').
  { intros m' c Href Hc. pose proof (Hrank _ _ Hnode c Hc).
    edestruct (IH m' c) as [m2 Hm2].
    - by eapply ranked_refines.
    - lia.
    - intros; lia.
    - exists m2. split; [done|].
      eapply refines_trans; [exact Href | by eapply sortObject_refines]. }
  destruct node as [i entries | i items | | | |]; try done.
  - match goal with
    | |- is_Some (forEachM ?f ?s ?l) =>
        destruct (forEachM_invariant f (fun m' => refines m m') l s) as (m1 & -> & _)
    end; [ | |done].
    + apply (refines_insert m id (ObjectNode i entries)
               (ObjectNode i (Array_sort (fun a b => localeCompare (key a) (key b))
                                         entries))); [done | done |].
      apply sorted_children_subseteq.
    + intros m' e He Href. apply Hstep; [done|].
      apply sorted_children_subseteq. cbn [children].
      by apply list_elem_of_fmap_2.
  - match goal with
    | |- is_Some (forEachM ?f ?s ?l) =>
        destruct (forEachM_invariant f (fun m' => refines m m') l s) as (m1 & -> & _)
    end; [apply refines_refl | |done].
    intros m' c Hc Href. by apply Hstep.
Qed.

(** *** Parent links *)

Lemma foldl_parents (p : string) (cs : list string) (r : gmap string string)
    (c q : string) :
  foldl (fun ps c => <[c := p]> ps) r cs !! c = Some q ->
  (c ∈ cs ∧ q = p) ∨ r !! c = Some q.
Proof.
  revert r. induction cs as [|c' cs IH]; intros r; simpl; [by right|].
  intros Hc. destruct (IH _ Hc) as [[Hin ->]|Hr].
  - left. split; [by right | done].
  - destruct (decide (c' = c)) as [->|Hne].
    + rewrite lookup_insert_eq in Hr. simplify_eq. left. split; [left | done].
    + rewrite lookup_insert_ne in Hr by done. by right.
Qed.

Lemma buildParentMap_parent (d : DocumentState) (c p : string) :
  buildParentMap d !! c = Some p ->
  ∃ k n, nodes d !! k = Some n ∧ node_id n = p ∧ c ∈ children n.
Proof.
  unfold buildParentMap. revert c p.
  apply (map_fold_weak_ind
           (fun parents m => ∀ c p, parents !! c = Some p ->
              ∃ k n, m !! k = Some n ∧ node_id n = p ∧ c ∈ children n)).
  - intros c p Hc. by rewrite lookup_empty in Hc.
  - intros i x m r Hi IH c p Hc.
    destruct (foldl_parents _ _ _ _ _ Hc) as [[Hin ->]|Hr].
    + exists i, x. rewrite lookup_insert_eq. done.
    + destruct (IH c p Hr) as (k & n & Hk & Hid & Hin).
      exists k, n. rewrite lookup_insert_ne; [done|]. intros ->. congruence.
Qed.

Lemma walkUp_returns (rank : string -> nat) (B : nat) (parents : gmap string string) :
  (∀ c p, parents !! c = Some p -> (rank c < rank p < B)%nat) ->
  ∀ fuel current path,
    (∀ c, current = Some c -> (B - rank c < fuel)%nat) ->
    is_Some (walkUp fuel current parents path).
Proof.
  intros Hpar fuel. induction fuel as [|fuel IH]; intros current path Hfuel.
  - destruct current as [c|]; [|done]. specialize (Hfuel c eq_refl). lia.
  - simpl. destruct current as [c|]; [|done]. simpl.
    destruct (JsString.truthy c); [|done].
    apply IH. intros p Hp. specialize (Hpar _ _ Hp). specialize (Hfuel c eq_refl). lia.
Qed.

Lemma expandAncestors_returns (rank : string -> nat) (B : nat)
    (parents : gmap string string) :
  (∀ c p, parents !! c = Some p -> (rank c < rank p < B)%nat) ->
  ∀ fuel current expanded,
    (∀ c, current = Some c -> (B - rank c < fuel)%nat) ->
    is_Some (expandAncestors fuel current parents expanded).
Proof.
  intros Hpar fuel. induction fuel as [|fuel IH]; intros current expanded Hfuel.
  - destruct current as [c|]; [|done]. specialize (Hfuel c eq_refl). lia.
  - simpl. destruct current as [c|]; [|done]. simpl.
    destruct (JsString.truthy c); [|done].
    apply IH. intros p Hp. specialize (Hpar _ _ Hp). specialize (Hfuel c eq_refl). lia.
Qed.

Lemma parents_ranked (rank : string -> nat) (B : nat) (d : DocumentState) :
  (∀ k n, nodes d !! k = Some n ->
     (rank k < B)%nat ∧ ∀ c, c ∈ children n -> (rank c < rank k)%nat) ->
  ids_consistent (nodes d) ->
  ∀ c p, buildParentMap d !! c = Some p -> (rank c < rank p < B)%nat.
Proof.
  intros Hrank Hids c p Hc.
  destruct (buildParentMap_parent d c p Hc) as (k & n & Hk & Hid & Hin).
  rewrite (Hids k n Hk) in Hid. subst p.
  destruct (Hrank k n Hk) as [Hb Hdec]. specialize (Hdec c Hin). lia.
Qed.

End MoreTraversals.

(** ** Search and the end of a document change *)

Section Finalize.
Context `{Platform}.

(** [applySearch] touches only the match list, the active match, the
    expansion set and the anchor path. *)
Lemma applySearch_core (fuel : nat) (state state' : EditorState)
    (docOverride : option DocumentState) (anchorOverride : option (list string)) :
  applySearch fuel state docOverride anchorOverride = Some state' ->
  searchView state' = searchView state.
Proof.
  unfold applySearch. intros Happly.
  repeat (case_match; simplify_option_eq); reflexivity.
Qed.

Lemma applySearch_returns (B fuel : nat) (state : EditorState)
    (docOverride : option DocumentState) (anchorOverride : option (list string)) :
  (∀ d, match docOverride with Some d => Some d | None => doc state end = Some d ->
        acyclic B (nodes d) ∧ ids_consistent (nodes d)) ->
  (B < fuel)%nat ->
  is_Some (applySearch fuel state docOverride anchorOverride).
Proof.
  intros Hok Hfuel. unfold applySearch.
  destruct (match docOverride with Some d => Some d | None => doc state end)
    as [d|]; [|done].
  destruct (Hok d eq_refl) as [(rank & Hrank) Hids].
  destruct (JsString.truthy _); [|done].
  unfold findSearchMatches.
  edestruct (visit_returns rank d) as [ms ->].
  - intros k n Hk. by apply Hrank.
  - lia.
  - intros n Hn. destruct (Hrank _ _ Hn). lia.
  - simpl. match goal with |- is_Some (?e ≫= _) => assert (is_Some e) as [ex ->] end;
      [|done].
    destruct (JsString.truthyOpt _); [|done].
    eapply (expandAncestors_returns rank B); [by apply parents_ranked|].
    intros c _. lia.
Qed.

Lemma resolveAnchorPath_returns (B fuel : nat) (d : DocumentState)
    (anchors : list string) :
  acyclic B (nodes d) -> ids_consistent (nodes d) -> (B < fuel)%nat ->
  is_Some (resolveAnchorPath fuel d anchors).
Proof.
  intros (rank & Hrank) Hids Hfuel. unfold resolveAnchorPath.
  destruct (lastOf anchors) as [t|]; [|done].
  destruct (JsString.truthy t); [|done].
  unfold buildAnchorPath.
  destruct (walkUp_returns rank B (buildParentMap d)
              (parents_ranked rank B d Hrank Hids) fuel (Some t) []) as [path ->].
  - intros c _. lia.
  - simpl. destruct (reverse path) as [|x xs]; [done|].
    destruct (String.eqb x (rootId d)); done.
Qed.

Lemma finalize_view (state base : EditorState) (d' : DocumentState)
    (value : JsValue) (focusId : option string) (path : list string) :
  searchView base
  = searchView
      (state <| doc := Some d' |> <| rawText := formatJson value (indent state) |>
             <| lastValidText := formatJson value (indent state) |>
             <| parseError := None |>
             <| selectedId := match focusId with
                              | Some f => Some f
                              | None => selectedId state
                              end |>
             <| preSearchExpanded := preSearchExpanded state |>
             <| anchorPath := path |>) ->
  searchView (withHistory state base true)
  = searchView (changedState state d' value focusId).
Proof.
  destruct state, base. unfold searchView, withHistory, changedState. cbn.
  intros [=]. subst. reflexivity.
Qed.

(** A change to a document that can be traversed returns, and the next
    state is the changed state with the search recomputed. *)
Lemma finalizeDocumentChange_returns (B fuel : nat) (state : EditorState)
    (d' : DocumentState) (focusId : option string) :
  acyclic B (nodes d') -> ids_consistent (nodes d') -> (B < fuel)%nat ->
  ∃ state' value,
    finalizeDocumentChange fuel state d' focusId = Some state'
    ∧ documentToJson fuel d' = Some value
    ∧ searchView state' = searchView (changedState state d' value focusId).
Proof.
  intros Hac Hids Hfuel. unfold finalizeDocumentChange.
  pose proof Hac as (rank & Hrank).
  destruct (buildValue_returns rank d') with (fuel := fuel) (nodeId := rootId d')
    as [value Hvalue].
  { intros k n Hk. by apply Hrank. }
  { lia. }
  { intros n Hn. destruct (Hrank _ _ Hn). lia. }
  fold (documentToJson fuel d') in Hvalue.
  rewrite (bind_step _ _ _ Hvalue). cbv beta.
  destruct (resolveAnchorPath_returns B fuel d' (anchorPath state)) as [path Hpath];
    [done..|].
  rewrite (bind_step _ _ _ Hpath). cbv beta.
  match goal with
  | |- context [applySearch fuel ?st ?dov ?aov] =>
      destruct (applySearch_returns B fuel st dov aov) as [base Hbase]
  end; [by intros d [= <-] | done |].
  rewrite (bind_step _ _ _ Hbase). cbv beta.
  eexists _, value. split; [reflexivity|]. split; [done|].
  apply applySearch_core in Hbase. by eapply finalize_view.
Qed.

Lemma finalizeDocumentChange_inv (fuel : nat) (state state' : EditorState)
    (d' : DocumentState) (focusId : option string) :
  finalizeDocumentChange fuel state d' focusId = Some state' ->
  ∃ value,
    documentToJson fuel d' = Some value
    ∧ searchView state' = searchView (changedState state d' value focusId).
Proof.
  unfold finalizeDocumentChange. intros Hfin.
  apply bind_Some in Hfin as (value & Hvalue & Hfin).
  apply bind_Some in Hfin as (path & Hpath & Hfin).
  apply bind_Some in Hfin as (base & Hbase & Hfin).
  injection Hfin as <-. exists value. split; [done|].
  apply applySearch_core in Hbase. by eapply finalize_view.
Qed.

End Finalize.

(** ** Accepted and rejected mutations *)

(** The fields of a state that [searchView] keeps. *)
Ltac view_fields Hview :=
  let Hdoc := fresh "Hdoc" in
  let Hraw := fresh "Hraw" in
  let Hlast := fresh "Hlast" in
  let Hundo := fresh "Hundo" in
  let Hredo := fresh "Hredo" in
  pose proof (f_equal doc Hview) as Hdoc;
  pose proof (f_equal rawText Hview) as Hraw;
  pose proof (f_equal lastValidText Hview) as Hlast;
  pose proof (f_equal undoStack Hview) as Hundo;
  pose proof (f_equal redoStack Hview) as Hredo;
  cbn in Hdoc, Hraw, Hlast, Hundo, Hredo.

Section Mutations.
Context `{Platform}.

Lemma snapshot_ok (B next : nat) (state : EditorState) :
  state_ok B next state ->
  Forall (entry_ok B next) (take 50 (snapshotState state :: undoStack state)).
Proof.
  intros (Hdoc & Hundo & _). apply Forall_take. constructor; [|done].
  intros d Hd. by apply Hdoc.
Qed.

(** The step every accepted change of the document ends with. *)
Lemma finalize_step (B B' next next' fuel : nat) (state : EditorState)
    (d' : DocumentState) (focusId : option string) :
  state_ok B next state -> doc_ok B' next' d' ->
  (B <= B')%nat -> (next <= next')%nat -> (B' < fuel)%nat ->
  ∃ state' value,
    finalizeDocumentChange fuel state d' focusId = Some state'
    ∧ documentToJson fuel d' = Some value
    ∧ searchView state' = searchView (changedState state d' value focusId)
    ∧ state_ok B' next' state'
    ∧ pushed state state'.
Proof.
  intros Hok (Hac & Hids & Hfresh) HB Hnext Hfuel.
  destruct (finalizeDocumentChange_returns B' fuel state d' focusId)
    as (state' & value & Hfin & Hvalue & Hview); [done..|].
  exists state', value. split; [done|]. split; [done|]. split; [done|].
  view_fields Hview. split; [split; [|split]|split]; try done.
  - intros d Hd. rewrite Hdoc in Hd. by simplify_eq.
  - rewrite Hundo. eapply Forall_impl; [by apply snapshot_ok|].
    intros h. by apply entry_ok_mono.
  - rewrite Hredo. constructor.
Qed.

Lemma untouched_refl (state : EditorState) : untouched state state.
Proof. by repeat split. Qed.

Lemma untouched_notice (state : EditorState) (n : option Notice) :
  untouched state (state <| notice := n |>).
Proof. by repeat split. Qed.

Lemma state_ok_untouched (B next : nat) (state state' : EditorState) :
  untouched state state' -> state_ok B next state -> state_ok B next state'.
Proof.
  intros (Hdoc & _ & _ & Hundo & Hredo) (Hd & Hu & Hr).
  split; [|split]; by rewrite ?Hdoc, ?Hundo, ?Hredo.
Qed.

End Mutations.

Section Unfoldings.
Context `{Platform}.

Lemma editPrimitive_accepted (fuel : nat) (state : EditorState) (d : DocumentState)
    (nodeId : string) (node : JsonNode) (value : PrimValue)
    (newType : option NodeType) :
  doc state = Some d -> nodes d !! nodeId = Some node ->
  acceptsEdit node value newType = true ->
  editPrimitive fuel state nodeId value newType
  = finalizeDocumentChange fuel state (editedDoc d nodeId node value newType)
      (Some nodeId).
Proof.
  intros Hdoc Hnode Hacc. unfold editPrimitive, editedDoc, editedNode, acceptsEdit in *.
  rewrite Hdoc, Hnode.
  destruct node; simpl in *; try done;
    destruct (nullish newType _); try done;
    destruct value; simpl in *; try done;
    destruct (JsNum.isNaN _); done.
Qed.

Lemma editPrimitive_rejected (fuel : nat) (state : EditorState) (nodeId : string)
    (value : PrimValue) (newType : option NodeType) :
  accepts state (EDIT_PRIMITIVE nodeId value newType) = false ->
  ∃ state', editPrimitive fuel state nodeId value newType = Some state'
            ∧ untouched state state'.
Proof.
  unfold accepts, editPrimitive, acceptsEdit.
  destruct (doc state) as [d|]; simpl; [|eauto using untouched_refl].
  destruct (nodes d !! nodeId) as [node|]; [|eauto using untouched_refl].
  destruct node; simpl; eauto using untouched_refl;
    destruct (nullish newType _); try done;
    destruct value; simpl; try done; eauto using untouched_notice;
    destruct (JsNum.isNaN _); try done; eauto using untouched_notice.
Qed.

Lemma js_find_existsb {A : Type} (p : A -> bool) (l : list A) :
  existsb p l = match js_find p l with Some _ => true | None => false end.
Proof.
  unfold js_find. induction l as [|x l IH]; simpl; [done|].
  destruct (p x); simpl; done.
Qed.

Lemma renameKey_accepted (fuel : nat) (state : EditorState) (d : DocumentState)
    (parentId childId' newKey pid : string) (entries : list ObjectEntry) :
  doc state = Some d -> nodes d !! parentId = Some (ObjectNode pid entries) ->
  accepts state (RENAME_KEY parentId childId' newKey) = true ->
  renameKey fuel state parentId childId' newKey
  = finalizeDocumentChange fuel state
      (renamedDoc d parentId childId' newKey pid entries) (Some childId').
Proof.
  intros Hdoc Hnode. unfold accepts, renameKey, renamedDoc.
  rewrite Hdoc. simpl. rewrite Hnode.
  unfold keyTakenByOther, hasChild. rewrite !js_find_existsb.
  destruct (JsString.truthy _); simpl; [|done].
  destruct (js_find _ entries); simpl; [done|].
  destruct (js_find _ entries); simpl; done.
Qed.

Lemma renameKey_rejected (fuel : nat) (state : EditorState)
    (parentId childId' newKey : string) :
  accepts state (RENAME_KEY parentId childId' newKey) = false ->
  ∃ state', renameKey fuel state parentId childId' newKey = Some state'
            ∧ untouched state state'.
Proof.
  unfold accepts, renameKey.
  destruct (doc state) as [d|]; simpl; [|eauto using untouched_refl].
  destruct (JsString.truthy _); simpl; [|eauto using untouched_notice].
  destruct (nodes d !! parentId) as [[pid entries| | | | |]|];
    eauto using untouched_refl.
  unfold keyTakenByOther, hasChild. rewrite !js_find_existsb.
  destruct (js_find _ entries); simpl; [eauto using untouched_notice|].
  destruct (js_find _ entries); simpl; [done|eauto using untouched_refl].
Qed.

Lemma addNode_accepted (fuel : nat) (state : EditorState) (d : DocumentState)
    (parentId : string) (parent : JsonNode) (parentType : ParentType)
    (key' : option string) (newType : NodeType) (next : nat) :
  doc state = Some d -> nodes d !! parentId = Some parent ->
  acceptsAdd parent parentType key' = true ->
  addNodeToDocument fuel state parentId parentType key' newType next
  = (s ← finalizeDocumentChange fuel state
           (addedDoc d parentId parent key' newType next) (Some (mkId next));
     Some (s, S next)).
Proof.
  intros Hdoc Hnode. unfold acceptsAdd, addNodeToDocument, addedDoc, keyTaken.
  rewrite Hdoc, Hnode.
  destruct parentType, parent; try done.
  destruct key' as [k|]; [|done]. rewrite js_find_existsb.
  destruct (JsString.truthy k && JsString.truthy (JsString.trim k)); [|done].
  cbn [andb negb]. destruct (js_find _ entries); done.
Qed.

Lemma addNode_rejected (fuel : nat) (state : EditorState) (parentId : string)
    (parentType : ParentType) (key' : option string) (newType : NodeType)
    (next : nat) :
  accepts state (ADD_NODE parentId parentType key' newType) = false ->
  ∃ state' next',
    addNodeToDocument fuel state parentId parentType key' newType next
    = Some (state', next')
    ∧ (next <= next')%nat ∧ untouched state state'.
Proof.
  unfold accepts, addNodeToDocument, acceptsAdd, keyTaken.
  destruct (doc state) as [d|]; simpl; [|eauto 6 using untouched_refl].
  destruct (nodes d !! parentId) as [parent|]; [|eauto 6 using untouched_refl].
  destruct parentType, parent; try done;
    eauto 6 using untouched_refl, untouched_notice.
  destruct key' as [k|]; [|eauto 6 using untouched_notice].
  rewrite js_find_existsb.
  destruct (JsString.truthy k && JsString.truthy (JsString.trim k));
    [|eauto 6 using untouched_notice].
  cbn [andb negb].
  destruct (js_find _ entries); [eauto 6 using untouched_notice|done].
Qed.

Lemma deleteNode_accepted (fuel : nat) (state : EditorState) (d : DocumentState)
    (parentId childId' : string) (parent : JsonNode) :
  doc state = Some d -> nodes d !! parentId = Some parent ->
  deleteNode fuel state parentId childId'
  = (nodes1 ← removeSubtree fuel (nodes d) childId';
     finalizeDocumentChange fuel state (deletedDoc d parentId childId' parent nodes1)
       (Some parentId)).
Proof. intros Hdoc Hnode. unfold deleteNode. by rewrite Hdoc, Hnode. Qed.

Lemma deleteNode_rejected (fuel : nat) (state : EditorState)
    (parentId childId' : string) :
  accepts state (DELETE_NODE parentId childId') = false ->
  deleteNode fuel state parentId childId' = Some state.
Proof.
  unfold accepts, deleteNode.
  destruct (doc state) as [d|]; simpl; [|done].
  destruct (nodes d !! parentId); done.
Qed.

Lemma moveArrayItem_accepted (fuel : nat) (state : EditorState) (d : DocumentState)
    (parentId childId' pid : string) (items : list string) (direction : Direction) :
  doc state = Some d -> nodes d !! parentId = Some (ArrayNode pid items) ->
  acceptsMove (ArrayNode pid items) childId' direction = true ->
  moveArrayItem fuel state parentId childId' direction
  = finalizeDocumentChange fuel state
      (movedDoc d parentId childId' direction pid items) (Some childId').
Proof.
  intros Hdoc Hnode. unfold acceptsMove, moveArrayItem, movedDoc, movedItems.
  rewrite Hdoc, Hnode.
  destruct (indexOf items childId' =? -1); simpl; [done|].
  destruct (_ || _); simpl; done.
Qed.

Lemma moveArrayItem_rejected (fuel : nat) (state : EditorState)
    (parentId childId' : string) (direction : Direction) :
  accepts state (MOVE_ARRAY_ITEM parentId childId' direction) = false ->
  moveArrayItem fuel state parentId childId' direction = Some state.
Proof.
  unfold accepts, moveArrayItem, acceptsMove.
  destruct (doc state) as [d|]; simpl; [|done].
  destruct (nodes d !! parentId) as [[| pid items | | | |]|]; try done.
  destruct (indexOf items childId' =? -1); simpl; [done|].
  destruct (_ || _); simpl; done.
Qed.

Lemma sortKeys_accepted (fuel : nat) (state : EditorState) (d : DocumentState)
    (scope : SortScope) :
  doc state = Some d ->
  sortKeys fuel state scope
  = (nodes' ← match sortStart state d scope with
              | Some start => sortObject fuel (nodes d) start
              | None => Some (nodes d)
              end;
     finalizeDocumentChange fuel state (mkDoc (rootId d) nodes') (selectedId state)).
Proof.
  intros Hdoc. unfold sortKeys, sortStart. rewrite Hdoc.
  destruct scope; [|done].
  destruct (selectedId state) as [sel|]; [|done].
  destruct (JsString.truthy sel); done.
Qed.

End Unfoldings.

(** ** Accepted mutations keep documents traversable *)

Lemma refines_insert_over (m m1 : gmap string JsonNode) (k : string)
    (old new : JsonNode) :
  refines m m1 -> m !! k = Some old ->
  node_id new = node_id old -> children new ⊆ children old ->
  refines m (<[k := new]> m1).
Proof.
  intros Href Hold Hid Hch k' n Hk. destruct (decide (k = k')) as [->|Hne].
  - rewrite lookup_insert_eq in Hk. simplify_eq. exists old. done.
  - rewrite lookup_insert_ne in Hk by done. by apply Href.
Qed.

Lemma renameFirst_children (entries : list ObjectEntry) (c t : string) :
  map childId (renameFirst entries c t) = map childId entries.
Proof.
  induction entries as [|e entries IH]; simpl; [done|].
  destruct (String.eqb (childId e) c); simpl; [done|]. by rewrite IH.
Qed.

Lemma indexOf_elem (l : list string) (x : string) :
  indexOf l x ≠ -1 -> x ∈ l.
Proof.
  induction l as [|y l IH]; simpl; [done|].
  destruct (String.eqb y x) eqn:Heq.
  - apply String.eqb_eq in Heq as ->. intros _. left.
  - destruct (indexOf l x <? 0) eqn:Hneg; [done|]. intros _. right. apply IH.
    apply Z.ltb_ge in Hneg. lia.
Qed.

Lemma movedItems_subseteq (items : list string) (c : string) (direction : Direction) :
  indexOf items c ≠ -1 -> movedItems items c direction ⊆ items.
Proof.
  intros Hidx x. unfold movedItems.
  rewrite !elem_of_app, list_elem_of_singleton.
  intros [Hx|[->|Hx]].
  - apply subseteq_take in Hx. apply elem_of_app in Hx as [Hx|Hx].
    + by apply subseteq_take in Hx.
    + by apply subseteq_drop in Hx.
  - by apply indexOf_elem.
  - apply subseteq_drop in Hx. apply elem_of_app in Hx as [Hx|Hx].
    + by apply subseteq_take in Hx.
    + by apply subseteq_drop in Hx.
Qed.

Section Preservation.
Context `{Platform}.

Lemma editedDoc_refines (d : DocumentState) (nodeId : string) (node : JsonNode)
    (value : PrimValue) (newType : option NodeType) :
  ids_consistent (nodes d) -> nodes d !! nodeId = Some node ->
  acceptsEdit node value newType = true ->
  refines (nodes d) (nodes (editedDoc d nodeId node value newType)).
Proof.
  intros Hids Hnode Hacc. simpl.
  apply (refines_insert _ _ node); [done| |].
  - rewrite (Hids _ _ Hnode). unfold editedNode.
    destruct (nullish newType _); try done; try by apply Hids.
    destruct value; try done; by apply Hids.
  - unfold editedNode, acceptsEdit in *.
    destruct (nullish newType _); try (intros c Hc; by apply elem_of_nil in Hc);
      try done.
    destruct value; try done. intros c Hc; by apply elem_of_nil in Hc.
Qed.

Lemma renamedDoc_refines (d : DocumentState) (parentId childId' newKey pid : string)
    (entries : list ObjectEntry) :
  nodes d !! parentId = Some (ObjectNode pid entries) ->
  refines (nodes d) (nodes (renamedDoc d parentId childId' newKey pid entries)).
Proof.
  intros Hnode. simpl.
  apply (refines_insert _ _ (ObjectNode pid entries)); [done|done|].
  cbn [children]. by rewrite renameFirst_children.
Qed.

Lemma movedDoc_refines (d : DocumentState) (parentId childId' pid : string)
    (items : list string) (direction : Direction) :
  nodes d !! parentId = Some (ArrayNode pid items) ->
  acceptsMove (ArrayNode pid items) childId' direction = true ->
  refines (nodes d) (nodes (movedDoc d parentId childId' direction pid items)).
Proof.
  intros Hnode Hacc. simpl.
  apply (refines_insert _ _ (ArrayNode pid items)); [done|done|].
  cbn [children]. apply movedItems_subseteq.
  unfold acceptsMove in Hacc. apply andb_prop in Hacc as [Hidx _].
  apply negb_true_iff, Z.eqb_neq in Hidx. done.
Qed.

Lemma withoutChild_children (parent : JsonNode) (c : string) :
  children (withoutChild parent c) ⊆ children parent.
Proof.
  destruct parent as [pid entries|pid items| | | |]; simpl; try done.
  - intros x Hx. apply list_elem_of_fmap in Hx as (e & -> & He).
    apply list_elem_of_filter in He as [_ He]. by apply list_elem_of_fmap_2.
  - intros x Hx. by apply list_elem_of_filter in Hx as [_ Hx].
Qed.

Lemma withoutChild_id (parent : JsonNode) (c : string) :
  node_id (withoutChild parent c) = node_id parent.
Proof. by destruct parent. Qed.

Lemma deletedDoc_refines (d : DocumentState) (parentId childId' : string)
    (parent : JsonNode) (nodes1 : gmap string JsonNode) :
  nodes d !! parentId = Some parent -> refines (nodes d) nodes1 ->
  refines (nodes d) (nodes (deletedDoc d parentId childId' parent nodes1)).
Proof.
  intros Hnode Href. simpl. destruct (nodes1 !! parentId); [|done].
  eapply refines_insert_over; eauto using withoutChild_id, withoutChild_children.
Qed.

Lemma newNodeOf_leaf (newType : NodeType) (i : string) :
  node_id (newNodeOf newType i) = i ∧ children (newNodeOf newType i) = [].
Proof. by destruct newType. Qed.

Lemma withChild_id (parent : JsonNode) (k : option string) (c : string) :
  node_id (withChild parent k c) = node_id parent.
Proof. by destruct parent. Qed.

Lemma withChild_children (parent : JsonNode) (k : option string) (c x : string) :
  x ∈ children (withChild parent k c) -> x ∈ children parent ∨ x = c.
Proof.
  destruct parent as [pid entries|pid items| | | |]; simpl; auto.
  - rewrite map_app. simpl. rewrite elem_of_app, list_elem_of_singleton. tauto.
  - rewrite elem_of_app, list_elem_of_singleton. tauto.
Qed.

Lemma addedDoc_nodes (d : DocumentState) (parentId : string) (parent : JsonNode)
    (key' : option string) (newType : NodeType) (next : nat) :
  ids_fresh next (nodes d) -> nodes d !! parentId = Some parent ->
  nodes (addedDoc d parentId parent key' newType next)
  = <[parentId := withChild parent key' (mkId next)]>
      (<[mkId next := newNodeOf newType (mkId next)]> (nodes d)).
Proof.
  intros Hfresh Hnode. simpl. unfold storeParent.
  destruct (decide (mkId next = parentId)) as [<-|]; [|done].
  rewrite Hfresh in Hnode; [done|lia].
Qed.

Lemma addedDoc_ok (B next : nat) (d : DocumentState) (parentId : string)
    (parent : JsonNode) (key' : option string) (newType : NodeType) :
  doc_ok B next d -> nodes d !! parentId = Some parent ->
  doc_ok (S B) (S next) (addedDoc d parentId parent key' newType next).
Proof.
  intros ((rank & Hrank) & Hids & Hfresh) Hnode.
  assert (Hne : mkId next ≠ parentId).
  { intros <-. rewrite Hfresh in Hnode; [done|lia]. }
  unfold doc_ok. rewrite addedDoc_nodes by done.
  split; [|split].
  - exists (fun k => if decide (k = mkId next) then 0%nat else S (rank k)).
    assert (Hchild : ∀ k n c, nodes d !! k = Some n -> k ≠ mkId next ->
               (c ∈ children n ∨ c = mkId next) ->
               ((if decide (c = mkId next) then 0 else S (rank c)) < S (rank k))%nat).
    { intros k n c Hk Hkne Hc. destruct (decide (c = mkId next)); [lia|].
      destruct Hc as [Hc|]; [|done]. destruct (Hrank k n Hk) as [_ Hdec].
      specialize (Hdec c Hc). lia. }
    intros k n Hk. destruct (decide (k = parentId)) as [->|Hkp].
    + rewrite lookup_insert_eq in Hk. simplify_eq.
      rewrite decide_False by done. destruct (Hrank _ _ Hnode) as [Hb _].
      split; [lia|]. intros c Hc. apply withChild_children in Hc.
      by eapply Hchild.
    + rewrite lookup_insert_ne in Hk by done.
      destruct (decide (k = mkId next)) as [->|Hkn].
      * rewrite lookup_insert_eq in Hk. simplify_eq. split; [lia|].
        destruct (newNodeOf_leaf newType (mkId next)) as [_ ->].
        intros c Hc. by apply elem_of_nil in Hc.
      * rewrite lookup_insert_ne in Hk by done.
        destruct (Hrank _ _ Hk) as [Hb _]. split; [lia|].
        intros c Hc. eapply Hchild; eauto.
  - intros k n Hk. destruct (decide (k = parentId)) as [->|Hkp].
    + rewrite lookup_insert_eq in Hk. simplify_eq.
      rewrite withChild_id. by apply Hids.
    + rewrite lookup_insert_ne in Hk by done.
      destruct (decide (k = mkId next)) as [->|Hkn].
      * rewrite lookup_insert_eq in Hk. simplify_eq.
        by destruct (newNodeOf_leaf newType (mkId next)).
      * rewrite lookup_insert_ne in Hk by done. by apply Hids.
  - intros j Hj. rewrite !lookup_insert_ne.
    + apply Hfresh. lia.
    + intros Heq%mkId_inj. lia.
    + intros ->. rewrite Hfresh in Hnode; [done|lia].
Qed.

End Preservation.

(** ** One step of the reducer on a mutation *)

Section Steps.
Context `{Platform}.

Lemma applyParse_accepted (B next fuel : nat) (state : EditorState) (text : string)
    (value : JsValue) :
  state_ok B next state -> JSON_parse text = Parsed value ->
  (Nat.max B (S (buildDocumentFromValue value next).2) < fuel)%nat ->
  ∃ state',
    applyParse fuel state text next
    = Some (state', (buildDocumentFromValue value next).2)
    ∧ (next <= (buildDocumentFromValue value next).2)%nat
    ∧ state_ok (Nat.max B (S (buildDocumentFromValue value next).2))
               (buildDocumentFromValue value next).2 state'
    ∧ pushed state state'
    ∧ doc state' = Some (buildDocumentFromValue value next).1
    ∧ rawText state' = formatJson value (indent state).
Proof.
  intros Hok Hparse Hfuel. unfold applyParse, parseJson. rewrite Hparse.
  unfold buildDocumentFromValue in *.
  destruct (buildNode value ∅ next) as [[root m'] next'] eqn:Hbuild. simpl in *.
  destruct (buildNode_built _ _ _ _ _ _ Hbuild) as (-> & Hlt & Hbuilt).
  destruct (built_doc_ok _ _ _ Hbuilt) as (Hac & Hids & Hfresh).
  match goal with
  | |- context [applySearch fuel ?st ?dov ?aov] =>
      destruct (applySearch_returns (S next') fuel st dov aov) as [base Hbase]
  end; [by intros d [= <-] | lia |].
  rewrite Hbase. simpl. eexists. split; [reflexivity|].
  apply applySearch_core in Hbase. view_fields Hbase.
  split; [lia|]. split; [|split; [|split]]; simpl; try done.
  - split; [|split]; simpl.
    + intros d Hd. rewrite Hdoc in Hd. simplify_eq.
      split; [|split]; simpl; [|done|done].
      eapply acyclic_mono; [|done]. lia.
    + eapply Forall_impl; [by apply snapshot_ok|].
      intros h. apply entry_ok_mono; lia.
    + constructor.
Qed.

Lemma applyParse_rejected (fuel next : nat) (state : EditorState) (text : string) :
  parses text = false ->
  ∃ state', applyParse fuel state text next = Some (state', next)
            ∧ untouched state state'.
Proof.
  unfold parses, applyParse, parseJson.
  destruct (JSON_parse text) as [value|msg]; [done|]. intros _.
  destruct (positionMatch msg); [destruct (getLineColumn _ _)|];
    eexists; (split; [reflexivity|]); by repeat split.
Qed.

(** The reducer on the commands that change the document. *)
Lemma reducer_parse (fuel next : nat) (state : EditorState) :
  editorReducer fuel state PARSE_TEXT next = applyParse fuel state (rawText state) next.
Proof. reflexivity. Qed.

Lemma reducer_load (fuel next : nat) (state : EditorState) (text : string) :
  editorReducer fuel state (LOAD_TEXT text) next = applyParse fuel state text next.
Proof. reflexivity. Qed.

Lemma reducer_snippet (fuel next : nat) (state : EditorState) (id text : string) :
  snippetContents state !! id = Some text -> JsString.truthy text = true ->
  editorReducer fuel state (LOAD_SNIPPET id) next = applyParse fuel state text next.
Proof. intros Hs Ht. cbn [editorReducer]. by rewrite Hs, Ht. Qed.

Lemma reducer_edit (fuel next : nat) (state : EditorState) (nodeId : string)
    (value : PrimValue) (newType : option NodeType) :
  editorReducer fuel state (EDIT_PRIMITIVE nodeId value newType) next
  = (s ← editPrimitive fuel state nodeId value newType; Some (s, next)).
Proof. reflexivity. Qed.

Lemma reducer_rename (fuel next : nat) (state : EditorState)
    (parentId childId' newKey : string) :
  editorReducer fuel state (RENAME_KEY parentId childId' newKey) next
  = (s ← renameKey fuel state parentId childId' newKey; Some (s, next)).
Proof. reflexivity. Qed.

Lemma reducer_add (fuel next : nat) (state : EditorState) (parentId : string)
    (parentType : ParentType) (key' : option string) (newType : NodeType) :
  editorReducer fuel state (ADD_NODE parentId parentType key' newType) next
  = addNodeToDocument fuel state parentId parentType key' newType next.
Proof. reflexivity. Qed.

Lemma reducer_delete (fuel next : nat) (state : EditorState)
    (parentId childId' : string) :
  editorReducer fuel state (DELETE_NODE parentId childId') next
  = (s ← deleteNode fuel state parentId childId'; Some (s, next)).
Proof. reflexivity. Qed.

Lemma reducer_sort (fuel next : nat) (state : EditorState) (scope : SortScope) :
  editorReducer fuel state (SORT_KEYS scope) next
  = (s ← sortKeys fuel state scope; Some (s, next)).
Proof. reflexivity. Qed.

Lemma reducer_move (fuel next : nat) (state : EditorState)
    (parentId childId' : string) (direction : Direction) :
  editorReducer fuel state (MOVE_ARRAY_ITEM parentId childId' direction) next
  = (s ← moveArrayItem fuel state parentId childId' direction; Some (s, next)).
Proof. reflexivity. Qed.

Lemma doc_ok_refines (B next : nat) (d : DocumentState) (m' : gmap string JsonNode) :
  doc_ok B next d -> refines (nodes d) m' -> doc_ok B next (mkDoc (rootId d) m').
Proof.
  intros Hok Href. eapply (refines_doc_ok _ _ _ (nodes d)); [done|]. by destruct d.
Qed.

(** An accepted mutation returns once the fuel exceeds a bound that
    depends on the state and the command only; the next state satisfies
    the state invariant and its history has the snapshot of the state
    before on top. *)
Lemma mutation_step (B next : nat) (state : EditorState) (action : Action) :
  state_ok B next state -> accepts state action = true ->
  ∃ B', (B <= B')%nat ∧
    ∀ fuel, (B' < fuel)%nat ->
      ∃ state' next',
        editorReducer fuel state action next = Some (state', next')
        ∧ (next <= next')%nat
        ∧ state_ok B' next' state'
        ∧ pushed state state'.
Proof.
  intros Hok Hacc. pose proof Hok as (Hdocok & _ & _).
  assert (Hparse : ∀ text v, JSON_parse text = Parsed v ->
            ∃ B', (B <= B')%nat ∧ ∀ fuel, (B' < fuel)%nat ->
              ∃ state' next',
                applyParse fuel state text next = Some (state', next')
                ∧ (next <= next')%nat ∧ state_ok B' next' state'
                ∧ pushed state state').
  { intros text v Hp. eexists. split; [|intros fuel Hfuel].
    2: { destruct (applyParse_accepted B next fuel state _ v Hok Hp Hfuel)
           as (s' & Hs' & Hle & Hok' & Hpush & _).
         exists s'. eexists. split; [exact Hs'|]. split; [exact Hle|].
         split; [exact Hok'|exact Hpush]. }
    lia. }
  assert (Hfin : ∀ B' next' fuel d' focus,
            doc_ok B' next' d' -> (B <= B')%nat -> (next <= next')%nat ->
            (B' < fuel)%nat ->
            ∃ state', finalizeDocumentChange fuel state d' focus = Some state'
                      ∧ state_ok B' next' state' ∧ pushed state state').
  { intros B' next' fuel d' focus Hd' HB Hn Hfuel.
    destruct (finalize_step B B' next next' fuel state d' focus)
      as (s' & v & Hs' & _ & _ & Hok' & Hpush); try done.
    exists s'. done. }
  destruct action; cbn [accepts] in Hacc; try done.
  - (* PARSE_TEXT *)
    unfold parses in Hacc. destruct (JSON_parse (rawText state)) as [v|] eqn:Hp; [|done].
    destruct (Hparse _ _ Hp) as (B' & HB & Hrun). exists B'. split; [done|].
    intros fuel Hfuel. rewrite reducer_parse. by apply Hrun.
  - (* LOAD_TEXT *)
    unfold parses in Hacc. destruct (JSON_parse text) as [v|] eqn:Hp; [|done].
    destruct (Hparse _ _ Hp) as (B' & HB & Hrun). exists B'. split; [done|].
    intros fuel Hfuel. rewrite reducer_load. by apply Hrun.
  - (* EDIT_PRIMITIVE *)
    destruct (doc state) as [d|] eqn:Hdoc; cbn in Hacc; [|done].
    destruct (nodes d !! nodeId) as [node|] eqn:Hnode; [|done].
    destruct (Hdocok d eq_refl) as (Hac & Hids & Hfresh).
    exists B. split; [lia|]. intros fuel Hfuel.
    rewrite reducer_edit, (editPrimitive_accepted fuel state d nodeId node) by done.
    destruct (Hfin B next fuel (editedDoc d nodeId node value newType) (Some nodeId))
      as (s' & Hs' & Hok' & Hpush); try done.
    { apply doc_ok_refines; [by apply Hdocok|]. by apply editedDoc_refines. }
    rewrite (bind_step _ _ _ Hs'). exists s', next. done.
  - (* RENAME_KEY *)
    destruct (doc state) as [d|] eqn:Hdoc; cbn in Hacc; [|done].
    destruct (nodes d !! parentId) as [[pid entries| | | | |]|] eqn:Hnode; try done.
    exists B. split; [lia|]. intros fuel Hfuel.
    rewrite reducer_rename,
      (renameKey_accepted fuel state d parentId childId0 newKey pid entries);
      [|done|done|by cbn [accepts]; rewrite Hdoc; cbn; rewrite Hnode].
    destruct (Hfin B next fuel (renamedDoc d parentId childId0 newKey pid entries)
                (Some childId0)) as (s' & Hs' & Hok' & Hpush); try done.
    { apply doc_ok_refines; [by apply Hdocok|]. by apply renamedDoc_refines. }
    rewrite (bind_step _ _ _ Hs'). exists s', next. done.
  - (* ADD_NODE *)
    destruct (doc state) as [d|] eqn:Hdoc; cbn in Hacc; [|done].
    destruct (nodes d !! parentId) as [parent|] eqn:Hnode; [|done].
    exists (S B). split; [lia|]. intros fuel Hfuel.
    rewrite reducer_add, (addNode_accepted fuel state d parentId parent) by done.
    destruct (Hfin (S B) (S next) fuel
                (addedDoc d parentId parent key0 newType next) (Some (mkId next)))
      as (s' & Hs' & Hok' & Hpush); try done; try lia.
    { apply addedDoc_ok; [by apply Hdocok | done]. }
    rewrite (bind_step _ _ _ Hs'). exists s', (S next).
    split; [done|]. split; [lia|]. done.
  - (* DELETE_NODE *)
    destruct (doc state) as [d|] eqn:Hdoc; cbn in Hacc; [|done].
    destruct (nodes d !! parentId) as [parent|] eqn:Hnode; [|done].
    destruct (Hdocok d eq_refl) as (Hac & Hids & Hfresh).
    exists B. split; [lia|]. intros fuel Hfuel.
    rewrite reducer_delete, (deleteNode_accepted fuel state d parentId childId0 parent)
      by done.
    destruct Hac as (rank & Hrank).
    destruct (removeSubtree_returns rank fuel (nodes d) childId0) as [nodes1 Hrm].
    { intros k n Hk. by apply Hrank. }
    { lia. }
    { intros n Hn. destruct (Hrank _ _ Hn). lia. }
    rewrite (bind_step _ _ _ Hrm). cbv beta.
    destruct (Hfin B next fuel (deletedDoc d parentId childId0 parent nodes1)
                (Some parentId)) as (s' & Hs' & Hok' & Hpush); try done.
    { apply doc_ok_refines; [by apply Hdocok|].
      apply deletedDoc_refines; [done|]. by eapply removeSubtree_refines. }
    rewrite (bind_step _ _ _ Hs'). exists s', next. done.
  - (* SORT_KEYS *)
    destruct (doc state) as [d|] eqn:Hdoc; [|done].
    destruct (Hdocok d eq_refl) as (Hac & Hids & Hfresh).
    exists B. split; [lia|]. intros fuel Hfuel.
    rewrite reducer_sort, (sortKeys_accepted fuel state d scope) by done.
    destruct Hac as (rank & Hrank).
    assert (∃ nodes', match sortStart state d scope with
                      | Some start => sortObject fuel (nodes d) start
                      | None => Some (nodes d)
                      end = Some nodes' ∧ refines (nodes d) nodes')
      as (nodes' & Hsort & Href).
    { destruct (sortStart state d scope) as [start|];
        [|eauto using refines_refl].
      destruct (sortObject_returns rank fuel (nodes d) start) as [nodes' Hs].
      - intros k n Hk. by apply Hrank.
      - lia.
      - intros n Hn. destruct (Hrank _ _ Hn). lia.
      - exists nodes'. split; [done|]. by eapply sortObject_refines. }
    rewrite (bind_step _ _ _ Hsort). cbv beta.
    destruct (Hfin B next fuel (mkDoc (rootId d) nodes') (selectedId state))
      as (s' & Hs' & Hok' & Hpush); try done.
    { apply doc_ok_refines; [by apply Hdocok|done]. }
    rewrite (bind_step _ _ _ Hs'). exists s', next. done.
  - (* MOVE_ARRAY_ITEM *)
    destruct (doc state) as [d|] eqn:Hdoc; cbn in Hacc; [|done].
    destruct (nodes d !! parentId) as [[|pid items| | | |]|] eqn:Hnode; try done.
    exists B. split; [lia|]. intros fuel Hfuel.
    rewrite reducer_move,
      (moveArrayItem_accepted fuel state d parentId childId0 pid items) by done.
    destruct (Hfin B next fuel (movedDoc d parentId childId0 direction pid items)
                (Some childId0)) as (s' & Hs' & Hok' & Hpush); try done.
    { apply doc_ok_refines; [by apply Hdocok|]. by apply movedDoc_refines. }
    rewrite (bind_step _ _ _ Hs'). exists s', next. done.
  - (* LOAD_SNIPPET *)
    destruct (snippetContents state !! id) as [text|] eqn:Hsnip; [|done].
    apply andb_prop in Hacc as [Htruthy Hacc].
    unfold parses in Hacc. destruct (JSON_parse text) as [v|] eqn:Hp; [|done].
    destruct (Hparse _ _ Hp) as (B' & HB & Hrun). exists B'. split; [done|].
    intros fuel Hfuel. rewrite (reducer_snippet fuel next state id text) by done.
    by apply Hrun.
Qed.

End Steps.

(** * Further properties of the engine *)

(** ** The node store *)

(** X1 (witness): the sample value survives the round trip. *)
Lemma roundtrip_without_proto_key_witness :
  representable Demo.sampleValue = true
  ∧ hasProtoKey Demo.sampleValue = false
  ∧ documentToJson 3 (buildDocumentFromValue Demo.sampleValue 0).1
    = Some Demo.sampleValue.
Proof.
  split; [reflexivity|]. split; [reflexivity|].
  apply (roundtrip_without_proto_key Demo.sampleValue 0 3);
    [reflexivity | reflexivity | simpl; lia].
Defined.

(** X2: [buildDocumentFromValue] draws the root identifier first and
    returns a document whose root is stored, whose nodes are stored under
    their own identifiers, whose child references all resolve and contain
    no cycle, and which uses none of the identifiers still to be drawn. *)
Theorem built_document_well_formed (value : JsValue) (next : nat) :
  rootId (buildDocumentFromValue value next).1 = mkId next
  ∧ is_Some (nodes (buildDocumentFromValue value next).1 !! mkId next)
  ∧ (next < (buildDocumentFromValue value next).2)%nat
  ∧ ids_consistent (nodes (buildDocumentFromValue value next).1)
  ∧ acyclic (S (buildDocumentFromValue value next).2)
            (nodes (buildDocumentFromValue value next).1)
  ∧ ids_fresh (buildDocumentFromValue value next).2
              (nodes (buildDocumentFromValue value next).1)
  ∧ (∀ k n c, nodes (buildDocumentFromValue value next).1 !! k = Some n ->
              c ∈ children n ->
              is_Some (nodes (buildDocumentFromValue value next).1 !! c)).
Proof.
  unfold buildDocumentFromValue.
  destruct (buildNode value ∅ next) as [[root m'] next'] eqn:Hbuild. simpl.
  destruct (buildNode_built _ _ _ _ _ _ Hbuild) as (-> & Hlt & Hbuilt).
  destruct (built_doc_ok _ _ _ Hbuilt) as (Hac & Hids & Hfresh).
  pose proof Hbuilt as (_ & _ & Hnew).
  split; [done|]. split.
  { destruct (Hnew next) as (n & Hn & _); [lia|]. by rewrite Hn. }
  split; [done|]. split; [done|]. split; [done|]. split; [done|].
  intros k n c Hk Hc.
  destruct (built_key _ _ _ _ _ Hbuilt Hk) as (j & Hj & ->).
  destruct (Hnew j Hj) as (n' & Hn' & _ & Hch). simplify_eq.
  destruct (Hch c Hc) as (j' & Hj' & ->).
  destruct (Hnew j') as (n'' & Hn'' & _); [lia|]. by rewrite Hn''.
Qed.

(** ** History *)

Lemma emptyState_ok : state_ok 0 0 Demo.emptyState.
Proof. split; [|split]; [by intros d Hd | constructor | constructor]. Qed.

Lemma sampleState_parsed :
  applyParse (H := Demo.platform) 10 Demo.emptyState "sample" 0
  = Some (Demo.sampleState, 5%nat).
Proof. vm_compute. reflexivity. Qed.

Lemma sampleState_ok : state_ok 6 5 Demo.sampleState.
Proof.
  destruct (applyParse_accepted (H := Demo.platform) 0 0 10 Demo.emptyState "sample"
              Demo.sampleValue emptyState_ok eq_refl)
    as (s' & Hs' & _ & Hok & _).
  { vm_compute. lia. }
  rewrite sampleState_parsed in Hs'.
  assert (Hnext : (buildDocumentFromValue Demo.sampleValue 0).2 = 5%nat)
    by (vm_compute; reflexivity).
  rewrite Hnext in Hs', Hok. by simplify_eq.
Qed.

Section History.
Context `{Platform}.

(** X3: an accepted mutation (an edit, rename, add, delete, move or sort
    whose guards pass, or a parse or load of a text that parses) returns
    once the fuel exceeds a bound; the undo stack of the next state is the
    snapshot of the state before followed by the former stack, cut to its
    50 newest entries, and the redo stack is empty. *)
Theorem accepted_mutation_pushes_snapshot
    (B next : nat) (state : EditorState) (action : Action) :
  state_ok B next state -> accepts state action = true ->
  ∃ B', (B <= B')%nat ∧
    ∀ fuel, (B' < fuel)%nat ->
      ∃ state' next',
        editorReducer fuel state action next = Some (state', next')
        ∧ undoStack state' = snapshotState state :: take 49 (undoStack state)
        ∧ (length (undoStack state') <= 50)%nat
        ∧ redoStack state' = []
        ∧ h_doc (snapshotState state) = doc state
        ∧ h_rawText (snapshotState state) = rawText state
        ∧ state_ok B' next' state'.
Proof.
  intros Hok Hacc.
  destruct (mutation_step B next state action Hok Hacc) as (B' & HB & Hrun).
  exists B'. split; [done|]. intros fuel Hfuel.
  destruct (Hrun fuel Hfuel) as (s' & n' & Hred & _ & Hok' & Hundo & Hredo).
  exists s', n'. split; [done|]. split; [done|]. split.
  { rewrite Hundo. rewrite length_take. lia. }
  done.
Qed.

End History.

Lemma accepted_mutation_pushes_snapshot_witness :
  state_ok 6 5 Demo.sampleState
  ∧ accepts (H := Demo.platform) Demo.sampleState (DELETE_NODE "id-0" "id-2") = true
  ∧ ∃ B', (6 <= B')%nat ∧
      ∀ fuel, (B' < fuel)%nat ->
        ∃ state' next',
          editorReducer (H := Demo.platform) fuel Demo.sampleState
            (DELETE_NODE "id-0" "id-2") 5 = Some (state', next')
          ∧ undoStack state'
            = snapshotState Demo.sampleState :: take 49 (undoStack Demo.sampleState)
          ∧ (length (undoStack state') <= 50)%nat
          ∧ redoStack state' = []
          ∧ h_doc (snapshotState Demo.sampleState) = doc Demo.sampleState
          ∧ h_rawText (snapshotState Demo.sampleState) = rawText Demo.sampleState
          ∧ state_ok B' next' state'.
Proof.
  split; [exact sampleState_ok|]. split; [reflexivity|].
  apply (accepted_mutation_pushes_snapshot (H := Demo.platform) 6 5 Demo.sampleState
           (DELETE_NODE "id-0" "id-2") sampleState_ok).
  reflexivity.
Defined.

Section Rejections.
Context `{Platform}.

Lemma sortKeys_without_document (fuel : nat) (state : EditorState) (scope : SortScope) :
  doc state = None -> sortKeys fuel state scope = Some state.
Proof. intros Hdoc. unfold sortKeys. by rewrite Hdoc. Qed.

(** A command on the document whose guards fail. *)
Lemma rejected_step (fuel next : nat) (state : EditorState) (action : Action) :
  isMutation action = true -> accepts state action = false ->
  ∃ state' next',
    editorReducer fuel state action next = Some (state', next')
    ∧ (next <= next')%nat ∧ untouched state state'.
Proof.
  intros Hmut Hacc.
  assert (Hpure : ∀ r : option EditorState,
            (∃ s', r = Some s' ∧ untouched state s') ->
            ∃ state' next', (s ← r; Some (s, next)) = Some (state', next')
              ∧ (next <= next')%nat ∧ untouched state state').
  { intros r (s' & -> & Hun). exists s', next. split; [done|]. split; [lia|done]. }
  assert (Hparse : ∀ text, parses text = false ->
            ∃ state' next', applyParse fuel state text next = Some (state', next')
              ∧ (next <= next')%nat ∧ untouched state state').
  { intros text Hp. destruct (applyParse_rejected fuel next state text Hp)
      as (s' & Hs' & Hun). exists s', next. split; [done|]. split; [lia|done]. }
  destruct action; try done; cbn [accepts] in Hacc.
  - rewrite reducer_parse. by apply Hparse.
  - rewrite reducer_load. by apply Hparse.
  - rewrite reducer_edit. apply Hpure. by apply editPrimitive_rejected.
  - rewrite reducer_rename. apply Hpure. by apply renameKey_rejected.
  - rewrite reducer_add. by apply addNode_rejected.
  - rewrite reducer_delete. apply Hpure. exists state.
    split; [by apply deleteNode_rejected | apply untouched_refl].
  - rewrite reducer_sort. apply Hpure. exists state.
    split; [|apply untouched_refl]. apply sortKeys_without_document.
    by destruct (doc state).
  - rewrite reducer_move. apply Hpure. exists state.
    split; [by apply moveArrayItem_rejected | apply untouched_refl].
  - cbn [editorReducer].
    destruct (snippetContents state !! id) as [text|];
      [|exists state, next; split; [done|]; split; [lia|apply untouched_refl]].
    destruct (JsString.truthy text);
      [|exists state, next; split; [done|]; split; [lia|apply untouched_refl]].
    by apply Hparse.
Qed.

(** X4: a command on the document whose guards fail (a missing document,
    parent or node, a kind mismatch, a blank or taken key, a value that is
    no number, a move off the end of the array, a text that does not
    parse) returns for any fuel, and the state it returns has the
    document, the text, the last valid text and both history stacks of
    the state before.  The identifiers the command looks up are no names
    of inherited properties: under such a name the guards for a missing
    node do not fail. *)
Theorem rejected_mutation_changes_nothing
    (fuel next : nat) (state : EditorState) (action : Action) :
  isMutation action = true -> accepts state action = false ->
  Forall plain (namedIds action) ->
  ∃ state' next',
    editorReducer fuel state action next = Some (state', next')
    ∧ (next <= next')%nat
    ∧ doc state' = doc state
    ∧ rawText state' = rawText state
    ∧ lastValidText state' = lastValidText state
    ∧ undoStack state' = undoStack state
    ∧ redoStack state' = redoStack state.
Proof.
  intros Hmut Hacc _.
  destruct (rejected_step fuel next state action Hmut Hacc)
    as (s' & n' & Hred & Hle & Hd & Hr & Hl & Hu & Hre).
  exists s', n'. done.
Qed.

End Rejections.

Lemma rejected_mutation_changes_nothing_witness :
  isMutation (ADD_NODE "id-0" PObject (Some " a ") TString) = true
  ∧ accepts (H := Demo.platform) Demo.sampleState
      (ADD_NODE "id-0" PObject (Some " a ") TString) = false
  ∧ Forall plain (namedIds (ADD_NODE "id-0" PObject (Some " a ") TString))
  ∧ ∃ state' next',
      editorReducer (H := Demo.platform) 0 Demo.sampleState
        (ADD_NODE "id-0" PObject (Some " a ") TString) 5 = Some (state', next')
      ∧ (5 <= next')%nat
      ∧ doc state' = doc Demo.sampleState
      ∧ rawText state' = rawText Demo.sampleState
      ∧ lastValidText state' = lastValidText Demo.sampleState
      ∧ undoStack state' = undoStack Demo.sampleState
      ∧ redoStack state' = redoStack Demo.sampleState.
Proof.
  split; [reflexivity|]. split; [reflexivity|].
  split; [by repeat constructor|].
  apply (rejected_mutation_changes_nothing (H := Demo.platform) 0 5 Demo.sampleState
           (ADD_NODE "id-0" PObject (Some " a ") TString));
    [reflexivity | reflexivity | by repeat constructor].
Defined.

Section UndoRedo.
Context `{Platform}.

Lemma reducer_undo (fuel next : nat) (state : EditorState) (previous : HistoryEntry)
    (remaining : list HistoryEntry) :
  undoStack state = previous :: remaining ->
  editorReducer fuel state UNDO next
  = (s ← applySearch fuel (undoTarget state previous remaining)
           (doc (undoTarget state previous remaining))
           (Some (anchorPath (undoTarget state previous remaining)));
     Some (s, next)).
Proof. intros Hstack. cbn [editorReducer]. rewrite Hstack. reflexivity. Qed.

Lemma reducer_redo (fuel next : nat) (state : EditorState) (nextEntry : HistoryEntry)
    (remaining : list HistoryEntry) :
  redoStack state = nextEntry :: remaining ->
  editorReducer fuel state REDO next
  = (s ← applySearch fuel (redoTarget state nextEntry remaining)
           (doc (redoTarget state nextEntry remaining))
           (Some (anchorPath (redoTarget state nextEntry remaining)));
     Some (s, next)).
Proof. intros Hstack. cbn [editorReducer]. rewrite Hstack. reflexivity. Qed.

Lemma undoTarget_fields (state : EditorState) (previous : HistoryEntry)
    (remaining : list HistoryEntry) :
  doc (undoTarget state previous remaining) = h_doc previous
  ∧ rawText (undoTarget state previous remaining) = h_rawText previous
  ∧ selectedId (undoTarget state previous remaining) = h_selectedId previous
  ∧ undoStack (undoTarget state previous remaining) = remaining
  ∧ redoStack (undoTarget state previous remaining)
    = take 50 (snapshotState state :: redoStack state)
  ∧ lastValidText (undoTarget state previous remaining) = lastValidText state.
Proof. destruct state. by repeat split. Qed.

Lemma redoTarget_fields (state : EditorState) (nextEntry : HistoryEntry)
    (remaining : list HistoryEntry) :
  doc (redoTarget state nextEntry remaining) = h_doc nextEntry
  ∧ rawText (redoTarget state nextEntry remaining) = h_rawText nextEntry
  ∧ selectedId (redoTarget state nextEntry remaining) = h_selectedId nextEntry
  ∧ redoStack (redoTarget state nextEntry remaining) = remaining
  ∧ undoStack (redoTarget state nextEntry remaining)
    = take 50 (snapshotState state :: undoStack state)
  ∧ lastValidText (redoTarget state nextEntry remaining) = lastValidText state.
Proof. destruct state. by repeat split. Qed.

Lemma searchView_fields (state state' : EditorState) :
  searchView state' = searchView state ->
  doc state' = doc state ∧ rawText state' = rawText state
  ∧ selectedId state' = selectedId state
  ∧ undoStack state' = undoStack state ∧ redoStack state' = redoStack state
  ∧ lastValidText state' = lastValidText state.
Proof.
  destruct state, state'. unfold searchView. cbn. intros [=]. by subst.
Qed.

(** [UNDO] on a state whose undo stack is not empty. *)
Lemma undo_applies (B next fuel : nat) (state : EditorState) (previous : HistoryEntry)
    (remaining : list HistoryEntry) :
  state_ok B next state -> undoStack state = previous :: remaining ->
  (B < fuel)%nat ->
  ∃ state',
    editorReducer fuel state UNDO next = Some (state', next)
    ∧ doc state' = h_doc previous
    ∧ rawText state' = h_rawText previous
    ∧ selectedId state' = h_selectedId previous
    ∧ undoStack state' = remaining
    ∧ redoStack state' = take 50 (snapshotState state :: redoStack state)
    ∧ state_ok B next state'
    ∧ lastValidText state' = lastValidText state.
Proof.
  intros Hok Hstack Hfuel. pose proof Hok as (Hdocok & Hundo & Hredo).
  rewrite Hstack in Hundo. apply Forall_cons in Hundo as [Hprev Hrest].
  destruct (undoTarget_fields state previous remaining)
    as (Hd & Hr & Hs & Hu & Hre & Hl).
  rewrite (reducer_undo fuel next state previous remaining Hstack).
  destruct (applySearch_returns B fuel (undoTarget state previous remaining)
              (doc (undoTarget state previous remaining))
              (Some (anchorPath (undoTarget state previous remaining))))
    as [s' Hs']; [|done|].
  { intros d Hdd.
    assert (doc (undoTarget state previous remaining) = Some d) as Heq
      by (by destruct (doc (undoTarget state previous remaining))).
    rewrite Hd in Heq. destruct (Hprev d Heq) as (? & ? & _). done. }
  rewrite (bind_step _ _ _ Hs'). exists s'. split; [done|].
  apply applySearch_core, searchView_fields in Hs'
    as (Hd' & Hr' & Hs'' & Hu' & Hre' & Hl').
  rewrite Hd', Hr', Hs'', Hu', Hre', Hl', Hd, Hr, Hs, Hu, Hre, Hl.
  do 5 (split; [done|]).
  split; [|done]. split; [|split].
  - intros d Heq. rewrite Hd', Hd in Heq. by apply Hprev.
  - by rewrite Hu', Hu.
  - rewrite Hre', Hre. apply Forall_take. constructor; [|done].
    intros d Heq. by apply Hdocok.
Qed.

(** [REDO] on a state whose redo stack is not empty. *)
Lemma redo_applies (B next fuel : nat) (state : EditorState) (nextEntry : HistoryEntry)
    (remaining : list HistoryEntry) :
  state_ok B next state -> redoStack state = nextEntry :: remaining ->
  (B < fuel)%nat ->
  ∃ state',
    editorReducer fuel state REDO next = Some (state', next)
    ∧ doc state' = h_doc nextEntry
    ∧ rawText state' = h_rawText nextEntry
    ∧ selectedId state' = h_selectedId nextEntry
    ∧ redoStack state' = remaining
    ∧ undoStack state' = take 50 (snapshotState state :: undoStack state)
    ∧ state_ok B next state'
    ∧ lastValidText state' = lastValidText state.
Proof.
  intros Hok Hstack Hfuel. pose proof Hok as (Hdocok & Hundo & Hredo).
  rewrite Hstack in Hredo. apply Forall_cons in Hredo as [Hentry Hrest].
  destruct (redoTarget_fields state nextEntry remaining)
    as (Hd & Hr & Hs & Hre & Hu & Hl).
  rewrite (reducer_redo fuel next state nextEntry remaining Hstack).
  destruct (applySearch_returns B fuel (redoTarget state nextEntry remaining)
              (doc (redoTarget state nextEntry remaining))
              (Some (anchorPath (redoTarget state nextEntry remaining))))
    as [s' Hs']; [|done|].
  { intros d Hdd.
    assert (doc (redoTarget state nextEntry remaining) = Some d) as Heq
      by (by destruct (doc (redoTarget state nextEntry remaining))).
    rewrite Hd in Heq. destruct (Hentry d Heq) as (? & ? & _). done. }
  rewrite (bind_step _ _ _ Hs'). exists s'. split; [done|].
  apply applySearch_core, searchView_fields in Hs'
    as (Hd' & Hr' & Hs'' & Hu' & Hre' & Hl').
  rewrite Hd', Hr', Hs'', Hu', Hre', Hl', Hd, Hr, Hs, Hu, Hre, Hl.
  do 5 (split; [done|]).
  split; [|done]. split; [|split].
  - intros d Heq. rewrite Hd', Hd in Heq. by apply Hentry.
  - rewrite Hu', Hu. apply Forall_take. constructor; [|done].
    intros d Heq. by apply Hdocok.
  - by rewrite Hre', Hre.
Qed.

(** X5: [UNDO] returns once the fuel exceeds the depth bound of the
    state.  With an empty undo stack it returns the state it was given.
    Otherwise it restores the document, the text and the selection of
    the newest undo entry, removes that entry from the undo stack and
    puts a snapshot of the state before on the redo stack, which keeps
    its 50 newest entries; the last valid text is the one of the state
    before, not the one of the restored entry. *)
Theorem undo_step (B next fuel : nat) (state : EditorState) :
  state_ok B next state -> (B < fuel)%nat ->
  ∃ state',
    editorReducer fuel state UNDO next = Some (state', next)
    ∧ match undoStack state with
      | [] => state' = state
      | previous :: remaining =>
          doc state' = h_doc previous
          ∧ rawText state' = h_rawText previous
          ∧ selectedId state' = h_selectedId previous
          ∧ undoStack state' = remaining
          ∧ redoStack state' = take 50 (snapshotState state :: redoStack state)
          ∧ lastValidText state' = lastValidText state
      end.
Proof.
  intros Hok Hfuel. destruct (undoStack state) as [|previous remaining] eqn:Hstack.
  - exists state. split; [|done]. cbn [editorReducer]. by rewrite Hstack.
  - destruct (undo_applies B next fuel state previous remaining Hok Hstack Hfuel)
      as (s' & Hs' & Hd & Hr & Hsel & Hu & Hre & _ & Hl).
    by exists s'.
Qed.

(** X6: [REDO] returns once the fuel exceeds the depth bound of the
    state.  With an empty redo stack it returns the state it was given.
    Otherwise it restores the document, the text and the selection of
    the newest redo entry, removes that entry from the redo stack and
    puts a snapshot of the state before on the undo stack, which keeps
    its 50 newest entries. *)
Theorem redo_step (B next fuel : nat) (state : EditorState) :
  state_ok B next state -> (B < fuel)%nat ->
  ∃ state',
    editorReducer fuel state REDO next = Some (state', next)
    ∧ match redoStack state with
      | [] => state' = state
      | nextEntry :: remaining =>
          doc state' = h_doc nextEntry
          ∧ rawText state' = h_rawText nextEntry
          ∧ selectedId state' = h_selectedId nextEntry
          ∧ redoStack state' = remaining
          ∧ undoStack state' = take 50 (snapshotState state :: undoStack state)
          ∧ lastValidText state' = lastValidText state
      end.
Proof.
  intros Hok Hfuel. destruct (redoStack state) as [|nextEntry remaining] eqn:Hstack.
  - exists state. split; [|done]. cbn [editorReducer]. by rewrite Hstack.
  - destruct (redo_applies B next fuel state nextEntry remaining Hok Hstack Hfuel)
      as (s' & Hs' & Hd & Hr & Hsel & Hre & Hu & _ & Hl).
    by exists s'.
Qed.

End UndoRedo.

Lemma undo_step_witness :
  state_ok 6 5 Demo.sampleState
  ∧ (6 < 10)%nat
  ∧ ∃ state',
      editorReducer (H := Demo.platform) 10 Demo.sampleState UNDO 5 = Some (state', 5%nat)
      ∧ match undoStack Demo.sampleState with
        | [] => state' = Demo.sampleState
        | previous :: remaining =>
            doc state' = h_doc previous
            ∧ rawText state' = h_rawText previous
            ∧ selectedId state' = h_selectedId previous
            ∧ undoStack state' = remaining
            ∧ redoStack state'
              = take 50 (snapshotState Demo.sampleState :: redoStack Demo.sampleState)
            ∧ lastValidText state' = lastValidText Demo.sampleState
        end.
Proof.
  split; [exact sampleState_ok|]. split; [lia|].
  apply (undo_step (H := Demo.platform) 6 5 10 Demo.sampleState);
    [exact sampleState_ok | lia].
Defined.

Lemma undoneState_reduced :
  editorReducer (H := Demo.platform) 10 Demo.sampleState UNDO 5
  = Some (Demo.undoneState, 5%nat).
Proof. vm_compute. reflexivity. Qed.

Lemma undoneState_ok : state_ok 6 5 Demo.undoneState.
Proof.
  destruct (undo_applies (H := Demo.platform) 6 5 10 Demo.sampleState
              (snapshotState Demo.emptyState) [])
    as (s' & Hs' & _ & _ & _ & _ & _ & Hok & _);
    [exact sampleState_ok | reflexivity | lia |].
  rewrite undoneState_reduced in Hs'. injection Hs' as Heq. rewrite Heq. exact Hok.
Qed.

Lemma redo_step_witness :
  state_ok 6 5 Demo.undoneState
  ∧ (6 < 10)%nat
  ∧ ∃ state',
      editorReducer (H := Demo.platform) 10 Demo.undoneState REDO 5 = Some (state', 5%nat)
      ∧ match redoStack Demo.undoneState with
        | [] => state' = Demo.undoneState
        | nextEntry :: remaining =>
            doc state' = h_doc nextEntry
            ∧ rawText state' = h_rawText nextEntry
            ∧ selectedId state' = h_selectedId nextEntry
            ∧ redoStack state' = remaining
            ∧ undoStack state'
              = take 50 (snapshotState Demo.undoneState :: undoStack Demo.undoneState)
            ∧ lastValidText state' = lastValidText Demo.undoneState
        end.
Proof.
  split; [exact undoneState_ok|]. split; [lia|].
  apply (redo_step (H := Demo.platform) 6 5 10 Demo.undoneState);
    [exact undoneState_ok | lia].
Defined.

Section InverseLaw.
Context `{Platform}.

(** X7: undo is the inverse of an accepted mutation on the document and
    the text, and redo is the inverse of that undo.  After an accepted
    mutation, [UNDO] gives back the document, the text and the selection
    of the state before the mutation; [REDO] after it gives back the
    document, the text and the selection of the state after the
    mutation. *)
Theorem undo_then_redo_inverse
    (B next : nat) (state : EditorState) (action : Action) :
  state_ok B next state -> accepts state action = true ->
  ∃ B', (B <= B')%nat ∧
    ∀ fuel, (B' < fuel)%nat ->
      ∃ mutated next' undone redone,
        editorReducer fuel state action next = Some (mutated, next')
        ∧ editorReducer fuel mutated UNDO next' = Some (undone, next')
        ∧ doc undone = doc state
        ∧ rawText undone = rawText state
        ∧ selectedId undone = selectedId state
        ∧ editorReducer fuel undone REDO next' = Some (redone, next')
        ∧ doc redone = doc mutated
        ∧ rawText redone = rawText mutated
        ∧ selectedId redone = selectedId mutated.
Proof.
  intros Hok Hacc.
  destruct (mutation_step B next state action Hok Hacc) as (B' & HB & Hrun).
  exists B'. split; [done|]. intros fuel Hfuel.
  destruct (Hrun fuel Hfuel) as (s1 & n1 & Hred & _ & Hok1 & Hundo & Hredo).
  destruct (undo_applies B' n1 fuel s1 (snapshotState state) (take 49 (undoStack state)))
    as (u & Hu & Hud & Hur & Hus & Huu & Hure & Hoku & _); [done|by rewrite Hundo|done|].
  rewrite Hredo in Hure.
  destruct (redo_applies B' n1 fuel u (snapshotState s1) []) as
    (r & Hr & Hrd & Hrr & Hrs & Hrre & Hru & Hokr & _); [done|done|done|].
  exists s1, n1, u, r. do 8 (split; [done|]). done.
Qed.

End InverseLaw.

Lemma undo_then_redo_inverse_witness :
  state_ok 6 5 Demo.sampleState
  ∧ accepts (H := Demo.platform) Demo.sampleState
      (RENAME_KEY "id-0" "id-1" "first") = true
  ∧ ∃ B', (6 <= B')%nat ∧
      ∀ fuel, (B' < fuel)%nat ->
        ∃ mutated next' undone redone,
          editorReducer (H := Demo.platform) fuel Demo.sampleState
            (RENAME_KEY "id-0" "id-1" "first") 5 = Some (mutated, next')
          ∧ editorReducer (H := Demo.platform) fuel mutated UNDO next'
            = Some (undone, next')
          ∧ doc undone = doc Demo.sampleState
          ∧ rawText undone = rawText Demo.sampleState
          ∧ selectedId undone = selectedId Demo.sampleState
          ∧ editorReducer (H := Demo.platform) fuel undone REDO next'
            = Some (redone, next')
          ∧ doc redone = doc mutated
          ∧ rawText redone = rawText mutated
          ∧ selectedId redone = selectedId mutated.
Proof.
  split; [exact sampleState_ok|]. split; [reflexivity|].
  apply (undo_then_redo_inverse (H := Demo.platform) 6 5 Demo.sampleState
           (RENAME_KEY "id-0" "id-1" "first") sampleState_ok).
  reflexivity.
Defined.

Section Replay.
Context `{Platform}.

Lemma runActions_cons (fuel next next' : nat) (state state' : EditorState)
    (action : Action) (rest : list Action) :
  editorReducer fuel state action next = Some (state', next') ->
  runActions fuel state next (action :: rest) = runActions fuel state' next' rest.
Proof. intros Hred. cbn [runActions]. by rewrite Hred. Qed.

(** X8: two undos and one redo after two accepted mutations.  When the
    state [s3] was reached from [s2] and [s2] from [s1] by accepted
    mutations (each pushed its snapshot), dispatching [UNDO], [UNDO],
    [REDO] on [s3] returns a state with the document, the text and the
    selection of [s2], the state between the two edits. *)
Theorem undo_undo_redo_replays_second_state
    (B next fuel : nat) (s1 s2 s3 : EditorState) :
  state_ok B next s3 ->
  undoStack s2 = snapshotState s1 :: take 49 (undoStack s1) ->
  undoStack s3 = snapshotState s2 :: take 49 (undoStack s2) ->
  redoStack s3 = [] ->
  (B < fuel)%nat ->
  ∃ final,
    runActions fuel s3 next [UNDO; UNDO; REDO] = Some (final, next)
    ∧ doc final = doc s2
    ∧ rawText final = rawText s2
    ∧ selectedId final = selectedId s2.
Proof.
  intros Hok Hs2 Hs3 Hredo Hfuel.
  destruct (undo_applies B next fuel s3 (snapshotState s2) (take 49 (undoStack s2)))
    as (u1 & Hu1 & Hd1 & Hr1 & Hsel1 & Hundo1 & Hredo1 & Hok1 & _); [done..|].
  rewrite Hs2 in Hundo1. cbn [take] in Hundo1.
  destruct (undo_applies B next fuel u1 (snapshotState s1)
              (take 48 (take 49 (undoStack s1))))
    as (u2 & Hu2 & Hd2 & Hr2 & Hsel2 & Hundo2 & Hredo2 & Hok2 & _); [done..|].
  rewrite Hredo1, Hredo in Hredo2. cbn [take] in Hredo2.
  destruct (redo_applies B next fuel u2 (snapshotState u1) [snapshotState s3])
    as (r & Hr & Hdr & Hrr & Hselr & _ & _ & _); [done..|].
  exists r. split.
  { rewrite (runActions_cons _ _ _ _ _ _ _ Hu1), (runActions_cons _ _ _ _ _ _ _ Hu2),
      (runActions_cons _ _ _ _ _ _ _ Hr). reflexivity. }
  rewrite Hdr, Hrr, Hselr. cbn [snapshotState h_doc h_rawText h_selectedId].
  rewrite Hd1, Hr1, Hsel1. done.
Qed.

End Replay.

Lemma renamedState_reduced :
  editorReducer (H := Demo.platform) 10 Demo.sampleState
    (RENAME_KEY "id-0" "id-1" "first") 5
  = Some (Demo.renamedState, 5%nat).
Proof. vm_compute. reflexivity. Qed.

Lemma sampleState_doc :
  doc Demo.sampleState = Some (buildDocumentFromValue Demo.sampleValue 0).1.
Proof. vm_compute. reflexivity. Qed.

Lemma renamedState_ok : state_ok 6 5 Demo.renamedState.
Proof.
  pose proof renamedState_reduced as Hred.
  pose proof sampleState_ok as Hok. pose proof Hok as (Hdocok & _).
  set (d := (buildDocumentFromValue Demo.sampleValue 0).1) in *.
  assert (Hnode : nodes d !! "id-0"
                  = Some (ObjectNode "id-0" [mkEntry "a" "id-1"; mkEntry "b" "id-2"]))
    by (vm_compute; reflexivity).
  rewrite reducer_rename in Hred.
  rewrite (renameKey_accepted (H := Demo.platform) 10 Demo.sampleState d
             "id-0" "id-1" "first" "id-0" _ sampleState_doc Hnode eq_refl) in Hred.
  destruct (finalize_step (H := Demo.platform) 6 6 5 5 10 Demo.sampleState
              (renamedDoc d "id-0" "id-1" "first" "id-0"
                 [mkEntry "a" "id-1"; mkEntry "b" "id-2"]) (Some "id-1"))
    as (s' & v & Hs' & _ & _ & Hok' & _); [done| |lia|lia|lia|].
  { apply doc_ok_refines; [by apply Hdocok, sampleState_doc|].
    by apply renamedDoc_refines. }
  rewrite Hs' in Hred. injection Hred as Heq. rewrite <- Heq. exact Hok'.
Qed.

Lemma undo_undo_redo_replays_second_state_witness :
  state_ok 6 5 Demo.renamedState
  ∧ undoStack Demo.sampleState
    = snapshotState Demo.emptyState :: take 49 (undoStack Demo.emptyState)
  ∧ undoStack Demo.renamedState
    = snapshotState Demo.sampleState :: take 49 (undoStack Demo.sampleState)
  ∧ redoStack Demo.renamedState = []
  ∧ (6 < 10)%nat
  ∧ ∃ final,
      runActions (H := Demo.platform) 10 Demo.renamedState 5 [UNDO; UNDO; REDO]
      = Some (final, 5%nat)
      ∧ doc final = doc Demo.sampleState
      ∧ rawText final = rawText Demo.sampleState
      ∧ selectedId final = selectedId Demo.sampleState.
Proof.
  split; [exact renamedState_ok|].
  split; [reflexivity|]. split; [vm_compute; reflexivity|].
  split; [reflexivity|]. split; [lia|].
  apply (undo_undo_redo_replays_second_state (H := Demo.platform) 6 5 10
           Demo.emptyState Demo.sampleState Demo.renamedState renamedState_ok);
    [reflexivity | vm_compute; reflexivity | reflexivity | lia].
Defined.
(** * The node store, continued *)

Lemma forEachM_None {S A : Type} (f : S -> A -> option S) (l : list A) (x : A) :
  x ∈ l -> (∀ s, f s x = None) -> ∀ s, forEachM f s l = None.
Proof.
  intros Hx Hf. induction l as [|y l IH]; intros s.
  - by apply elem_of_nil in Hx.
  - cbn [forEachM]. apply elem_of_cons in Hx as [->|Hx].
    + by rewrite Hf.
    + destruct (f s y) as [s'|]; [|done]. cbn. by apply IH.
Qed.

(** X10: the conversion does not return on a document in which the root
    starts an endless chain of child references.  When the root belongs
    to a set of identifiers each of which is stored with a child in the
    set, [documentToJson] returns for no amount of fuel. *)
Theorem documentToJson_diverges_on_reference_cycle
    (d : DocumentState) (chain : string -> Prop) :
  chain (rootId d) ->
  (∀ k, chain k -> ∃ n c, nodes d !! k = Some n ∧ c ∈ children n ∧ chain c) ->
  ∀ fuel, documentToJson fuel d = None.
Proof.
  intros Hroot Hchain fuel. unfold documentToJson.
  generalize (rootId d) Hroot. clear Hroot.
  induction fuel as [|fuel IH]; intros k Hk; [done|].
  destruct (Hchain k Hk) as (n & c & Hn & Hc & Hcc).
  cbn [buildValue]. rewrite Hn.
  destruct n as [i entries|i items| | | |]; cbn [children] in Hc;
    try (by apply elem_of_nil in Hc).
  - apply list_elem_of_fmap in Hc as (entry & -> & Hentry).
    rewrite (forEachM_None _ entries entry Hentry); [done|].
    intros s. by rewrite (IH _ Hcc).
  - destruct (mapM (buildValue fuel d) items) as [vs|] eqn:Hvs; [|done].
    assert (is_Some (mapM (buildValue fuel d) items)) as Hsome by done.
    apply mapM_is_Some in Hsome.
    rewrite Forall_forall in Hsome. destruct (Hsome c Hc) as [v Hv].
    by rewrite (IH _ Hcc) in Hv.
Qed.

Lemma documentToJson_diverges_on_reference_cycle_witness :
  rootId cyclicDoc = "a"
  ∧ (∀ k, k = "a" ->
       ∃ n c, nodes cyclicDoc !! k = Some n ∧ c ∈ children n ∧ c = "a")
  ∧ ∀ fuel, documentToJson fuel cyclicDoc = None.
Proof.
  assert (H1 : (fun k => k = "a") (rootId cyclicDoc)) by reflexivity.
  assert (H2 : ∀ k, (fun k => k = "a") k ->
       ∃ n c, nodes cyclicDoc !! k = Some n ∧ c ∈ children n ∧ (fun k => k = "a") c).
  { intros k ->. exists (ArrayNode "a" ["a"]), "a".
    split; [reflexivity|]. split; [|reflexivity]. cbn. by left. }
  split; [exact H1|]. split; [exact H2|].
  exact (documentToJson_diverges_on_reference_cycle cyclicDoc (fun k => k = "a") H1 H2).
Defined.

Section Strip.
Context {V : Type}.
Implicit Types (o : list (string * V)) (k : string) (v : V).

Lemma enumerationOrder_remove (lo : option N) (l1 l2 : list string) (k : string) :
  JsObject.enumerationOrder lo (l1 ++ k :: l2) = true ->
  JsObject.arrayIndex k = None ->
  JsObject.enumerationOrder lo (l1 ++ l2) = true.
Proof.
  revert lo. induction l1 as [|k' l1 IH]; intros lo; simpl.
  - intros Hord Hk. rewrite Hk in Hord.
    destruct l2 as [|k2 l2]; [done|]. simpl in *.
    apply andb_prop in Hord as [Hk2 Hrest].
    destruct (JsObject.arrayIndex k2); [done|]. done.
  - intros Hord Hk. destruct (JsObject.arrayIndex k') as [j|].
    + apply andb_prop in Hord as [Hlo Hrest]. rewrite Hlo. simpl. by apply IH.
    + rewrite forallb_app in Hord |- *. apply andb_prop in Hord as [H1 H2].
      simpl in H2. apply andb_prop in H2 as [_ H2]. by rewrite H1, H2.
Qed.

Lemma forEachM_set_strips {E : Type} (g : E -> option V) (keyOf : E -> string)
    (es : list E) (props : list (string * V)) :
  Forall2 (fun e p => keyOf e = fst p ∧ g e = Some (snd p)) es props ->
  ∀ acc,
    JsObject.enumerationOrder None (map fst (acc ++ props)) = true ->
    NoDup (map fst (acc ++ props)) ->
    "__proto__" ∉ map fst acc ->
    forEachM (fun obj entry => v ← g entry; Some (JsObject.set obj (keyOf entry) v))
             acc es
    = Some (acc ++ List.filter (fun p => negb (String.eqb (fst p) "__proto__")) props).
Proof.
  induction 1 as [|e [k v] es props [Hkey Hval] _ IH]; intros acc Hord Hnd Hproto;
    simpl.
  - by rewrite app_nil_r.
  - simpl in Hkey, Hval. rewrite Hval. simpl. rewrite Hkey.
    destruct (String.eqb_spec k "__proto__") as [->|Hne]; simpl.
    + unfold JsObject.set. rewrite hasOwn_false by done. simpl.
      apply IH; [| |done].
      * rewrite map_app in Hord |- *. simpl in Hord.
        by apply enumerationOrder_remove in Hord.
      * rewrite map_app in Hnd |- *. simpl in Hnd.
        apply NoDup_app in Hnd as (Hn1 & Hdisj & Hn2).
        apply NoDup_cons in Hn2 as [_ Hn2].
        apply NoDup_app. split; [done|]. split; [|done].
        intros x Hx Hx2. apply (Hdisj x Hx). by right.
    + rewrite (set_snoc acc k v).
      * rewrite IH; rewrite <- ?app_assoc; simpl; try done.
        rewrite map_app. simpl. intros [Hin|Hin]%elem_of_app; [done|].
        apply list_elem_of_singleton in Hin. congruence.
      * rewrite map_app in Hord. simpl in Hord.
        replace (map fst acc ++ k :: map fst props)
          with ((map fst acc ++ [k]) ++ map fst props) in Hord
          by (by rewrite <- app_assoc).
        by apply enumerationOrder_app_l in Hord.
      * rewrite map_app in Hnd. apply NoDup_app in Hnd as (_ & Hdisj & _).
        intros Hin. apply (Hdisj k Hin). simpl. left.
      * done.
Qed.
End Strip.

Lemma stripProto_keys (props : list (string * JsValue)) :
  map fst (map (fun p => (fst p, stripProto (snd p))) props) = map fst props.
Proof. induction props as [|[k v] props IH]; simpl; [done|]. by rewrite IH. Qed.

Lemma stripProto_depth_fuel (v : JsValue) :
  representable v = true ->
  ∀ m next id m' next' d fuel,
    buildNode v m next = (id, m', next') ->
    (∀ j, (next <= j < next')%nat -> nodes d !! mkId j = m' !! mkId j) ->
    (depth v <= fuel)%nat ->
    buildValue fuel d id = Some (stripProto v).
Proof.
  induction v as [| b | n | s | items IH | props IH] using JsValue_nested_ind;
    intros Hrep m next id m' next' d fuel Hbuild Hagree Hfuel.
  1-4: simpl in Hbuild; simplify_eq;
       (destruct fuel as [|fuel]; [simpl in Hfuel; lia|]); simpl;
       rewrite Hagree by lia; rewrite lookup_insert_eq; reflexivity.
  - rewrite buildNode_array in Hbuild.
    destruct (buildItems items m (S next)) as [[cs m1] n1] eqn:Hitems.
    simplify_eq.
    destruct fuel as [|fuel]; [simpl in Hfuel; lia|]. cbn [buildValue stripProto].
    pose proof (buildItems_built _ _ _ _ _ _ Hitems) as [(Hle & _) _].
    rewrite Hagree by lia. rewrite lookup_insert_eq.
    assert (Hagree1 : ∀ j, (S next <= j < next')%nat ->
                           nodes d !! mkId j = m1 !! mkId j).
    { intros j Hj. rewrite Hagree by lia. apply lookup_insert_ne.
      intros Heq%mkId_inj. lia. }
    assert (mapM (buildValue fuel d) cs = Some (map stripProto items)) as ->; [|done].
    apply mapM_Some.
    assert (Hdepth : ∀ x, x ∈ items -> (depth x <= fuel)%nat).
    { intros x Hx. pose proof (depth_item x items Hx). simpl in Hfuel. lia. }
    simpl in Hrep.
    clear Hagree Hfuel Hle. revert m cs m1 next' Hitems Hagree1 Hrep Hdepth.
    generalize (S next) as n0.
    induction IH as [|x items Hx _ IHitems];
      intros n0 m cs m1 next' Hitems Hagree Hrep Hdepth; simpl in Hitems.
    + simplify_eq. constructor.
    + destruct (buildNode x m n0) as [[c ma] na] eqn:Hx1.
      destruct (buildItems items ma na) as [[cs' mb] nb] eqn:Hrest.
      simplify_eq. simpl in Hrep.
      apply andb_prop in Hrep as [Hrepx Hrep].
      destruct (buildNode_built _ _ _ _ _ _ Hx1) as (-> & Hlt & _).
      pose proof (buildItems_built _ _ _ _ _ _ Hrest) as [(Hle & Hframe & _) _].
      simpl. constructor.
      * eapply (Hx Hrepx _ _ _ _ _ d fuel Hx1).
        -- intros j Hj. rewrite Hagree by lia. apply Hframe.
           intros j' Hj' Heq%mkId_inj. lia.
        -- apply Hdepth. left.
      * eapply (IHitems _ _ _ _ _ Hrest); try done.
        -- intros j Hj. apply Hagree. lia.
        -- intros y Hy. apply Hdepth. by right.
  - rewrite buildNode_object in Hbuild.
    destruct (buildEntries props m (S next)) as [[es m1] n1] eqn:Hentries.
    simplify_eq.
    destruct fuel as [|fuel]; [simpl in Hfuel; lia|]. cbn [buildValue stripProto].
    pose proof (buildEntries_built _ _ _ _ _ _ Hentries) as [(Hle & _) _].
    rewrite Hagree by lia. rewrite lookup_insert_eq.
    assert (Hagree1 : ∀ j, (S next <= j < next')%nat ->
                           nodes d !! mkId j = m1 !! mkId j).
    { intros j Hj. rewrite Hagree by lia. apply lookup_insert_ne.
      intros Heq%mkId_inj. lia. }
    assert (Hdepth : ∀ p, p ∈ props -> (depth (snd p) <= fuel)%nat).
    { intros p Hp. pose proof (depth_prop p props Hp). simpl in Hfuel. lia. }
    simpl in Hrep. apply andb_prop in Hrep as [[Hord Hnd]%andb_prop Hreps].
    apply bool_decide_eq_true in Hnd.
    rewrite (forEachM_set_strips (fun e => buildValue fuel d (childId e)) key es
               (map (fun p => (fst p, stripProto (snd p))) props));
      [done | | cbn [app]; by rewrite stripProto_keys
       | cbn [app]; by rewrite stripProto_keys | apply not_elem_of_nil].
    clear Hagree Hfuel Hle Hord Hnd.
    revert m es m1 next' Hentries Hagree1 Hreps Hdepth.
    generalize (S next) as n0.
    induction IH as [|[k x] props Hx _ IHprops];
      intros n0 m es m1 next' Hentries Hagree Hreps Hdepth;
      simpl in Hentries.
    + simplify_eq. constructor.
    + destruct (buildNode x m n0) as [[c ma] na] eqn:Hx1.
      destruct (buildEntries props ma na) as [[es' mb] nb] eqn:Hrest.
      simplify_eq. simpl in Hreps, Hx.
      apply andb_prop in Hreps as [Hrepx Hreps].
      destruct (buildNode_built _ _ _ _ _ _ Hx1) as (-> & Hlt & _).
      pose proof (buildEntries_built _ _ _ _ _ _ Hrest) as [(Hle & Hframe & _) _].
      simpl. constructor.
      * split; [done|]. simpl.
        eapply (Hx Hrepx _ _ _ _ _ d fuel Hx1).
        -- intros j Hj. rewrite Hagree by lia. apply Hframe.
           intros j' Hj' Heq%mkId_inj. lia.
        -- apply (Hdepth (k, x)). left.
      * eapply (IHprops _ _ _ _ _ Hrest); try done.
        -- intros j Hj. apply Hagree. lia.
        -- intros y Hy. apply Hdepth. by right.
Qed.

Lemma stripProto_fixed (v : JsValue) : stripProto v = v -> hasProtoKey v = false.
Proof.
  induction v as [| b | n | s | items IH | props IH] using JsValue_nested_ind;
    try done.
  - cbn [stripProto hasProtoKey]. intros [= Heq].
    induction IH as [|x items Hx _ IHitems]; [done|].
    simpl in Heq |- *. injection Heq as Hx' Hrest.
    rewrite (Hx Hx'). simpl. by apply IHitems.
  - cbn [stripProto hasProtoKey]. intros [= Heq].
    induction IH as [|[k x] props Hx _ IHprops]; [done|].
    simpl in Heq |- *. simpl in Hx.
    destruct (String.eqb_spec k "__proto__") as [->|Hne]; simpl in Heq.
    + exfalso.
      assert (Hlen : (length (List.filter
                        (fun p => negb (String.eqb (fst p) "__proto__"))
                        (map (fun p => (fst p, stripProto (snd p))) props))
                      <= length props)%nat).
      { etrans; [apply List.filter_length_le|]. by rewrite length_map. }
      rewrite Heq in Hlen. simpl in Hlen. lia.
    + injection Heq as Hx' Hrest. rewrite (Hx Hx'). simpl. by apply IHprops.
Qed.

(** X11: what the round trip of the node store returns.  For every value
    JavaScript can hold, converting the document built from the value
    gives the value without the own keys [__proto__] of its objects: the
    assignment [obj[entry.key] = ...] of [buildValue] reaches the setter
    of [Object.prototype] for that key and defines no property.  A value
    with such a key does not survive the round trip. *)
Theorem roundtrip_strips_proto_keys (v : JsValue) (next fuel : nat) :
  representable v = true -> (depth v <= fuel)%nat ->
  documentToJson fuel (buildDocumentFromValue v next).1 = Some (stripProto v)
  ∧ (hasProtoKey v = true -> stripProto v ≠ v).
Proof.
  intros Hrep Hfuel. split.
  - unfold buildDocumentFromValue, documentToJson.
    destruct (buildNode v ∅ next) as [[id m'] next'] eqn:Hbuild. simpl.
    by eapply stripProto_depth_fuel.
  - intros Hproto Heq. apply stripProto_fixed in Heq. congruence.
Qed.

Lemma roundtrip_strips_proto_keys_witness :
  representable protoValue = true
  ∧ (depth protoValue <= 2)%nat
  ∧ documentToJson 2 (buildDocumentFromValue protoValue 0).1
    = Some (stripProto protoValue)
  ∧ (hasProtoKey protoValue = true -> stripProto protoValue ≠ protoValue).
Proof.
  split; [reflexivity|]. split; [simpl; lia|].
  apply (roundtrip_strips_proto_keys protoValue 0 2); [reflexivity | simpl; lia].
Defined.
(** * Editing a scalar *)

Section Edits.
Context `{Platform}.

Lemma changedState_fields (state state' : EditorState) (d' : DocumentState)
    (value : JsValue) (focusId : option string) :
  searchView state' = searchView (changedState state d' value focusId) ->
  doc state' = Some d'
  ∧ rawText state' = formatJson value (indent state)
  ∧ lastValidText state' = formatJson value (indent state)
  ∧ parseError state' = None
  ∧ selectedId state' = match focusId with
                        | Some f => Some f
                        | None => selectedId state
                        end
  ∧ notice state' = notice state
  ∧ indent state' = indent state
  ∧ searchQuery state' = searchQuery state.
Proof.
  destruct state, state'. unfold searchView, changedState. cbn. intros [=]. by subst.
Qed.

(** What [finalizeDocumentChange] returns on a document the engine can
    traverse. *)
Lemma finalize_result (B B' next next' fuel : nat) (state : EditorState)
    (d' : DocumentState) (focusId : option string) :
  state_ok B next state -> doc_ok B' next' d' ->
  (B <= B')%nat -> (next <= next')%nat -> (B' < fuel)%nat ->
  ∃ state' value,
    finalizeDocumentChange fuel state d' focusId = Some state'
    ∧ documentToJson fuel d' = Some value
    ∧ doc state' = Some d'
    ∧ rawText state' = formatJson value (indent state)
    ∧ lastValidText state' = formatJson value (indent state)
    ∧ parseError state' = None
    ∧ selectedId state' = match focusId with
                          | Some f => Some f
                          | None => selectedId state
                          end
    ∧ notice state' = notice state
    ∧ state_ok B' next' state'
    ∧ pushed state state'
    ∧ indent state' = indent state.
Proof.
  intros Hok Hd HB Hn Hfuel.
  destruct (finalize_step B B' next next' fuel state d' focusId Hok Hd HB Hn Hfuel)
    as (s' & v & Hs' & Hv & Hview & Hok' & Hpushed).
  exists s', v.
  destruct (changedState_fields _ _ _ _ _ Hview) as (? & ? & ? & ? & ? & ? & ? & _).
  done.
Qed.

(** X12: an edit to type [number] is rejected exactly when the value is
    no number or is [NaN].  On a scalar node, with [number] as the type
    asked for (or as the type of the node when none is asked for), the
    guards of [editPrimitive] fail if and only if the value is not a
    number other than [NaN]; the reducer then returns the state with the
    notice "Numbers must be valid JSON numbers." and nothing else
    changed. *)
Theorem number_edit_rejected_iff_no_number
    (fuel next : nat) (state : EditorState) (d : DocumentState) (nodeId : string)
    (node : JsonNode) (value : PrimValue) (newType : option NodeType) :
  doc state = Some d -> nodes d !! nodeId = Some node -> isScalar node = true ->
  nullish newType (node_type node) = TNumber ->
  (accepts state (EDIT_PRIMITIVE nodeId value newType) = false
   <-> ∀ n, value = PNumber n -> JsNum.isNaN n = true)
  ∧ ((∀ n, value = PNumber n -> JsNum.isNaN n = true) ->
     editorReducer fuel state (EDIT_PRIMITIVE nodeId value newType) next
     = Some (state <| notice := errorNotice "Numbers must be valid JSON numbers." |>,
             next)).
Proof.
  intros Hdoc Hnode Hscalar Htype. split.
  - cbn [accepts]. rewrite Hdoc. cbn [mbind option_bind]. rewrite Hnode.
    unfold acceptsEdit. rewrite Hscalar, Htype. cbn [andb].
    destruct value as [s|n|b|]; split; try done.
    + intros Hnan n' [= <-]. by destruct (JsNum.isNaN n).
    + intros Hnan. by rewrite (Hnan n eq_refl).
  - intros Hnan. rewrite reducer_edit. unfold editPrimitive. rewrite Hdoc, Hnode.
    rewrite Htype. destruct node; try done;
      (destruct value as [s|n|b|]; try done; by rewrite (Hnan n eq_refl)).
Qed.

(** X13: an edit to type [number] stores every number other than [NaN],
    the infinities included.  On a scalar node of a traversable state the
    reducer returns a state whose document has the node
    [NumberNode nodeId n] under [nodeId] and every other node as before;
    no notice is raised. *)
Theorem number_edit_stores_any_number_but_NaN
    (B next fuel : nat) (state : EditorState) (d : DocumentState) (nodeId : string)
    (node : JsonNode) (n : JsNumber) (newType : option NodeType) :
  state_ok B next state ->
  doc state = Some d -> nodes d !! nodeId = Some node -> isScalar node = true ->
  nullish newType (node_type node) = TNumber ->
  JsNum.isNaN n = false -> (B < fuel)%nat ->
  ∃ state',
    editorReducer fuel state (EDIT_PRIMITIVE nodeId (PNumber n) newType) next
    = Some (state', next)
    ∧ doc state'
      = Some (mkDoc (rootId d) (<[nodeId := NumberNode nodeId n]> (nodes d)))
    ∧ notice state' = notice state
    ∧ parseError state' = None
    ∧ selectedId state' = Some nodeId.
Proof.
  intros Hok Hdoc Hnode Hscalar Htype Hnan Hfuel.
  assert (Hacc : acceptsEdit node (PNumber n) newType = true).
  { unfold acceptsEdit. by rewrite Hscalar, Htype, Hnan. }
  rewrite reducer_edit.
  rewrite (editPrimitive_accepted fuel state d nodeId node _ _ Hdoc Hnode Hacc).
  pose proof Hok as (Hdocok & _).
  destruct (Hdocok d Hdoc) as (Hac & Hids & Hfresh).
  destruct (finalize_result B B next next fuel state
              (editedDoc d nodeId node (PNumber n) newType) (Some nodeId))
    as (s' & v & Hs' & _ & Hd' & _ & _ & Hpe & Hsel & Hnot & _); [done| |lia..|].
  { apply doc_ok_refines; [by apply Hdocok|]. by apply editedDoc_refines. }
  rewrite (bind_step _ _ _ Hs'). exists s'. split; [done|].
  rewrite Hd'. unfold editedDoc, editedNode. rewrite Htype. done.
Qed.

End Edits.

Lemma number_edit_rejected_iff_no_number_witness :
  doc Demo.sampleState = Some (buildDocumentFromValue Demo.sampleValue 0).1
  ∧ nodes (buildDocumentFromValue Demo.sampleValue 0).1 !! "id-1"
    = Some (NumberNode "id-1" JsNum.one)
  ∧ isScalar (NumberNode "id-1" JsNum.one) = true
  ∧ nullish None (node_type (NumberNode "id-1" JsNum.one)) = TNumber
  ∧ (accepts (H := Demo.platform) Demo.sampleState
       (EDIT_PRIMITIVE "id-1" (PString "12") None) = false
     <-> ∀ n, PString "12" = PNumber n -> JsNum.isNaN n = true)
  ∧ ((∀ n, PString "12" = PNumber n -> JsNum.isNaN n = true) ->
     editorReducer (H := Demo.platform) 0 Demo.sampleState
       (EDIT_PRIMITIVE "id-1" (PString "12") None) 5
     = Some (Demo.sampleState
               <| notice := errorNotice "Numbers must be valid JSON numbers." |>,
             5%nat)).
Proof.
  split; [exact sampleState_doc|]. split; [vm_compute; reflexivity|].
  split; [reflexivity|]. split; [reflexivity|].
  apply (number_edit_rejected_iff_no_number (H := Demo.platform) 0 5 Demo.sampleState
           (buildDocumentFromValue Demo.sampleValue 0).1 "id-1"
           (NumberNode "id-1" JsNum.one) (PString "12") None sampleState_doc);
    [vm_compute; reflexivity | reflexivity | reflexivity].
Defined.

Lemma number_edit_stores_any_number_but_NaN_witness :
  state_ok 6 5 Demo.sampleState
  ∧ doc Demo.sampleState = Some (buildDocumentFromValue Demo.sampleValue 0).1
  ∧ nodes (buildDocumentFromValue Demo.sampleValue 0).1 !! "id-1"
    = Some (NumberNode "id-1" JsNum.one)
  ∧ isScalar (NumberNode "id-1" JsNum.one) = true
  ∧ nullish (Some TNumber) (node_type (NumberNode "id-1" JsNum.one)) = TNumber
  ∧ JsNum.isNaN JsNum.posInfinity = false
  ∧ JsNum.isFinite JsNum.posInfinity = false
  ∧ (6 < 7)%nat
  ∧ ∃ state',
      editorReducer (H := Demo.platform) 7 Demo.sampleState
        (EDIT_PRIMITIVE "id-1" (PNumber JsNum.posInfinity) (Some TNumber)) 5
      = Some (state', 5%nat)
      ∧ doc state'
        = Some (mkDoc (rootId (buildDocumentFromValue Demo.sampleValue 0).1)
                  (<["id-1" := NumberNode "id-1" JsNum.posInfinity]>
                     (nodes (buildDocumentFromValue Demo.sampleValue 0).1)))
      ∧ notice state' = notice Demo.sampleState
      ∧ parseError state' = None
      ∧ selectedId state' = Some "id-1".
Proof.
  split; [exact sampleState_ok|]. split; [exact sampleState_doc|].
  split; [vm_compute; reflexivity|].
  split; [reflexivity|]. split; [reflexivity|]. split; [reflexivity|].
  split; [reflexivity|]. split; [lia|].
  apply (number_edit_stores_any_number_but_NaN (H := Demo.platform) 6 5 7
           Demo.sampleState (buildDocumentFromValue Demo.sampleValue 0).1 "id-1"
           (NumberNode "id-1" JsNum.one) JsNum.posInfinity (Some TNumber)
           sampleState_ok sampleState_doc);
    [vm_compute; reflexivity | reflexivity | reflexivity | reflexivity | lia].
Defined.

(** * Deleting *)

Lemma reachable_trans (m : gmap string JsonNode) (a b c : string) :
  reachable m a b -> reachable m b c -> reachable m a c.
Proof.
  intros Hab Hbc. induction Hbc as [|k c n _ IH Hk Hc]; [done|].
  by eapply reach_child.
Qed.

Section Removal.
Context (m : gmap string JsonNode) (rank : string -> nat).
Hypothesis Hranked : ranked rank m.

Lemma removeSubtree_step :
  ∀ fuel cur id,
    removal_state m cur ->
    (∀ n, cur !! id = Some n -> (rank id < fuel)%nat) -> (0 < fuel)%nat ->
    ∃ cur',
      removeSubtree fuel cur id = Some cur'
      ∧ removal_state m cur'
      ∧ cur' !! id = None
      ∧ (∀ k n, cur' !! k = Some n -> cur !! k = Some n)
      ∧ (∀ k, cur' !! k = None -> cur !! k = None ∨ reachable m id k).
Proof.
  induction fuel as [|fuel IH]; intros cur id Hst Hfuel Hpos; [lia|].
  cbn [removeSubtree]. destruct (cur !! id) as [node|] eqn:Hnode.
  2:{ exists cur. do 2 (split; [done|]). split; [done|]. split; [done|]. auto. }
  specialize (Hfuel node eq_refl).
  pose proof Hst as [Hsub Hclosed]. pose proof (Hsub _ _ Hnode) as Hm.
  assert (Hloop : ∀ cs cur0,
            removal_state m cur0 ->
            (∀ k n, cur0 !! k = Some n -> cur !! k = Some n) ->
            (∀ c, c ∈ cs -> c ∈ children node) ->
            ∃ cur1,
              forEachM (fun m0 c => removeSubtree fuel m0 c) cur0 cs = Some cur1
              ∧ removal_state m cur1
              ∧ (∀ k n, cur1 !! k = Some n -> cur0 !! k = Some n)
              ∧ (∀ c, c ∈ cs -> cur1 !! c = None)
              ∧ (∀ k, cur1 !! k = None -> cur0 !! k = None ∨ reachable m id k)).
  { induction cs as [|c cs IHcs]; intros cur0 Hst0 Hsub0 Hcs.
    - exists cur0. split; [done|]. split; [done|]. split; [done|].
      split; [by intros c Hc%elem_of_nil|]. auto.
    - assert (Hc : c ∈ children node) by (apply Hcs; left).
      pose proof (Hranked _ _ Hm c Hc) as Hrank.
      destruct (IH cur0 c Hst0) as (cur2 & Hrun & Hst2 & Hgone & Hsub2 & Hrem2);
        [intros; lia | lia |].
      destruct (IHcs cur2 Hst2) as (cur1 & Hrun1 & Hst1 & Hsub1 & Hgone1 & Hrem1).
      { intros k n Hk. by apply Hsub0, Hsub2. }
      { intros c' Hc'. apply Hcs. by right. }
      exists cur1. split; [cbn [forEachM]; by rewrite Hrun|].
      split; [done|]. split; [by intros k n Hk; apply Hsub2, Hsub1|]. split.
      + intros c' [->|Hc']%elem_of_cons; [|by apply Hgone1].
        destruct (cur1 !! c) as [n|] eqn:Hlook; [|done].
        apply Hsub1 in Hlook. congruence.
      + intros k Hk. destruct (Hrem1 k Hk) as [Hk2|Hreach]; [|by right].
        destruct (Hrem2 k Hk2) as [Hk0|Hreach]; [by left|]. right.
        eapply reachable_trans; [|exact Hreach].
        eapply reach_child; [apply reach_start|exact Hm|exact Hc]. }
  destruct (Hloop (children node) cur Hst) as (cur1 & Hrun & Hst1 & Hsub1 & Hgone & Hrem);
    [done..|].
  rewrite Hrun. cbn. exists (delete id cur1).
  destruct Hst1 as [Hsubm Hclosed1].
  split; [done|]. split; [split|].
  - intros k n [_ Hk]%lookup_delete_Some. by apply Hsubm.
  - intros k n Hk Hdel c Hc. apply lookup_delete_None.
    apply lookup_delete_None in Hdel as [->|Hdel].
    + right. apply Hgone. by simplify_eq.
    + right. by eapply Hclosed1.
  - split; [apply lookup_delete_eq|]. split.
    + intros k n [_ Hk]%lookup_delete_Some. by apply Hsub1.
    + intros k [->|Hk]%lookup_delete_None; [right; apply reach_start|].
      by apply Hrem.
Qed.

Lemma removeSubtree_result (fuel : nat) (id : string) :
  (∀ n, m !! id = Some n -> (rank id < fuel)%nat) -> (0 < fuel)%nat ->
  ∃ m',
    removeSubtree fuel m id = Some m'
    ∧ (∀ k, reachable m id k -> m' !! k = None)
    ∧ (∀ k, ¬ reachable m id k -> m' !! k = m !! k).
Proof.
  intros Hfuel Hpos.
  destruct (removeSubtree_step fuel m id) as (m' & Hrun & [Hsub Hclosed] & Hid & _ & Hrem);
    [split; [done|]; intros k n Hk Hk'; congruence | done | done |].
  exists m'. split; [done|]. split.
  - intros k Hreach. induction Hreach as [|k c n _ IHk Hk Hc]; [done|].
    by eapply Hclosed.
  - intros k Hnot. destruct (m' !! k) as [n|] eqn:Hk.
    + symmetry. by apply Hsub.
    + destruct (Hrem k Hk) as [Hm|Hreach]; [done|]. by destruct Hnot.
Qed.

End Removal.

Section Delete.
Context `{Platform}.

(** X14: deleting removes a subtree and nothing else.  [DELETE_NODE] on a
    traversable state whose document stores the parent returns a state
    whose document holds none of the identifiers reachable from the child
    along child references, holds every other node as it was, and holds
    the parent without its references to the child (unless the parent is
    itself below the child): an object without the entries that point at
    the child, an array without the items equal to it, the other entries
    and items in their order; the parent is selected.  The child need
    not be a child of the parent for any of this. *)
Theorem delete_removes_the_subtree_only
    (B next fuel : nat) (state : EditorState) (d : DocumentState)
    (parentId childId' : string) (parent : JsonNode) :
  state_ok B next state ->
  doc state = Some d -> nodes d !! parentId = Some parent -> (B < fuel)%nat ->
  ∃ state' d',
    editorReducer fuel state (DELETE_NODE parentId childId') next = Some (state', next)
    ∧ doc state' = Some d'
    ∧ rootId d' = rootId d
    ∧ (∀ k, reachable (nodes d) childId' k -> nodes d' !! k = None)
    ∧ (∀ k, ¬ reachable (nodes d) childId' k -> k ≠ parentId ->
         nodes d' !! k = nodes d !! k)
    ∧ (¬ reachable (nodes d) childId' parentId ->
         nodes d' !! parentId
         = Some match parent with
                | ObjectNode i entries =>
                    ObjectNode i (filter (fun entry => childId entry ≠ childId') entries)
                | ArrayNode i items =>
                    ArrayNode i (filter (fun item => item ≠ childId') items)
                | _ => parent
                end)
    ∧ selectedId state' = Some parentId.
Proof.
  intros Hok Hdoc Hparent Hfuel. pose proof Hok as (Hdocok & _).
  destruct (Hdocok d Hdoc) as (Hac & Hids & Hfresh).
  destruct Hac as (rank & Hrank).
  destruct (removeSubtree_result (nodes d) rank) with (fuel := fuel) (id := childId')
    as (nodes1 & Hrun & Hgone & Hkept).
  { intros k n Hk c Hc. by apply (Hrank k n Hk). }
  { intros n Hn. destruct (Hrank _ _ Hn). lia. }
  { lia. }
  rewrite reducer_delete.
  rewrite (deleteNode_accepted fuel state d parentId childId' parent Hdoc Hparent).
  rewrite (bind_step _ _ _ Hrun). cbv beta.
  destruct (finalize_result B B next next fuel state
              (deletedDoc d parentId childId' parent nodes1) (Some parentId))
    as (s' & v & Hs' & _ & Hd' & _ & _ & _ & Hsel & _); [done| |lia..|].
  { apply doc_ok_refines; [by apply Hdocok|].
    apply deletedDoc_refines; [done|]. by eapply removeSubtree_refines. }
  rewrite (bind_step _ _ _ Hs'). exists s', (deletedDoc d parentId childId' parent nodes1).
  split; [done|]. split; [done|]. split; [done|].
  unfold deletedDoc; cbn [nodes]. split; [|split; [|split; [|done]]].
  - intros k Hreach. destruct (nodes1 !! parentId) eqn:Hp; [|by apply Hgone].
    rewrite lookup_insert_ne; [by apply Hgone|].
    intros <-. rewrite (Hgone _ Hreach) in Hp. done.
  - intros k Hnot Hne. destruct (nodes1 !! parentId) eqn:Hp; [|by apply Hkept].
    rewrite lookup_insert_ne by done. by apply Hkept.
  - intros Hnot. rewrite (Hkept _ Hnot), Hparent. by rewrite lookup_insert_eq.
Qed.

End Delete.

Lemma delete_removes_the_subtree_only_witness :
  state_ok 6 5 Demo.sampleState
  ∧ doc Demo.sampleState = Some (buildDocumentFromValue Demo.sampleValue 0).1
  ∧ nodes (buildDocumentFromValue Demo.sampleValue 0).1 !! "id-0"
    = Some (ObjectNode "id-0" [mkEntry "a" "id-1"; mkEntry "b" "id-2"])
  ∧ (6 < 7)%nat
  ∧ ∃ state' d',
      editorReducer (H := Demo.platform) 7 Demo.sampleState
        (DELETE_NODE "id-0" "id-2") 5 = Some (state', 5%nat)
      ∧ doc state' = Some d'
      ∧ rootId d' = rootId (buildDocumentFromValue Demo.sampleValue 0).1
      ∧ (∀ k, reachable (nodes (buildDocumentFromValue Demo.sampleValue 0).1) "id-2" k ->
           nodes d' !! k = None)
      ∧ (∀ k, ¬ reachable (nodes (buildDocumentFromValue Demo.sampleValue 0).1) "id-2" k ->
           k ≠ "id-0" ->
           nodes d' !! k = nodes (buildDocumentFromValue Demo.sampleValue 0).1 !! k)
      ∧ (¬ reachable (nodes (buildDocumentFromValue Demo.sampleValue 0).1) "id-2" "id-0" ->
           nodes d' !! "id-0" = Some (ObjectNode "id-0" [mkEntry "a" "id-1"]))
      ∧ selectedId state' = Some "id-0".
Proof.
  split; [exact sampleState_ok|]. split; [exact sampleState_doc|].
  split; [vm_compute; reflexivity|]. split; [lia|].
  apply (delete_removes_the_subtree_only (H := Demo.platform) 6 5 7 Demo.sampleState
           (buildDocumentFromValue Demo.sampleValue 0).1 "id-0" "id-2"
           (ObjectNode "id-0" [mkEntry "a" "id-1"; mkEntry "b" "id-2"])
           sampleState_ok sampleState_doc);
    [vm_compute; reflexivity | lia].
Defined.

(** * Keys of an object *)

Lemma keyTaken_false (entries : list ObjectEntry) (k : string) :
  keyTaken entries k = false -> k ∉ map key entries.
Proof.
  induction entries as [|e entries IH]; simpl; [intros _; apply not_elem_of_nil|].
  intros [He Hrest]%orb_false_elim. apply not_elem_of_cons. split; [|by apply IH].
  apply String.eqb_neq in He. congruence.
Qed.

Lemma renameFirst_keys (entries : list ObjectEntry) (c t x : string) :
  x ∈ map key (renameFirst entries c t) -> x ∈ map key entries ∨ x = t.
Proof.
  induction entries as [|e entries IH]; simpl; [by intros ?%elem_of_nil|].
  destruct (String.eqb (childId e) c); simpl.
  - intros [->|Hx]%elem_of_cons; [by right|]. left. by right.
  - intros [->|Hx]%elem_of_cons; [left; by left|].
    destruct (IH Hx) as [?|?]; [left; by right|by right].
Qed.

Lemma renameFirst_NoDup (entries : list ObjectEntry) (c t : string) :
  NoDup (map key entries) -> NoDup (map childId entries) ->
  keyTakenByOther entries t c = false ->
  NoDup (map key (renameFirst entries c t)).
Proof.
  induction entries as [|e entries IH]; simpl; [done|].
  intros [Hk Hks]%NoDup_cons [Hc Hcs]%NoDup_cons [He Hrest]%orb_false_elim.
  destruct (String.eqb_spec (childId e) c) as [Heq|Hne]; simpl.
  - apply NoDup_cons. split; [|done].
    intros Hin. apply list_elem_of_fmap in Hin as (e' & Ht & He').
    assert (Hother : String.eqb (key e') t && negb (String.eqb (childId e') c) = false).
    { unfold keyTakenByOther in Hrest.
      destruct (String.eqb (key e') t && negb (String.eqb (childId e') c)) eqn:Hb;
        [|done].
      assert (existsb (fun entry => String.eqb (key entry) t
                                    && negb (String.eqb (childId entry) c)) entries
              = true) as Hex; [|congruence].
      apply existsb_exists. exists e'. split; [|done]. by apply list_elem_of_In. }
    rewrite <- Ht, String.eqb_refl in Hother. simpl in Hother.
    apply negb_false_iff, String.eqb_eq in Hother.
    apply Hc. rewrite Heq, <- Hother. by apply list_elem_of_fmap_2.
  - apply NoDup_cons. split; [|by apply IH].
    intros Hin. apply renameFirst_keys in Hin as [Hin|Heq]; [done|].
    rewrite Heq, String.eqb_refl in He. done.
Qed.


Section Keys.
Context `{Platform}.

(** X15: adding appends one fresh node and keeps the keys of the parent
    distinct.  An accepted [ADD_NODE] on a traversable state draws one
    identifier, stores the default node of the type asked for under it
    (an object without entries, an array without items, the empty
    string, the number 0, [false] or [null]),
    appends it to the children of the parent (for an object under the
    trimmed key), leaves every other node as it was and selects the new
    node; when the keys of the parent were pairwise distinct they still
    are. *)
Theorem accepted_add_appends_a_fresh_node
    (B next fuel : nat) (state : EditorState) (d : DocumentState) (parentId : string)
    (parent : JsonNode) (parentType : ParentType) (key' : option string)
    (newType : NodeType) :
  state_ok B next state ->
  doc state = Some d -> nodes d !! parentId = Some parent ->
  acceptsAdd parent parentType key' = true -> (S B < fuel)%nat ->
  ∃ state' d',
    editorReducer fuel state (ADD_NODE parentId parentType key' newType) next
    = Some (state', S next)
    ∧ doc state' = Some d'
    ∧ rootId d' = rootId d
    ∧ nodes d !! mkId next = None
    ∧ nodes d' !! mkId next
      = Some match newType with
             | TObject => ObjectNode (mkId next) []
             | TArray => ArrayNode (mkId next) []
             | TString => StringNode (mkId next) ""
             | TNumber => NumberNode (mkId next) (S754_zero false)
             | TBoolean => BooleanNode (mkId next) false
             | TNull => NullNode (mkId next)
             end
    ∧ nodes d' !! parentId = Some (withChild parent key' (mkId next))
    ∧ (∀ k, k ≠ parentId -> k ≠ mkId next -> nodes d' !! k = nodes d !! k)
    ∧ children (withChild parent key' (mkId next)) = children parent ++ [mkId next]
    ∧ keys (withChild parent key' (mkId next))
      = match parent with
        | ObjectNode _ _ => keys parent ++ [JsString.trim (nullish key' "")]
        | _ => []
        end
    ∧ (NoDup (keys parent) -> NoDup (keys (withChild parent key' (mkId next))))
    ∧ selectedId state' = Some (mkId next).
Proof.
  intros Hok Hdoc Hparent Hacc Hfuel. pose proof Hok as (Hdocok & _).
  pose proof (Hdocok d Hdoc) as Hd. pose proof Hd as (Hac & Hids & Hfresh).
  assert (Hne : mkId next ≠ parentId).
  { intros <-. rewrite Hfresh in Hparent; [done|lia]. }
  rewrite reducer_add.
  rewrite (addNode_accepted fuel state d parentId parent parentType key' newType next
             Hdoc Hparent Hacc).
  destruct (finalize_result B (S B) next (S next) fuel state
              (addedDoc d parentId parent key' newType next) (Some (mkId next)))
    as (s' & v & Hs' & _ & Hd' & _ & _ & _ & Hsel & _); [done| |lia..|].
  { by apply addedDoc_ok. }
  rewrite (bind_step _ _ _ Hs'). cbv beta.
  exists s', (addedDoc d parentId parent key' newType next).
  split; [done|]. split; [done|]. split; [done|].
  rewrite addedDoc_nodes by done.
  split; [apply Hfresh; lia|].
  split; [by rewrite lookup_insert_ne, lookup_insert_eq|].
  split; [by rewrite lookup_insert_eq|].
  split; [intros k Hk1 Hk2; by rewrite !lookup_insert_ne|].
  unfold acceptsAdd in Hacc.
  destruct parentType, parent as [pid entries|pid items| | | |]; try done;
    cbn [withChild children keys].
  destruct key' as [k|]; [|done].
  apply andb_prop in Hacc as [_ Htaken]. apply negb_true_iff in Htaken.
  rewrite !map_app. cbn [map key childId nullish default].
  do 2 (split; [done|]). split; [|done].
  intros Hnd. apply NoDup_app. split; [done|]. split; [|apply NoDup_singleton].
  intros x Hx ->%list_elem_of_singleton. by apply keyTaken_false in Htaken.
Qed.


End Keys.

Lemma sampleState_root :
  nodes (buildDocumentFromValue Demo.sampleValue 0).1 !! "id-0"
  = Some (ObjectNode "id-0" [mkEntry "a" "id-1"; mkEntry "b" "id-2"]).
Proof. vm_compute. reflexivity. Qed.

Lemma accepted_add_appends_a_fresh_node_witness :
  state_ok 6 5 Demo.sampleState
  ∧ doc Demo.sampleState = Some (buildDocumentFromValue Demo.sampleValue 0).1
  ∧ nodes (buildDocumentFromValue Demo.sampleValue 0).1 !! "id-0"
    = Some (ObjectNode "id-0" [mkEntry "a" "id-1"; mkEntry "b" "id-2"])
  ∧ acceptsAdd (ObjectNode "id-0" [mkEntry "a" "id-1"; mkEntry "b" "id-2"])
      PObject (Some " c ") = true
  ∧ (7 < 8)%nat
  ∧ ∃ state' d',
      editorReducer (H := Demo.platform) 8 Demo.sampleState
        (ADD_NODE "id-0" PObject (Some " c ") TString) 5 = Some (state', 6%nat)
      ∧ doc state' = Some d'
      ∧ rootId d' = rootId (buildDocumentFromValue Demo.sampleValue 0).1
      ∧ nodes (buildDocumentFromValue Demo.sampleValue 0).1 !! mkId 5 = None
      ∧ nodes d' !! mkId 5 = Some (StringNode (mkId 5) "")
      ∧ nodes d' !! "id-0"
        = Some (withChild (ObjectNode "id-0" [mkEntry "a" "id-1"; mkEntry "b" "id-2"])
                  (Some " c ") (mkId 5))
      ∧ (∀ k, k ≠ "id-0" -> k ≠ mkId 5 ->
           nodes d' !! k = nodes (buildDocumentFromValue Demo.sampleValue 0).1 !! k)
      ∧ children (withChild (ObjectNode "id-0" [mkEntry "a" "id-1"; mkEntry "b" "id-2"])
                    (Some " c ") (mkId 5))
        = children (ObjectNode "id-0" [mkEntry "a" "id-1"; mkEntry "b" "id-2"])
          ++ [mkId 5]
      ∧ keys (withChild (ObjectNode "id-0" [mkEntry "a" "id-1"; mkEntry "b" "id-2"])
                (Some " c ") (mkId 5))
        = keys (ObjectNode "id-0" [mkEntry "a" "id-1"; mkEntry "b" "id-2"])
          ++ [JsString.trim (nullish (Some " c ") "")]
      ∧ (NoDup (keys (ObjectNode "id-0" [mkEntry "a" "id-1"; mkEntry "b" "id-2"])) ->
         NoDup (keys (withChild
                        (ObjectNode "id-0" [mkEntry "a" "id-1"; mkEntry "b" "id-2"])
                        (Some " c ") (mkId 5))))
      ∧ selectedId state' = Some (mkId 5).
Proof.
  split; [exact sampleState_ok|]. split; [exact sampleState_doc|].
  split; [exact sampleState_root|]. split; [reflexivity|]. split; [lia|].
  apply (accepted_add_appends_a_fresh_node (H := Demo.platform) 6 5 8 Demo.sampleState
           (buildDocumentFromValue Demo.sampleValue 0).1 "id-0"
           (ObjectNode "id-0" [mkEntry "a" "id-1"; mkEntry "b" "id-2"])
           PObject (Some " c ") TString sampleState_ok sampleState_doc sampleState_root);
    [reflexivity | lia].
Defined.



(** * Moving an array item *)

Lemma indexOf_split (l : list string) (x : string) :
  indexOf l x ≠ -1 ->
  ∃ l1 l2, l = l1 ++ x :: l2 ∧ (x ∉ l1) ∧ indexOf l x = Z.of_nat (length l1).
Proof.
  induction l as [|y l IH]; cbn [indexOf]; [done|].
  destruct (String.eqb_spec y x) as [->|Hne].
  - intros _. exists [], l. split; [done|]. split; [apply not_elem_of_nil|done].
  - destruct (indexOf l x <? 0) eqn:Hneg; [done|]. intros _.
    apply Z.ltb_ge in Hneg.
    destruct IH as (l1 & l2 & -> & Hnot & Hidx); [lia|].
    exists (y :: l1), l2. split; [done|]. split.
    + apply not_elem_of_cons. split; [congruence|done].
    + rewrite Hidx. cbn [length]. lia.
Qed.

(** Moving by one position swaps the first occurrence of the child with
    its neighbour. *)
Lemma movedItems_swap (pid : string) (items : list string) (c : string)
    (direction : Direction) :
  acceptsMove (ArrayNode pid items) c direction = true ->
  ∃ l1 x y l2,
    items = l1 ++ x :: y :: l2
    ∧ movedItems items c direction = l1 ++ y :: x :: l2
    ∧ c = match direction with Up => y | Down => x end
    ∧ (c ∉ l1)
    ∧ (direction = Up -> x ≠ c).
Proof.
  unfold acceptsMove, movedItems.
  intros [Hfound Hrange]%andb_prop.
  apply negb_true_iff, Z.eqb_neq in Hfound.
  apply negb_true_iff, orb_false_elim in Hrange as [Hlo Hhi].
  apply Z.ltb_ge in Hlo. apply Z.leb_gt in Hhi.
  destruct (indexOf_split items c Hfound) as (l1 & l2 & -> & Hnot & Hidx).
  rewrite Hidx in *. rewrite Nat2Z.id.
  rewrite take_app_length.
  assert (drop (S (length l1)) (l1 ++ c :: l2) = l2) as ->.
  { replace (S (length l1)) with (length l1 + 1)%nat by lia. by rewrite drop_app_add. }
  destruct direction; cbn [directionValue] in *.
  - destruct l1 as [|x0 l1' _] using rev_ind; [simpl in Hlo; lia|].
    rewrite length_app in *. cbn [length] in *.
    replace (Z.to_nat (Z.of_nat (length l1' + 1) + -1)) with (length l1') by lia.
    rewrite <- (app_assoc l1' [x0] l2).
    rewrite take_app_length, drop_app_length.
    exists l1', x0, c, l2. rewrite <- !app_assoc. cbn [app].
    split; [done|]. split; [done|]. split; [done|].
    apply not_elem_of_app in Hnot as [Hnot Hx0]. split; [done|].
    intros _ ->. apply Hx0. left.
  - destruct l2 as [|y l2'].
    { rewrite length_app in Hhi. simpl in Hhi. lia. }
    replace (Z.to_nat (Z.of_nat (length l1) + 1)) with (length (l1 ++ [y]))
      by (rewrite length_app; simpl; lia).
    replace (l1 ++ y :: l2') with ((l1 ++ [y]) ++ l2') by (by rewrite <- app_assoc).
    rewrite take_app_length, drop_app_length.
    exists l1, c, y, l2'. rewrite <- !app_assoc. cbn [app].
    split; [done|]. split; [done|]. split; [done|]. split; [done|]. done.
Qed.

Section Move.
Context `{Platform}.

(** X17: moving an array item swaps it with its neighbour.  An accepted
    [MOVE_ARRAY_ITEM] on a traversable state stores the parent array with
    the first occurrence of the child and the item before it (moving up)
    or after it (moving down) exchanged, every other item in its place
    and every other node as before; the child is selected. *)
Theorem accepted_move_swaps_neighbours
    (B next fuel : nat) (state : EditorState) (d : DocumentState)
    (parentId childId' pid : string) (items : list string) (direction : Direction) :
  state_ok B next state ->
  doc state = Some d -> nodes d !! parentId = Some (ArrayNode pid items) ->
  acceptsMove (ArrayNode pid items) childId' direction = true -> (B < fuel)%nat ->
  ∃ state' l1 x y l2,
    editorReducer fuel state (MOVE_ARRAY_ITEM parentId childId' direction) next
    = Some (state', next)
    ∧ items = l1 ++ x :: y :: l2
    ∧ doc state'
      = Some (mkDoc (rootId d)
                (<[parentId := ArrayNode pid (l1 ++ y :: x :: l2)]> (nodes d)))
    ∧ childId' = match direction with Up => y | Down => x end
    ∧ (childId' ∉ l1)
    ∧ selectedId state' = Some childId'.
Proof.
  intros Hok Hdoc Hparent Hacc Hfuel. pose proof Hok as (Hdocok & _).
  rewrite reducer_move.
  rewrite (moveArrayItem_accepted fuel state d parentId childId' pid items direction
             Hdoc Hparent Hacc).
  destruct (finalize_result B B next next fuel state
              (movedDoc d parentId childId' direction pid items) (Some childId'))
    as (s' & v & Hs' & _ & Hd' & _ & _ & _ & Hsel & _); [done| |lia..|].
  { apply doc_ok_refines; [by apply Hdocok|]. by apply movedDoc_refines. }
  rewrite (bind_step _ _ _ Hs'). cbv beta.
  destruct (movedItems_swap pid items childId' direction Hacc)
    as (l1 & x & y & l2 & Hitems & Hmoved & Hc & Hnot & _).
  exists s', l1, x, y, l2. split; [done|]. split; [done|].
  split; [|done]. rewrite Hd'. unfold movedDoc. by rewrite Hmoved.
Qed.

End Move.

Lemma sampleState_array :
  nodes (buildDocumentFromValue Demo.sampleValue 0).1 !! "id-2"
  = Some (ArrayNode "id-2" ["id-3"; "id-4"]).
Proof. vm_compute. reflexivity. Qed.

Lemma accepted_move_swaps_neighbours_witness :
  state_ok 6 5 Demo.sampleState
  ∧ doc Demo.sampleState = Some (buildDocumentFromValue Demo.sampleValue 0).1
  ∧ nodes (buildDocumentFromValue Demo.sampleValue 0).1 !! "id-2"
    = Some (ArrayNode "id-2" ["id-3"; "id-4"])
  ∧ acceptsMove (ArrayNode "id-2" ["id-3"; "id-4"]) "id-4" Up = true
  ∧ (6 < 7)%nat
  ∧ ∃ state' l1 x y l2,
      editorReducer (H := Demo.platform) 7 Demo.sampleState
        (MOVE_ARRAY_ITEM "id-2" "id-4" Up) 5 = Some (state', 5%nat)
      ∧ ["id-3"; "id-4"] = l1 ++ x :: y :: l2
      ∧ doc state'
        = Some (mkDoc (rootId (buildDocumentFromValue Demo.sampleValue 0).1)
                  (<["id-2" := ArrayNode "id-2" (l1 ++ y :: x :: l2)]>
                     (nodes (buildDocumentFromValue Demo.sampleValue 0).1)))
      ∧ "id-4" = match Up with Up => y | Down => x end
      ∧ ("id-4" ∉ l1)
      ∧ selectedId state' = Some "id-4".
Proof.
  split; [exact sampleState_ok|]. split; [exact sampleState_doc|].
  split; [exact sampleState_array|]. split; [reflexivity|]. split; [lia|].
  apply (accepted_move_swaps_neighbours (H := Demo.platform) 6 5 7 Demo.sampleState
           (buildDocumentFromValue Demo.sampleValue 0).1 "id-2" "id-4" "id-2"
           ["id-3"; "id-4"] Up sampleState_ok sampleState_doc sampleState_array);
    [reflexivity | lia].
Defined.


(** * Sorting keys *)

Lemma reachable_refines (m m' : gmap string JsonNode) (s k : string) :
  refines m m' -> reachable m' s k -> reachable m s k.
Proof.
  intros Href Hreach. induction Hreach as [|k c n' _ IH Hk Hc]; [constructor|].
  destruct (Href _ _ Hk) as (n & Hn & _ & Hsub).
  eapply reach_child; [exact IH | exact Hn | by apply Hsub].
Qed.

Lemma reachable_head (m : gmap string JsonNode) (s k : string) :
  reachable m s k ->
  k = s ∨ ∃ n c, m !! s = Some n ∧ c ∈ children n ∧ reachable m c k.
Proof.
  induction 1 as [|k c n _ IH Hk Hc]; [by left|]. right.
  destruct IH as [->|(n0 & c0 & Hs & Hc0 & Hreach)].
  - exists n, c. split; [done|]. split; [done|]. constructor.
  - exists n0, c0. split; [done|]. split; [done|]. by eapply reach_child.
Qed.

Section SortOrder.
Context {A : Type} (compareFn : A -> A -> Z).
Hypothesis Hasym : ∀ a b, 0 < compareFn a b -> compareFn b a <= 0.

Lemma inOrder_cons (x : A) (l : list A) :
  inOrder compareFn (x :: l)
  <-> (∀ y, head l = Some y -> compareFn x y <= 0) ∧ inOrder compareFn l.
Proof.
  unfold inOrder. split.
  - intros Hord. split.
    + intros y Hy. apply (Hord 0%nat x y); [done|]. by destruct l; simplify_eq.
    + intros i a b Ha Hb. by apply (Hord (S i) a b).
  - intros [Hhead Hrest] [|i] a b Ha Hb.
    + simpl in Ha. simplify_eq. apply Hhead. by destruct l; simplify_eq.
    + by apply (Hrest i a b).
Qed.

Lemma insertSorted_head (x : A) (l : list A) (y : A) :
  head (insertSorted compareFn x l) = Some y -> y = x ∨ head l = Some y.
Proof.
  destruct l as [|z l]; simpl; [intros [= <-]; by left|].
  destruct (0 <? compareFn x z); simpl; intros [= <-]; auto.
Qed.

Lemma insertSorted_inOrder (x : A) (l : list A) :
  inOrder compareFn l -> inOrder compareFn (insertSorted compareFn x l).
Proof.
  induction l as [|z l IH]; intros Hord; simpl.
  - apply inOrder_cons. split; [done|]. by intros i a b Ha.
  - destruct (0 <? compareFn x z) eqn:Hcmp.
    + apply inOrder_cons in Hord as [Hhead Hrest].
      apply inOrder_cons. split; [|by apply IH].
      intros y [->|Hy]%insertSorted_head; [|by apply Hhead].
      apply Hasym. by apply Z.ltb_lt.
    + apply inOrder_cons. split; [|done].
      intros y [= <-]. apply Z.ltb_ge in Hcmp. done.
Qed.

Lemma Array_sort_inOrder (l : list A) : inOrder compareFn (Array_sort compareFn l).
Proof.
  induction l as [|x l IH]; simpl; [by intros i a b Ha|].
  by apply insertSorted_inOrder.
Qed.

Lemma Array_sort_fixed (l : list A) :
  inOrder compareFn l -> Array_sort compareFn l = l.
Proof.
  induction l as [|x l IH]; [done|].
  intros [Hhead Hrest]%inOrder_cons. cbn [Array_sort foldr].
  fold (Array_sort compareFn l). rewrite (IH Hrest).
  destruct l as [|y l]; [done|]. simpl.
  specialize (Hhead y eq_refl).
  destruct (0 <? compareFn x y) eqn:Hcmp; [|done].
  apply Z.ltb_lt in Hcmp. lia.
Qed.

Lemma Array_sort_idempotent (l : list A) :
  Array_sort compareFn (Array_sort compareFn l) = Array_sort compareFn l.
Proof. apply Array_sort_fixed, Array_sort_inOrder. Qed.

End SortOrder.

Section SortTraversal.
Context `{Platform}.
Context (m : gmap string JsonNode) (rank : string -> nat).
Hypothesis Hranked : ranked rank m.
Hypothesis Hasym : ∀ a b, 0 < localeCompare a b -> localeCompare b a <= 0.

Lemma sortedNode_children (n : JsonNode) (c : string) :
  c ∈ children (sortedNode n) <-> c ∈ children n.
Proof.
  destruct n as [i es| | | | |]; try done. cbn [sortedNode children].
  by rewrite sorted_children.
Qed.

Lemma sortedNode_idempotent (n : JsonNode) : sortedNode (sortedNode n) = sortedNode n.
Proof.
  destruct n as [i es| | | | |]; try done. cbn [sortedNode]. f_equal.
  apply (Array_sort_idempotent (fun a b => localeCompare (key a) (key b))).
  intros a b. apply Hasym.
Qed.

Lemma sortObject_step :
  ∀ fuel cur id,
    sorting_state m cur ->
    (∀ n, m !! id = Some n -> (rank id < fuel)%nat) -> (0 < fuel)%nat ->
    ∃ cur',
      sortObject fuel cur id = Some cur'
      ∧ (∀ k, reachable m id k -> cur' !! k = sortedNode <$> m !! k)
      ∧ (∀ k, cur !! k = sortedNode <$> m !! k -> cur' !! k = sortedNode <$> m !! k)
      ∧ (∀ k, cur' !! k = cur !! k
              ∨ (reachable m id k ∧ cur' !! k = sortedNode <$> m !! k)).
Proof.
  induction fuel as [|fuel IH]; intros cur id Hst Hfuel Hpos; [lia|].
  assert (Hloop : ∀ {A : Type} (g : A -> string) (nm : JsonNode) (xs : list A) cur0,
            m !! id = Some nm ->
            sorting_state m cur0 ->
            (∀ x, x ∈ xs -> g x ∈ children nm) ->
            ∃ cur1,
              forEachM (fun m0 x => sortObject fuel m0 (g x)) cur0 xs = Some cur1
              ∧ (∀ k x, x ∈ xs -> reachable m (g x) k ->
                   cur1 !! k = sortedNode <$> m !! k)
              ∧ (∀ k, cur0 !! k = sortedNode <$> m !! k ->
                   cur1 !! k = sortedNode <$> m !! k)
              ∧ (∀ k, cur1 !! k = cur0 !! k
                      ∨ (reachable m id k ∧ cur1 !! k = sortedNode <$> m !! k))).
  { intros A g nm xs cur0 Hm. revert cur0.
    induction xs as [|x xs IHxs]; intros cur0 Hst0 Hxs.
    - exists cur0. split; [done|]. split; [by intros k x Hx%elem_of_nil|].
      split; [done|]. by left.
    - assert (Hc : g x ∈ children nm) by (apply Hxs; left).
      pose proof (Hranked _ _ Hm _ Hc) as Hrank. specialize (Hfuel nm Hm).
      destruct (IH cur0 (g x) Hst0) as (cur2 & Hrun & Hdone & Hkeep & Hframe);
        [intros; lia | lia |].
      assert (Hst2 : sorting_state m cur2).
      { intros k. destruct (Hframe k) as [->|[_ ->]]; [apply Hst0|by right]. }
      destruct (IHxs cur2 Hst2) as (cur1 & Hrun1 & Hdone1 & Hkeep1 & Hframe1).
      { intros y Hy. apply Hxs. by right. }
      exists cur1. split; [cbn [forEachM]; by rewrite Hrun|]. split; [|split].
      + intros k y [->|Hy]%elem_of_cons Hreach.
        * apply Hkeep1. by apply Hdone.
        * by eapply Hdone1.
      + intros k Hk. by apply Hkeep1, Hkeep.
      + intros k. destruct (Hframe1 k) as [->|?]; [|by right].
        destruct (Hframe k) as [->|[Hreach ->]]; [by left|]. right. split; [|done].
        eapply reachable_trans; [|exact Hreach].
        eapply reach_child; [apply reach_start|exact Hm|exact Hc]. }
  assert (Hleaf : ∀ k, reachable m id k ->
            (∀ n, m !! id = Some n -> children n = []) -> k = id).
  { intros k [->|(n & c & Hn & Hc & _)]%reachable_head Hnone; [done|].
    rewrite (Hnone n Hn) in Hc. by apply elem_of_nil in Hc. }
  cbn [sortObject].
  destruct (cur !! id) as [node|] eqn:Hnode.
  2:{ exists cur. split; [done|]. split; [|split; [done|by left]].
      assert (Hm : m !! id = None).
      { destruct (Hst id) as [Heq|Heq]; rewrite Hnode in Heq;
          destruct (m !! id); done. }
      intros k Hreach. rewrite (Hleaf k Hreach); [by rewrite Hnode, Hm|].
      intros n Hn. congruence. }
  assert (Hm : ∃ nm, m !! id = Some nm ∧ sortedNode node = sortedNode nm).
  { destruct (Hst id) as [Heq|Heq]; rewrite Hnode in Heq.
    - exists node. by rewrite <- Heq.
    - destruct (m !! id) as [nm|]; [|done]. exists nm. split; [done|].
      simpl in Heq. simplify_eq. apply sortedNode_idempotent. }
  destruct Hm as (nm & Hm & Hsorted).
  destruct node as [i es|i items|i s|i n|i b|i].
  - destruct (Hloop ObjectEntry childId nm
                (Array_sort (fun a b => localeCompare (key a) (key b)) es)
                (<[id := ObjectNode i
                           (Array_sort (fun a b => localeCompare (key a) (key b)) es)]>
                   cur) Hm)
      as (cur1 & Hrun & Hdone & Hkeep & Hframe).
    { intros k. destruct (decide (k = id)) as [->|Hne].
      - right. rewrite lookup_insert_eq, Hm. simpl. f_equal. exact Hsorted.
      - rewrite lookup_insert_ne by done. apply Hst. }
    { intros e He. apply sortedNode_children. rewrite <- Hsorted. cbn [sortedNode children].
      by apply list_elem_of_fmap_2. }
    exists cur1. split; [done|].
    assert (Hid : cur1 !! id = sortedNode <$> m !! id).
    { apply Hkeep. rewrite lookup_insert_eq, Hm. simpl. f_equal. exact Hsorted. }
    split; [|split].
    + intros k [->|(n0 & c & Hn0 & Hc & Hreach)]%reachable_head; [done|].
      assert (n0 = nm) as -> by congruence.
      apply sortedNode_children in Hc. rewrite <- Hsorted in Hc.
      cbn [sortedNode children] in Hc.
      apply list_elem_of_fmap in Hc as (e & -> & He).
      by eapply Hdone.
    + intros k Hk. apply Hkeep. destruct (decide (k = id)) as [->|Hne].
      * rewrite lookup_insert_eq, Hm. simpl. f_equal. exact Hsorted.
      * by rewrite lookup_insert_ne.
    + intros k. destruct (Hframe k) as [Heq|?]; [|by right].
      destruct (decide (k = id)) as [->|Hne].
      * right. split; [constructor|done].
      * left. by rewrite Heq, lookup_insert_ne.
  - destruct (Hloop string (fun x => x) nm items cur Hm Hst)
      as (cur1 & Hrun & Hdone & Hkeep & Hframe).
    { intros c Hc. apply sortedNode_children. by rewrite <- Hsorted. }
    exists cur1. split; [done|]. split; [|done].
    intros k [->|(n0 & c & Hn0 & Hc & Hreach)]%reachable_head.
    + apply Hkeep. destruct (Hst id) as [Heq|Heq]; [|done].
      rewrite Heq, Hm. simpl. f_equal.
      rewrite Hnode, Hm in Heq. simplify_eq. done.
    + assert (n0 = nm) as -> by congruence.
      apply sortedNode_children in Hc. rewrite <- Hsorted in Hc.
      by eapply Hdone.
  - exists cur. split; [done|]. split; [|split; [done|by left]].
    intros k Hreach. rewrite (Hleaf k Hreach).
    + rewrite Hnode, Hm. simpl. by rewrite <- Hsorted.
    + intros n0 Hn0. assert (n0 = nm) as -> by congruence.
      destruct nm; simplify_eq; done.
  - exists cur. split; [done|]. split; [|split; [done|by left]].
    intros k Hreach. rewrite (Hleaf k Hreach).
    + rewrite Hnode, Hm. simpl. by rewrite <- Hsorted.
    + intros n0 Hn0. assert (n0 = nm) as -> by congruence.
      destruct nm; simplify_eq; done.
  - exists cur. split; [done|]. split; [|split; [done|by left]].
    intros k Hreach. rewrite (Hleaf k Hreach).
    + rewrite Hnode, Hm. simpl. by rewrite <- Hsorted.
    + intros n0 Hn0. assert (n0 = nm) as -> by congruence.
      destruct nm; simplify_eq; done.
  - exists cur. split; [done|]. split; [|split; [done|by left]].
    intros k Hreach. rewrite (Hleaf k Hreach).
    + rewrite Hnode, Hm. simpl. by rewrite <- Hsorted.
    + intros n0 Hn0. assert (n0 = nm) as -> by congruence.
      destruct nm; simplify_eq; done.
Qed.

Lemma sortObject_result (fuel : nat) (id : string) :
  (∀ n, m !! id = Some n -> (rank id < fuel)%nat) -> (0 < fuel)%nat ->
  ∃ m',
    sortObject fuel m id = Some m'
    ∧ (∀ k, reachable m id k -> m' !! k = sortedNode <$> m !! k)
    ∧ (∀ k, m' !! k = m !! k ∨ (reachable m id k ∧ m' !! k = sortedNode <$> m !! k)).
Proof.
  intros Hfuel Hpos.
  destruct (sortObject_step fuel m id) as (m' & Hrun & Hdone & _ & Hframe);
    [by left | done | done |].
  by exists m'.
Qed.

End SortTraversal.

Section SortKeys.
Context `{Platform}.
Hypothesis Hasym : ∀ a b, 0 < localeCompare a b -> localeCompare b a <= 0.

Lemma sortKeys_result (B next fuel : nat) (state : EditorState) (d : DocumentState)
    (scope : SortScope) :
  state_ok B next state -> doc state = Some d -> (B < fuel)%nat ->
  ∃ state' nodes' value,
    editorReducer fuel state (SORT_KEYS scope) next = Some (state', next)
    ∧ doc state' = Some (mkDoc (rootId d) nodes')
    ∧ documentToJson fuel (mkDoc (rootId d) nodes') = Some value
    ∧ rawText state' = formatJson value (indent state)
    ∧ indent state' = indent state
    ∧ selectedId state' = selectedId state
    ∧ state_ok B next state'
    ∧ refines (nodes d) nodes'
    ∧ match sortStart state d scope with
      | Some start =>
          (∀ k, reachable (nodes d) start k ->
                nodes' !! k = sortedNode <$> nodes d !! k)
          ∧ (∀ k, nodes' !! k = nodes d !! k
                  ∨ (reachable (nodes d) start k
                     ∧ nodes' !! k = sortedNode <$> nodes d !! k))
      | None => nodes' = nodes d
      end.
Proof.
  intros Hok Hdoc Hfuel. pose proof Hok as (Hdocok & _).
  destruct (Hdocok d Hdoc) as (Hac & Hids & Hfresh).
  pose proof Hac as (rank & Hrank).
  rewrite reducer_sort, (sortKeys_accepted fuel state d scope Hdoc).
  assert (Hsorted : ∃ nodes',
    match sortStart state d scope with
    | Some start => sortObject fuel (nodes d) start
    | None => Some (nodes d)
    end = Some nodes'
    ∧ refines (nodes d) nodes'
    ∧ match sortStart state d scope with
      | Some start =>
          (∀ k, reachable (nodes d) start k ->
                nodes' !! k = sortedNode <$> nodes d !! k)
          ∧ (∀ k, nodes' !! k = nodes d !! k
                  ∨ (reachable (nodes d) start k
                     ∧ nodes' !! k = sortedNode <$> nodes d !! k))
      | None => nodes' = nodes d
      end).
  { destruct (sortStart state d scope) as [start|].
    - destruct (sortObject_result (nodes d) rank) with (fuel := fuel) (id := start)
        as (nodes' & Hrun & Hdone & Hframe).
      + intros k n Hk c Hc. by apply (Hrank k n Hk).
      + exact Hasym.
      + intros n Hn. destruct (Hrank _ _ Hn). lia.
      + lia.
      + exists nodes'. split; [done|]. split; [|done]. by eapply sortObject_refines.
    - exists (nodes d). split; [done|]. split; [apply refines_refl|done]. }
  destruct Hsorted as (nodes' & Hrun & Href & Hspec).
  rewrite (bind_step _ _ _ Hrun). cbv beta.
  destruct (finalize_result B B next next fuel state (mkDoc (rootId d) nodes')
              (selectedId state))
    as (s' & v & Hs' & Hv & Hd' & Hraw & _ & _ & Hsel & _ & Hok' & _ & Hind);
    [done| |lia..|].
  { apply doc_ok_refines; [by apply Hdocok|done]. }
  rewrite (bind_step _ _ _ Hs'). cbv beta.
  exists s', nodes', v. do 5 (split; [done|]).
  split; [rewrite Hsel; by destruct (selectedId state)|]. done.
Qed.

(** X18: sorting the keys reorders the entries of the objects below the
    start node and nothing else.  With a comparison of keys that never
    puts two keys each after the other, [SORT_KEYS] on a traversable
    state returns a state in whose document every object reachable from
    the start node has the same entries as before, as a permutation in
    which no entry is followed by one with a smaller key; every array,
    every scalar and every node out of reach of the start node is the
    node it was; no identifier is added or removed; the selection stays. *)
Theorem sort_keys_orders_objects_only
    (B next fuel : nat) (state : EditorState) (d : DocumentState) (scope : SortScope)
    (start : string) :
  state_ok B next state -> doc state = Some d ->
  sortStart state d scope = Some start -> (B < fuel)%nat ->
  ∃ state' d',
    editorReducer fuel state (SORT_KEYS scope) next = Some (state', next)
    ∧ doc state' = Some d'
    ∧ rootId d' = rootId d
    ∧ (∀ k i entries,
         reachable (nodes d) start k -> nodes d !! k = Some (ObjectNode i entries) ->
         ∃ entries',
           nodes d' !! k = Some (ObjectNode i entries')
           ∧ entries' ≡ₚ entries
           ∧ inOrder (fun a b => localeCompare (key a) (key b)) entries')
    ∧ (∀ k n, nodes d !! k = Some n -> (∀ i entries, n ≠ ObjectNode i entries) ->
         nodes d' !! k = Some n)
    ∧ (∀ k, ¬ reachable (nodes d) start k -> nodes d' !! k = nodes d !! k)
    ∧ (∀ k, nodes d !! k = None -> nodes d' !! k = None)
    ∧ selectedId state' = selectedId state.
Proof.
  intros Hok Hdoc Hstart Hfuel.
  destruct (sortKeys_result B next fuel state d scope Hok Hdoc Hfuel)
    as (s' & nodes' & v & Hred & Hd' & _ & _ & _ & Hsel & _ & _ & Hspec).
  rewrite Hstart in Hspec. destruct Hspec as [Hdone Hframe].
  exists s', (mkDoc (rootId d) nodes'). split; [done|]. split; [done|]. split; [done|].
  cbn [nodes]. split; [|split; [|split; [|split; [|done]]]].
  - intros k i entries Hreach Hk. rewrite (Hdone k Hreach), Hk.
    eexists. split; [reflexivity|]. split.
    + apply Array_sort_Permutation.
    + apply Array_sort_inOrder. intros a b. apply Hasym.
  - intros k n Hk Hno. destruct (Hframe k) as [->|[_ ->]]; [done|].
    rewrite Hk. destruct n; try done. by destruct (Hno id entries).
  - intros k Hnot. destruct (Hframe k) as [->|[? _]]; done.
  - intros k Hk. destruct (Hframe k) as [->|[_ ->]]; [done|]. by rewrite Hk.
Qed.

(** X19: sorting the keys twice gives what sorting them once gives.  With
    a comparison of keys that never puts two keys each after the other,
    a second [SORT_KEYS] of the same scope right after the first returns
    a state with the same document and the same text. *)
Theorem sort_keys_twice_is_once
    (B next fuel : nat) (state : EditorState) (d : DocumentState) (scope : SortScope) :
  state_ok B next state -> doc state = Some d -> (B < fuel)%nat ->
  ∃ once twice,
    editorReducer fuel state (SORT_KEYS scope) next = Some (once, next)
    ∧ editorReducer fuel once (SORT_KEYS scope) next = Some (twice, next)
    ∧ doc twice = doc once
    ∧ rawText twice = rawText once.
Proof.
  intros Hok Hdoc Hfuel.
  destruct (sortKeys_result B next fuel state d scope Hok Hdoc Hfuel)
    as (s1 & nodes1 & v1 & Hred1 & Hd1 & Hv1 & Hraw1 & Hind1 & Hsel1 & Hok1 & Href1
        & Hspec1).
  destruct (sortKeys_result B next fuel s1 (mkDoc (rootId d) nodes1) scope Hok1 Hd1 Hfuel)
    as (s2 & nodes2 & v2 & Hred2 & Hd2 & Hv2 & Hraw2 & _ & _ & _ & _ & Hspec2).
  cbn [rootId nodes] in *.
  assert (Hstart : sortStart s1 (mkDoc (rootId d) nodes1) scope = sortStart state d scope).
  { unfold sortStart. cbn [rootId]. by rewrite Hsel1. }
  rewrite Hstart in Hspec2.
  assert (Hsame : nodes2 = nodes1).
  { destruct (sortStart state d scope) as [start|]; [|done].
    destruct Hspec1 as [Hdone1 _]. destruct Hspec2 as [_ Hframe2].
    apply map_eq. intros k. destruct (Hframe2 k) as [->|[Hreach ->]]; [done|].
    apply (reachable_refines (nodes d)) in Hreach; [|done].
    rewrite (Hdone1 k Hreach). destruct (nodes d !! k) as [n|]; [|done].
    simpl. f_equal. by apply sortedNode_idempotent. }
  subst nodes2. exists s1, s2. split; [done|]. split; [done|].
  split; [by rewrite Hd1, Hd2|].
  rewrite Hraw1, Hraw2, Hind1. congruence.
Qed.

End SortKeys.

Lemma compareStrings_asym (a b : string) :
  0 < Demo.compareStrings a b -> Demo.compareStrings b a <= 0.
Proof.
  unfold Demo.compareStrings. rewrite (String.compare_antisym a b).
  by destruct (String.compare b a).
Qed.

Lemma sort_keys_orders_objects_only_witness :
  (∀ a b, 0 < Demo.compareStrings a b -> Demo.compareStrings b a <= 0)
  ∧ state_ok 6 5 Demo.sampleState
  ∧ doc Demo.sampleState = Some (buildDocumentFromValue Demo.sampleValue 0).1
  ∧ sortStart Demo.sampleState (buildDocumentFromValue Demo.sampleValue 0).1 ScopeAll
    = Some "id-0"
  ∧ (6 < 7)%nat
  ∧ ∃ state' d',
      editorReducer (H := Demo.platform) 7 Demo.sampleState (SORT_KEYS ScopeAll) 5
      = Some (state', 5%nat)
      ∧ doc state' = Some d'
      ∧ rootId d' = rootId (buildDocumentFromValue Demo.sampleValue 0).1
      ∧ (∀ k i entries,
           reachable (nodes (buildDocumentFromValue Demo.sampleValue 0).1) "id-0" k ->
           nodes (buildDocumentFromValue Demo.sampleValue 0).1 !! k
           = Some (ObjectNode i entries) ->
           ∃ entries',
             nodes d' !! k = Some (ObjectNode i entries')
             ∧ entries' ≡ₚ entries
             ∧ inOrder (fun a b => Demo.compareStrings (key a) (key b)) entries')
      ∧ (∀ k n, nodes (buildDocumentFromValue Demo.sampleValue 0).1 !! k = Some n ->
           (∀ i entries, n ≠ ObjectNode i entries) -> nodes d' !! k = Some n)
      ∧ (∀ k, ¬ reachable (nodes (buildDocumentFromValue Demo.sampleValue 0).1) "id-0" k ->
           nodes d' !! k = nodes (buildDocumentFromValue Demo.sampleValue 0).1 !! k)
      ∧ (∀ k, nodes (buildDocumentFromValue Demo.sampleValue 0).1 !! k = None ->
           nodes d' !! k = None)
      ∧ selectedId state' = selectedId Demo.sampleState.
Proof.
  split; [exact compareStrings_asym|]. split; [exact sampleState_ok|].
  split; [exact sampleState_doc|]. split; [reflexivity|]. split; [lia|].
  apply (sort_keys_orders_objects_only (H := Demo.platform) compareStrings_asym 6 5 7
           Demo.sampleState (buildDocumentFromValue Demo.sampleValue 0).1 ScopeAll "id-0"
           sampleState_ok sampleState_doc);
    [reflexivity | lia].
Defined.

Lemma sort_keys_twice_is_once_witness :
  (∀ a b, 0 < Demo.compareStrings a b -> Demo.compareStrings b a <= 0)
  ∧ state_ok 6 5 Demo.sampleState
  ∧ doc Demo.sampleState = Some (buildDocumentFromValue Demo.sampleValue 0).1
  ∧ (6 < 7)%nat
  ∧ ∃ once twice,
      editorReducer (H := Demo.platform) 7 Demo.sampleState (SORT_KEYS ScopeAll) 5
      = Some (once, 5%nat)
      ∧ editorReducer (H := Demo.platform) 7 once (SORT_KEYS ScopeAll) 5
        = Some (twice, 5%nat)
      ∧ doc twice = doc once
      ∧ rawText twice = rawText once.
Proof.
  split; [exact compareStrings_asym|]. split; [exact sampleState_ok|].
  split; [exact sampleState_doc|]. split; [lia|].
  apply (sort_keys_twice_is_once (H := Demo.platform) compareStrings_asym 6 5 7
           Demo.sampleState (buildDocumentFromValue Demo.sampleValue 0).1 ScopeAll
           sampleState_ok sampleState_doc).
  lia.
Defined.

(** * Searching *)

Lemma prefix_startsWith (q : string) :
  ∀ s, String.prefix q s = true <-> startsWith q s.
Proof.
  induction q as [|a q IH]; intros s.
  - split; [intros _; by exists s|]. intros _. by destruct s.
  - destruct s as [|b s]; cbn [String.prefix].
    + split; [done|]. intros (post & Heq). discriminate Heq.
    + destruct (ascii_dec a b) as [->|Hne].
      * rewrite IH. split.
        -- intros (post & ->). by exists post.
        -- intros (post & Heq). injection Heq as ->. by exists post.
      * split; [done|]. intros (post & Heq). injection Heq as -> _. done.
Qed.

Lemma includes_occursIn (s q : string) :
  JsString.includes s q = true <-> occursIn q s.
Proof.
  induction s as [|c s IH]; cbn [JsString.includes].
  - rewrite orb_false_r, prefix_startsWith. split.
    + intros (post & Heq). by exists "", post.
    + intros (pre & post & Heq). destruct pre as [|x pre]; [|discriminate Heq].
      by exists post.
  - rewrite orb_true_iff, prefix_startsWith, IH. split.
    + intros [(post & Heq)|(pre & post & ->)].
      * by exists "", post.
      * by exists (String c pre), post.
    + intros (pre & post & Heq). destruct pre as [|x pre].
      * left. by exists post.
      * right. injection Heq as -> ->. by exists pre, post.
Qed.

Section SearchTests.
Context `{Platform}.

Lemma keyMatch_includes (lower : string) (entry : ObjectEntry) :
  JsString.includes (JsString.toLowerCase (key entry)) lower
  = bool_decide (keyMatch lower entry).
Proof.
  apply eq_true_iff_eq. rewrite includes_occursIn, bool_decide_eq_true. done.
Qed.

Lemma valueMatch_includes (lower : string) (node : JsonNode) :
  isScalar node = true ->
  JsString.includes (JsString.toLowerCase (valueString node)) lower
  = bool_decide (valueMatch lower node).
Proof.
  intros Hsc. apply eq_true_iff_eq.
  rewrite includes_occursIn, bool_decide_eq_true. unfold valueMatch.
  destruct node as [| |i s|i n|i [|]|i]; try done; cbn [valueString scalarText];
    (split; [intros Hocc; by eexists|by intros (text & [= <-] & Hocc)]).
Qed.

Lemma valueMatch_scalar (lower : string) (node : JsonNode) :
  valueMatch lower node -> isScalar node = true.
Proof. intros (text & Htext & _). by destruct node. Qed.

End SearchTests.

Section SearchSpec.
Context `{Platform}.
Context (d : DocumentState) (lower : string) (rank : string -> nat).
Hypothesis Hranked : ranked rank (nodes d).

Lemma isHit_child (id c x : string) (n : JsonNode) :
  nodes d !! id = Some n -> c ∈ children n -> isHit d lower c x -> isHit d lower id x.
Proof.
  intros Hn Hc Hhit.
  assert (Hreach : ∀ k, reachable (nodes d) c k -> reachable (nodes d) id k).
  { intros k Hk. eapply reachable_trans; [|exact Hk].
    eapply reach_child; [constructor|exact Hn|exact Hc]. }
  destruct Hhit as [(k & i & es & e & Hk & ?)|(k & node & Hk & ?)].
  - left. exists k, i, es, e. split; [by apply Hreach|done].
  - right. exists k, node. split; [by apply Hreach|done].
Qed.

Lemma isHit_head (id x : string) :
  isHit d lower id x ->
  (∃ i entries entry, nodes d !! id = Some (ObjectNode i entries)
     ∧ entry ∈ entries ∧ childId entry = x ∧ keyMatch lower entry)
  ∨ (∃ node, nodes d !! id = Some node ∧ node_id node = x
       ∧ valueMatch lower node)
  ∨ (∃ n c, nodes d !! id = Some n ∧ c ∈ children n ∧ isHit d lower c x).
Proof.
  intros [(k & i & es & e & Hk & Hnode & He & Hx & Hm)|(k & node & Hk & Hnode & Hx & Hm)].
  - apply reachable_head in Hk as [->|(n & c & Hn & Hc & Hreach)].
    + left. by exists i, es, e.
    + right. right. exists n, c. split; [done|]. split; [done|].
      left. by exists k, i, es, e.
  - apply reachable_head in Hk as [->|(n & c & Hn & Hc & Hreach)].
    + right. left. by exists node.
    + right. right. exists n, c. split; [done|]. split; [done|].
      right. by exists k, node.
Qed.

Lemma visit_result :
  ∀ fuel id acc,
    (∀ n, nodes d !! id = Some n -> (rank id < fuel)%nat) -> (0 < fuel)%nat ->
    visit fuel d lower id acc = Some (acc ++ hitList fuel d lower id)
    ∧ ∀ x, x ∈ hitList fuel d lower id <-> isHit d lower id x.
Proof.
  induction fuel as [|fuel IH]; intros id acc Hfuel Hpos; [lia|].
  cbn [visit hitList].
  destruct (nodes d !! id) as [node|] eqn:Hnode.
  2:{ split; [by rewrite app_nil_r|]. intros x. split; [by intros ?%elem_of_nil|].
      intros [(?&?&?&?&?&?&_)|[(?&?&_)|(?&?&?&_)]]%isHit_head; congruence. }
  specialize (Hfuel node eq_refl).
  assert (Hchild : ∀ c acc0, c ∈ children node ->
            visit fuel d lower c acc0 = Some (acc0 ++ hitList fuel d lower c)
            ∧ ∀ x, x ∈ hitList fuel d lower c <-> isHit d lower c x).
  { intros c acc0 Hc. pose proof (Hranked _ _ Hnode c Hc).
    apply IH; [intros; lia|lia]. }
  assert (Hscalar : isScalar node = true ->
            (if JsString.includes (JsString.toLowerCase (valueString node)) lower
             then Some (acc ++ [node_id node]) else Some acc)
            = Some (acc ++ (if decide (valueMatch lower node) then [node_id node] else []))
            ∧ ∀ x, x ∈ (if decide (valueMatch lower node) then [node_id node] else [])
                   <-> isHit d lower id x).
  { intros Hsc. rewrite (valueMatch_includes lower node Hsc). split.
    - destruct (decide (valueMatch lower node)) as [Hm|Hm].
      + by rewrite bool_decide_eq_true_2.
      + rewrite bool_decide_eq_false_2 by done. by rewrite app_nil_r.
    - intros x. split.
      + intros Hx. right. exists id, node. split; [constructor|]. split; [done|].
        destruct (decide (valueMatch lower node)); [|by apply elem_of_nil in Hx].
        apply list_elem_of_singleton in Hx. done.
      + intros [(i & es & e & Hn & _)|[(n & Hn & Hx & Hm)|(n & c & Hn & Hc & _)]]%isHit_head.
        * by simplify_eq.
        * simplify_eq. rewrite decide_True by done. left.
        * assert (n = node) as -> by congruence.
          destruct node; try done; by apply elem_of_nil in Hc. }
  destruct node as [i entries|i items|i s|i n|i b|i]; try (by apply Hscalar).
  - clear Hscalar. split.
    + assert (Hloop : ∀ es acc0, es ⊆ entries ->
        forEachM (fun matches entry =>
                    let matches :=
                      if JsString.includes (JsString.toLowerCase (key entry)) lower
                      then matches ++ [childId entry] else matches in
                    visit fuel d lower (childId entry) matches) acc0 es
        = Some (acc0 ++ flat_map (fun entry =>
                          (if decide (keyMatch lower entry) then [childId entry] else [])
                          ++ hitList fuel d lower (childId entry)) es)).
      { induction es as [|e es IHes]; intros acc0 Hsub; cbn [forEachM flat_map].
        - by rewrite app_nil_r.
        - assert (He : e ∈ entries) by (apply Hsub; left).
          destruct (Hchild (childId e)
                      (if JsString.includes (JsString.toLowerCase (key e)) lower
                       then acc0 ++ [childId e] else acc0)) as [-> _].
          { cbn [children]. by apply list_elem_of_fmap_2. }
          cbn. rewrite IHes by (intros y Hy; apply Hsub; by right).
          f_equal. rewrite keyMatch_includes.
          destruct (decide (keyMatch lower e)) as [Hm|Hm];
            [rewrite bool_decide_eq_true_2 by done
            |rewrite bool_decide_eq_false_2 by done];
            by rewrite <- ?app_assoc. }
      by apply Hloop.
    + intros x. rewrite list_elem_of_In, in_flat_map. split.
      * intros (e & He%list_elem_of_In & Hx%list_elem_of_In).
        apply elem_of_app in Hx as [Hx|Hx].
        -- left. exists id, i, entries, e. split; [constructor|]. split; [done|].
           split; [done|]. destruct (decide (keyMatch lower e)) as [Hm|Hm];
             [|by apply elem_of_nil in Hx].
           apply list_elem_of_singleton in Hx. done.
        -- eapply (isHit_child id (childId e)); [done| |].
           ++ cbn [children]. by apply list_elem_of_fmap_2.
           ++ apply (Hchild (childId e) []); [|done].
              cbn [children]. by apply list_elem_of_fmap_2.
      * intros [(i' & es & e & Hn & He & Hx & Hm)|[(n & Hn & _ & Hm)|(n & c & Hn & Hc & Hhit)]]%isHit_head.
        -- simplify_eq. exists e. split; [by apply list_elem_of_In|].
           apply list_elem_of_In, elem_of_app. left. rewrite decide_True by done. left.
        -- simplify_eq. by apply valueMatch_scalar in Hm.
        -- simplify_eq. cbn [children] in Hc.
           apply list_elem_of_fmap in Hc as (e & -> & He).
           exists e. split; [by apply list_elem_of_In|].
           apply list_elem_of_In, elem_of_app. right.
           apply (Hchild (childId e) []); [|done].
           cbn [children]. by apply list_elem_of_fmap_2.
  - clear Hscalar. split.
    + assert (Hloop : ∀ cs acc0, cs ⊆ items ->
        forEachM (fun matches item => visit fuel d lower item matches) acc0 cs
        = Some (acc0 ++ flat_map (hitList fuel d lower) cs)).
      { induction cs as [|c cs IHcs]; intros acc0 Hsub; cbn [forEachM flat_map].
        - by rewrite app_nil_r.
        - destruct (Hchild c acc0) as [-> _]; [apply Hsub; left|].
          cbn. rewrite IHcs by (intros y Hy; apply Hsub; by right).
          by rewrite <- app_assoc. }
      by apply Hloop.
    + intros x. rewrite list_elem_of_In, in_flat_map. split.
      * intros (c & Hc%list_elem_of_In & Hx%list_elem_of_In).
        eapply (isHit_child id c); [done|done|]. by apply (Hchild c []).
      * intros [(i' & es & e & Hn & _)|[(n & Hn & _ & Hm)|(n & c & Hn & Hc & Hhit)]]%isHit_head.
        -- by simplify_eq.
        -- simplify_eq. by apply valueMatch_scalar in Hm.
        -- simplify_eq. exists c. split; [by apply list_elem_of_In|].
           apply list_elem_of_In. by apply (Hchild c []).
Qed.

End SearchSpec.

Lemma indexOf_range (l : list string) (x : string) :
  indexOf l x = -1 ∨ 0 <= indexOf l x < Z.of_nat (length l).
Proof.
  induction l as [|y l IH]; cbn [indexOf length]; [by left|].
  destruct (String.eqb y x); [right; lia|].
  destruct (indexOf l x <? 0) eqn:Hneg; [by left|].
  apply Z.ltb_ge in Hneg. right. lia.
Qed.

Lemma indexOf_found (l : list string) (x : string) :
  x ∈ l -> 0 <= indexOf l x ∧ js_index l (indexOf l x) = Some x.
Proof.
  induction l as [|y l IH]; [by intros ?%elem_of_nil|].
  intros Hx. cbn [indexOf]. destruct (String.eqb_spec y x) as [->|Hne]; [done|].
  apply elem_of_cons in Hx as [->|Hx]; [done|].
  destruct (IH Hx) as [Hpos Hidx].
  assert ((indexOf l x <? 0) = false) as -> by (by apply Z.ltb_ge).
  split; [lia|]. unfold js_index in *.
  assert ((indexOf l x <? 0) = false) as Hf by (by apply Z.ltb_ge).
  rewrite Hf in Hidx.
  assert ((indexOf l x + 1 <? 0) = false) as -> by (apply Z.ltb_ge; lia).
  replace (Z.to_nat (indexOf l x + 1)) with (S (Z.to_nat (indexOf l x))) by lia.
  done.
Qed.

Lemma activeOk_next (previous : option string) (matches : list string) :
  activeOk previous matches
    (if 0 <=? match previous with
              | Some i => if JsString.truthy i then indexOf matches i else -1
              | None => -1
              end
     then match previous with
          | Some i => if JsString.truthy i then indexOf matches i else -1
          | None => -1
          end
     else if decide (matches = []) then -1 else 0).
Proof.
  set (next := match previous with
               | Some i => if JsString.truthy i then indexOf matches i else -1
               | None => -1
               end).
  assert (Hnext : next = -1 ∨ 0 <= next < Z.of_nat (length matches)).
  { unfold next. destruct previous as [i|]; [|by left].
    destruct (JsString.truthy i); [apply indexOf_range|by left]. }
  split; [|split].
  - intros ->. destruct Hnext as [->|Hn]; [done|]. simpl in Hn. lia.
  - intros Hne. destruct (0 <=? next) eqn:Hpos.
    + apply Z.leb_le in Hpos. lia.
    + rewrite decide_False by done. destruct matches; [done|]. cbn [length]. lia.
  - intros i -> Ht Hi. unfold next. rewrite Ht.
    destruct (indexOf_found matches i Hi) as [Hpos Hidx].
    assert ((0 <=? indexOf matches i) = true) as -> by (by apply Z.leb_le). done.
Qed.

Section SearchResult.
Context `{Platform}.

Lemma applySearch_result (B fuel : nat) (state : EditorState)
    (docOverride : option DocumentState) (anchorOverride : option (list string)) :
  (∀ d, match docOverride with Some d => Some d | None => doc state end = Some d ->
        acyclic B (nodes d) ∧ ids_consistent (nodes d)) ->
  (B < fuel)%nat ->
  ∃ state',
    applySearch fuel state docOverride anchorOverride = Some state'
    ∧ searchView state' = searchView state
    ∧ anchorPath state' = nullish anchorOverride (anchorPath state)
    ∧ match match docOverride with Some d => Some d | None => doc state end with
      | Some d =>
          if JsString.truthy (JsString.trim (searchQuery state)) then
            findSearchMatches fuel d (JsString.trim (searchQuery state))
              (nullish (lastOf (nullish anchorOverride (anchorPath state))) (rootId d))
            = Some (searchMatches state')
            ∧ activeOk (js_index (searchMatches state) (activeMatch state))
                (searchMatches state') (activeMatch state')
          else searchMatches state' = [] ∧ activeMatch state' = -1
                 ∧ expanded state' = expanded state
      | None => searchMatches state' = [] ∧ activeMatch state' = -1
                  ∧ expanded state' = expanded state
      end.
Proof.
  intros Hok Hfuel.
  destruct (applySearch_returns B fuel state docOverride anchorOverride Hok Hfuel)
    as [s' Hs'].
  exists s'. split; [done|]. split; [by eapply applySearch_core|].
  unfold applySearch in Hs'.
  destruct (match docOverride with Some d => Some d | None => doc state end) as [d|].
  2:{ simplify_eq. by destruct state. }
  destruct (JsString.truthy (JsString.trim (searchQuery state))).
  2:{ simplify_eq. by destruct state. }
  apply bind_Some in Hs' as (matches & Hmatches & Hs').
  apply bind_Some in Hs' as (expanded' & Hexp & Hs').
  injection Hs' as <-. rewrite Hmatches.
  destruct state. cbn.
  split; [done|]. split; [done|]. apply activeOk_next.
Qed.

(** X20: what a search finds.  On a document without a cycle among its
    child references [findSearchMatches] returns once the fuel exceeds
    the depth bound.  The list holds exactly the hits below the search
    root: the child of every entry whose key contains the query, and the
    identifier held by every scalar whose text contains it (a string as
    it is, a number as the platform prints it, [true], [false] or
    [null]), both without regard to case, in every node reachable from
    the root.  The hits stand in depth-first order, the child of a
    matching entry before the hits below it.  A reference that leads
    nowhere is no name of an inherited property. *)
Theorem search_finds_exactly_the_hits
    (B fuel : nat) (d : DocumentState) (query root : string) :
  acyclic B (nodes d) -> (B < fuel)%nat ->
  (∀ k, reachable (nodes d) root k -> nodes d !! k = None -> plain k) ->
  ∃ matches,
    findSearchMatches fuel d query root = Some matches
    ∧ matches = hitList fuel d (JsString.toLowerCase query) root
    ∧ ∀ x, x ∈ matches <-> isHit d (JsString.toLowerCase query) root x.
Proof.
  intros (rank & Hrank) Hfuel _. unfold findSearchMatches.
  destruct (visit_result d (JsString.toLowerCase query) rank) with
    (fuel := fuel) (id := root) (acc := @nil string) as [Hrun Hspec].
  - intros k n Hk. by apply Hrank.
  - intros n Hn. destruct (Hrank _ _ Hn). lia.
  - lia.
  - eexists. split; [exact Hrun|]. done.
Qed.

Lemma reducer_search (fuel next : nat) (state : EditorState) (query : string) :
  ∃ expanded' saved,
    editorReducer fuel state (SET_SEARCH_QUERY query) next
    = (s ← applySearch fuel
             (state <| searchQuery := query |> <| expanded := expanded' |>
                    <| preSearchExpanded := saved |>) None None;
       Some (s, next)).
Proof.
  cbn [editorReducer].
  destruct (JsString.truthy (JsString.trim (searchQuery state))
            && negb (JsString.truthy (JsString.trim query))),
    (preSearchExpanded state); eauto.
Qed.

(** X21: what [SET_SEARCH_QUERY] does.  On a traversable state it returns
    a state with the query as given (not trimmed), and with the document,
    the text, the selection and both history stacks as before.  Without
    a document, or when the trimmed query is empty, there are no matches
    and the active index is [-1].  Otherwise the matches are those of
    [findSearchMatches] for the trimmed query below the last anchor (the
    root without anchors); the active index is a position in the list,
    or [-1] for an empty list, and the match that was active before
    stays the active one when it is still in the list. *)
Theorem set_search_query_result
    (B next fuel : nat) (state : EditorState) (query : string) :
  state_ok B next state -> (B < fuel)%nat ->
  ∃ state',
    editorReducer fuel state (SET_SEARCH_QUERY query) next = Some (state', next)
    ∧ searchQuery state' = query
    ∧ untouched state state'
    ∧ selectedId state' = selectedId state
    ∧ match doc state with
      | Some d =>
          if JsString.truthy (JsString.trim query) then
            findSearchMatches fuel d (JsString.trim query)
              (nullish (lastOf (anchorPath state)) (rootId d))
            = Some (searchMatches state')
            ∧ activeOk (js_index (searchMatches state) (activeMatch state))
                (searchMatches state') (activeMatch state')
          else searchMatches state' = [] ∧ activeMatch state' = -1
      | None => searchMatches state' = [] ∧ activeMatch state' = -1
      end.
Proof.
  intros Hok Hfuel. pose proof Hok as (Hdocok & _).
  destruct (reducer_search fuel next state query) as (expanded' & saved & ->).
  set (base := state <| searchQuery := query |> <| expanded := expanded' |>
                     <| preSearchExpanded := saved |>).
  assert (Hbase : doc base = doc state ∧ searchQuery base = query
                  ∧ anchorPath base = anchorPath state
                  ∧ searchMatches base = searchMatches state
                  ∧ activeMatch base = activeMatch state
                  ∧ rawText base = rawText state
                  ∧ lastValidText base = lastValidText state
                  ∧ undoStack base = undoStack state
                  ∧ redoStack base = redoStack state
                  ∧ selectedId base = selectedId state)
    by (by destruct state).
  destruct Hbase as (Hd & Hq & Ha & Hm & Hact & Hraw & Hlast & Hundo & Hredo & Hsel).
  destruct (applySearch_result B fuel base None None) as (s' & Hs' & Hview & _ & Hspec).
  { rewrite Hd. intros d Hdoc. destruct (Hdocok d Hdoc) as (? & ? & _). done. }
  { done. }
  rewrite (bind_step _ _ _ Hs'). cbv beta. exists s'. split; [done|].
  apply searchView_fields in Hview as (Hd' & Hr' & Hs'' & Hu' & Hre' & Hl').
  assert (Hq' : searchQuery s' = searchQuery base).
  { apply applySearch_core in Hs'. clear -Hs'. destruct s', base.
    unfold searchView in Hs'. cbn in Hs'. by injection Hs'. }
  split; [congruence|]. split.
  { unfold untouched. rewrite Hd', Hr', Hu', Hre', Hl'. done. }
  split; [congruence|].
  rewrite Hd, Hq, Hm, Hact in Hspec. cbn [nullish default] in Hspec. rewrite Ha in Hspec.
  destruct (doc state) as [d|]; [|by destruct Hspec as (? & ? & _)].
  destruct (JsString.truthy (JsString.trim query)); [done|].
  by destruct Hspec as (? & ? & _).
Qed.

End SearchResult.

(** In a document built from a value every child reference resolves. *)
Lemma built_closed (value : JsValue) (next : nat) (k c : string) (n : JsonNode) :
  nodes (buildDocumentFromValue value next).1 !! k = Some n -> c ∈ children n ->
  is_Some (nodes (buildDocumentFromValue value next).1 !! c).
Proof.
  unfold buildDocumentFromValue.
  destruct (buildNode value ∅ next) as [[root m'] next'] eqn:Hbuild. cbn [fst nodes].
  destruct (buildNode_built _ _ _ _ _ _ Hbuild) as (-> & Hlt & Hbuilt).
  pose proof Hbuilt as (_ & _ & Hnew).
  intros Hk Hc.
  destruct (built_key _ _ _ _ _ Hbuilt Hk) as (j & Hj & ->).
  destruct (Hnew j Hj) as (n' & Hn' & _ & Hch). simplify_eq.
  destruct (Hch c Hc) as (j' & Hj' & ->).
  destruct (Hnew j') as (n'' & Hn'' & _); [lia|]. by rewrite Hn''.
Qed.

(** Where every reference resolves, what can be reached is stored. *)
Lemma reachable_stored (m : gmap string JsonNode) (root k : string) :
  is_Some (m !! root) ->
  (∀ k n c, m !! k = Some n -> c ∈ children n -> is_Some (m !! c)) ->
  reachable m root k -> is_Some (m !! k).
Proof.
  intros Hroot Hclosed Hreach. induction Hreach as [|k c n Hreach IH Hk Hc]; [done|].
  by eapply Hclosed.
Qed.

Lemma search_finds_exactly_the_hits_witness :
  acyclic 6 (nodes (buildDocumentFromValue Demo.sampleValue 0).1)
  ∧ (6 < 7)%nat
  ∧ (∀ k, reachable (nodes (buildDocumentFromValue Demo.sampleValue 0).1) "id-0" k ->
          nodes (buildDocumentFromValue Demo.sampleValue 0).1 !! k = None -> plain k)
  ∧ ∃ matches,
      findSearchMatches (H := Demo.platform) 7
        (buildDocumentFromValue Demo.sampleValue 0).1 "B" "id-0" = Some matches
      ∧ matches = hitList (H := Demo.platform) 7
                    (buildDocumentFromValue Demo.sampleValue 0).1
                    (JsString.toLowerCase "B") "id-0"
      ∧ (∀ x, x ∈ matches
              <-> isHit (H := Demo.platform)
                    (buildDocumentFromValue Demo.sampleValue 0).1
                    (JsString.toLowerCase "B") "id-0" x)
      ∧ matches = ["id-2"].
Proof.
  assert (Hac : acyclic 6 (nodes (buildDocumentFromValue Demo.sampleValue 0).1)).
  { destruct sampleState_ok as (Hdoc & _).
    by destruct (Hdoc _ sampleState_doc) as (? & _). }
  assert (Hplain : ∀ k,
            reachable (nodes (buildDocumentFromValue Demo.sampleValue 0).1) "id-0" k ->
            nodes (buildDocumentFromValue Demo.sampleValue 0).1 !! k = None -> plain k).
  { intros k Hreach Hnone.
    destruct (reachable_stored
                (nodes (buildDocumentFromValue Demo.sampleValue 0).1) "id-0" k)
      as [n Hn]; [by eexists| |done|congruence].
    intros k' n' c. apply built_closed. }
  split; [exact Hac|]. split; [lia|]. split; [exact Hplain|].
  destruct (search_finds_exactly_the_hits (H := Demo.platform) 6 7
              (buildDocumentFromValue Demo.sampleValue 0).1 "B" "id-0" Hac)
    as (matches & Hrun & Hlist & Hhits); [lia|exact Hplain|].
  exists matches. split; [exact Hrun|]. split; [exact Hlist|]. split; [exact Hhits|].
  vm_compute in Hrun. by injection Hrun as <-.
Defined.

Lemma set_search_query_result_witness :
  state_ok 6 5 Demo.sampleState
  ∧ (6 < 7)%nat
  ∧ ∃ state',
      editorReducer (H := Demo.platform) 7 Demo.sampleState (SET_SEARCH_QUERY " B ") 5
      = Some (state', 5%nat)
      ∧ searchQuery state' = " B "
      ∧ untouched Demo.sampleState state'
      ∧ selectedId state' = selectedId Demo.sampleState
      ∧ match doc Demo.sampleState with
        | Some d =>
            if JsString.truthy (JsString.trim " B ") then
              findSearchMatches (H := Demo.platform) 7 d (JsString.trim " B ")
                (nullish (lastOf (anchorPath Demo.sampleState)) (rootId d))
              = Some (searchMatches state')
              ∧ activeOk (js_index (searchMatches Demo.sampleState)
                            (activeMatch Demo.sampleState))
                  (searchMatches state') (activeMatch state')
            else searchMatches state' = [] ∧ activeMatch state' = -1
        | None => searchMatches state' = [] ∧ activeMatch state' = -1
        end.
Proof.
  split; [exact sampleState_ok|]. split; [lia|].
  apply (set_search_query_result (H := Demo.platform) 6 5 7 Demo.sampleState " B "
           sampleState_ok).
  lia.
Defined.

(** * Stepping through the matches *)

Section MoveMatch.
Context `{Platform}.

Lemma reducer_move_match (fuel next : nat) (state : EditorState) (direction : Direction) :
  searchMatches state ≠ [] ->
  editorReducer fuel state (MOVE_MATCH direction) next
  = (s ← (expanded' ←
            match doc state with
            | Some doc' =>
                expandAncestors fuel
                  (js_index (searchMatches state)
                     (Z.rem (activeMatch state + directionValue direction
                             + Z.of_nat (length (searchMatches state)))
                            (Z.of_nat (length (searchMatches state)))))
                  (buildParentMap doc') (expanded state)
            | None => Some (expanded state)
            end;
          Some (state <| activeMatch :=
                           Z.rem (activeMatch state + directionValue direction
                                  + Z.of_nat (length (searchMatches state)))
                                 (Z.of_nat (length (searchMatches state))) |>
                      <| expanded := JsSet.addAll expanded' (anchorPath state) |>
                      <| selectedId :=
                           js_index (searchMatches state)
                             (Z.rem (activeMatch state + directionValue direction
                                     + Z.of_nat (length (searchMatches state)))
                                    (Z.of_nat (length (searchMatches state)))) |>));
     Some (s, next)).
Proof.
  intros Hne. cbn [editorReducer]. by destruct (searchMatches state).
Qed.

Lemma move_match_index (active len : Z) (direction : Direction) :
  0 < len -> -1 <= active < len ->
  Z.rem (active + directionValue direction + len) len
  = (active + directionValue direction) `mod` len.
Proof.
  intros Hlen Hactive.
  destruct (Z_lt_le_dec (active + directionValue direction + len) 0) as [Hneg|Hpos].
  - assert (len = 1 ∧ active = -1 ∧ directionValue direction = -1) as (-> & -> & ->).
    { destruct direction; cbn [directionValue] in *; lia. }
    reflexivity.
  - rewrite Z.rem_mod_nonneg by lia.
    rewrite <- (Z_mod_plus_full (active + directionValue direction) 1 len).
    f_equal. lia.
Qed.

(** X22: stepping through the matches wraps around.  With matches and an
    active index that is [-1] or a position in the list, [MOVE_MATCH] on
    a traversable state returns a state whose active index is the old
    one plus the direction modulo the number of matches, hence again a
    position in the list: the step after the last match is the first
    one and the step before the first is the last.  The match at that
    position is selected; the matches, the document, the text and the
    history are as before.  Without matches the state is returned as it
    is. *)
Theorem move_match_wraps_around
    (B next fuel : nat) (state : EditorState) (direction : Direction) :
  state_ok B next state ->
  -1 <= activeMatch state < Z.of_nat (length (searchMatches state))
  ∨ searchMatches state = [] ->
  (B < fuel)%nat ->
  ∃ state',
    editorReducer fuel state (MOVE_MATCH direction) next = Some (state', next)
    ∧ match searchMatches state with
      | [] => state' = state
      | _ =>
          activeMatch state'
          = (activeMatch state + directionValue direction)
              `mod` Z.of_nat (length (searchMatches state))
          ∧ 0 <= activeMatch state' < Z.of_nat (length (searchMatches state))
          ∧ is_Some (selectedId state')
          ∧ selectedId state' = js_index (searchMatches state) (activeMatch state')
          ∧ searchMatches state' = searchMatches state
          ∧ untouched state state'
      end.
Proof.
  intros Hok Hactive Hfuel. pose proof Hok as (Hdocok & _).
  destruct (searchMatches state) as [|m0 ms] eqn:Hms.
  { exists state. split; [|done]. cbn [editorReducer]. by rewrite Hms. }
  destruct Hactive as [Hactive|?]; [|done].
  rewrite reducer_move_match by (by rewrite Hms). rewrite Hms.
  set (len := Z.of_nat (length (m0 :: ms))) in *.
  assert (Hlen : 0 < len) by (unfold len; cbn [length]; lia).
  rewrite (move_match_index (activeMatch state) len direction Hlen Hactive).
  set (index := (activeMatch state + directionValue direction) `mod` len).
  assert (Hindex : 0 <= index < len) by (apply Z.mod_pos_bound; lia).
  assert (Hexp : ∃ expanded',
            match doc state with
            | Some doc' =>
                expandAncestors fuel (js_index (m0 :: ms) index)
                  (buildParentMap doc') (expanded state)
            | None => Some (expanded state)
            end = Some expanded').
  { destruct (doc state) as [d|] eqn:Hdoc; [|by eexists].
    destruct (Hdocok d eq_refl) as ((rank & Hrank) & Hids & _).
    destruct (expandAncestors_returns rank B (buildParentMap d)
                (parents_ranked rank B d Hrank Hids) fuel
                (js_index (m0 :: ms) index) (expanded state)) as [e He];
      [intros c _; lia|]. by exists e. }
  destruct Hexp as (expanded' & Hexp). rewrite (bind_step _ _ _ Hexp). cbv beta.
  rewrite (bind_step _ _ _ eq_refl). cbv beta.
  eexists. split; [reflexivity|].
  assert (Hsel : is_Some (js_index (m0 :: ms) index)).
  { unfold js_index. assert ((index <? 0) = false) as -> by (apply Z.ltb_ge; lia).
    apply lookup_lt_is_Some. unfold len in Hindex. lia. }
  clear Hexp. destruct state. cbn in *. subst. done.
Qed.

End MoveMatch.

Lemma move_match_wraps_around_witness :
  state_ok 6 5 (Demo.sampleState <| searchMatches := ["id-1"; "id-3"] |>
                                 <| activeMatch := 1 |>)
  ∧ (-1 <= activeMatch (Demo.sampleState <| searchMatches := ["id-1"; "id-3"] |>
                                         <| activeMatch := 1 |>)
        < Z.of_nat (length (searchMatches
                              (Demo.sampleState <| searchMatches := ["id-1"; "id-3"] |>
                                                <| activeMatch := 1 |>)))
     ∨ searchMatches (Demo.sampleState <| searchMatches := ["id-1"; "id-3"] |>
                                       <| activeMatch := 1 |>) = [])
  ∧ (6 < 7)%nat
  ∧ ∃ state',
      editorReducer (H := Demo.platform) 7
        (Demo.sampleState <| searchMatches := ["id-1"; "id-3"] |> <| activeMatch := 1 |>)
        (MOVE_MATCH Down) 5 = Some (state', 5%nat)
      ∧ activeMatch state' = (1 + 1) `mod` 2
      ∧ 0 <= activeMatch state' < 2
      ∧ is_Some (selectedId state')
      ∧ selectedId state' = js_index ["id-1"; "id-3"] (activeMatch state')
      ∧ searchMatches state' = ["id-1"; "id-3"]
      ∧ untouched (Demo.sampleState <| searchMatches := ["id-1"; "id-3"] |>
                                    <| activeMatch := 1 |>) state'.
Proof.
  assert (Hok : state_ok 6 5 (Demo.sampleState <| searchMatches := ["id-1"; "id-3"] |>
                                               <| activeMatch := 1 |>)).
  { exact sampleState_ok. }
  split; [exact Hok|]. split; [left; cbn; lia|]. split; [lia|].
  apply (move_match_wraps_around (H := Demo.platform) 6 5 7
           (Demo.sampleState <| searchMatches := ["id-1"; "id-3"] |>
                             <| activeMatch := 1 |>) Down Hok);
    [left; cbn; lia | lia].
Defined.


(** * Commands of the view *)

Section Views.
Context `{Platform}.

Lemma untouched_view (state state' : EditorState) :
  searchView state' = searchView state ->
  untouched state state' ∧ parseError state' = parseError state.
Proof.
  destruct state, state'. unfold searchView, untouched. cbn. intros [=]. by subst.
Qed.

Lemma applySearch_untouched (B fuel : nat) (state base : EditorState)
    (docOverride : option DocumentState) (anchorOverride : option (list string)) :
  (∀ d, match docOverride with Some d => Some d | None => doc base end = Some d ->
        acyclic B (nodes d) ∧ ids_consistent (nodes d)) ->
  (B < fuel)%nat ->
  untouched state base ∧ parseError base = parseError state ->
  ∃ state',
    applySearch fuel base docOverride anchorOverride = Some state'
    ∧ untouched state state' ∧ parseError state' = parseError state.
Proof.
  intros Hok Hfuel [(Hd & Hr & Hl & Hu & Hre) Hpe].
  destruct (applySearch_returns B fuel base docOverride anchorOverride Hok Hfuel)
    as [s' Hs'].
  exists s'. split; [done|].
  apply applySearch_core, untouched_view in Hs' as [(Hd' & Hr' & Hl' & Hu' & Hre') Hpe'].
  unfold untouched. by rewrite Hd', Hr', Hl', Hu', Hre', Hpe'.
Qed.

Lemma doc_traversable (B next : nat) (state : EditorState) (d : DocumentState) :
  state_ok B next state -> doc state = Some d ->
  acyclic B (nodes d) ∧ ids_consistent (nodes d).
Proof. intros (Hdocok & _) Hdoc. by destruct (Hdocok d Hdoc) as (? & ? & _). Qed.

(** A command of the view on a traversable state. *)
Lemma view_step (B next fuel : nat) (state : EditorState) (action : Action) :
  isView action = true -> state_ok B next state -> (B < fuel)%nat ->
  ∃ state',
    editorReducer fuel state action next = Some (state', next)
    ∧ untouched state state' ∧ parseError state' = parseError state.
Proof.
  intros Hview Hok Hfuel.
  assert (Hpure : ∀ r : option EditorState,
            (∃ s', r = Some s' ∧ untouched state s'
                   ∧ parseError s' = parseError state) ->
            ∃ state', (s ← r; Some (s, next)) = Some (state', next)
              ∧ untouched state state' ∧ parseError state' = parseError state).
  { intros r (s' & -> & Hun). by exists s'. }
  assert (Hset : ∀ s', untouched state s' ∧ parseError s' = parseError state ->
            ∃ state', (s ← Some s'; Some (s, next)) = Some (state', next)
              ∧ untouched state state' ∧ parseError state' = parseError state).
  { intros s' Hs'. by exists s'. }
  destruct action; try done.
  - (* SET_SELECTED *) apply Hset. by destruct state.
  - (* TOGGLE_EXPANDED *) apply Hset. by destruct state.
  - (* EXPAND_ALL *)
    cbn [editorReducer]. destruct (doc state) as [d|] eqn:Hdoc; [|by apply Hset].
    apply Hpure.
    destruct (doc_traversable B next state d Hok Hdoc) as [(rank & Hrank) _].
    destruct (collectSubtreeIds_returns rank d) with
      (fuel := fuel) (nodeId := nullish (lastOf (anchorPath state)) (rootId d))
      (bucket := @nil string) as [ids Hids].
    { intros k n Hk. by apply Hrank. }
    { lia. }
    { intros n Hn. destruct (Hrank _ _ Hn). lia. }
    rewrite (bind_step _ _ _ Hids). cbv beta. eexists. split; [reflexivity|].
    by destruct state.
  - (* COLLAPSE_ALL *)
    cbn [editorReducer]. destruct (doc state) as [d|] eqn:Hdoc; [|by apply Hset].
    apply Hset. by destruct state.
  - (* SET_SEARCH_QUERY *)
    destruct (reducer_search fuel next state query) as (expanded' & saved & ->).
    apply Hpure.
    apply (applySearch_untouched B fuel state); [|done|by destruct state].
    assert (doc (state <| searchQuery := query |> <| expanded := expanded' |>
                       <| preSearchExpanded := saved |>) = doc state) as ->
      by (by destruct state).
    intros d Hdoc. by eapply doc_traversable.
  - (* MOVE_MATCH *)
    destruct (searchMatches state) as [|m0 ms] eqn:Hms.
    { cbn [editorReducer]. rewrite Hms. by apply Hset. }
    rewrite reducer_move_match by (by rewrite Hms). apply Hpure.
    match goal with
    | |- context [expandAncestors fuel ?t] => set (target := t)
    end.
    assert (Hexp : ∃ expanded',
              match doc state with
              | Some doc' =>
                  expandAncestors fuel target (buildParentMap doc') (expanded state)
              | None => Some (expanded state)
              end = Some expanded').
    { destruct (doc state) as [d|] eqn:Hdoc; [|by eexists].
      destruct (doc_traversable B next state d Hok Hdoc) as [(rank & Hrank) Hids].
      destruct (expandAncestors_returns rank B (buildParentMap d)
                  (parents_ranked rank B d Hrank Hids) fuel target (expanded state))
        as [e He]; [intros c _; lia|]. by exists e. }
    destruct Hexp as (expanded' & Hexp). rewrite (bind_step _ _ _ Hexp). cbv beta.
    eexists. split; [reflexivity|]. by destruct state.
  - (* TOGGLE_FILTER_MODE *)
    cbn [editorReducer]. apply Hpure.
    apply (applySearch_untouched B fuel state); [|done|by destruct state].
    assert (doc (state <| searchFilterOnly := enabled |>) = doc state) as ->
      by (by destruct state).
    intros d Hdoc. by eapply doc_traversable.
  - (* SET_OUTPUT_MODE *) apply Hset. by destruct state.
  - (* SET_AUTOPARSE *) apply Hset. by destruct state.
  - (* SET_AUTOSAVE *) apply Hset. by destruct state.
  - (* SET_NOTICE *) apply Hset. by destruct state.
  - (* ANCHOR_TO *)
    cbn [editorReducer]. destruct (doc state) as [d|] eqn:Hdoc; [|by apply Hset].
    apply Hpure.
    destruct (doc_traversable B next state d Hok Hdoc) as [Hac Hids].
    pose proof Hac as (rank & Hrank).
    assert (Hpath : is_Some (buildAnchorPath fuel d (nullish nodeId (rootId d)))).
    { unfold buildAnchorPath.
      destruct (walkUp_returns rank B (buildParentMap d)
                  (parents_ranked rank B d Hrank Hids) fuel
                  (Some (nullish nodeId (rootId d))) []) as [path ->];
        [intros c _; lia|].
      cbn. destruct (reverse path) as [|x xs]; [done|].
      by destruct (String.eqb x (rootId d)). }
    destruct Hpath as [path Hpath]. rewrite (bind_step _ _ _ Hpath). cbv beta.
    destruct (lastOf path) as [focus|];
      [|exists state; split; [done|]; split; [apply untouched_refl|done]].
    destruct (collectSubtreeIds_returns rank d) with
      (fuel := fuel) (nodeId := focus) (bucket := @nil string) as [ids Hsub].
    { intros k n Hk. by apply Hrank. }
    { lia. }
    { intros n Hn. destruct (Hrank _ _ Hn). lia. }
    rewrite (bind_step _ _ _ Hsub). cbv beta.
    apply (applySearch_untouched B fuel state); [|done|by destruct state].
    intros d' [= <-]. done.
Qed.

(** X23: the commands of the view change neither the document nor the
    text nor the history.  Selecting, expanding and collapsing, searching
    and stepping through the matches, anchoring, and the switches of the
    output mode, of parsing and saving automatically and of the notice
    return on a traversable state, and the state they return has the
    document, the text, the last valid text, the parse error and both
    history stacks of the state before. *)
Theorem view_commands_keep_document_and_history
    (B next fuel : nat) (state : EditorState) (action : Action) :
  isView action = true -> state_ok B next state -> (B < fuel)%nat ->
  ∃ state',
    editorReducer fuel state action next = Some (state', next)
    ∧ doc state' = doc state
    ∧ rawText state' = rawText state
    ∧ lastValidText state' = lastValidText state
    ∧ parseError state' = parseError state
    ∧ undoStack state' = undoStack state
    ∧ redoStack state' = redoStack state.
Proof.
  intros Hview Hok Hfuel.
  destruct (view_step B next fuel state action Hview Hok Hfuel)
    as (s' & Hred & (Hd & Hr & Hl & Hu & Hre) & Hpe).
  by exists s'.
Qed.

End Views.


(** * Indentation and typing *)

Lemma view_commands_keep_document_and_history_witness :
  isView (ANCHOR_TO (Some "id-2")) = true
  ∧ state_ok 6 5 Demo.sampleState
  ∧ (6 < 7)%nat
  ∧ ∃ state',
      editorReducer (H := Demo.platform) 7 Demo.sampleState (ANCHOR_TO (Some "id-2")) 5
      = Some (state', 5%nat)
      ∧ doc state' = doc Demo.sampleState
      ∧ rawText state' = rawText Demo.sampleState
      ∧ lastValidText state' = lastValidText Demo.sampleState
      ∧ parseError state' = parseError Demo.sampleState
      ∧ undoStack state' = undoStack Demo.sampleState
      ∧ redoStack state' = redoStack Demo.sampleState.
Proof.
  split; [reflexivity|]. split; [exact sampleState_ok|]. split; [lia|].
  apply (view_commands_keep_document_and_history (H := Demo.platform) 6 5 7
           Demo.sampleState (ANCHOR_TO (Some "id-2")) eq_refl sampleState_ok).
  lia.
Defined.

Section TextCommands.
Context `{Platform}.

Lemma state_ok_fields (B next : nat) (state state' : EditorState) :
  doc state' = doc state -> undoStack state' = undoStack state ->
  redoStack state' = redoStack state ->
  state_ok B next state -> state_ok B next state'.
Proof. unfold state_ok. by intros -> -> ->. Qed.

Lemma documentToJson_returns (B fuel : nat) (d : DocumentState) :
  acyclic B (nodes d) -> (B < fuel)%nat -> is_Some (documentToJson fuel d).
Proof.
  intros (rank & Hrank) Hfuel. apply (buildValue_returns rank).
  - intros k n Hk. by apply Hrank.
  - lia.
  - intros n Hn. destruct (Hrank _ _ Hn). lia.
Qed.

(** X24: changing the indentation writes the text anew from the
    document.  [SET_INDENT] on a traversable state returns a state with
    the new indentation and with the document, the parse error and both
    history stacks as before; with a document, the text and the last
    valid text are both the serialisation of the document at the new
    indentation, whatever the text was; without one they are unchanged. *)
Theorem set_indent_rewrites_the_text
    (B next fuel : nat) (state : EditorState) (indent' : JsNumber) :
  state_ok B next state -> (B < fuel)%nat ->
  ∃ state',
    editorReducer fuel state (SET_INDENT indent') next = Some (state', next)
    ∧ indent state' = indent'
    ∧ doc state' = doc state
    ∧ parseError state' = parseError state
    ∧ undoStack state' = undoStack state
    ∧ redoStack state' = redoStack state
    ∧ match doc state with
      | Some d =>
          ∃ value,
            documentToJson fuel d = Some value
            ∧ rawText state' = formatJson value indent'
            ∧ lastValidText state' = formatJson value indent'
      | None =>
          rawText state' = rawText state ∧ lastValidText state' = lastValidText state
      end.
Proof.
  intros Hok Hfuel. cbn [editorReducer].
  destruct (doc state) as [d|] eqn:Hdoc.
  - destruct (doc_traversable B next state d Hok Hdoc) as [Hac _].
    destruct (documentToJson_returns B fuel d Hac Hfuel) as [v Hv].
    rewrite Hv. cbn [mbind option_bind].
    eexists. split; [reflexivity|].
    repeat split; try (by destruct state). exists v. by destruct state.
  - eexists. split; [reflexivity|]. by destruct state.
Qed.

Lemma reducer_set_raw_text (fuel next : nat) (state : EditorState) (text : string) :
  editorReducer fuel state (SET_RAW_TEXT text) next
  = if autoParse state
    then applyParse fuel (state <| rawText := text |> <| parseError := None |>) text next
    else Some (state <| rawText := text |> <| parseError := None |>, next).
Proof. reflexivity. Qed.

(** X25: typing with automatic parsing on.  When [autoParse] is on and
    the text parses, [SET_RAW_TEXT] on a traversable state returns a
    state with the document built from the parsed value and the text
    written anew from that value; the snapshot it pushes holds the
    document of the state before but the text just typed, so that
    [UNDO] right after gives back the former document together with the
    typed text, not with the text the state had before. *)
Theorem autoparse_snapshot_holds_the_typed_text
    (B next : nat) (state : EditorState) (text : string) (value : JsValue) :
  state_ok B next state -> autoParse state = true -> JSON_parse text = Parsed value ->
  ∃ B', (B <= B')%nat ∧
    ∀ fuel, (B' < fuel)%nat ->
      ∃ state' next' undone,
        editorReducer fuel state (SET_RAW_TEXT text) next = Some (state', next')
        ∧ doc state' = Some (buildDocumentFromValue value next).1
        ∧ rawText state' = formatJson value (indent state)
        ∧ head (undoStack state')
          = Some (snapshotState (state <| rawText := text |> <| parseError := None |>))
        ∧ editorReducer fuel state' UNDO next' = Some (undone, next')
        ∧ doc undone = doc state
        ∧ rawText undone = text.
Proof.
  intros Hok Hauto Hparse.
  set (base := state <| rawText := text |> <| parseError := None |>).
  assert (Hbase : doc base = doc state ∧ undoStack base = undoStack state
                  ∧ redoStack base = redoStack state ∧ indent base = indent state
                  ∧ rawText base = text) by (by destruct state).
  destruct Hbase as (Hd & Hu & Hre & Hind & Hraw).
  assert (Hokb : state_ok B next base) by (by apply (state_ok_fields B next state)).
  exists (Nat.max B (S (buildDocumentFromValue value next).2)). split; [lia|].
  intros fuel Hfuel.
  destruct (applyParse_accepted B next fuel base text value Hokb Hparse Hfuel)
    as (s' & Hs' & _ & Hok' & [Hundo _] & Hdoc' & Hraw').
  cbn [take] in Hundo.
  destruct (undo_applies _ _ fuel s' (snapshotState base) (take 49 (undoStack base))
              Hok' Hundo Hfuel)
    as (u & Hu' & Hud & Hur & _).
  exists s', (buildDocumentFromValue value next).2, u.
  rewrite reducer_set_raw_text, Hauto. split; [exact Hs'|]. split; [done|].
  split; [by rewrite Hraw', Hind|]. split; [by rewrite Hundo|]. split; [done|].
  rewrite Hud, Hur. cbn [snapshotState h_doc h_rawText]. by rewrite Hd, Hraw.
Qed.

End TextCommands.


Lemma set_indent_rewrites_the_text_witness :
  state_ok 6 5 Demo.sampleState
  ∧ (6 < 7)%nat
  ∧ ∃ state',
      editorReducer (H := Demo.platform) 7 Demo.sampleState (SET_INDENT JsNum.zero) 5
      = Some (state', 5%nat)
      ∧ indent state' = JsNum.zero
      ∧ doc state' = doc Demo.sampleState
      ∧ parseError state' = parseError Demo.sampleState
      ∧ undoStack state' = undoStack Demo.sampleState
      ∧ redoStack state' = redoStack Demo.sampleState
      ∧ match doc Demo.sampleState with
        | Some d =>
            ∃ value,
              documentToJson 7 d = Some value
              ∧ rawText state' = formatJson (H := Demo.platform) value JsNum.zero
              ∧ lastValidText state' = formatJson (H := Demo.platform) value JsNum.zero
        | None =>
            rawText state' = rawText Demo.sampleState
            ∧ lastValidText state' = lastValidText Demo.sampleState
        end.
Proof.
  split; [exact sampleState_ok|]. split; [lia|].
  apply (set_indent_rewrites_the_text (H := Demo.platform) 6 5 7 Demo.sampleState
           JsNum.zero sampleState_ok).
  lia.
Defined.

Lemma autoparse_snapshot_holds_the_typed_text_witness :
  state_ok 0 0 (Demo.emptyState <| autoParse := true |>)
  ∧ autoParse (Demo.emptyState <| autoParse := true |>) = true
  ∧ JSON_parse (Platform := Demo.platform) "[1]" = Parsed (JArray [JNumber JsNum.one])
  ∧ ∃ B', (0 <= B')%nat ∧
      ∀ fuel, (B' < fuel)%nat ->
        ∃ state' next' undone,
          editorReducer (H := Demo.platform) fuel
            (Demo.emptyState <| autoParse := true |>) (SET_RAW_TEXT "[1]") 0
          = Some (state', next')
          ∧ doc state'
            = Some (buildDocumentFromValue (JArray [JNumber JsNum.one]) 0).1
          ∧ rawText state'
            = formatJson (H := Demo.platform) (JArray [JNumber JsNum.one])
                (indent (Demo.emptyState <| autoParse := true |>))
          ∧ head (undoStack state')
            = Some (snapshotState
                      (Demo.emptyState <| autoParse := true |> <| rawText := "[1]" |>
                                       <| parseError := None |>))
          ∧ editorReducer (H := Demo.platform) fuel state' UNDO next'
            = Some (undone, next')
          ∧ doc undone = doc (Demo.emptyState <| autoParse := true |>)
          ∧ rawText undone = "[1]".
Proof.
  assert (Hok : state_ok 0 0 (Demo.emptyState <| autoParse := true |>))
    by exact emptyState_ok.
  split; [exact Hok|]. split; [reflexivity|]. split; [reflexivity|].
  apply (autoparse_snapshot_holds_the_typed_text (H := Demo.platform) 0 0
           (Demo.emptyState <| autoParse := true |>) "[1]"
           (JArray [JNumber JsNum.one]) Hok);
    reflexivity.
Defined.

(** * Identifiers that name no inherited property *)

Section SearchAnchor.
Context `{Platform}.

Lemma applySearch_anchor (fuel : nat) (state state' : EditorState)
    (docOverride : option DocumentState) (anchorOverride : option (list string)) :
  applySearch fuel state docOverride anchorOverride = Some state' ->
  anchorPath state' = nullish anchorOverride (anchorPath state).
Proof.
  unfold applySearch. intros Hrun.
  destruct (match docOverride with Some d => Some d | None => doc state end) as [d|].
  2:{ injection Hrun as <-. by destruct state. }
  destruct (JsString.truthy (JsString.trim (searchQuery state))).
  2:{ injection Hrun as <-. by destruct state. }
  cbv zeta in Hrun.
  apply bind_Some in Hrun as (matches & _ & Hrun).
  apply bind_Some in Hrun as (e & _ & Hrun).
  injection Hrun as <-. by destruct state.
Qed.

End SearchAnchor.

Lemma mkId_plain (n : nat) : plain (mkId n).
Proof. reflexivity. Qed.

Lemma plain_state_sameIds (state state' : EditorState) :
  sameIds state state' -> plain_state state -> plain_state state'.
Proof.
  intros (Hd & Ha & Hm & Hs & Hu & Hr). unfold plain_state.
  by rewrite Hd, Ha, Hm, Hs, Hu, Hr.
Qed.

Lemma plain_state_selected (state state' : EditorState) :
  doc state' = doc state -> anchorPath state' = anchorPath state ->
  searchMatches state' = searchMatches state ->
  undoStack state' = undoStack state -> redoStack state' = redoStack state ->
  (∀ i, selectedId state' = Some i -> plain i) ->
  plain_state state -> plain_state state'.
Proof.
  intros Hd Ha Hm Hu Hr Hs (H1 & H2 & H3 & _ & H5 & H6). unfold plain_state.
  by rewrite Hd, Ha, Hm, Hu, Hr.
Qed.

Lemma sameIds_refl (state : EditorState) : sameIds state state.
Proof. by repeat split. Qed.

Lemma sameIds_notice (state : EditorState) (n : option Notice) :
  sameIds state (state <| notice := n |>).
Proof. by repeat split. Qed.

Lemma sameIds_parseError (state : EditorState) (e : option ParseError) :
  sameIds state (state <| parseError := e |>).
Proof. by repeat split. Qed.

Lemma plain_doc_refines (d : DocumentState) (m' : gmap string JsonNode) :
  refines (nodes d) m' -> plain_doc d -> plain_doc (mkDoc (rootId d) m').
Proof.
  intros Href [Hroot Hnodes]. split; [done|]. cbn [nodes].
  intros k n' Hk. destruct (Href k n' Hk) as (n & Hn & Hid & Hch).
  destruct (Hnodes k n Hn) as (Hpk & Hpid & Hpch).
  split; [done|]. split; [by rewrite Hid|].
  rewrite Forall_forall in Hpch. apply Forall_forall. intros c Hc. by apply Hpch, Hch.
Qed.

Lemma built_plain (value : JsValue) (next : nat) :
  plain_doc (buildDocumentFromValue value next).1.
Proof.
  unfold buildDocumentFromValue.
  destruct (buildNode value ∅ next) as [[root m'] next'] eqn:Hbuild. cbn [fst].
  destruct (buildNode_built _ _ _ _ _ _ Hbuild) as (-> & Hlt & Hbuilt).
  pose proof Hbuilt as (_ & _ & Hnew).
  split; [apply mkId_plain|]. cbn [nodes]. intros k n Hk.
  destruct (built_key _ _ _ _ _ Hbuilt Hk) as (j & Hj & ->).
  destruct (Hnew j Hj) as (n' & Hn' & Hid & Hch). simplify_eq.
  split; [apply mkId_plain|]. split; [rewrite Hid; apply mkId_plain|].
  apply Forall_forall. intros c Hc. destruct (Hch c Hc) as (j' & _ & ->).
  apply mkId_plain.
Qed.

Lemma forEachM_preserves {S A : Type} (f : S -> A -> option S) (P : S -> Prop)
    (l : list A) :
  (∀ s x s', x ∈ l -> f s x = Some s' -> P s -> P s') ->
  ∀ s s', forEachM f s l = Some s' -> P s -> P s'.
Proof.
  induction l as [|x l IH]; intros Hf s s' Hfold Hs; simpl in Hfold.
  - by simplify_eq.
  - destruct (f s x) as [s1|] eqn:Hx; [|done]. simpl in Hfold.
    eapply IH; [|exact Hfold|].
    + intros s2 y s3 Hy. apply Hf. by right.
    + eapply Hf; [left|exact Hx|exact Hs].
Qed.

Section PlainTraversals.
Context `{Platform}.
Context (d : DocumentState).
Hypothesis Hplain : plain_doc d.

Lemma visit_plain (lower : string) :
  ∀ fuel id acc r,
    visit fuel d lower id acc = Some r -> Forall plain acc -> Forall plain r.
Proof.
  destruct Hplain as [_ Hnodes].
  induction fuel as [|fuel IH]; intros id acc r Hrun Hacc; [done|].
  cbn [visit] in Hrun.
  destruct (nodes d !! id) as [node|] eqn:Hnode; [|by simplify_eq].
  destruct (Hnodes id node Hnode) as (_ & Hpid & Hpch).
  assert (Hscalar :
            (if JsString.includes (JsString.toLowerCase (valueString node)) lower
             then Some (acc ++ [node_id node]) else Some acc) = Some r ->
            Forall plain r).
  { destruct (JsString.includes _ _); intros [= <-]; [|done].
    apply Forall_app. split; [done|]. by apply Forall_singleton. }
  destruct node as [i entries|i items|i s|i n|i b|i]; try (by apply Hscalar).
  - clear Hscalar. cbn [children] in Hpch.
    revert Hrun Hacc. apply forEachM_preserves.
    intros matches entry matches' Hentry Hstep Hm. cbv zeta in Hstep.
    eapply IH; [exact Hstep|].
    destruct (JsString.includes _ _); [|done].
    apply Forall_app. split; [done|]. apply Forall_singleton.
    rewrite Forall_forall in Hpch. apply Hpch. by apply list_elem_of_fmap_2.
  - clear Hscalar. revert Hrun Hacc. apply forEachM_preserves.
    intros matches item matches' Hitem Hstep Hm. by eapply IH.
Qed.

Lemma parents_plain (c p : string) : buildParentMap d !! c = Some p -> plain p.
Proof.
  intros Hp. destruct (buildParentMap_parent d c p Hp) as (k & n & Hk & <- & _).
  destruct Hplain as [_ Hnodes]. by destruct (Hnodes k n Hk) as (_ & ? & _).
Qed.

Lemma walkUp_plain (parents : gmap string string) :
  (∀ c p, parents !! c = Some p -> plain p) ->
  ∀ fuel current acc r,
    walkUp fuel current parents acc = Some r ->
    (∀ c, current = Some c -> plain c) -> Forall plain acc -> Forall plain r.
Proof.
  intros Hparents. induction fuel as [|fuel IH]; intros current acc r Hrun Hcur Hacc.
  - cbn [walkUp] in Hrun. destruct (JsString.truthyOpt current); [|by simplify_eq].
    by destruct current.
  - cbn [walkUp] in Hrun. destruct (JsString.truthyOpt current); [|by simplify_eq].
    destruct current as [c|]; [|done].
    eapply IH; [exact Hrun| |].
    + intros p Hp. by eapply Hparents.
    + apply Forall_app. split; [done|]. apply Forall_singleton. by apply Hcur.
Qed.

Lemma buildAnchorPath_plain (fuel : nat) (target : string) (path : list string) :
  buildAnchorPath fuel d target = Some path -> plain target -> Forall plain path.
Proof.
  unfold buildAnchorPath. intros Hrun Htarget.
  apply bind_Some in Hrun as (up & Hup & Hrun).
  assert (Hp : Forall plain (reverse up)).
  { apply Forall_reverse.
    eapply (walkUp_plain _ parents_plain); [exact Hup| |constructor].
    by intros c [= <-]. }
  destruct (reverse up) as [|first rest]; [by simplify_eq|].
  destruct (String.eqb first (rootId d)); by simplify_eq.
Qed.

Lemma resolveAnchorPath_plain (fuel : nat) (anchors path : list string) :
  resolveAnchorPath fuel d anchors = Some path -> Forall plain anchors ->
  Forall plain path.
Proof.
  unfold resolveAnchorPath, lastOf. intros Hrun Hanchors.
  assert (Hroot : Forall plain [rootId d]).
  { apply Forall_singleton. by destruct Hplain. }
  destruct (last anchors) as [target|] eqn:Hlast; [|by simplify_eq].
  destruct (JsString.truthy target); [|by simplify_eq].
  apply bind_Some in Hrun as (p & Hp & Hrun).
  destruct (decide (p = [])); simplify_eq; [done|].
  eapply buildAnchorPath_plain; [exact Hp|].
  rewrite Forall_forall in Hanchors. apply Hanchors.
  apply last_Some in Hlast as (l' & ->). apply elem_of_app. right. by left.
Qed.

End PlainTraversals.

Section PlainSearch.
Context `{Platform}.

Lemma applySearch_plain (fuel : nat) (state state' : EditorState)
    (docOverride : option DocumentState) (anchorOverride : option (list string)) :
  applySearch fuel state docOverride anchorOverride = Some state' ->
  (∀ d, match docOverride with Some d => Some d | None => doc state end = Some d ->
        plain_doc d) ->
  Forall plain (nullish anchorOverride (anchorPath state)) ->
  Forall plain (anchorPath state') ∧ Forall plain (searchMatches state')
  ∧ doc state' = doc state ∧ selectedId state' = selectedId state
  ∧ undoStack state' = undoStack state ∧ redoStack state' = redoStack state.
Proof.
  intros Hrun Hdoc Hanchor.
  pose proof (applySearch_anchor _ _ _ _ _ Hrun) as Ha.
  pose proof (applySearch_core _ _ _ _ _ Hrun) as Hview.
  apply searchView_fields in Hview as (Hd & _ & Hsel & Hu & Hr & _).
  split; [by rewrite Ha|]. split; [|done].
  unfold applySearch in Hrun.
  destruct (match docOverride with Some d => Some d | None => doc state end) as [d|].
  2:{ injection Hrun as <-. destruct state; constructor. }
  destruct (JsString.truthy (JsString.trim (searchQuery state))).
  2:{ injection Hrun as <-. destruct state; constructor. }
  cbv zeta in Hrun.
  apply bind_Some in Hrun as (matches & Hmatches & Hrun).
  apply bind_Some in Hrun as (e & _ & Hrun).
  injection Hrun as <-.
  assert (Forall plain matches) as Hm.
  { unfold findSearchMatches in Hmatches.
    eapply visit_plain; [by apply Hdoc|exact Hmatches|constructor]. }
  by destruct state.
Qed.

Lemma snapshot_plain (state : EditorState) :
  plain_state state ->
  Forall plain_entry (take 50 (snapshotState state :: undoStack state)).
Proof.
  intros (Hd & Ha & _ & Hs & Hu & _). apply Forall_take. constructor; [|done].
  split; [exact Hd|]. split; [exact Ha|exact Hs].
Qed.

Lemma withHistory_fields (state base : EditorState) :
  doc (withHistory state base true) = doc base
  ∧ anchorPath (withHistory state base true) = anchorPath base
  ∧ searchMatches (withHistory state base true) = searchMatches base
  ∧ selectedId (withHistory state base true) = selectedId base
  ∧ undoStack (withHistory state base true)
    = take 50 (snapshotState state :: undoStack state)
  ∧ redoStack (withHistory state base true) = [].
Proof. by destruct base. Qed.

Lemma finalize_plain (fuel : nat) (state state' : EditorState) (d' : DocumentState)
    (focusId : option string) :
  finalizeDocumentChange fuel state d' focusId = Some state' ->
  plain_state state -> plain_doc d' -> (∀ i, focusId = Some i -> plain i) ->
  plain_state state'.
Proof.
  unfold finalizeDocumentChange. intros Hrun Hstate Hd' Hfocus.
  apply bind_Some in Hrun as (value & _ & Hrun).
  apply bind_Some in Hrun as (anchors & Hanchors & Hrun).
  apply bind_Some in Hrun as (base & Hbase & Hrun).
  injection Hrun as <-.
  pose proof Hstate as (_ & Ha & _ & Hsel & _).
  apply applySearch_plain in Hbase as (Hpa & Hpm & Hdoc & Hselected & _ & _).
  2:{ by intros d [= <-]. }
  2:{ cbn [nullish default]. by eapply resolveAnchorPath_plain. }
  change (plain_state (withHistory state base true)).
  destruct (withHistory_fields state base) as (Hf1 & Hf2 & Hf3 & Hf4 & Hf5 & Hf6).
  unfold plain_state. rewrite Hf1, Hf2, Hf3, Hf4, Hf5, Hf6.
  split.
  { rewrite Hdoc. intros d Hd. destruct state; cbn in Hd. by simplify_eq. }
  split; [done|]. split; [done|].
  split.
  { rewrite Hselected. intros i Hi. destruct focusId as [f|].
    - apply Hfocus. rewrite <- Hi. by destruct state.
    - apply Hsel. rewrite <- Hi. by destruct state. }
  split; [by apply snapshot_plain|constructor].
Qed.

Lemma applyParse_plain (fuel next next' : nat) (state state' : EditorState)
    (text : string) :
  applyParse fuel state text next = Some (state', next') ->
  plain_state state -> plain_state state'.
Proof.
  unfold applyParse. intros Hrun Hstate.
  destruct (parseJson text) as [value|error].
  2:{ injection Hrun as <- <-. eapply plain_state_sameIds; [|exact Hstate].
      apply sameIds_parseError. }
  pose proof (built_plain value next) as Hbuilt.
  destruct (buildDocumentFromValue value next) as [d' n'] eqn:Hbuild.
  cbn [fst] in Hbuilt. cbv zeta in Hrun.
  apply bind_Some in Hrun as (base & Hbase & Hrun). injection Hrun as <- <-.
  apply applySearch_plain in Hbase as (Hpa & Hpm & Hdoc & Hselected & _ & _).
  2:{ by intros d [= <-]. }
  2:{ cbn [nullish default]. apply Forall_singleton. by destruct Hbuilt. }
  change (plain_state (withHistory state base true)).
  destruct (withHistory_fields state base) as (Hf1 & Hf2 & Hf3 & Hf4 & Hf5 & Hf6).
  unfold plain_state. rewrite Hf1, Hf2, Hf3, Hf4, Hf5, Hf6.
  split.
  { rewrite Hdoc. intros d Hd. destruct state; cbn in Hd. by simplify_eq. }
  split; [done|]. split; [done|].
  split.
  { rewrite Hselected. intros i Hi. destruct state; cbn in Hi.
    injection Hi as <-. by destruct Hbuilt. }
  split; [by apply snapshot_plain|constructor].
Qed.

End PlainSearch.

(** * Every command returns *)

Section Totality.
Context `{Platform}.

Lemma history_bounded_pushed (state state' : EditorState) :
  pushed state state' -> history_bounded state'.
Proof.
  intros [Hu Hr]. unfold history_bounded. rewrite Hu, Hr, length_take.
  cbn [length]. lia.
Qed.

Lemma history_bounded_untouched (state state' : EditorState) :
  untouched state state' -> history_bounded state -> history_bounded state'.
Proof. intros (_ & _ & _ & Hu & Hr). unfold history_bounded. by rewrite Hu, Hr. Qed.

(** A command of the snippet store returns whatever the state is; it
    draws one identifier at most and leaves the document, the texts, the
    history and the search alone. *)
Lemma store_step (fuel next : nat) (state : EditorState) (action : Action) :
  isSnippetStore action = true ->
  ∃ state' next',
    editorReducer fuel state action next = Some (state', next')
    ∧ (next <= next')%nat
    ∧ untouched state state'
    ∧ parseError state' = parseError state
    ∧ anchorPath state' = anchorPath state
    ∧ searchMatches state' = searchMatches state
    ∧ selectedId state' = selectedId state.
Proof.
  intros Hstore.
  destruct action as [text| |text|nodeId value newType|parentId child newKey
                     |parentId parentType key' newType|parentId child|nodeId|nodeId
                     | | |query|direction|enabled|mode|indent'|scope
                     |parentId child direction| | |enabled|enabled|name now|id|id name now|id|id now| |notice'|nodeId];
    try done; cbn [editorReducer].
  - destruct (doc state) as [d|] eqn:Hdoc; cbn.
    + eexists _, (S next). split; [reflexivity|]. split; [lia|]. by destruct state.
    + eexists _, next. split; [reflexivity|]. split; [lia|]. by destruct state.
  - eexists _, next. split; [reflexivity|]. split; [lia|]. by destruct state.
  - eexists _, next. split; [reflexivity|]. split; [lia|]. by destruct state.
  - destruct (doc state) as [d|] eqn:Hdoc; cbn.
    + destruct (js_find _ (snippets state)); cbn;
        (eexists _, next; split; [reflexivity|]; split; [lia|]; by destruct state).
    + eexists _, next. split; [reflexivity|]. split; [lia|]. by destruct state.
Qed.

(** [CLEAR_LOCAL] returns the initial state whatever the state is. *)
Lemma clear_step (fuel next : nat) (state : EditorState) :
  ∃ state' next',
    editorReducer fuel state CLEAR_LOCAL next = Some (state', next')
    ∧ buildInitialState next = (state', next')
    ∧ (next <= next')%nat
    ∧ state_ok (S next') next' state'
    ∧ doc state' = Some (buildDocumentFromValue DEFAULT_JSON next).1
    ∧ undoStack state' = [] ∧ redoStack state' = []
    ∧ searchMatches state' = []
    ∧ anchorPath state' = [rootId (buildDocumentFromValue DEFAULT_JSON next).1]
    ∧ selectedId state' = Some (rootId (buildDocumentFromValue DEFAULT_JSON next).1).
Proof.
  cbn [editorReducer]. unfold buildInitialState, buildDocumentFromValue.
  destruct (buildNode DEFAULT_JSON ∅ next) as [[root m'] next'] eqn:Hbuild.
  destruct (buildNode_built _ _ _ _ _ _ Hbuild) as (-> & Hlt & Hbuilt).
  destruct (built_doc_ok _ _ _ Hbuilt) as (Hac & Hids & Hfresh).
  eexists _, next'. split; [reflexivity|]. split; [reflexivity|]. split; [lia|].
  split; [|done].
  split; [|split]; cbn; [|constructor..].
  intros d [= <-]. by split.
Qed.

Lemma isMutation_or_view (action : Action) :
  isMutation action = true ∨ isView action = true
  ∨ action = UNDO ∨ action = REDO
  ∨ (∃ text, action = SET_RAW_TEXT text) ∨ (∃ i, action = SET_INDENT i)
  ∨ isSnippetStore action = true ∨ action = CLEAR_LOCAL.
Proof.
  destruct action; cbn [isMutation isView isSnippetStore];
    first [ by left | by (right; left) | by (do 2 right; left)
          | by (do 3 right; left) | do 4 right; left; by eexists
          | do 5 right; left; by eexists | by (do 6 right; left)
          | by (do 7 right) ].
Qed.

(** One command on a state the engine can traverse. *)
Lemma command_step (B next : nat) (state : EditorState) (action : Action) :
  state_ok B next state -> history_bounded state ->
  ∃ B', (B <= B')%nat ∧
    ∀ fuel, (B' < fuel)%nat ->
      ∃ state' next',
        editorReducer fuel state action next = Some (state', next')
        ∧ (next <= next')%nat
        ∧ state_ok B' next' state'
        ∧ history_bounded state'.
Proof.
  intros Hok Hbound.
  destruct (isMutation_or_view action)
    as [Hmut|[Hview|[->|[->|[[text ->]|[[i ->]|[Hstore| ->]]]]]]].
  - destruct (accepts state action) eqn:Hacc.
    + destruct (mutation_step B next state action Hok Hacc) as (B' & HB & Hrun).
      exists B'. split; [done|]. intros fuel Hfuel.
      destruct (Hrun fuel Hfuel) as (s' & n' & Hred & Hle & Hok' & Hpushed).
      exists s', n'. do 3 (split; [done|]). by eapply history_bounded_pushed.
    + exists B. split; [done|]. intros fuel Hfuel.
      destruct (rejected_step fuel next state action Hmut Hacc)
        as (s' & n' & Hred & Hle & Hun).
      exists s', n'. split; [done|]. split; [done|].
      split; [|by eapply history_bounded_untouched].
      apply (state_ok_mono B B next n'); [lia|done|]. by eapply state_ok_untouched.
  - exists B. split; [done|]. intros fuel Hfuel.
    destruct (view_step B next fuel state action Hview Hok Hfuel)
      as (s' & Hred & Hun & _).
    exists s', next. split; [done|]. split; [done|].
    split; [by eapply state_ok_untouched|by eapply history_bounded_untouched].
  - exists B. split; [done|]. intros fuel Hfuel.
    destruct (undoStack state) as [|previous remaining] eqn:Hstack.
    + exists state, next. split; [|done]. cbn [editorReducer]. by rewrite Hstack.
    + destruct (undo_applies B next fuel state previous remaining Hok Hstack Hfuel)
        as (s' & Hs' & _ & _ & _ & Hu & Hre & Hok' & _).
      exists s', next. do 3 (split; [done|]).
      destruct Hbound as [Hbu Hbr]. unfold history_bounded.
      rewrite Hu, Hre, length_take. rewrite Hstack in Hbu. cbn [length] in *. lia.
  - exists B. split; [done|]. intros fuel Hfuel.
    destruct (redoStack state) as [|nextEntry remaining] eqn:Hstack.
    + exists state, next. split; [|done]. cbn [editorReducer]. by rewrite Hstack.
    + destruct (redo_applies B next fuel state nextEntry remaining Hok Hstack Hfuel)
        as (s' & Hs' & _ & _ & _ & Hre & Hu & Hok' & _).
      exists s', next. do 3 (split; [done|]).
      destruct Hbound as [Hbu Hbr]. unfold history_bounded.
      rewrite Hu, Hre, length_take. rewrite Hstack in Hbr. cbn [length] in *. lia.
  - set (base := state <| rawText := text |> <| parseError := None |>).
    assert (Hbase : doc base = doc state ∧ undoStack base = undoStack state
                    ∧ redoStack base = redoStack state) by (by destruct state).
    destruct Hbase as (Hd & Hu & Hre).
    assert (Hokb : state_ok B next base) by (by apply (state_ok_fields B next state)).
    assert (Hbb : history_bounded base).
    { unfold history_bounded. by rewrite Hu, Hre. }
    destruct (autoParse state) eqn:Hauto.
    2:{ exists B. split; [done|]. intros fuel Hfuel. exists base, next.
        rewrite reducer_set_raw_text, Hauto. done. }
    destruct (JSON_parse text) as [value|msg] eqn:Hparse.
    + exists (Nat.max B (S (buildDocumentFromValue value next).2)). split; [lia|].
      intros fuel Hfuel.
      destruct (applyParse_accepted B next fuel base text value Hokb Hparse Hfuel)
        as (s' & Hs' & Hle & Hok' & Hpushed & _).
      exists s', (buildDocumentFromValue value next).2.
      rewrite reducer_set_raw_text, Hauto. do 3 (split; [done|]).
      by eapply history_bounded_pushed.
    + exists B. split; [done|]. intros fuel Hfuel.
      destruct (applyParse_rejected fuel next base text) as (s' & Hs' & Hun).
      { unfold parses. by rewrite Hparse. }
      exists s', next. rewrite reducer_set_raw_text, Hauto.
      split; [done|]. split; [done|].
      split; [by eapply state_ok_untouched|by eapply history_bounded_untouched].
  - exists B. split; [done|]. intros fuel Hfuel. cbn [editorReducer].
    destruct (doc state) as [d|] eqn:Hdoc.
    + destruct (doc_traversable B next state d Hok Hdoc) as [Hac _].
      destruct (documentToJson_returns B fuel d Hac Hfuel) as [v Hv].
      rewrite Hv. cbn [mbind option_bind].
      eexists _, next. split; [reflexivity|]. split; [done|]. split.
      * apply (state_ok_fields B next state); [by destruct state..|done].
      * unfold history_bounded in *. by destruct state.
    + eexists _, next. split; [reflexivity|]. split; [done|]. split.
      * apply (state_ok_fields B next state); [by destruct state..|done].
      * unfold history_bounded in *. by destruct state.
  - exists B. split; [done|]. intros fuel Hfuel.
    destruct (store_step fuel next state action Hstore)
      as (s' & n' & Hred & Hle & Hun & _).
    exists s', n'. split; [done|]. split; [done|].
    split; [|by eapply history_bounded_untouched].
    apply (state_ok_mono B B next n'); [lia|done|]. by eapply state_ok_untouched.
  - destruct (clear_step 0 next state)
      as (s' & n' & _ & Hinit & Hle & Hok' & _ & Hu & Hr & _).
    exists (Nat.max B (S n')). split; [lia|]. intros fuel Hfuel.
    exists s', n'. cbn [editorReducer]. rewrite Hinit.
    split; [done|]. split; [done|].
    split; [eapply state_ok_mono; [| |exact Hok']; lia|].
    unfold history_bounded. rewrite Hu, Hr. cbn. lia.
Qed.

(** Adding a node brings in a fresh identifier only. *)
Lemma addedDoc_plain (next : nat) (d : DocumentState) (parentId : string)
    (parent : JsonNode) (key' : option string) (newType : NodeType) :
  ids_fresh next (nodes d) -> nodes d !! parentId = Some parent -> plain_doc d ->
  plain_doc (addedDoc d parentId parent key' newType next).
Proof.
  intros Hfresh Hparent [Hroot Hnodes]. split; [done|].
  rewrite addedDoc_nodes by done. intros k n Hk.
  destruct (decide (k = parentId)) as [->|Hne].
  - rewrite lookup_insert_eq in Hk. injection Hk as <-.
    destruct (Hnodes parentId parent Hparent) as (Hpk & Hpid & Hpch).
    split; [done|]. split; [by rewrite withChild_id|].
    apply Forall_forall. intros c Hc.
    apply withChild_children in Hc as [Hc| ->]; [|apply mkId_plain].
    rewrite Forall_forall in Hpch. by apply Hpch.
  - rewrite lookup_insert_ne in Hk by done.
    destruct (decide (k = mkId next)) as [->|Hne'].
    + rewrite lookup_insert_eq in Hk. injection Hk as <-.
      destruct (newNodeOf_leaf newType (mkId next)) as [-> ->].
      split; [apply mkId_plain|]. split; [apply mkId_plain|constructor].
    + rewrite lookup_insert_ne in Hk by done. by apply Hnodes.
Qed.

(** A command on the document whose guards fail leaves the identifiers
    alone. *)
Lemma rejected_sameIds (fuel next : nat) (state : EditorState) (action : Action) :
  isMutation action = true -> accepts state action = false ->
  ∃ state' next',
    editorReducer fuel state action next = Some (state', next') ∧ sameIds state state'.
Proof.
  intros Hmut Hacc.
  assert (Hparse : ∀ text, parses text = false ->
            ∃ state' next', applyParse fuel state text next = Some (state', next')
              ∧ sameIds state state').
  { intros text Hp. unfold parses, applyParse, parseJson in *.
    destruct (JSON_parse text) as [value|msg]; [done|].
    destruct (positionMatch msg); [destruct (getLineColumn _ _)|];
      eexists _, _; (split; [reflexivity|]); apply sameIds_parseError. }
  destruct action as [text| |text|nodeId value newType|parentId child newKey
                     |parentId parentType key' newType|parentId child|nodeId|nodeId
                     | | |query|direction|enabled|mode|indent'|scope
                     |parentId child direction| | |enabled|enabled|name now|id
                     |id name now|id|id now| |notice'|nodeId];
    try done; cbn [accepts] in Hacc.
  - rewrite reducer_parse. by apply Hparse.
  - rewrite reducer_load. by apply Hparse.
  - rewrite reducer_edit. unfold editPrimitive, acceptsEdit in *.
    destruct (doc state) as [d|]; cbn in *; [|eauto using sameIds_refl].
    destruct (nodes d !! nodeId) as [node|]; [|eauto using sameIds_refl].
    destruct node; cbn in *; eauto using sameIds_refl;
      destruct (nullish newType _); try done;
      destruct value; cbn in *; try done; eauto using sameIds_notice;
      destruct (JsNum.isNaN _); try done; eauto using sameIds_notice.
  - rewrite reducer_rename. unfold renameKey in *.
    destruct (doc state) as [d|]; cbn in *; [|eauto using sameIds_refl].
    destruct (JsString.truthy _); cbn in *; [|eauto using sameIds_notice].
    destruct (nodes d !! parentId) as [[pid entries| | | | |]|];
      eauto using sameIds_refl.
    unfold keyTakenByOther, hasChild in Hacc. rewrite !js_find_existsb in Hacc.
    destruct (js_find _ entries); cbn in *; [eauto using sameIds_notice|].
    destruct (js_find _ entries); cbn in *; [done|eauto using sameIds_refl].
  - rewrite reducer_add. unfold addNodeToDocument, acceptsAdd, keyTaken in *.
    destruct (doc state) as [d|]; cbn in *; [|eauto using sameIds_refl].
    destruct (nodes d !! parentId) as [parent|]; [|eauto using sameIds_refl].
    destruct parentType, parent as [pid entries|pid items| | | |]; try done;
      eauto using sameIds_refl, sameIds_notice.
    destruct key' as [k|]; [|eauto using sameIds_notice].
    rewrite js_find_existsb in Hacc.
    destruct (JsString.truthy k && JsString.truthy (JsString.trim k));
      [|eauto using sameIds_notice].
    cbn [andb negb] in Hacc.
    destruct (js_find _ entries); [eauto using sameIds_notice|done].
  - rewrite reducer_delete, deleteNode_rejected by done. eauto using sameIds_refl.
  - rewrite reducer_sort, sortKeys_without_document by (by destruct (doc state)).
    eauto using sameIds_refl.
  - rewrite reducer_move, moveArrayItem_rejected by done. eauto using sameIds_refl.
  - cbn [editorReducer].
    destruct (snippetContents state !! id) as [text|]; [|eauto using sameIds_refl].
    destruct (JsString.truthy text); [|eauto using sameIds_refl].
    by apply Hparse.
Qed.

(** A command whose guards pass keeps the identifiers plain. *)
Lemma accepted_plain (B next fuel : nat) (state state' : EditorState)
    (action : Action) (next' : nat) :
  state_ok B next state -> plain_state state -> Forall plain (namedIds action) ->
  accepts state action = true ->
  editorReducer fuel state action next = Some (state', next') -> plain_state state'.
Proof.
  intros Hok Hplain Hnamed Hacc Hrun. pose proof Hok as (Hdocok & _ & _).
  pose proof Hplain as (Hpd & _ & _ & Hsel & _).
  rewrite Forall_forall in Hnamed.
  assert (Hfin : ∀ d' focus n0,
            plain_doc d' -> plain focus ->
            (s ← finalizeDocumentChange fuel state d' (Some focus); Some (s, n0))
            = Some (state', next') ->
            plain_state state').
  { intros d' focus n0 Hd' Hfocus Hr. apply bind_Some in Hr as (s & Hs & [= <- <-]).
    eapply finalize_plain; [exact Hs|done|done|]. by intros i [= <-]. }
  destruct action as [text| |text|nodeId value newType|parentId child newKey
                     |parentId parentType key' newType|parentId child|nodeId|nodeId
                     | | |query|direction|enabled|mode|indent'|scope
                     |parentId child direction| | |enabled|enabled|name now|id
                     |id name now|id|id now| |notice'|nodeId];
    cbn [accepts] in Hacc; try done.
  - rewrite reducer_parse in Hrun. by eapply applyParse_plain.
  - rewrite reducer_load in Hrun. by eapply applyParse_plain.
  - destruct (doc state) as [d|] eqn:Hdoc; cbn in Hacc; [|done].
    destruct (nodes d !! nodeId) as [node|] eqn:Hnode; [|done].
    destruct (Hdocok d eq_refl) as (Hac & Hids & Hfresh).
    rewrite reducer_edit, (editPrimitive_accepted fuel state d nodeId node) in Hrun
      by done.
    eapply Hfin; [| |exact Hrun]; [|apply Hnamed; set_solver].
    apply (plain_doc_refines d); [by apply editedDoc_refines|by apply Hpd].
  - destruct (doc state) as [d|] eqn:Hdoc; cbn in Hacc; [|done].
    destruct (nodes d !! parentId) as [[pid entries| | | | |]|] eqn:Hnode; try done.
    rewrite reducer_rename,
      (renameKey_accepted fuel state d parentId child newKey pid entries) in Hrun;
      [|done|done|by cbn [accepts]; rewrite Hdoc; cbn; rewrite Hnode].
    eapply Hfin; [| |exact Hrun]; [|apply Hnamed; set_solver].
    apply (plain_doc_refines d); [by apply renamedDoc_refines|by apply Hpd].
  - destruct (doc state) as [d|] eqn:Hdoc; cbn in Hacc; [|done].
    destruct (nodes d !! parentId) as [parent|] eqn:Hnode; [|done].
    destruct (Hdocok d eq_refl) as (Hac & Hids & Hfresh).
    rewrite reducer_add, (addNode_accepted fuel state d parentId parent) in Hrun
      by done.
    eapply Hfin; [| |exact Hrun]; [|apply mkId_plain].
    apply addedDoc_plain; [done|done|by apply Hpd].
  - destruct (doc state) as [d|] eqn:Hdoc; cbn in Hacc; [|done].
    destruct (nodes d !! parentId) as [parent|] eqn:Hnode; [|done].
    rewrite reducer_delete, (deleteNode_accepted fuel state d parentId child parent)
      in Hrun by done.
    apply bind_Some in Hrun as (s & Hs & [= <- <-]).
    apply bind_Some in Hs as (nodes1 & Hrm & Hs).
    eapply finalize_plain; [exact Hs|done| |].
    2:{ intros i [= <-]. apply Hnamed. set_solver. }
    apply (plain_doc_refines d); [|by apply Hpd].
    apply deletedDoc_refines; [done|]. by eapply removeSubtree_refines.
  - destruct (doc state) as [d|] eqn:Hdoc; [|done].
    rewrite reducer_sort, (sortKeys_accepted fuel state d scope) in Hrun by done.
    apply bind_Some in Hrun as (s & Hs & [= <- <-]).
    apply bind_Some in Hs as (nodes' & Hsort & Hs).
    eapply finalize_plain; [exact Hs|done| |exact Hsel].
    apply (plain_doc_refines d); [|by apply Hpd].
    destruct (sortStart state d scope) as [start|].
    + by eapply sortObject_refines.
    + injection Hsort as <-. apply refines_refl.
  - destruct (doc state) as [d|] eqn:Hdoc; cbn in Hacc; [|done].
    destruct (nodes d !! parentId) as [[|pid items| | | |]|] eqn:Hnode; try done.
    rewrite reducer_move,
      (moveArrayItem_accepted fuel state d parentId child pid items) in Hrun by done.
    eapply Hfin; [| |exact Hrun]; [|apply Hnamed; set_solver].
    apply (plain_doc_refines d); [by apply movedDoc_refines|by apply Hpd].
  - destruct (snippetContents state !! id) as [text|] eqn:Hsnip; [|done].
    apply andb_prop in Hacc as [Htruthy Hacc].
    rewrite (reducer_snippet fuel next state id text) in Hrun by done.
    by eapply applyParse_plain.
Qed.

(** So does a command of the view. *)
Lemma view_plain (fuel next next' : nat) (state state' : EditorState)
    (action : Action) :
  isView action = true -> plain_state state -> Forall plain (namedIds action) ->
  editorReducer fuel state action next = Some (state', next') -> plain_state state'.
Proof.
  intros Hview Hplain Hids Hrun.
  pose proof Hplain as (Hpd & Hpa & Hpm & Hsel & Hpu & Hpr).
  assert (Hsame : ∀ s, sameIds state s -> Some (s, next) = Some (state', next') ->
            plain_state state').
  { intros s Hs [= <- <-]. by eapply plain_state_sameIds. }
  assert (Hsearch : ∀ base dov aov,
            (s ← applySearch fuel base dov aov; Some (s, next)) = Some (state', next') ->
            (∀ d, match dov with Some d => Some d | None => doc base end = Some d ->
                  plain_doc d) ->
            Forall plain (nullish aov (anchorPath base)) ->
            doc base = doc state -> selectedId base = selectedId state ->
            undoStack base = undoStack state -> redoStack base = redoStack state ->
            plain_state state').
  { intros base dov aov Hr Hd Ha Hbd Hbs Hbu Hbr.
    apply bind_Some in Hr as (s & Hs & [= <- <-]).
    apply applySearch_plain in Hs as (Hsa & Hsm & Hsd & Hss & Hsu & Hsr); [|done..].
    unfold plain_state. rewrite Hsd, Hss, Hsu, Hsr, Hbd, Hbs, Hbu, Hbr. done. }
  destruct action as [text| |text|nodeId value newType|parentId child newKey
                     |parentId parentType key' newType|parentId child|nodeId|nodeId
                     | | |query|direction|enabled|mode|indent'|scope
                     |parentId child direction| | |enabled|enabled|name now|id
                     |id name now|id|id now| |notice'|nodeId];
    try done.
  - (* SET_SELECTED *)
    injection Hrun as <- <-.
    apply (plain_state_selected state); [by destruct state..| |exact Hplain].
    intros i Hi. destruct state; cbn in Hi. subst nodeId. by inversion Hids.
  - (* TOGGLE_EXPANDED *) eapply Hsame; [|exact Hrun]. by destruct state.
  - (* EXPAND_ALL *)
    cbn [editorReducer] in Hrun. destruct (doc state) as [d|] eqn:Hdoc.
    + apply bind_Some in Hrun as (s & Hs & [= <- <-]).
      apply bind_Some in Hs as (ids & _ & [= <-]).
      eapply plain_state_sameIds; [|exact Hplain].
      by destruct state.
    + eapply Hsame; [|exact Hrun]. apply sameIds_refl.
  - (* COLLAPSE_ALL *)
    cbn [editorReducer] in Hrun. destruct (doc state) as [d|] eqn:Hdoc.
    + eapply Hsame; [|exact Hrun]. by destruct state.
    + eapply Hsame; [|exact Hrun]. apply sameIds_refl.
  - (* SET_SEARCH_QUERY *)
    destruct (reducer_search fuel next state query) as (expanded' & saved & Heq).
    rewrite Heq in Hrun. eapply Hsearch; [exact Hrun| | |by destruct state..].
    + intros d Hd. apply Hpd. rewrite <- Hd. by destruct state.
    + cbn [nullish default]. by destruct state.
  - (* MOVE_MATCH *)
    destruct (searchMatches state) as [|m0 ms] eqn:Hms.
    { cbn [editorReducer] in Hrun. rewrite Hms in Hrun.
      eapply Hsame; [|exact Hrun]. apply sameIds_refl. }
    rewrite reducer_move_match in Hrun by (by rewrite Hms).
    apply bind_Some in Hrun as (s & Hs & [= <- <-]).
    apply bind_Some in Hs as (e & _ & [= <-]).
    apply (plain_state_selected state); [by destruct state..| |exact Hplain].
    intros i Hi. rewrite <- Hms in Hpm. rewrite Forall_forall in Hpm. apply Hpm.
    destruct state; cbn in Hi |- *. unfold js_index in Hi.
    destruct (_ <? _)%Z; [done|]. by eapply list_elem_of_lookup_2.
  - (* TOGGLE_FILTER_MODE *)
    cbn [editorReducer] in Hrun. eapply Hsearch; [exact Hrun| | |by destruct state..].
    + intros d Hd. apply Hpd. rewrite <- Hd. by destruct state.
    + cbn [nullish default]. by destruct state.
  - (* SET_OUTPUT_MODE *) eapply Hsame; [|exact Hrun]. by destruct state.
  - (* SET_AUTOPARSE *) eapply Hsame; [|exact Hrun]. by destruct state.
  - (* SET_AUTOSAVE *) eapply Hsame; [|exact Hrun]. by destruct state.
  - (* SET_NOTICE *) eapply Hsame; [|exact Hrun]. by destruct state.
  - (* ANCHOR_TO *)
    cbn [editorReducer] in Hrun. destruct (doc state) as [d|] eqn:Hdoc.
    2:{ eapply Hsame; [|exact Hrun]. apply sameIds_refl. }
    apply bind_Some in Hrun as (s & Hs & [= <- <-]).
    apply bind_Some in Hs as (path & Hpath & Hs).
    assert (Hpp : Forall plain path).
    { eapply buildAnchorPath_plain; [by apply Hpd|exact Hpath|].
      destruct nodeId as [i|].
      - change (plain i). by inversion Hids.
      - change (plain (rootId d)). by destruct (Hpd d eq_refl). }
    destruct (lastOf path) as [focus|] eqn:Hlast.
    2:{ injection Hs as <-. done. }
    apply bind_Some in Hs as (subtree & _ & Hs).
    apply applySearch_plain in Hs as (Hsa & Hsm & Hsd & Hss & Hsu & Hsr).
    2:{ intros d' [= <-]. by apply Hpd. }
    2:{ done. }
    unfold plain_state. rewrite Hsd, Hss, Hsu, Hsr.
    split.
    { intros d' Hd'. apply Hpd. rewrite <- Hd'. rewrite <- Hdoc. by destruct state. }
    split; [done|]. split; [done|]. split; [|by destruct state].
    intros i Hi.
    assert (Hcase : Some i = selectedId state ∨ i = focus).
    { destruct state; cbn in Hi |- *. destruct (JsSet.has _ _); [by left|].
      right. by injection Hi. }
    destruct Hcase as [Hcase| ->]; [by apply Hsel|].
    rewrite Forall_forall in Hpp. apply Hpp.
    unfold lastOf in Hlast. apply last_Some in Hlast as (l' & ->).
    apply elem_of_app. right. by left.
Qed.

(** One command keeps the identifiers plain. *)
Lemma plain_step (B next fuel next' : nat) (state state' : EditorState)
    (action : Action) :
  state_ok B next state -> plain_state state -> Forall plain (namedIds action) ->
  editorReducer fuel state action next = Some (state', next') -> plain_state state'.
Proof.
  intros Hok Hplain Hids Hrun.
  pose proof Hplain as (Hpd & Hpa & Hpm & Hsel & Hpu & Hpr).
  destruct (isMutation_or_view action)
    as [Hmut|[Hview|[->|[->|[[text ->]|[[i ->]|[Hstore| ->]]]]]]].
  - destruct (accepts state action) eqn:Hacc.
    + by eapply accepted_plain.
    + destruct (rejected_sameIds fuel next state action Hmut Hacc)
        as (s' & n' & Hred & Hsame).
      rewrite Hred in Hrun. injection Hrun as <- <-.
      by eapply plain_state_sameIds.
  - by eapply view_plain.
  - (* UNDO *)
    destruct (undoStack state) as [|previous remaining] eqn:Hstack.
    { cbn [editorReducer] in Hrun. rewrite Hstack in Hrun. by injection Hrun as <- <-. }
    rewrite (reducer_undo fuel _ _ _ _ Hstack) in Hrun.
    apply bind_Some in Hrun as (s & Hs & [= <- <-]).
    apply Forall_cons in Hpu as [(Hprev & Hpanchor & Hpsel) Hrest].
    assert (Hfields : doc (undoTarget state previous remaining) = h_doc previous
              ∧ selectedId (undoTarget state previous remaining) = h_selectedId previous
              ∧ anchorPath (undoTarget state previous remaining) = h_anchorPath previous
              ∧ undoStack (undoTarget state previous remaining) = remaining
              ∧ redoStack (undoTarget state previous remaining)
                = take 50 (snapshotState state :: redoStack state))
      by (by destruct state).
    destruct Hfields as (Hfd & Hfs & Hfa & Hfu & Hfr).
    apply applySearch_plain in Hs as (Hsa & Hsm & Hsd & Hss & Hsu & Hsr).
    2:{ rewrite Hfd. intros d Hd. apply Hprev. by destruct (h_doc previous). }
    2:{ cbn [nullish default]. by rewrite Hfa. }
    unfold plain_state. rewrite Hsd, Hss, Hsu, Hsr, Hfd, Hfs, Hfu, Hfr.
    split; [done|]. split; [done|]. split; [done|]. split; [done|]. split; [done|].
    apply Forall_take. constructor; [|done]. by split.
  - (* REDO *)
    destruct (redoStack state) as [|nextEntry remaining] eqn:Hstack.
    { cbn [editorReducer] in Hrun. rewrite Hstack in Hrun. by injection Hrun as <- <-. }
    rewrite (reducer_redo fuel _ _ _ _ Hstack) in Hrun.
    apply bind_Some in Hrun as (s & Hs & [= <- <-]).
    apply Forall_cons in Hpr as [(Hentry & Hpanchor & Hpsel) Hrest].
    assert (Hfields : doc (redoTarget state nextEntry remaining) = h_doc nextEntry
              ∧ selectedId (redoTarget state nextEntry remaining) = h_selectedId nextEntry
              ∧ anchorPath (redoTarget state nextEntry remaining) = h_anchorPath nextEntry
              ∧ redoStack (redoTarget state nextEntry remaining) = remaining
              ∧ undoStack (redoTarget state nextEntry remaining)
                = take 50 (snapshotState state :: undoStack state))
      by (by destruct state).
    destruct Hfields as (Hfd & Hfs & Hfa & Hfr & Hfu).
    apply applySearch_plain in Hs as (Hsa & Hsm & Hsd & Hss & Hsu & Hsr).
    2:{ rewrite Hfd. intros d Hd. apply Hentry. by destruct (h_doc nextEntry). }
    2:{ cbn [nullish default]. by rewrite Hfa. }
    unfold plain_state. rewrite Hsd, Hss, Hsu, Hsr, Hfd, Hfs, Hfu, Hfr.
    split; [done|]. split; [done|]. split; [done|]. split; [done|]. split; [|done].
    apply Forall_take. constructor; [|done]. by split.
  - (* SET_RAW_TEXT *)
    rewrite reducer_set_raw_text in Hrun.
    assert (Hbase : plain_state (state <| rawText := text |> <| parseError := None |>)).
    { eapply plain_state_sameIds; [|exact Hplain]. by destruct state. }
    destruct (autoParse state).
    + by eapply applyParse_plain.
    + by injection Hrun as <- <-.
  - (* SET_INDENT *)
    cbn [editorReducer] in Hrun. destruct (doc state) as [d|] eqn:Hdoc.
    + apply bind_Some in Hrun as (s & Hs & [= <- <-]).
      apply bind_Some in Hs as (v & _ & [= <-]).
      eapply plain_state_sameIds; [|exact Hplain].
      by destruct state.
    + injection Hrun as <- <-. eapply plain_state_sameIds; [|exact Hplain].
      by destruct state.
  - (* the snippet store *)
    destruct (store_step fuel next state action Hstore)
      as (s' & n' & Hred & _ & (Hd & _ & _ & Hu & Hr) & _ & Ha & Hm & Hs).
    rewrite Hred in Hrun. injection Hrun as <- <-.
    eapply plain_state_sameIds; [|exact Hplain]. by repeat split.
  - (* CLEAR_LOCAL *)
    destruct (clear_step fuel next state)
      as (s' & n' & Hred & _ & _ & _ & Hd & Hu & Hr & Hm & Ha & Hs).
    rewrite Hred in Hrun. injection Hrun as <- <-.
    unfold plain_state. rewrite Hd, Hu, Hr, Hm, Ha, Hs.
    pose proof (built_plain DEFAULT_JSON next) as Hb.
    split; [by intros d [= <-]|]. split; [apply Forall_singleton; by destruct Hb|].
    split; [constructor|]. split; [|by split; constructor].
    intros i [= <-]. by destruct Hb.
Qed.

(** X26: no command hangs the engine, lets the history grow or brings in
    an identifier that names an inherited property.  The commands are all
    those of the reducer, the snippet commands and [CLEAR_LOCAL] among
    them.  On a traversable state whose history stacks hold at most 50
    entries each and whose identifiers (of the documents, the anchor
    paths, the matches, the selection, the history) are plain, every
    command that names plain identifiers returns once the fuel exceeds a
    bound that does not depend on the fuel; the state it returns is
    traversable again, its history stacks hold at most 50 entries each,
    its identifiers are plain again, and the counter of identifiers has
    not gone back. *)
Theorem every_command_returns
    (B next : nat) (state : EditorState) (action : Action) :
  state_ok B next state -> history_bounded state ->
  plain_state state -> Forall plain (namedIds action) ->
  ∃ B', (B <= B')%nat ∧
    ∀ fuel, (B' < fuel)%nat ->
      ∃ state' next',
        editorReducer fuel state action next = Some (state', next')
        ∧ (next <= next')%nat
        ∧ state_ok B' next' state'
        ∧ (length (undoStack state') <= 50)%nat
        ∧ (length (redoStack state') <= 50)%nat
        ∧ plain_state state'.
Proof.
  intros Hok Hbound Hplain Hids.
  destruct (command_step B next state action Hok Hbound) as (B' & HB & Hrun).
  exists B'. split; [done|]. intros fuel Hfuel.
  destruct (Hrun fuel Hfuel) as (s' & n' & Hred & Hle & Hok' & Hu & Hr).
  exists s', n'. split; [done|]. split; [done|]. split; [done|].
  split; [done|]. split; [done|].
  exact (plain_step _ _ _ _ _ _ _ Hok Hplain Hids Hred).
Qed.

End Totality.


(** * More fuel changes no result *)

Lemma forEachM_impl {S A : Type} (f g : S -> A -> option S) (l : list A) :
  (∀ s x s', x ∈ l -> f s x = Some s' -> g s x = Some s') ->
  ∀ s r, forEachM f s l = Some r -> forEachM g s l = Some r.
Proof.
  induction l as [|x l IH]; intros Hfg s r Hrun; [done|].
  cbn [forEachM] in *. apply bind_Some in Hrun as (s1 & Hx & Hrest).
  rewrite (Hfg s x s1 (list_elem_of_here _ _) Hx). cbn.
  apply IH; [|done]. intros s0 y s' Hy. apply Hfg. by right.
Qed.

Lemma mapM_impl {A B : Type} (f g : A -> option B) (l : list A) :
  (∀ x y, x ∈ l -> f x = Some y -> g x = Some y) ->
  ∀ r, mapM f l = Some r -> mapM g l = Some r.
Proof.
  induction l as [|x l IH]; intros Hfg r Hrun; [done|].
  cbn [mapM] in *. apply bind_Some in Hrun as (y & Hx & Hrest).
  apply bind_Some in Hrest as (ys & Hys & Hr).
  rewrite (Hfg x y (list_elem_of_here _ _) Hx). cbn.
  rewrite (IH (fun z w Hz => Hfg z w (list_elem_of_further _ _ _ Hz)) ys Hys). done.
Qed.

Section Monotone.
Context `{Platform}.

(** More fuel does not change a result. *)
Lemma buildValue_mono (d : DocumentState) :
  ∀ fuel fuel' nodeId r,
    buildValue fuel d nodeId = Some r -> (fuel <= fuel')%nat ->
    buildValue fuel' d nodeId = Some r.
Proof.
  induction fuel as [|fuel IH]; intros fuel' nodeId r Hrun Hle; [done|].
  destruct fuel' as [|fuel']; [lia|]. cbn [buildValue] in *.
  destruct (nodes d !! nodeId) as [[i entries|i items| | | |]|]; try done.
  - apply bind_Some in Hrun as (obj & Hobj & Hr).
    eapply forEachM_impl in Hobj as ->; [done|].
    intros s e s' _ Hs'. cbv beta in *. apply bind_Some in Hs' as (v & Hv & Hs').
    rewrite (IH fuel' _ _ Hv) by lia. done.
  - apply bind_Some in Hrun as (vs & Hvs & Hr).
    eapply mapM_impl in Hvs as ->; [done|].
    intros x y _ Hy. apply (IH fuel' _ _ Hy). lia.
Qed.

Lemma expandAncestors_mono (parents : gmap string string) :
  ∀ fuel fuel' current expanded r,
    expandAncestors fuel current parents expanded = Some r -> (fuel <= fuel')%nat ->
    expandAncestors fuel' current parents expanded = Some r.
Proof.
  induction fuel as [|fuel IH]; intros fuel' current expanded r Hrun Hle.
  - cbn [expandAncestors] in Hrun. destruct fuel'; cbn [expandAncestors];
      destruct (JsString.truthyOpt current); try done.
  - destruct fuel' as [|fuel']; [lia|]. cbn [expandAncestors] in *.
    destruct (JsString.truthyOpt current); [|done].
    destruct current as [c|]; [|done]. apply (IH fuel' _ _ _ Hrun). lia.
Qed.

Lemma collectSubtreeIds_mono (d : DocumentState) :
  ∀ fuel fuel' nodeId bucket r,
    collectSubtreeIds fuel d nodeId bucket = Some r -> (fuel <= fuel')%nat ->
    collectSubtreeIds fuel' d nodeId bucket = Some r.
Proof.
  induction fuel as [|fuel IH]; intros fuel' nodeId bucket r Hrun Hle; [done|].
  destruct fuel' as [|fuel']; [lia|]. cbn [collectSubtreeIds] in *.
  destruct (nodes d !! nodeId) as [node|]; [|done].
  eapply forEachM_impl; [|exact Hrun].
  intros s c s' _ Hs'. apply (IH fuel' _ _ _ Hs'). lia.
Qed.

Lemma walkUp_mono (parents : gmap string string) :
  ∀ fuel fuel' current path r,
    walkUp fuel current parents path = Some r -> (fuel <= fuel')%nat ->
    walkUp fuel' current parents path = Some r.
Proof.
  induction fuel as [|fuel IH]; intros fuel' current path r Hrun Hle.
  - cbn [walkUp] in Hrun. destruct fuel'; cbn [walkUp];
      destruct (JsString.truthyOpt current); try done.
  - destruct fuel' as [|fuel']; [lia|]. cbn [walkUp] in *.
    destruct (JsString.truthyOpt current); [|done].
    destruct current as [c|]; [|done]. apply (IH fuel' _ _ _ Hrun). lia.
Qed.

Lemma visit_mono (d : DocumentState) (lower : string) :
  ∀ fuel fuel' nodeId matches r,
    visit fuel d lower nodeId matches = Some r -> (fuel <= fuel')%nat ->
    visit fuel' d lower nodeId matches = Some r.
Proof.
  induction fuel as [|fuel IH]; intros fuel' nodeId matches r Hrun Hle; [done|].
  destruct fuel' as [|fuel']; [lia|]. cbn [visit] in *.
  destruct (nodes d !! nodeId) as [[i entries|i items| | | |]|]; try done.
  - eapply forEachM_impl; [|exact Hrun].
    intros s e s' _ Hs'. cbv beta zeta in *. apply (IH fuel' _ _ _ Hs'). lia.
  - eapply forEachM_impl; [|exact Hrun].
    intros s c s' _ Hs'. apply (IH fuel' _ _ _ Hs'). lia.
Qed.

Lemma removeSubtree_mono :
  ∀ fuel fuel' m id r,
    removeSubtree fuel m id = Some r -> (fuel <= fuel')%nat ->
    removeSubtree fuel' m id = Some r.
Proof.
  induction fuel as [|fuel IH]; intros fuel' m id r Hrun Hle; [done|].
  destruct fuel' as [|fuel']; [lia|]. cbn [removeSubtree] in *.
  destruct (m !! id) as [node|]; [|done].
  apply bind_Some in Hrun as (m1 & Hm1 & Hr).
  eapply forEachM_impl in Hm1 as ->; [done|].
  intros s c s' _ Hs'. apply (IH fuel' _ _ _ Hs'). lia.
Qed.

Lemma sortObject_mono :
  ∀ fuel fuel' m id r,
    sortObject fuel m id = Some r -> (fuel <= fuel')%nat ->
    sortObject fuel' m id = Some r.
Proof.
  induction fuel as [|fuel IH]; intros fuel' m id r Hrun Hle; [done|].
  destruct fuel' as [|fuel']; [lia|]. cbn [sortObject] in *.
  destruct (m !! id) as [[i entries|i items| | | |]|]; try done.
  - eapply forEachM_impl; [|exact Hrun].
    intros s e s' _ Hs'. apply (IH fuel' _ _ _ Hs'). lia.
  - eapply forEachM_impl; [|exact Hrun].
    intros s c s' _ Hs'. apply (IH fuel' _ _ _ Hs'). lia.
Qed.

End Monotone.
Section MonotoneEngine.
Context `{Platform}.

Lemma documentToJson_mono (d : DocumentState) (fuel fuel' : nat) (r : JsValue) :
  documentToJson fuel d = Some r -> (fuel <= fuel')%nat ->
  documentToJson fuel' d = Some r.
Proof. apply buildValue_mono. Qed.

Lemma buildAnchorPath_mono (d : DocumentState) (targetId : string)
    (fuel fuel' : nat) (r : list string) :
  buildAnchorPath fuel d targetId = Some r -> (fuel <= fuel')%nat ->
  buildAnchorPath fuel' d targetId = Some r.
Proof.
  unfold buildAnchorPath. intros Hrun Hle.
  apply bind_Some in Hrun as (path & Hpath & Hr).
  by rewrite (bind_step _ _ _ (walkUp_mono _ _ _ _ _ _ Hpath Hle)).
Qed.

Lemma resolveAnchorPath_mono (d : DocumentState) (anchors : list string)
    (fuel fuel' : nat) (r : list string) :
  resolveAnchorPath fuel d anchors = Some r -> (fuel <= fuel')%nat ->
  resolveAnchorPath fuel' d anchors = Some r.
Proof.
  unfold resolveAnchorPath. intros Hrun Hle.
  destruct (lastOf anchors) as [t|]; [|done].
  destruct (JsString.truthy t); [|done].
  apply bind_Some in Hrun as (path & Hpath & Hr).
  by rewrite (bind_step _ _ _ (buildAnchorPath_mono _ _ _ _ _ Hpath Hle)).
Qed.

Lemma applySearch_mono (state : EditorState) (docOverride : option DocumentState)
    (anchorOverride : option (list string)) (fuel fuel' : nat) (r : EditorState) :
  applySearch fuel state docOverride anchorOverride = Some r -> (fuel <= fuel')%nat ->
  applySearch fuel' state docOverride anchorOverride = Some r.
Proof.
  unfold applySearch, findSearchMatches. intros Hrun Hle.
  destruct (match docOverride with Some d => Some d | None => doc state end) as [d|];
    [|done].
  destruct (JsString.truthy (JsString.trim (searchQuery state))); [|done].
  cbv zeta in *.
  apply bind_Some in Hrun as (matches & Hm & Hrun).
  apply bind_Some in Hrun as (e & He & Hrun).
  rewrite (bind_step _ _ _ (visit_mono _ _ _ _ _ _ _ Hm Hle)). cbv beta.
  match type of He with
  | (if ?c then expandAncestors _ ?a ?b ?x else ?y) = _ =>
      assert (He' : (if c then expandAncestors fuel' a b x else y) = Some e)
        by (destruct c; [by eapply expandAncestors_mono|done])
  end.
  by rewrite (bind_step _ _ _ He').
Qed.

Lemma finalizeDocumentChange_mono (state : EditorState) (d' : DocumentState)
    (focusId : option string) (fuel fuel' : nat) (r : EditorState) :
  finalizeDocumentChange fuel state d' focusId = Some r -> (fuel <= fuel')%nat ->
  finalizeDocumentChange fuel' state d' focusId = Some r.
Proof.
  unfold finalizeDocumentChange. intros Hrun Hle.
  apply bind_Some in Hrun as (v & Hv & Hrun). cbv zeta in *.
  apply bind_Some in Hrun as (path & Hpath & Hrun).
  apply bind_Some in Hrun as (base & Hbase & Hrun).
  rewrite (bind_step _ _ _ (documentToJson_mono _ _ _ _ Hv Hle)). cbv beta.
  rewrite (bind_step _ _ _ (resolveAnchorPath_mono _ _ _ _ _ Hpath Hle)). cbv beta.
  by rewrite (bind_step _ _ _ (applySearch_mono _ _ _ _ _ _ Hbase Hle)).
Qed.

Lemma applyParse_mono (state : EditorState) (text : string) (next : nat)
    (fuel fuel' : nat) (r : EditorState * nat) :
  applyParse fuel state text next = Some r -> (fuel <= fuel')%nat ->
  applyParse fuel' state text next = Some r.
Proof.
  unfold applyParse. intros Hrun Hle.
  destruct (parseJson text) as [value|error]; [|done].
  destruct (buildDocumentFromValue value next) as [d' next']. cbv zeta in *.
  apply bind_Some in Hrun as (s & Hs & Hrun).
  by rewrite (bind_step _ _ _ (applySearch_mono _ _ _ _ _ _ Hs Hle)).
Qed.

Lemma editPrimitive_mono (state : EditorState) (nodeId : string) (value : PrimValue)
    (newType : option NodeType) (fuel fuel' : nat) (r : EditorState) :
  editPrimitive fuel state nodeId value newType = Some r -> (fuel <= fuel')%nat ->
  editPrimitive fuel' state nodeId value newType = Some r.
Proof.
  unfold editPrimitive. intros Hrun Hle.
  destruct (doc state) as [d|]; [|done].
  destruct (nodes d !! nodeId) as [node|]; [|done].
  destruct node; try done; cbv zeta in *;
    match type of Hrun with
    | match ?x with inl _ => _ | inr _ => _ end = _ =>
        destruct x; [by eapply finalizeDocumentChange_mono|done]
    end.
Qed.

Lemma renameKey_mono (state : EditorState) (parentId childId' newKey : string)
    (fuel fuel' : nat) (r : EditorState) :
  renameKey fuel state parentId childId' newKey = Some r -> (fuel <= fuel')%nat ->
  renameKey fuel' state parentId childId' newKey = Some r.
Proof.
  unfold renameKey. intros Hrun Hle.
  destruct (doc state) as [d|]; [|done]. cbv zeta in *.
  destruct (negb (JsString.truthy (JsString.trim newKey))); [done|].
  destruct (nodes d !! parentId) as [[pid entries| | | | |]|]; try done.
  destruct (js_find _ entries); [done|].
  destruct (js_find _ entries); [|done].
  by eapply finalizeDocumentChange_mono.
Qed.

Lemma addNodeToDocument_mono (state : EditorState) (parentId : string)
    (parentType : ParentType) (key' : option string) (newType : NodeType)
    (next fuel fuel' : nat) (r : EditorState * nat) :
  addNodeToDocument fuel state parentId parentType key' newType next = Some r ->
  (fuel <= fuel')%nat ->
  addNodeToDocument fuel' state parentId parentType key' newType next = Some r.
Proof.
  unfold addNodeToDocument. intros Hrun Hle.
  destruct (doc state) as [d|]; [|done].
  destruct (nodes d !! parentId) as [parent|]; [|done]. cbv zeta in *.
  match type of Hrun with
  | match ?x with Some _ => _ | None => _ end = _ => destruct x; [done|]
  end.
  destruct (createId next) as [c n].
  destruct parentType, parent; try done;
    apply bind_Some in Hrun as (s & Hs & Hrun);
    by rewrite (bind_step _ _ _ (finalizeDocumentChange_mono _ _ _ _ _ _ Hs Hle)).
Qed.

Lemma deleteNode_mono (state : EditorState) (parentId childId' : string)
    (fuel fuel' : nat) (r : EditorState) :
  deleteNode fuel state parentId childId' = Some r -> (fuel <= fuel')%nat ->
  deleteNode fuel' state parentId childId' = Some r.
Proof.
  unfold deleteNode. intros Hrun Hle.
  destruct (doc state) as [d|]; [|done].
  destruct (nodes d !! parentId) as [parent|]; [|done].
  apply bind_Some in Hrun as (nodes1 & Hn & Hrun). cbv zeta in *.
  rewrite (bind_step _ _ _ (removeSubtree_mono _ _ _ _ _ Hn Hle)). cbv beta.
  by eapply finalizeDocumentChange_mono.
Qed.

Lemma moveArrayItem_mono (state : EditorState) (parentId childId' : string)
    (direction : Direction) (fuel fuel' : nat) (r : EditorState) :
  moveArrayItem fuel state parentId childId' direction = Some r -> (fuel <= fuel')%nat ->
  moveArrayItem fuel' state parentId childId' direction = Some r.
Proof.
  unfold moveArrayItem. intros Hrun Hle.
  destruct (doc state) as [d|]; [|done].
  destruct (nodes d !! parentId) as [[|pid items| | | |]|]; try done. cbv zeta in *.
  destruct (indexOf items childId' =? -1); [done|].
  destruct ((indexOf items childId' + directionValue direction <? 0)
            || (Z.of_nat (length items) <=? indexOf items childId' + directionValue direction));
    [done|].
  by eapply finalizeDocumentChange_mono.
Qed.

Lemma sortKeys_mono (state : EditorState) (scope : SortScope)
    (fuel fuel' : nat) (r : EditorState) :
  sortKeys fuel state scope = Some r -> (fuel <= fuel')%nat ->
  sortKeys fuel' state scope = Some r.
Proof.
  intros Hrun Hle. destruct (doc state) as [d|] eqn:Hdoc.
  2:{ rewrite (sortKeys_without_document fuel) in Hrun by done.
      by rewrite (sortKeys_without_document fuel'). }
  rewrite (sortKeys_accepted fuel _ _ _ Hdoc) in Hrun.
  rewrite (sortKeys_accepted fuel' _ _ _ Hdoc).
  apply bind_Some in Hrun as (nodes' & Hn & Hrun).
  assert (Hn' : match sortStart state d scope with
                | Some start => sortObject fuel' (nodes d) start
                | None => Some (nodes d)
                end = Some nodes').
  { destruct (sortStart state d scope); [by eapply sortObject_mono|done]. }
  rewrite (bind_step _ _ _ Hn'). cbv beta. by eapply finalizeDocumentChange_mono.
Qed.

Lemma pure_mono (f : nat -> option EditorState) (next fuel fuel' : nat)
    (r : EditorState * nat) :
  (∀ s, f fuel = Some s -> f fuel' = Some s) ->
  (s ← f fuel; Some (s, next)) = Some r ->
  (s ← f fuel'; Some (s, next)) = Some r.
Proof.
  intros Hf Hrun. apply bind_Some in Hrun as (s & Hs & Hrun).
  by rewrite (bind_step _ _ _ (Hf s Hs)).
Qed.

Lemma editorReducer_mono (state : EditorState) (action : Action) (next : nat)
    (fuel fuel' : nat) (r : EditorState * nat) :
  editorReducer fuel state action next = Some r -> (fuel <= fuel')%nat ->
  editorReducer fuel' state action next = Some r.
Proof.
  intros Hrun Hle.
  destruct action as [text| |text|nodeId value newType|parentId child newKey
                     |parentId parentType key' newType|parentId child|nodeId|nodeId
                     | | |query|direction|enabled|mode|indent'|scope
                     |parentId child direction| | |enabled|enabled|name now|id|id name now|id|id now| |notice'|nodeId].
  - rewrite reducer_set_raw_text in *. destruct (autoParse state); [|done].
    by eapply applyParse_mono.
  - rewrite reducer_parse in *. by eapply applyParse_mono.
  - rewrite reducer_load in *. by eapply applyParse_mono.
  - rewrite reducer_edit in *.
    eapply (pure_mono (fun fuel => editPrimitive fuel state nodeId value newType));
      [|exact Hrun]. intros s Hs. by eapply editPrimitive_mono.
  - rewrite reducer_rename in *.
    eapply (pure_mono (fun fuel => renameKey fuel state parentId child newKey));
      [|exact Hrun]. intros s Hs. by eapply renameKey_mono.
  - rewrite reducer_add in *. by eapply addNodeToDocument_mono.
  - rewrite reducer_delete in *.
    eapply (pure_mono (fun fuel => deleteNode fuel state parentId child));
      [|exact Hrun]. intros s Hs. by eapply deleteNode_mono.
  - exact Hrun.
  - exact Hrun.
  - cbn [editorReducer] in *. destruct (doc state) as [d|]; [|done].
    apply bind_Some in Hrun as (s & Hs & Hrun).
    apply bind_Some in Hs as (ids & Hids & Hs).
    rewrite (collectSubtreeIds_mono _ _ _ _ _ _ Hids Hle). cbn [mbind option_bind].
    injection Hs as <-. exact Hrun.
  - exact Hrun.
  - cbn [editorReducer] in *.
    match type of Hrun with
    | (let '(_, _) := ?x in _) = _ => destruct x as [e0 p0]
    end.
    eapply (pure_mono (fun fuel => applySearch fuel _ None None)); [|exact Hrun].
    intros s Hs. by eapply applySearch_mono.
  - destruct (searchMatches state) as [|m0 ms] eqn:Hms.
    { cbn [editorReducer] in *. by rewrite Hms in *. }
    rewrite (reducer_move_match fuel) in Hrun by (by rewrite Hms).
    rewrite (reducer_move_match fuel') by (by rewrite Hms).
    apply bind_Some in Hrun as (s & Hs & Hrun).
    apply bind_Some in Hs as (e & He & Hs).
    match type of He with
    | match doc state with
      | Some d => expandAncestors _ ?a _ ?x
      | None => ?y
      end = _ =>
        assert (He' : match doc state with
                      | Some d => expandAncestors fuel' a (buildParentMap d) x
                      | None => y
                      end = Some e)
          by (destruct (doc state); [by eapply expandAncestors_mono|done])
    end.
    rewrite (bind_step _ _ _ He'). cbv beta.
    injection Hs as <-. exact Hrun.
  - cbn [editorReducer] in *.
    eapply (pure_mono (fun fuel => applySearch fuel _ None None)); [|exact Hrun].
    intros s Hs. by eapply applySearch_mono.
  - exact Hrun.
  - cbn [editorReducer] in *. destruct (doc state) as [d|]; [|done].
    apply bind_Some in Hrun as (s & Hs & Hrun).
    apply bind_Some in Hs as (v & Hv & Hs).
    rewrite (documentToJson_mono _ _ _ _ Hv Hle). cbn [mbind option_bind].
    injection Hs as <-. exact Hrun.
  - rewrite reducer_sort in *.
    eapply (pure_mono (fun fuel => sortKeys fuel state scope)); [|exact Hrun].
    intros s Hs. by eapply sortKeys_mono.
  - rewrite reducer_move in *.
    eapply (pure_mono (fun fuel => moveArrayItem fuel state parentId child direction));
      [|exact Hrun]. intros s Hs. by eapply moveArrayItem_mono.
  - destruct (undoStack state) as [|previous remaining] eqn:Hstack.
    { cbn [editorReducer] in *. by rewrite Hstack in *. }
    rewrite (reducer_undo fuel _ _ _ _ Hstack) in Hrun.
    rewrite (reducer_undo fuel' _ _ _ _ Hstack).
    eapply (pure_mono (fun fuel => applySearch fuel _ _ _)); [|exact Hrun].
    intros s Hs. by eapply applySearch_mono.
  - destruct (redoStack state) as [|nextEntry remaining] eqn:Hstack.
    { cbn [editorReducer] in *. by rewrite Hstack in *. }
    rewrite (reducer_redo fuel _ _ _ _ Hstack) in Hrun.
    rewrite (reducer_redo fuel' _ _ _ _ Hstack).
    eapply (pure_mono (fun fuel => applySearch fuel _ _ _)); [|exact Hrun].
    intros s Hs. by eapply applySearch_mono.
  - exact Hrun.
  - exact Hrun.
  - exact Hrun.
  - cbn [editorReducer] in *.
    destruct (snippetContents state !! id) as [text|]; [|done].
    destruct (JsString.truthy text); [|done]. by eapply applyParse_mono.
  - exact Hrun.
  - exact Hrun.
  - exact Hrun.
  - exact Hrun.
  - exact Hrun.
  - cbn [editorReducer] in *. destruct (doc state) as [d|]; [|done].
    apply bind_Some in Hrun as (s & Hs & Hrun).
    apply bind_Some in Hs as (path & Hpath & Hs).
    rewrite (bind_step _ _ _ (buildAnchorPath_mono _ _ _ _ _ Hpath Hle)).
    cbv beta. destruct (lastOf path) as [focus|].
    2:{ by rewrite (bind_step _ _ _ Hs). }
    apply bind_Some in Hs as (ids & Hids & Hs).
    rewrite (bind_step _ _ _ (collectSubtreeIds_mono _ _ _ _ _ _ Hids Hle)).
    cbv beta.
    by rewrite (bind_step _ _ _ (applySearch_mono _ _ _ _ _ _ Hs Hle)).
Qed.

End MonotoneEngine.

Section Sequences.
Context `{Platform}.

Lemma runActions_mono (actions : list Action) :
  ∀ state next fuel fuel' r,
    runActions fuel state next actions = Some r -> (fuel <= fuel')%nat ->
    runActions fuel' state next actions = Some r.
Proof.
  induction actions as [|action rest IH]; intros state next fuel fuel' r Hrun Hle;
    [done|].
  cbn [runActions] in *.
  destruct (editorReducer fuel state action next) as [[s1 n1]|] eqn:Hstep; [|done].
  rewrite (editorReducer_mono _ _ _ _ _ _ Hstep Hle). by eapply IH.
Qed.

(** X27: no sequence of commands hangs the engine.  From a traversable
    state whose history stacks hold at most 50 entries each and whose
    identifiers are plain, every finite sequence of commands that name
    plain identifiers, dispatched one after the other, returns once the
    fuel reaches a bound; the result is the same for every larger amount
    of fuel; the last state is traversable again, its history stacks hold
    at most 50 entries each and its identifiers are plain. *)
Theorem every_command_sequence_returns
    (B next : nat) (state : EditorState) (actions : list Action) :
  state_ok B next state -> history_bounded state -> plain_state state ->
  Forall (fun action => Forall plain (namedIds action)) actions ->
  ∃ fuel0 B' state' next',
    (∀ fuel, (fuel0 <= fuel)%nat ->
       runActions fuel state next actions = Some (state', next'))
    ∧ (next <= next')%nat
    ∧ state_ok B' next' state'
    ∧ (length (undoStack state') <= 50)%nat
    ∧ (length (redoStack state') <= 50)%nat
    ∧ plain_state state'.
Proof.
  revert B next state.
  induction actions as [|action rest IH]; intros B next state Hok Hbound Hplain Hids.
  - exists 0%nat, B, state, next. destruct Hbound as [Hu Hr].
    split; [done|]. split; [done|]. split; [done|]. by split.
  - apply Forall_cons in Hids as [Hid Hids].
    destruct (command_step B next state action Hok Hbound) as (B1 & HB & Hrun).
    destruct (Hrun (S B1)) as (s1 & n1 & Hstep & Hle & Hok1 & Hbound1); [lia|].
    pose proof (plain_step _ _ _ _ _ _ _ Hok Hplain Hid Hstep) as Hplain1.
    destruct (IH B1 n1 s1 Hok1 Hbound1 Hplain1 Hids)
      as (fuel0 & B' & s' & n' & Hrest & Hle' & Hok' & Hbound').
    exists (Nat.max (S B1) fuel0), B', s', n'. split; [|split; [lia|done]].
    intros fuel Hfuel. cbn [runActions].
    rewrite (editorReducer_mono _ _ _ _ _ _ Hstep) by lia.
    apply Hrest. lia.
Qed.

End Sequences.

Lemma emptyState_plain : plain_state Demo.emptyState.
Proof.
  split; [done|]. split; [constructor|]. split; [constructor|].
  split; [done|]. split; constructor.
Qed.

Lemma sampleState_plain : plain_state Demo.sampleState.
Proof.
  exact (applyParse_plain (H := Demo.platform) 10 0 5 _ _ "sample"
           sampleState_parsed emptyState_plain).
Qed.

Lemma every_command_returns_witness :
  state_ok 6 5 Demo.sampleState
  ∧ history_bounded Demo.sampleState
  ∧ plain_state Demo.sampleState
  ∧ Forall plain (namedIds (ADD_NODE "id-2" PArray None TNull))
  ∧ ∃ B', (6 <= B')%nat ∧
      ∀ fuel, (B' < fuel)%nat ->
        ∃ state' next',
          editorReducer (H := Demo.platform) fuel Demo.sampleState
            (ADD_NODE "id-2" PArray None TNull) 5 = Some (state', next')
          ∧ (5 <= next')%nat
          ∧ state_ok B' next' state'
          ∧ (length (undoStack state') <= 50)%nat
          ∧ (length (redoStack state') <= 50)%nat
          ∧ plain_state state'.
Proof.
  assert (Hb : history_bounded Demo.sampleState) by (split; cbn; lia).
  assert (Hids : Forall plain (namedIds (ADD_NODE "id-2" PArray None TNull)))
    by (by repeat constructor).
  split; [exact sampleState_ok|]. split; [exact Hb|].
  split; [exact sampleState_plain|]. split; [exact Hids|].
  exact (every_command_returns (H := Demo.platform) 6 5 Demo.sampleState
           (ADD_NODE "id-2" PArray None TNull) sampleState_ok Hb
           sampleState_plain Hids).
Defined.

Lemma every_command_sequence_returns_witness :
  state_ok 0 0 Demo.emptyState
  ∧ history_bounded Demo.emptyState
  ∧ plain_state Demo.emptyState
  ∧ Forall (fun action => Forall plain (namedIds action))
      [LOAD_TEXT "sample"; RENAME_KEY "id-0" "id-1" "first"; UNDO; CLEAR_LOCAL;
       SAVE_SNIPPET "kept" JsNum.one; EXPAND_ALL]
  ∧ ∃ fuel0 B' state' next',
      (∀ fuel, (fuel0 <= fuel)%nat ->
         runActions (H := Demo.platform) fuel Demo.emptyState 0
           [LOAD_TEXT "sample"; RENAME_KEY "id-0" "id-1" "first"; UNDO; CLEAR_LOCAL;
            SAVE_SNIPPET "kept" JsNum.one; EXPAND_ALL]
         = Some (state', next'))
      ∧ (0 <= next')%nat
      ∧ state_ok B' next' state'
      ∧ (length (undoStack state') <= 50)%nat
      ∧ (length (redoStack state') <= 50)%nat
      ∧ plain_state state'.
Proof.
  assert (Hb : history_bounded Demo.emptyState) by (split; cbn; lia).
  assert (Hids : Forall (fun action => Forall plain (namedIds action))
            [LOAD_TEXT "sample"; RENAME_KEY "id-0" "id-1" "first"; UNDO; CLEAR_LOCAL;
             SAVE_SNIPPET "kept" JsNum.one; EXPAND_ALL])
    by (by repeat constructor).
  split; [exact emptyState_ok|]. split; [exact Hb|].
  split; [exact emptyState_plain|]. split; [exact Hids|].
  exact (every_command_sequence_returns (H := Demo.platform) 0 0 Demo.emptyState
           [LOAD_TEXT "sample"; RENAME_KEY "id-0" "id-1" "first"; UNDO; CLEAR_LOCAL;
            SAVE_SNIPPET "kept" JsNum.one; EXPAND_ALL]
           emptyState_ok Hb emptyState_plain Hids).
Defined.


(** * Distinct keys *)

Lemma entries_kept_refl (m : gmap string JsonNode) : entries_kept m m.
Proof.
  intros k n Hk. exists n. split; [done|]. split; [done|].
  intros i es ->. by exists i, es.
Qed.

Lemma entries_kept_trans (m1 m2 m3 : gmap string JsonNode) :
  entries_kept m1 m2 -> entries_kept m2 m3 -> entries_kept m1 m3.
Proof.
  intros H12 H23 k n3 Hk.
  destruct (H23 k n3 Hk) as (n2 & Hk2 & Hc2 & Ho2).
  destruct (H12 k n2 Hk2) as (n1 & Hk1 & Hc1 & Ho1).
  exists n1. split; [done|]. split; [by etrans|].
  intros i3 es3 Hn3. destruct (Ho2 i3 es3 Hn3) as (i2 & es2 & Hn2 & Hs2).
  destruct (Ho1 i2 es2 Hn2) as (i1 & es1 & Hn1 & Hs1).
  exists i1, es1. split; [done|]. by etrans.
Qed.

Lemma entries_kept_delete (m : gmap string JsonNode) (k : string) :
  entries_kept m (delete k m).
Proof.
  intros k' n [_ Hk]%lookup_delete_Some. by apply entries_kept_refl.
Qed.

Lemma entries_kept_insert (m m1 : gmap string JsonNode) (k : string)
    (old new : JsonNode) :
  entries_kept m m1 -> m !! k = Some old -> children new ⊆ children old ->
  (∀ i' entries', new = ObjectNode i' entries' ->
     ∃ i entries, old = ObjectNode i entries ∧ entries' ⊆+ entries) ->
  entries_kept m (<[k := new]> m1).
Proof.
  intros Hkept Hold Hc Ho k' n'. destruct (decide (k' = k)) as [->|Hne].
  - rewrite lookup_insert_eq. intros [= <-]. by exists old.
  - rewrite lookup_insert_ne by done. apply Hkept.
Qed.

Lemma NoDup_kept {A : Type} (l k : list A) : l ⊆+ k -> NoDup k -> NoDup l.
Proof.
  intros (k' & Hperm)%submseteq_Permutation Hk. rewrite Hperm in Hk.
  by apply NoDup_app in Hk as (? & _).
Qed.

Lemma keys_ok_kept (next : nat) (d : DocumentState) (r : string)
    (m' : gmap string JsonNode) :
  entries_kept (nodes d) m' -> keys_ok next d -> keys_ok next (mkDoc r m').
Proof.
  intros Hkept [Huniq Hrefs]. split.
  - intros k i' es' Hk. cbn [nodes] in Hk.
    destruct (Hkept k _ Hk) as (n & Hn & _ & Ho).
    destruct (Ho i' es' eq_refl) as (i & es & -> & Hsub).
    destruct (Huniq k i es Hn) as [Hkeys Hch]. split.
    + eapply NoDup_kept; [|exact Hkeys]. by apply fmap_submseteq.
    + eapply NoDup_kept; [|exact Hch]. by apply fmap_submseteq.
  - intros k n' c j Hk Hc Hj. cbn [nodes] in Hk.
    destruct (Hkept k _ Hk) as (n & Hn & Hsub & _).
    eapply Hrefs; [exact Hn|by apply Hsub|done].
Qed.

Lemma keys_ok_mono (next next' : nat) (d : DocumentState) :
  (next <= next')%nat -> keys_ok next d -> keys_ok next' d.
Proof.
  intros Hle [Huniq Hrefs]. split; [done|].
  intros k n c j Hk Hc Hj. eapply Hrefs; [done|done|lia].
Qed.

Lemma keys_inv_mono (next next' : nat) (s : EditorState) :
  (next <= next')%nat -> keys_inv next s -> keys_inv next' s.
Proof.
  intros Hle (Hd & Hu & Hr). split; [|split].
  - intros d Hdoc. eapply keys_ok_mono; eauto.
  - eapply Forall_impl; [exact Hu|]. intros h Hh d Hdoc. eapply keys_ok_mono; eauto.
  - eapply Forall_impl; [exact Hr|]. intros h Hh d Hdoc. eapply keys_ok_mono; eauto.
Qed.

Section Kept.
Context `{Platform}.

Lemma removeSubtree_kept :
  ∀ fuel m id m', removeSubtree fuel m id = Some m' -> entries_kept m m'.
Proof.
  induction fuel as [|fuel IH]; intros m id m' Hrun; [done|].
  cbn [removeSubtree] in Hrun. destruct (m !! id) as [node|]; [|by simplify_eq;
    apply entries_kept_refl].
  apply bind_Some in Hrun as (m1 & Hloop & [= <-]).
  eapply entries_kept_trans; [|apply entries_kept_delete].
  clear -IH Hloop. revert m m1 Hloop.
  induction (children node) as [|c cs IHcs]; intros m m1 Hloop.
  - cbn in Hloop. simplify_eq. apply entries_kept_refl.
  - cbn [forEachM] in Hloop. apply bind_Some in Hloop as (m2 & Hc & Hrest).
    eapply entries_kept_trans; [by eapply IH|by apply IHcs].
Qed.

Lemma sortObject_kept :
  ∀ fuel m id m', sortObject fuel m id = Some m' -> entries_kept m m'.
Proof.
  induction fuel as [|fuel IH]; intros m id m' Hrun; [done|].
  assert (Hloop : ∀ {A : Type} (g : A -> string) (xs : list A) m0 m1,
            forEachM (fun m x => sortObject fuel m (g x)) m0 xs = Some m1 ->
            entries_kept m0 m1).
  { intros A g xs. induction xs as [|x xs IHxs]; intros m0 m1 Hloop.
    - cbn in Hloop. simplify_eq. apply entries_kept_refl.
    - cbn [forEachM] in Hloop. apply bind_Some in Hloop as (m2 & Hx & Hrest).
      eapply entries_kept_trans; [by eapply IH|by apply IHxs]. }
  cbn [sortObject] in Hrun.
  destruct (m !! id) as [[i entries|i items| | | |]|] eqn:Hnode;
    try (simplify_eq; apply entries_kept_refl).
  - eapply entries_kept_trans; [|exact (Hloop _ childId _ _ _ Hrun)].
    eapply entries_kept_insert; [apply entries_kept_refl|exact Hnode| |].
    + apply sorted_children_subseteq.
    + intros i' es' [= <- <-]. exists i, entries. split; [done|].
      apply Permutation_submseteq, Array_sort_Permutation.
  - exact (Hloop _ (fun x => x) _ _ _ Hrun).
Qed.

Lemma editedDoc_kept (d : DocumentState) (nodeId : string) (node : JsonNode)
    (value : PrimValue) (newType : option NodeType) :
  nodes d !! nodeId = Some node -> acceptsEdit node value newType = true ->
  entries_kept (nodes d) (nodes (editedDoc d nodeId node value newType)).
Proof.
  intros Hnode Hacc. cbn [editedDoc nodes].
  apply andb_prop in Hacc as [Hscalar _].
  eapply entries_kept_insert; [apply entries_kept_refl|exact Hnode| |].
  - unfold editedNode. destruct (nullish newType (node_type node)); try done;
      try (intros c Hc; by apply elem_of_nil in Hc).
    destruct value; try done; intros c Hc; by apply elem_of_nil in Hc.
  - intros i' es'. unfold editedNode.
    destruct (nullish newType (node_type node)); try done;
      destruct node; try done; destruct value; done.
Qed.

Lemma movedDoc_kept (d : DocumentState) (parentId childId' pid : string)
    (items : list string) (direction : Direction) :
  nodes d !! parentId = Some (ArrayNode pid items) ->
  indexOf items childId' ≠ -1 ->
  entries_kept (nodes d) (nodes (movedDoc d parentId childId' direction pid items)).
Proof.
  intros Hnode Hidx. cbn [movedDoc nodes].
  eapply entries_kept_insert; [apply entries_kept_refl|exact Hnode| |done].
  cbn [children]. by apply movedItems_subseteq.
Qed.

Lemma deletedDoc_kept (d : DocumentState) (parentId childId' : string)
    (parent : JsonNode) (nodes1 : gmap string JsonNode) :
  nodes d !! parentId = Some parent -> entries_kept (nodes d) nodes1 ->
  entries_kept (nodes d) (nodes (deletedDoc d parentId childId' parent nodes1)).
Proof.
  intros Hnode Hkept. cbn [deletedDoc nodes]. destruct (nodes1 !! parentId); [|done].
  eapply entries_kept_insert; [done|exact Hnode| |].
  - intros c Hc. by apply withoutChild_children in Hc.
  - intros i' es'. destruct parent as [pid entries| | | | |]; try done.
    cbn [withoutChild]. intros [= <- <-]. exists pid, entries. split; [done|].
    apply sublist_submseteq, sublist_filter.
Qed.

End Kept.
Lemma renamedDoc_keys_ok (next : nat) (d : DocumentState)
    (parentId childId' newKey pid : string) (entries : list ObjectEntry) :
  nodes d !! parentId = Some (ObjectNode pid entries) ->
  keyTakenByOther entries (JsString.trim newKey) childId' = false ->
  keys_ok next d ->
  keys_ok next (renamedDoc d parentId childId' newKey pid entries).
Proof.
  intros Hnode Htaken [Huniq Hrefs]. split.
  - intros k i es. cbn [renamedDoc nodes]. destruct (decide (k = parentId)) as [->|Hne].
    + rewrite lookup_insert_eq. intros [= <- <-].
      destruct (Huniq _ _ _ Hnode) as [Hk Hc]. split.
      * by apply renameFirst_NoDup.
      * by rewrite renameFirst_children.
    + rewrite lookup_insert_ne by done. apply Huniq.
  - intros k n c j. cbn [renamedDoc nodes]. destruct (decide (k = parentId)) as [->|Hne].
    + rewrite lookup_insert_eq. intros [= <-]. cbn [children].
      rewrite renameFirst_children. intros Hc. by eapply (Hrefs parentId _ c j Hnode).
    + rewrite lookup_insert_ne by done. apply Hrefs.
Qed.

Lemma addedDoc_keys_ok (next : nat) (d : DocumentState) (parentId : string)
    (parent : JsonNode) (parentType : ParentType) (key' : option string)
    (newType : NodeType) :
  ids_fresh next (nodes d) -> nodes d !! parentId = Some parent ->
  acceptsAdd parent parentType key' = true ->
  keys_ok next d ->
  keys_ok (S next) (addedDoc d parentId parent key' newType next).
Proof.
  intros Hfresh Hnode Hacc [Huniq Hrefs].
  assert (Hne : mkId next ≠ parentId).
  { intros <-. rewrite Hfresh in Hnode; [done|lia]. }
  unfold keys_ok, unique_keys, refs_drawn. rewrite addedDoc_nodes by done. split.
  - intros k i es. destruct (decide (k = parentId)) as [->|Hkp].
    + rewrite lookup_insert_eq. intros [= Heq].
      unfold acceptsAdd in Hacc.
      destruct parentType, parent as [pid entries|pid items| | | |]; try done.
      cbn [withChild] in Heq. injection Heq as <- <-.
      destruct key' as [k|]; [|done].
      apply andb_prop in Hacc as [_ Htaken]. apply negb_true_iff in Htaken.
      destruct (Huniq _ _ _ Hnode) as [Hk Hc].
      rewrite !map_app. cbn [map key childId nullish default]. split.
      * apply NoDup_app. split; [done|]. split; [|apply NoDup_singleton].
        intros x Hx ->%list_elem_of_singleton. by apply keyTaken_false in Htaken.
      * apply NoDup_app. split; [done|]. split; [|apply NoDup_singleton].
        intros x Hx ->%list_elem_of_singleton.
        by apply (Hrefs parentId _ (mkId next) next Hnode Hx).
    + rewrite lookup_insert_ne by done. destruct (decide (k = mkId next)) as [->|Hkn].
      * rewrite lookup_insert_eq. intros [= Heq]. destruct newType; try done.
        cbn [newNodeOf] in Heq. injection Heq as <- <-. split; constructor.
      * rewrite lookup_insert_ne by done. apply Huniq.
  - intros k n c j. destruct (decide (k = parentId)) as [->|Hkp].
    + rewrite lookup_insert_eq. intros [= <-] Hc Hj.
      apply withChild_children in Hc as [Hc| ->].
      * eapply Hrefs; [exact Hnode|done|lia].
      * intros Heq%mkId_inj. lia.
    + rewrite lookup_insert_ne by done. destruct (decide (k = mkId next)) as [->|Hkn].
      * rewrite lookup_insert_eq. intros [= <-] Hc.
        destruct (newNodeOf_leaf newType (mkId next)) as [_ Hleaf].
        rewrite Hleaf in Hc. by apply elem_of_nil in Hc.
      * rewrite lookup_insert_ne by done. intros Hk Hc Hj.
        eapply Hrefs; [exact Hk|done|lia].
Qed.

Lemma buildEntries_keys (props : list (string * JsValue)) :
  ∀ m next es m' next',
    buildEntries props m next = (es, m', next') -> map key es = map fst props.
Proof.
  induction props as [|[k x] props IH]; intros m next es m' next' Hb; simpl in Hb.
  - by simplify_eq.
  - destruct (buildNode x m next) as [[c ma] na] eqn:Hx.
    destruct (buildEntries props ma na) as [[es' mb] nb] eqn:Hrest.
    simplify_eq. simpl. f_equal. by eapply IH.
Qed.

Lemma buildEntries_children_NoDup (props : list (string * JsValue)) :
  ∀ m next es m' next',
    buildEntries props m next = (es, m', next') -> NoDup (map childId es).
Proof.
  induction props as [|[k x] props IH]; intros m next es m' next' Hb; simpl in Hb.
  - simplify_eq. constructor.
  - destruct (buildNode x m next) as [[c ma] na] eqn:Hx.
    destruct (buildEntries props ma na) as [[es' mb] nb] eqn:Hrest.
    simplify_eq. simpl.
    destruct (buildNode_built _ _ _ _ _ _ Hx) as (-> & Hlt & _).
    destruct (buildEntries_built _ _ _ _ _ _ Hrest) as [_ Hes].
    apply NoDup_cons. split; [|by eapply IH].
    intros Hin. apply list_elem_of_fmap in Hin as (e & He & Hin).
    rewrite Forall_forall in Hes. destruct (Hes e Hin) as (j & Hj & Hej).
    rewrite Hej in He. apply mkId_inj in He. lia.
Qed.

Lemma buildNode_unique (v : JsValue) :
  representable v = true ->
  ∀ m next id m' next',
    buildNode v m next = (id, m', next') ->
    ∀ k i es, m' !! k = Some (ObjectNode i es) ->
      m !! k = Some (ObjectNode i es)
      ∨ (NoDup (map key es) ∧ NoDup (map childId es)).
Proof.
  induction v as [| b | n | s | items IH | props IH] using JsValue_nested_ind;
    intros Hrep m next id m' next' Hbuild k i es Hk.
  1-4: simpl in Hbuild; simplify_eq;
       (destruct (decide (k = mkId next)) as [->|Hne];
        [by rewrite lookup_insert_eq in Hk
        |rewrite lookup_insert_ne in Hk by done; by left]).
  - rewrite buildNode_array in Hbuild.
    destruct (buildItems items m (S next)) as [[cs m1] n1] eqn:Hitems.
    simplify_eq.
    destruct (decide (k = mkId next)) as [->|Hne];
      [by rewrite lookup_insert_eq in Hk|].
    rewrite lookup_insert_ne in Hk by done. simpl in Hrep.
    clear Hne. revert m cs m1 next' Hitems Hk Hrep. generalize (S next) as n0.
    induction IH as [|x items Hx _ IHitems];
      intros n0 m cs m1 next' Hitems Hk Hrep; simpl in Hitems.
    + simplify_eq. by left.
    + destruct (buildNode x m n0) as [[c ma] na] eqn:Hx1.
      destruct (buildItems items ma na) as [[cs' mb] nb] eqn:Hrest.
      simplify_eq. simpl in Hrep. apply andb_prop in Hrep as [Hrepx Hrep].
      destruct (IHitems _ _ _ _ _ Hrest Hk Hrep) as [Hold|?]; [|by right].
      by eapply Hx.
  - rewrite buildNode_object in Hbuild.
    destruct (buildEntries props m (S next)) as [[es0 m1] n1] eqn:Hentries.
    simplify_eq. simpl in Hrep.
    apply andb_prop in Hrep as [[_ Hnd]%andb_prop Hreps].
    apply bool_decide_eq_true in Hnd.
    destruct (decide (k = mkId next)) as [->|Hne].
    { rewrite lookup_insert_eq in Hk. injection Hk as <- <-. right. split.
      - by rewrite (buildEntries_keys _ _ _ _ _ _ Hentries).
      - by eapply buildEntries_children_NoDup. }
    rewrite lookup_insert_ne in Hk by done.
    clear Hne Hnd. revert m es0 m1 next' Hentries Hk Hreps. generalize (S next) as n0.
    induction IH as [|[k0 x] props Hx _ IHprops];
      intros n0 m es0 m1 next' Hentries Hk Hreps; simpl in Hentries.
    + simplify_eq. by left.
    + destruct (buildNode x m n0) as [[c ma] na] eqn:Hx1.
      destruct (buildEntries props ma na) as [[es' mb] nb] eqn:Hrest.
      simplify_eq. simpl in Hreps, Hx. apply andb_prop in Hreps as [Hrepx Hreps].
      destruct (IHprops _ _ _ _ _ Hrest Hk Hreps) as [Hold|?]; [|by right].
      by eapply Hx.
Qed.

Lemma built_keys_ok (value : JsValue) (next : nat) :
  representable value = true ->
  keys_ok (buildDocumentFromValue value next).2 (buildDocumentFromValue value next).1.
Proof.
  intros Hrep. unfold buildDocumentFromValue.
  destruct (buildNode value ∅ next) as [[root m'] next'] eqn:Hbuild. cbn [fst snd].
  destruct (buildNode_built _ _ _ _ _ _ Hbuild) as (-> & Hlt & Hbuilt).
  split.
  - intros k i es Hk. cbn [nodes] in Hk.
    destruct (buildNode_unique value Hrep _ _ _ _ _ Hbuild k i es Hk) as [Hold|?];
      [|done]. by rewrite lookup_empty in Hold.
  - intros k n c j Hk Hc Hj. cbn [nodes] in Hk.
    destruct (built_key _ _ _ _ _ Hbuilt Hk) as (j0 & Hj0 & ->).
    destruct Hbuilt as (_ & _ & Hnew).
    destruct (Hnew j0 Hj0) as (n' & Hn' & _ & Hch). simplify_eq.
    destruct (Hch c Hc) as (j' & Hj' & ->). intros Heq%mkId_inj. lia.
Qed.
Section KeysInvariant.
Context `{Platform}.
Hypothesis Hparser : ∀ text value, JSON_parse text = Parsed value -> representable value = true.

Lemma keys_inv_pushed (next next' : nat) (state state' : EditorState) :
  keys_inv next state -> pushed state state' -> (next <= next')%nat ->
  (∀ d', doc state' = Some d' -> keys_ok next' d') ->
  keys_inv next' state'.
Proof.
  intros Hinv [Hu Hr] Hle Hdoc.
  apply (keys_inv_mono next next') in Hinv as (Hd & Hundo & Hredo); [|done].
  split; [done|]. rewrite Hu, Hr. split; [|constructor].
  apply Forall_take. constructor; [|done]. intros d Hsnap. by apply Hd.
Qed.

Lemma keys_inv_untouched (next : nat) (state state' : EditorState) :
  untouched state state' -> keys_inv next state -> keys_inv next state'.
Proof.
  intros (Hd & _ & _ & Hu & Hr). unfold keys_inv. by rewrite Hd, Hu, Hr.
Qed.

Lemma keys_inv_fields (next : nat) (state state' : EditorState) :
  doc state' = doc state -> undoStack state' = undoStack state ->
  redoStack state' = redoStack state ->
  keys_inv next state -> keys_inv next state'.
Proof. unfold keys_inv. by intros -> -> ->. Qed.

(** An accepted mutation, with the document it leads to. *)
Lemma accepted_keys_step (B next : nat) (state : EditorState) (action : Action) :
  state_ok B next state -> keys_inv next state -> accepts state action = true ->
  ∃ B', (B <= B')%nat ∧
    ∀ fuel, (B' < fuel)%nat ->
      ∃ state' next',
        editorReducer fuel state action next = Some (state', next')
        ∧ (next <= next')%nat
        ∧ state_ok B' next' state'
        ∧ pushed state state'
        ∧ ∀ d', doc state' = Some d' -> keys_ok next' d'.
Proof.
  intros Hok Hinv Hacc. pose proof Hok as (Hdocok & _ & _).
  pose proof Hinv as (Hkeys & _ & _).
  assert (Hparse : ∀ text v, JSON_parse text = Parsed v ->
            ∃ B', (B <= B')%nat ∧ ∀ fuel, (B' < fuel)%nat ->
              ∃ state' next',
                applyParse fuel state text next = Some (state', next')
                ∧ (next <= next')%nat ∧ state_ok B' next' state'
                ∧ pushed state state'
                ∧ ∀ d', doc state' = Some d' -> keys_ok next' d').
  { intros text v Hp. eexists. split; [|intros fuel Hfuel].
    2: { destruct (applyParse_accepted B next fuel state _ v Hok Hp Hfuel)
           as (s' & Hs' & Hle & Hok' & Hpush & Hd' & _).
         exists s'. eexists. split; [exact Hs'|]. split; [exact Hle|].
         split; [exact Hok'|]. split; [exact Hpush|].
         intros d' Hdoc'. rewrite Hd' in Hdoc'. injection Hdoc' as <-.
         apply built_keys_ok. by eapply Hparser. }
    lia. }
  assert (Hfin : ∀ B' next' fuel d' focus,
            doc_ok B' next' d' -> keys_ok next' d' ->
            (B <= B')%nat -> (next <= next')%nat -> (B' < fuel)%nat ->
            ∃ state', finalizeDocumentChange fuel state d' focus = Some state'
                      ∧ state_ok B' next' state' ∧ pushed state state'
                      ∧ ∀ d'', doc state' = Some d'' -> keys_ok next' d'').
  { intros B' next' fuel d' focus Hd' Hk' HB Hn Hfuel.
    destruct (finalize_result B B' next next' fuel state d' focus)
      as (s' & v & Hs' & _ & Hdoc' & _ & _ & _ & _ & _ & Hok' & Hpush & _); try done.
    exists s'. do 3 (split; [done|]). intros d'' Hd''. congruence. }
  destruct action as [text| |text|nodeId value newType|parentId child newKey
                     |parentId parentType key' newType|parentId child|nodeId|nodeId
                     | | |query|direction|enabled|mode|indent'|scope
                     |parentId child direction| | |enabled|enabled|name now|id|id name now|id|id now| |notice'|nodeId];
    cbn [accepts] in Hacc; try done.
  - (* PARSE_TEXT *)
    unfold parses in Hacc. destruct (JSON_parse (rawText state)) as [v|] eqn:Hp; [|done].
    destruct (Hparse _ _ Hp) as (B' & HB & Hrun). exists B'. split; [done|].
    intros fuel Hfuel. rewrite reducer_parse. by apply Hrun.
  - (* LOAD_TEXT *)
    unfold parses in Hacc. destruct (JSON_parse text) as [v|] eqn:Hp; [|done].
    destruct (Hparse _ _ Hp) as (B' & HB & Hrun). exists B'. split; [done|].
    intros fuel Hfuel. rewrite reducer_load. by apply Hrun.
  - (* EDIT_PRIMITIVE *)
    destruct (doc state) as [d|] eqn:Hdoc; cbn in Hacc; [|done].
    destruct (nodes d !! nodeId) as [node|] eqn:Hnode; [|done].
    destruct (Hdocok d eq_refl) as (Hac & Hids & Hfresh).
    exists B. split; [lia|]. intros fuel Hfuel.
    rewrite reducer_edit, (editPrimitive_accepted fuel state d nodeId node) by done.
    destruct (Hfin B next fuel (editedDoc d nodeId node value newType) (Some nodeId))
      as (s' & Hs' & Hok' & Hpush & Hk'); try done.
    { apply doc_ok_refines; [by apply Hdocok|]. by apply editedDoc_refines. }
    { apply (keys_ok_kept next d); [by apply editedDoc_kept|by apply Hkeys]. }
    rewrite (bind_step _ _ _ Hs'). exists s', next. done.
  - (* RENAME_KEY *)
    destruct (doc state) as [d|] eqn:Hdoc; cbn in Hacc; [|done].
    destruct (nodes d !! parentId) as [[pid entries| | | | |]|] eqn:Hnode; try done.
    exists B. split; [lia|]. intros fuel Hfuel.
    rewrite reducer_rename,
      (renameKey_accepted fuel state d parentId child newKey pid entries);
      [|done|done|by cbn [accepts]; rewrite Hdoc; cbn; rewrite Hnode].
    apply andb_prop in Hacc as [[_ Htaken]%andb_prop _].
    apply negb_true_iff in Htaken.
    destruct (Hfin B next fuel (renamedDoc d parentId child newKey pid entries)
                (Some child)) as (s' & Hs' & Hok' & Hpush & Hk'); try done.
    { apply doc_ok_refines; [by apply Hdocok|]. by apply renamedDoc_refines. }
    { apply renamedDoc_keys_ok; [done|done|by apply Hkeys]. }
    rewrite (bind_step _ _ _ Hs'). exists s', next. done.
  - (* ADD_NODE *)
    destruct (doc state) as [d|] eqn:Hdoc; cbn in Hacc; [|done].
    destruct (nodes d !! parentId) as [parent|] eqn:Hnode; [|done].
    destruct (Hdocok d eq_refl) as (Hac & Hids & Hfresh).
    exists (S B). split; [lia|]. intros fuel Hfuel.
    rewrite reducer_add, (addNode_accepted fuel state d parentId parent) by done.
    destruct (Hfin (S B) (S next) fuel
                (addedDoc d parentId parent key' newType next) (Some (mkId next)))
      as (s' & Hs' & Hok' & Hpush & Hk'); try done; try lia.
    { apply addedDoc_ok; [by apply Hdocok | done]. }
    { eapply addedDoc_keys_ok; [done|done|exact Hacc|by apply Hkeys]. }
    rewrite (bind_step _ _ _ Hs'). exists s', (S next).
    split; [done|]. split; [lia|]. done.
  - (* DELETE_NODE *)
    destruct (doc state) as [d|] eqn:Hdoc; cbn in Hacc; [|done].
    destruct (nodes d !! parentId) as [parent|] eqn:Hnode; [|done].
    destruct (Hdocok d eq_refl) as (Hac & Hids & Hfresh).
    exists B. split; [lia|]. intros fuel Hfuel.
    rewrite reducer_delete, (deleteNode_accepted fuel state d parentId child parent)
      by done.
    destruct Hac as (rank & Hrank).
    destruct (removeSubtree_returns rank fuel (nodes d) child) as [nodes1 Hrm].
    { intros k n Hk. by apply Hrank. }
    { lia. }
    { intros n Hn. destruct (Hrank _ _ Hn). lia. }
    rewrite (bind_step _ _ _ Hrm). cbv beta.
    destruct (Hfin B next fuel (deletedDoc d parentId child parent nodes1)
                (Some parentId)) as (s' & Hs' & Hok' & Hpush & Hk'); try done.
    { apply doc_ok_refines; [by apply Hdocok|].
      apply deletedDoc_refines; [done|]. by eapply removeSubtree_refines. }
    { apply (keys_ok_kept next d); [|by apply Hkeys].
      apply deletedDoc_kept; [done|]. by eapply removeSubtree_kept. }
    rewrite (bind_step _ _ _ Hs'). exists s', next. done.
  - (* SORT_KEYS *)
    destruct (doc state) as [d|] eqn:Hdoc; [|done].
    destruct (Hdocok d eq_refl) as (Hac & Hids & Hfresh).
    exists B. split; [lia|]. intros fuel Hfuel.
    rewrite reducer_sort, (sortKeys_accepted fuel state d scope) by done.
    destruct Hac as (rank & Hrank).
    assert (∃ nodes', match sortStart state d scope with
                      | Some start => sortObject fuel (nodes d) start
                      | None => Some (nodes d)
                      end = Some nodes' ∧ refines (nodes d) nodes'
                      ∧ entries_kept (nodes d) nodes')
      as (nodes' & Hsort & Href & Hkept).
    { destruct (sortStart state d scope) as [start|];
        [|eauto using refines_refl, entries_kept_refl].
      destruct (sortObject_returns rank fuel (nodes d) start) as [nodes' Hs].
      - intros k n Hk. by apply Hrank.
      - lia.
      - intros n Hn. destruct (Hrank _ _ Hn). lia.
      - exists nodes'. split; [done|].
        split; [by eapply sortObject_refines|by eapply sortObject_kept]. }
    rewrite (bind_step _ _ _ Hsort). cbv beta.
    destruct (Hfin B next fuel (mkDoc (rootId d) nodes') (selectedId state))
      as (s' & Hs' & Hok' & Hpush & Hk'); try done.
    { apply doc_ok_refines; [by apply Hdocok|done]. }
    { apply (keys_ok_kept next d); [done|by apply Hkeys]. }
    rewrite (bind_step _ _ _ Hs'). exists s', next. done.
  - (* MOVE_ARRAY_ITEM *)
    destruct (doc state) as [d|] eqn:Hdoc; cbn in Hacc; [|done].
    destruct (nodes d !! parentId) as [[|pid items| | | |]|] eqn:Hnode; try done.
    exists B. split; [lia|]. intros fuel Hfuel.
    rewrite reducer_move,
      (moveArrayItem_accepted fuel state d parentId child pid items) by done.
    pose proof Hacc as Hacc'. unfold acceptsMove in Hacc'.
    apply andb_prop in Hacc' as [Hidx%negb_true_iff%Z.eqb_neq _].
    destruct (Hfin B next fuel (movedDoc d parentId child direction pid items)
                (Some child)) as (s' & Hs' & Hok' & Hpush & Hk'); try done.
    { apply doc_ok_refines; [by apply Hdocok|]. by apply movedDoc_refines. }
    { apply (keys_ok_kept next d); [by apply movedDoc_kept|by apply Hkeys]. }
    rewrite (bind_step _ _ _ Hs'). exists s', next. done.
  - (* LOAD_SNIPPET *)
    destruct (snippetContents state !! id) as [text|] eqn:Hsnip; [|done].
    apply andb_prop in Hacc as [Htruthy Hp]. unfold parses in Hp.
    destruct (JSON_parse text) as [v|] eqn:Hpv; [|done].
    destruct (Hparse _ _ Hpv) as (B' & HB & Hrun). exists B'. split; [done|].
    intros fuel Hfuel. rewrite (reducer_snippet _ _ _ _ _ Hsnip Htruthy). by apply Hrun.
Qed.

(** One command, with the invariant of the keys. *)
Lemma keys_step (B next : nat) (state : EditorState) (action : Action) :
  state_ok B next state -> history_bounded state -> keys_inv next state ->
  ∃ B', (B <= B')%nat ∧
    ∀ fuel, (B' < fuel)%nat ->
      ∃ state' next',
        editorReducer fuel state action next = Some (state', next')
        ∧ (next <= next')%nat
        ∧ state_ok B' next' state'
        ∧ history_bounded state'
        ∧ keys_inv next' state'.
Proof.
  intros Hok Hbound Hinv.
  destruct (isMutation_or_view action)
    as [Hmut|[Hview|[->|[->|[[text ->]|[[i ->]|[Hstore| ->]]]]]]].
  - destruct (accepts state action) eqn:Hacc.
    + destruct (accepted_keys_step B next state action Hok Hinv Hacc)
        as (B' & HB & Hrun).
      exists B'. split; [done|]. intros fuel Hfuel.
      destruct (Hrun fuel Hfuel) as (s' & n' & Hred & Hle & Hok' & Hpushed & Hk').
      exists s', n'. do 3 (split; [done|]).
      split; [by eapply history_bounded_pushed|by eapply keys_inv_pushed].
    + exists B. split; [done|]. intros fuel Hfuel.
      destruct (rejected_step fuel next state action Hmut Hacc)
        as (s' & n' & Hred & Hle & Hun).
      exists s', n'. split; [done|]. split; [done|].
      split; [|split; [by eapply history_bounded_untouched|]].
      * apply (state_ok_mono B B next n'); [lia|done|]. by eapply state_ok_untouched.
      * apply (keys_inv_mono next n'); [done|]. by eapply keys_inv_untouched.
  - exists B. split; [done|]. intros fuel Hfuel.
    destruct (view_step B next fuel state action Hview Hok Hfuel)
      as (s' & Hred & Hun & _).
    exists s', next. split; [done|]. split; [done|].
    split; [by eapply state_ok_untouched|].
    split; [by eapply history_bounded_untouched|by eapply keys_inv_untouched].
  - exists B. split; [done|]. intros fuel Hfuel.
    destruct (undoStack state) as [|previous remaining] eqn:Hstack.
    + exists state, next. split; [|done]. cbn [editorReducer]. by rewrite Hstack.
    + destruct (undo_applies B next fuel state previous remaining Hok Hstack Hfuel)
        as (s' & Hs' & Hd & _ & _ & Hu & Hre & Hok' & _).
      exists s', next. do 3 (split; [done|]).
      destruct Hbound as [Hbu Hbr]. split.
      * unfold history_bounded.
        rewrite Hu, Hre, length_take. rewrite Hstack in Hbu. cbn [length] in *. lia.
      * destruct Hinv as (Hkd & Hku & Hkr). rewrite Hstack in Hku.
        apply Forall_cons in Hku as [Hprev Hrest].
        split; [by intros d; rewrite Hd; apply Hprev|]. rewrite Hu, Hre.
        split; [done|]. apply Forall_take. constructor; [|done].
        intros d Hsnap. by apply Hkd.
  - exists B. split; [done|]. intros fuel Hfuel.
    destruct (redoStack state) as [|nextEntry remaining] eqn:Hstack.
    + exists state, next. split; [|done]. cbn [editorReducer]. by rewrite Hstack.
    + destruct (redo_applies B next fuel state nextEntry remaining Hok Hstack Hfuel)
        as (s' & Hs' & Hd & _ & _ & Hre & Hu & Hok' & _).
      exists s', next. do 3 (split; [done|]).
      destruct Hbound as [Hbu Hbr]. split.
      * unfold history_bounded.
        rewrite Hu, Hre, length_take. rewrite Hstack in Hbr. cbn [length] in *. lia.
      * destruct Hinv as (Hkd & Hku & Hkr). rewrite Hstack in Hkr.
        apply Forall_cons in Hkr as [Hentry Hrest].
        split; [by intros d; rewrite Hd; apply Hentry|]. rewrite Hu, Hre.
        split; [|done]. apply Forall_take. constructor; [|done].
        intros d Hsnap. by apply Hkd.
  - set (base := state <| rawText := text |> <| parseError := None |>).
    assert (Hbase : doc base = doc state ∧ undoStack base = undoStack state
                    ∧ redoStack base = redoStack state) by (by destruct state).
    destruct Hbase as (Hd & Hu & Hre).
    assert (Hokb : state_ok B next base) by (by apply (state_ok_fields B next state)).
    assert (Hbb : history_bounded base).
    { unfold history_bounded. by rewrite Hu, Hre. }
    assert (Hkb : keys_inv next base) by (by apply (keys_inv_fields next state)).
    destruct (autoParse state) eqn:Hauto.
    2:{ exists B. split; [done|]. intros fuel Hfuel. exists base, next.
        rewrite reducer_set_raw_text, Hauto. done. }
    destruct (JSON_parse text) as [value|msg] eqn:Hparse.
    + exists (Nat.max B (S (buildDocumentFromValue value next).2)). split; [lia|].
      intros fuel Hfuel.
      destruct (applyParse_accepted B next fuel base text value Hokb Hparse Hfuel)
        as (s' & Hs' & Hle & Hok' & Hpushed & Hd' & _).
      exists s', (buildDocumentFromValue value next).2.
      rewrite reducer_set_raw_text, Hauto. do 3 (split; [done|]).
      split; [by eapply history_bounded_pushed|].
      eapply keys_inv_pushed; [exact Hkb|done|done|].
      intros d' Hdoc'. rewrite Hd' in Hdoc'. injection Hdoc' as <-.
      apply built_keys_ok. by eapply Hparser.
    + exists B. split; [done|]. intros fuel Hfuel.
      destruct (applyParse_rejected fuel next base text) as (s' & Hs' & Hun).
      { unfold parses. by rewrite Hparse. }
      exists s', next. rewrite reducer_set_raw_text, Hauto.
      split; [done|]. split; [done|].
      split; [by eapply state_ok_untouched|].
      split; [by eapply history_bounded_untouched|by eapply keys_inv_untouched].
  - exists B. split; [done|]. intros fuel Hfuel. cbn [editorReducer].
    destruct (doc state) as [d|] eqn:Hdoc.
    + destruct (doc_traversable B next state d Hok Hdoc) as [Hac _].
      destruct (documentToJson_returns B fuel d Hac Hfuel) as [v Hv].
      rewrite Hv. cbn [mbind option_bind].
      eexists _, next. split; [reflexivity|]. split; [done|]. split; [|split].
      * apply (state_ok_fields B next state); [by destruct state..|done].
      * unfold history_bounded in *. by destruct state.
      * apply (keys_inv_fields next state); [by destruct state..|done].
    + eexists _, next. split; [reflexivity|]. split; [done|]. split; [|split].
      * apply (state_ok_fields B next state); [by destruct state..|done].
      * unfold history_bounded in *. by destruct state.
      * apply (keys_inv_fields next state); [by destruct state..|done].
  - exists B. split; [done|]. intros fuel Hfuel.
    destruct (store_step fuel next state action Hstore)
      as (s' & n' & Hred & Hle & Hun & _).
    exists s', n'. split; [done|]. split; [done|].
    split; [|split; [by eapply history_bounded_untouched|]].
    + apply (state_ok_mono B B next n'); [lia|done|]. by eapply state_ok_untouched.
    + apply (keys_inv_mono next n'); [done|]. by eapply keys_inv_untouched.
  - destruct (clear_step 0 next state)
      as (s' & n' & _ & Hinit & Hle & Hok' & Hd' & Hu & Hr & _).
    exists (Nat.max B (S n')). split; [lia|]. intros fuel Hfuel.
    exists s', n'. cbn [editorReducer]. rewrite Hinit.
    split; [done|]. split; [done|].
    split; [eapply state_ok_mono; [| |exact Hok']; lia|].
    split; [unfold history_bounded; rewrite Hu, Hr; cbn; lia|].
    split; [|rewrite Hu, Hr; split; constructor].
    intros d Hdoc. rewrite Hd' in Hdoc. injection Hdoc as <-.
    assert (n' = (buildDocumentFromValue DEFAULT_JSON next).2) as ->.
    { unfold buildInitialState in Hinit.
      destruct (buildDocumentFromValue DEFAULT_JSON next). by injection Hinit. }
    by apply built_keys_ok.
Qed.

(** X28: the keys of an object stay distinct.  With a parser that returns
    values JavaScript can hold, start from a traversable state in whose
    documents (the current one and those in the history) the keys of
    every object are pairwise distinct, so are its children, no
    reference points at an identifier still to be drawn, and every
    identifier is plain.  Then every finite sequence of commands that
    name plain identifiers returns, and in the document of the state it
    ends in the keys of every object are pairwise distinct. *)
Theorem keys_stay_distinct
    (B next : nat) (state : EditorState) (actions : list Action) :
  state_ok B next state -> history_bounded state -> keys_inv next state ->
  plain_state state ->
  Forall (fun action => Forall plain (namedIds action)) actions ->
  ∃ fuel0 state' next',
    (∀ fuel, (fuel0 <= fuel)%nat ->
       runActions fuel state next actions = Some (state', next'))
    ∧ ∀ d k i entries,
        doc state' = Some d -> nodes d !! k = Some (ObjectNode i entries) ->
        NoDup (map key entries).
Proof.
  intros Hok Hbound Hinv Hplain Hids.
  assert (Hgoal : ∃ fuel0 B' state' next',
            (∀ fuel, (fuel0 <= fuel)%nat ->
               runActions fuel state next actions = Some (state', next'))
            ∧ state_ok B' next' state' ∧ history_bounded state'
            ∧ keys_inv next' state').
  { revert B next state Hok Hbound Hinv Hplain.
    induction actions as [|action rest IH]; intros B next state Hok Hbound Hinv Hplain.
    - by exists 0%nat, B, state, next.
    - apply Forall_cons in Hids as [Hid Hids].
      destruct (keys_step B next state action Hok Hbound Hinv) as (B1 & HB & Hrun).
      destruct (Hrun (S B1)) as (s1 & n1 & Hstep & Hle & Hok1 & Hbound1 & Hinv1); [lia|].
      pose proof (plain_step _ _ _ _ _ _ _ Hok Hplain Hid Hstep) as Hplain1.
      destruct (IH Hids B1 n1 s1 Hok1 Hbound1 Hinv1 Hplain1)
        as (fuel0 & B' & s' & n' & Hrest & Hfinal).
      exists (Nat.max (S B1) fuel0), B', s', n'. split; [|done].
      intros fuel Hfuel. cbn [runActions].
      rewrite (editorReducer_mono _ _ _ _ _ _ Hstep) by lia.
      apply Hrest. lia. }
  destruct Hgoal as (fuel0 & B' & s' & n' & Hrun & _ & _ & Hk & _).
  exists fuel0, s', n'. split; [done|].
  intros d k i entries Hd Hnode. destruct (Hk d Hd) as [Huniq _].
  by destruct (Huniq k i entries Hnode).
Qed.

End KeysInvariant.

Lemma demo_parser_representable (text : string) (value : JsValue) :
  Demo.parse text = Parsed value -> representable value = true.
Proof.
  unfold Demo.parse.
  destruct (String.eqb text "[1]"); [by intros [= <-]|].
  destruct (String.eqb text "[true,null]"); [by intros [= <-]|].
  destruct (String.eqb text "sample"); [by intros [= <-]|done].
Qed.

Lemma emptyState_keys : keys_inv 0 Demo.emptyState.
Proof. split; [by intros d Hd|split; constructor]. Qed.

Lemma keys_stay_distinct_witness :
  (∀ text value, Demo.parse text = Parsed value -> representable value = true)
  ∧ state_ok 0 0 Demo.emptyState
  ∧ history_bounded Demo.emptyState
  ∧ keys_inv 0 Demo.emptyState
  ∧ plain_state Demo.emptyState
  ∧ Forall (fun action => Forall plain (namedIds action))
      [LOAD_TEXT "sample"; ADD_NODE "id-0" PObject (Some "c") TNull;
       RENAME_KEY "id-0" "id-1" "b"; RENAME_KEY "id-0" "id-1" "z"]
  ∧ ∃ fuel0 state' next',
      (∀ fuel, (fuel0 <= fuel)%nat ->
         runActions (H := Demo.platform) fuel Demo.emptyState 0
           [LOAD_TEXT "sample"; ADD_NODE "id-0" PObject (Some "c") TNull;
            RENAME_KEY "id-0" "id-1" "b"; RENAME_KEY "id-0" "id-1" "z"]
         = Some (state', next'))
      ∧ ∀ d k i entries,
          doc state' = Some d -> nodes d !! k = Some (ObjectNode i entries) ->
          NoDup (map key entries).
Proof.
  assert (Hb : history_bounded Demo.emptyState) by (split; cbn; lia).
  assert (Hids : Forall (fun action => Forall plain (namedIds action))
            [LOAD_TEXT "sample"; ADD_NODE "id-0" PObject (Some "c") TNull;
             RENAME_KEY "id-0" "id-1" "b"; RENAME_KEY "id-0" "id-1" "z"])
    by (by repeat constructor).
  split; [exact demo_parser_representable|]. split; [exact emptyState_ok|].
  split; [exact Hb|]. split; [exact emptyState_keys|].
  split; [exact emptyState_plain|]. split; [exact Hids|].
  exact (keys_stay_distinct (H := Demo.platform) demo_parser_representable 0 0
           Demo.emptyState
           [LOAD_TEXT "sample"; ADD_NODE "id-0" PObject (Some "c") TNull;
            RENAME_KEY "id-0" "id-1" "b"; RENAME_KEY "id-0" "id-1" "z"]
           emptyState_ok Hb emptyState_keys emptyState_plain Hids).
Defined.


(** * Loading a text *)

Section Loading.
Context `{Platform}.

Lemma applyParse_fields (fuel next next' : nat) (state state' : EditorState)
    (text : string) (value : JsValue) :
  JSON_parse text = Parsed value ->
  applyParse fuel state text next = Some (state', next') ->
  lastValidText state' = formatJson value (indent state)
  ∧ parseError state' = None
  ∧ selectedId state' = Some (rootId (buildDocumentFromValue value next).1)
  ∧ anchorPath state' = [rootId (buildDocumentFromValue value next).1].
Proof.
  intros Hparse Hrun. unfold applyParse, parseJson in Hrun. rewrite Hparse in Hrun.
  destruct (buildDocumentFromValue value next) as [d' n']. cbv zeta in Hrun.
  apply bind_Some in Hrun as (s1 & Hs1 & Hrun). injection Hrun as <- <-.
  pose proof (applySearch_anchor _ _ _ _ _ Hs1) as Hanchor.
  apply applySearch_core in Hs1.
  pose proof (f_equal lastValidText Hs1) as Hlast.
  pose proof (f_equal parseError Hs1) as Hpe.
  pose proof (f_equal selectedId Hs1) as Hsel.
  cbn [fst]. clear Hs1. destruct state, s1. cbn in *. by subst.
Qed.

(** X29: what a successful parse or load leaves.  When the text parses,
    [PARSE_TEXT] and [LOAD_TEXT] on a traversable state return a state
    with the document built from the parsed value; the text and the last
    valid text are the serialisation of the parsed value at the current
    indentation; no parse error is left; the root is selected and is the
    only anchor.  For a value JavaScript can hold without a key
    [__proto__], the document converts back to the parsed value, so the
    text is the serialisation of the document. *)
Theorem successful_load_replaces_the_document
    (B next : nat) (state : EditorState) (action : Action) (text : string)
    (value : JsValue) :
  state_ok B next state ->
  parseCommandText state action = Some text -> JSON_parse text = Parsed value ->
  ∃ B', (B <= B')%nat ∧
    ∀ fuel, (B' < fuel)%nat ->
      ∃ state',
        editorReducer fuel state action next
        = Some (state', (buildDocumentFromValue value next).2)
        ∧ doc state' = Some (buildDocumentFromValue value next).1
        ∧ rawText state' = formatJson value (indent state)
        ∧ lastValidText state' = formatJson value (indent state)
        ∧ parseError state' = None
        ∧ selectedId state' = Some (rootId (buildDocumentFromValue value next).1)
        ∧ anchorPath state' = [rootId (buildDocumentFromValue value next).1]
        ∧ (representable value = true -> hasProtoKey value = false ->
           (depth value <= fuel)%nat ->
           documentToJson fuel (buildDocumentFromValue value next).1 = Some value).
Proof.
  intros Hok Htext Hparse.
  exists (Nat.max B (S (buildDocumentFromValue value next).2)). split; [lia|].
  intros fuel Hfuel.
  destruct (applyParse_accepted B next fuel state text value Hok Hparse Hfuel)
    as (s' & Hs' & _ & _ & _ & Hd' & Hraw').
  destruct (applyParse_fields _ _ _ _ _ _ _ Hparse Hs') as (Hlast & Hpe & Hsel & Hanchor).
  exists s'. split.
  { destruct action; try done; cbn [parseCommandText] in Htext;
      injection Htext as <-; [by rewrite reducer_parse|by rewrite reducer_load]. }
  do 6 (split; [done|]).
  intros Hrep Hproto Hdepth. unfold buildDocumentFromValue, documentToJson.
  destruct (buildNode value ∅ next) as [[id m'] next'] eqn:Hbuild. cbn [fst rootId].
  by eapply buildValue_of_built.
Qed.

End Loading.

Lemma successful_load_replaces_the_document_witness :
  state_ok 0 0 Demo.emptyState
  ∧ parseCommandText Demo.emptyState (LOAD_TEXT "sample") = Some "sample"
  ∧ JSON_parse (Platform := Demo.platform) "sample" = Parsed Demo.sampleValue
  ∧ ∃ B', (0 <= B')%nat ∧
      ∀ fuel, (B' < fuel)%nat ->
        ∃ state',
          editorReducer (H := Demo.platform) fuel Demo.emptyState (LOAD_TEXT "sample") 0
          = Some (state', (buildDocumentFromValue Demo.sampleValue 0).2)
          ∧ doc state' = Some (buildDocumentFromValue Demo.sampleValue 0).1
          ∧ rawText state'
            = formatJson (H := Demo.platform) Demo.sampleValue (indent Demo.emptyState)
          ∧ lastValidText state'
            = formatJson (H := Demo.platform) Demo.sampleValue (indent Demo.emptyState)
          ∧ parseError state' = None
          ∧ selectedId state'
            = Some (rootId (buildDocumentFromValue Demo.sampleValue 0).1)
          ∧ anchorPath state' = [rootId (buildDocumentFromValue Demo.sampleValue 0).1]
          ∧ (representable Demo.sampleValue = true ->
             hasProtoKey Demo.sampleValue = false ->
             (depth Demo.sampleValue <= fuel)%nat ->
             documentToJson fuel (buildDocumentFromValue Demo.sampleValue 0).1
             = Some Demo.sampleValue).
Proof.
  split; [exact emptyState_ok|]. split; [reflexivity|]. split; [reflexivity|].
  apply (successful_load_replaces_the_document (H := Demo.platform) 0 0 Demo.emptyState
           (LOAD_TEXT "sample") "sample" Demo.sampleValue emptyState_ok);
    reflexivity.
Defined.


(** * Anchors *)

Lemma walkUp_chain (parents : gmap string string) :
  ∀ fuel current acc r,
    walkUp fuel current parents acc = Some r ->
    ∃ chain,
      r = acc ++ chain
      ∧ head chain = (if JsString.truthyOpt current then current else None)
      ∧ ∀ i c p, chain !! i = Some c -> chain !! S i = Some p -> parents !! c = Some p.
Proof.
  induction fuel as [|fuel IH]; intros current acc r Hrun.
  - cbn [walkUp] in Hrun. destruct (JsString.truthyOpt current) eqn:Ht; [done|].
    injection Hrun as <-. exists []. rewrite app_nil_r. done.
  - cbn [walkUp] in Hrun. destruct (JsString.truthyOpt current) eqn:Ht.
    2:{ injection Hrun as <-. exists []. rewrite app_nil_r. done. }
    destruct current as [c0|]; [|done].
    destruct (IH _ _ _ Hrun) as (chain & -> & Hhead & Hsteps).
    exists (c0 :: chain). rewrite <- app_assoc. split; [done|]. split; [done|].
    intros [|i] c p Hc Hp.
    + cbn in Hc, Hp. injection Hc as <-.
      destruct chain as [|p0 chain]; [done|]. cbn in Hp, Hhead. injection Hp as <-.
      destruct (JsString.truthyOpt (parents !! c0)); [done|done].
    + by apply (Hsteps i).
Qed.

Section Anchors.
Context `{Platform}.

Lemma buildAnchorPath_result (B fuel : nat) (d : DocumentState) (target : string) :
  acyclic B (nodes d) -> ids_consistent (nodes d) -> (B < fuel)%nat ->
  ∃ path,
    buildAnchorPath fuel d target = Some path
    ∧ (path = []
       ∨ (head path = Some (rootId d) ∧ last path = Some target ∧ leadsDown d path)).
Proof.
  intros (rank & Hrank) Hids Hfuel. unfold buildAnchorPath.
  destruct (walkUp_returns rank B (buildParentMap d)
              (parents_ranked rank B d Hrank Hids) fuel (Some target) [])
    as [chain0 Hrun]; [intros c _; lia|].
  rewrite Hrun. cbn [mbind option_bind].
  destruct (walkUp_chain _ _ _ _ _ Hrun) as (chain & -> & Hhead & Hsteps).
  cbn [app]. destruct (reverse chain) as [|first rest] eqn:Hrev; [eauto|].
  destruct (String.eqb_spec first (rootId d)) as [->|Hne]; [|eauto].
  eexists. split; [reflexivity|]. right. split; [done|].
  assert (Hchain : chain = reverse (rootId d :: rest))
    by (by rewrite <- Hrev, reverse_involutive).
  split.
  - rewrite <- (reverse_involutive (rootId d :: rest)), <- Hchain.
    rewrite last_reverse. rewrite Hhead.
    cbn [JsString.truthyOpt] in *. destruct (JsString.truthy target) eqn:Ht; [done|].
    destruct chain; [by rewrite reverse_nil in Hrev|done].
  - intros i p c Hp Hc.
    assert (Hlen : (S i < length (rootId d :: rest))%nat)
      by (by apply lookup_lt_is_Some; rewrite Hc).
    assert (Hc' : chain !! (length (rootId d :: rest) - S (S i))%nat = Some c).
    { rewrite Hchain, reverse_lookup by lia. rewrite <- Hc. f_equal. lia. }
    assert (Hp' : chain !! S (length (rootId d :: rest) - S (S i))%nat = Some p).
    { rewrite Hchain, reverse_lookup by lia. rewrite <- Hp. f_equal. lia. }
    pose proof (Hsteps _ _ _ Hc' Hp') as Hparent.
    apply buildParentMap_parent in Hparent as (k & n & Hk & Hid & Hin).
    rewrite (Hids _ _ Hk) in Hid. subst k. by exists n.
Qed.

End Anchors.

Lemma foldl_parents_in (p : string) (cs : list string) (r : gmap string string)
    (c : string) :
  c ∈ cs ∨ is_Some (r !! c) ->
  is_Some (foldl (fun ps c => <[c := p]> ps) r cs !! c).
Proof.
  revert r. induction cs as [|c' cs IH]; intros r [Hin|Hr]; simpl.
  - by inversion Hin.
  - done.
  - apply IH. inversion Hin; subst; [right; by rewrite lookup_insert_eq|by left].
  - apply IH. right. destruct (decide (c' = c)) as [->|Hne].
    + by rewrite lookup_insert_eq.
    + by rewrite lookup_insert_ne.
Qed.

(** Every child of a stored node has a parent link. *)
Lemma buildParentMap_child (d : DocumentState) (k c : string) (n : JsonNode) :
  nodes d !! k = Some n -> c ∈ children n -> is_Some (buildParentMap d !! c).
Proof.
  unfold buildParentMap. revert k c n.
  apply (map_fold_weak_ind
           (fun parents m => ∀ k c n, m !! k = Some n -> c ∈ children n ->
              is_Some (parents !! c))).
  - intros k c n Hk. by rewrite lookup_empty in Hk.
  - intros i x m r Hi IH k c n Hk Hc. apply foldl_parents_in.
    destruct (decide (k = i)) as [->|Hne].
    + rewrite lookup_insert_eq in Hk. injection Hk as <-. by left.
    + rewrite lookup_insert_ne in Hk by done. right. by eapply IH.
Qed.

(** The walk stops where the parent link is missing or empty. *)
Lemma walkUp_top (parents : gmap string string) :
  ∀ fuel current acc r,
    walkUp fuel current parents acc = Some r ->
    ∃ chain,
      r = acc ++ chain
      ∧ head chain = (if JsString.truthyOpt current then current else None)
      ∧ (∀ i c p, chain !! i = Some c -> chain !! S i = Some p -> parents !! c = Some p)
      ∧ (∀ x, last chain = Some x -> JsString.truthyOpt (parents !! x) = false).
Proof.
  induction fuel as [|fuel IH]; intros current acc r Hrun.
  - cbn [walkUp] in Hrun. destruct (JsString.truthyOpt current) eqn:Ht; [done|].
    injection Hrun as <-. exists []. rewrite app_nil_r. done.
  - cbn [walkUp] in Hrun. destruct (JsString.truthyOpt current) eqn:Ht.
    2:{ injection Hrun as <-. exists []. rewrite app_nil_r. done. }
    destruct current as [c0|]; [|done].
    destruct (IH _ _ _ Hrun) as (chain & -> & Hhead & Hsteps & Htop).
    exists (c0 :: chain). rewrite <- app_assoc. split; [done|]. split; [done|].
    split.
    + intros [|i] c p Hc Hp.
      * cbn in Hc, Hp. injection Hc as <-.
        destruct chain as [|p0 chain]; [done|]. cbn in Hp, Hhead. injection Hp as <-.
        destruct (JsString.truthyOpt (parents !! c0)); [done|done].
      * by apply (Hsteps i).
    + intros x Hx. destruct chain as [|p0 chain].
      * cbn in Hx. injection Hx as <-. cbn in Hhead.
        destruct (JsString.truthyOpt (parents !! c0)) eqn:Hp; [|done].
        by destruct (parents !! c0).
      * apply Htop. exact Hx.
Qed.

Lemma leadsDown_reachable (d : DocumentState) (path : list string) (start : string) :
  leadsDown d path -> head path = Some start ->
  ∀ i x, path !! i = Some x -> reachable (nodes d) start x.
Proof.
  intros Hdown Hhead. induction i as [|i IH]; intros x Hx.
  - rewrite <- head_lookup in Hx. rewrite Hhead in Hx. injection Hx as <-. constructor.
  - destruct (path !! i) as [p|] eqn:Hp.
    2:{ apply lookup_ge_None in Hp. apply lookup_lt_Some in Hx. lia. }
    destruct (Hdown i p x Hp Hx) as (n & Hn & Hc).
    eapply reach_child; [by apply IH|exact Hn|exact Hc].
Qed.

Section AnchorPath.
Context `{Platform}.
Context (d : DocumentState).
Hypothesis Hids : ids_consistent (nodes d).
Hypothesis Htree : treeShaped d.

Lemma parent_of_child (k c : string) (n : JsonNode) :
  nodes d !! k = Some n -> c ∈ children n -> buildParentMap d !! c = Some k.
Proof.
  intros Hk Hc. destruct (buildParentMap_child d k c n Hk Hc) as [p Hp].
  rewrite Hp. f_equal.
  destruct (buildParentMap_parent d c p Hp) as (k' & n' & Hk' & Hid & Hc').
  destruct Htree as (_ & _ & Hsingle).
  rewrite (Hids _ _ Hk') in Hid. subst p. by eapply Hsingle.
Qed.

Lemma root_has_no_parent : buildParentMap d !! rootId d = None.
Proof.
  destruct (buildParentMap d !! rootId d) as [p|] eqn:Hp; [|done].
  destruct (buildParentMap_parent d _ p Hp) as (k & n & Hk & _ & Hc).
  destruct Htree as (_ & Hroot & _). by destruct (Hroot k n Hk).
Qed.

(** From an identifier below the root the parent links lead to the
    root. *)
Lemma chain_reaches_root (c : string) :
  reachable (nodes d) (rootId d) c ->
  ∀ chain,
    head chain = Some c ->
    (∀ i x p, chain !! i = Some x -> chain !! S i = Some p ->
              buildParentMap d !! x = Some p) ->
    (∀ x, last chain = Some x -> JsString.truthyOpt (buildParentMap d !! x) = false) ->
    last chain = Some (rootId d).
Proof.
  induction 1 as [|k c n Hreach IH Hk Hc]; intros chain Hhead Hlinks Htop.
  - destruct chain as [|x [|y rest]]; [done|done|].
    cbn in Hhead. injection Hhead as ->.
    pose proof (Hlinks 0%nat _ _ eq_refl eq_refl) as Hp.
    by rewrite root_has_no_parent in Hp.
  - pose proof (parent_of_child k c n Hk Hc) as Hp.
    destruct chain as [|x rest]; [done|]. cbn in Hhead. injection Hhead as ->.
    destruct rest as [|y rest].
    + specialize (Htop c eq_refl). rewrite Hp in Htop. cbn in Htop.
      destruct Htree as (Hkeys & _). destruct (Hkeys k n Hk).
      unfold JsString.truthy in Htop. apply negb_false_iff in Htop.
      by apply String.eqb_eq in Htop.
    + pose proof (Hlinks 0%nat c y eq_refl eq_refl) as Hy. rewrite Hp in Hy.
      injection Hy as <-.
      change (last (k :: rest) = Some (rootId d)).
      apply IH; [done| |].
      * intros i x p Hx Hp'. by apply (Hlinks (S i)).
      * intros x Hx. by apply Htop.
Qed.

(** When [buildAnchorPath] returns a path and when it returns none. *)
Lemma buildAnchorPath_anchored (B fuel : nat) (target : string) :
  acyclic B (nodes d) -> (B < fuel)%nat ->
  ∃ path,
    buildAnchorPath fuel d target = Some path
    ∧ ((path = [] ∧ ¬ (target ≠ "" ∧ reachable (nodes d) (rootId d) target))
       ∨ (target ≠ "" ∧ reachable (nodes d) (rootId d) target
          ∧ head path = Some (rootId d) ∧ last path = Some target
          ∧ leadsDown d path)).
Proof.
  intros Hac Hfuel.
  destruct (buildAnchorPath_result B fuel d target Hac Hids Hfuel)
    as (path & Hpath & Hshape).
  exists path. split; [done|].
  unfold buildAnchorPath in Hpath.
  apply bind_Some in Hpath as (up & Hup & Hpath).
  destruct (walkUp_top _ _ _ _ _ Hup) as (chain & Hchain & Hhead & Hlinks & Htop).
  cbn [app] in Hchain. subst up.
  cbn [JsString.truthyOpt] in Hhead.
  assert (Htruthy : JsString.truthy target = true <-> target ≠ "").
  { unfold JsString.truthy. rewrite negb_true_iff. split.
    - intros Hne ->. by rewrite String.eqb_refl in Hne.
    - intros Hne. by apply String.eqb_neq. }
  destruct Hshape as [->|(Hh & Hl & Hdown)].
  - left. split; [done|]. intros [Hne Hreach].
    apply Htruthy in Hne. rewrite Hne in Hhead.
    pose proof (chain_reaches_root target Hreach chain Hhead Hlinks Htop) as Hlast.
    rewrite <- head_reverse in Hlast.
    destruct (reverse chain) as [|first rest]; [done|].
    cbn in Hlast. injection Hlast as ->. by rewrite String.eqb_refl in Hpath.
  - right. split; [|split; [|done]].
    + apply Htruthy. destruct (JsString.truthy target); [done|].
      destruct chain as [|x chain]; [|done].
      rewrite reverse_nil in Hpath. injection Hpath as <-. done.
    + rewrite last_lookup in Hl. by eapply leadsDown_reachable.
Qed.

End AnchorPath.

Section AnchorTo.
Context `{Platform}.

(** X30: anchoring.  Take a traversable state whose document is a tree
    (no stored identifier is empty, the root is no child, no identifier
    is a child of two nodes) with plain identifiers, and a plain target
    (the root when the command names none).  [ANCHOR_TO] returns.  When
    the target is not empty and can be reached from the root along child
    references, the anchor path of the state returned starts at the root,
    ends at the target and leads down along child references; the
    document is unchanged, and the selection is either kept or moved to
    the target.  Otherwise the state is returned as it is. *)
Theorem anchor_to_leads_from_the_root
    (B next fuel : nat) (state : EditorState) (d : DocumentState)
    (nodeId : option string) :
  state_ok B next state -> doc state = Some d -> (B < fuel)%nat ->
  treeShaped d -> plain_doc d -> plain (nullish nodeId (rootId d)) ->
  ∃ state',
    editorReducer fuel state (ANCHOR_TO nodeId) next = Some (state', next)
    ∧ (nullish nodeId (rootId d) ≠ "" ->
       reachable (nodes d) (rootId d) (nullish nodeId (rootId d)) ->
       head (anchorPath state') = Some (rootId d)
       ∧ last (anchorPath state') = Some (nullish nodeId (rootId d))
       ∧ leadsDown d (anchorPath state')
       ∧ doc state' = doc state
       ∧ (selectedId state' = selectedId state
          ∨ selectedId state' = Some (nullish nodeId (rootId d))))
    ∧ (¬ (nullish nodeId (rootId d) ≠ ""
          ∧ reachable (nodes d) (rootId d) (nullish nodeId (rootId d))) ->
       state' = state).
Proof.
  intros Hok Hdoc Hfuel Htree _ _.
  destruct (doc_traversable B next state d Hok Hdoc) as [Hac Hids].
  destruct (buildAnchorPath_anchored d Hids Htree B fuel (nullish nodeId (rootId d))
              Hac Hfuel) as (path & Hpath & Hshape).
  cbn [editorReducer]. rewrite Hdoc.
  rewrite (bind_step _ _ _ Hpath). cbv beta.
  destruct Hshape as [[-> Hnot]|(Hne & Hreach & Hhead & Hl & Hdown)].
  { exists state. split; [done|]. split; [|done].
    intros Hne Hreach. by destruct Hnot. }
  unfold lastOf. rewrite Hl.
  pose proof Hac as (rank & Hrank).
  destruct (collectSubtreeIds_returns rank d) with
    (fuel := fuel) (nodeId := nullish nodeId (rootId d)) (bucket := @nil string)
    as [ids Hsub].
  { intros k n Hk. by apply Hrank. }
  { lia. }
  { intros n Hn. destruct (Hrank _ _ Hn). lia. }
  rewrite (bind_step _ _ _ Hsub). cbv beta.
  match goal with
  | |- context [applySearch fuel ?base ?dov ?aov] =>
      destruct (applySearch_returns B fuel base dov aov) as [s' Hs'];
        [by intros d' [= <-]|done|];
      pose proof (applySearch_anchor _ _ _ _ _ Hs') as Hanchor;
      pose proof (applySearch_core _ _ _ _ _ Hs') as Hview;
      assert (Hbase : doc base = doc state
                      ∧ (selectedId base = selectedId state
                         ∨ selectedId base = Some (nullish nodeId (rootId d))))
  end.
  { split; [by destruct state|].
    destruct (JsSet.has ids (nullish (selectedId state) ""));
      [left|right]; by destruct state. }
  rewrite (bind_step _ _ _ Hs'). cbv beta.
  exists s'. split; [done|].
  apply searchView_fields in Hview as (Hd' & _ & Hsel' & _).
  destruct Hbase as [Hbd Hbs].
  cbn [nullish default] in Hanchor.
  split; [|by intros []].
  intros _ _. rewrite Hanchor.
  split; [done|]. split; [done|]. split; [done|].
  split; [congruence|]. rewrite Hsel'. exact Hbs.
Qed.

End AnchorTo.

Lemma sample_treeShaped : treeShaped (buildDocumentFromValue Demo.sampleValue 0).1.
Proof.
  split; [|split].
  - assert (Hall : map_Forall (λ k _, k ≠ "")
                      (nodes (buildDocumentFromValue Demo.sampleValue 0).1)).
    { refine (bool_decide_unpack _ _). vm_compute. exact I. }
    intros k n Hk. exact (Hall k n Hk).
  - assert (Hall : map_Forall (λ _ n, "id-0" ∉ children n)
                      (nodes (buildDocumentFromValue Demo.sampleValue 0).1)).
    { refine (bool_decide_unpack _ _). vm_compute. exact I. }
    intros k n Hk. exact (Hall k n Hk).
  - intros k1 n1 k2 n2 c Hk1 Hk2 Hc1 Hc2.
    assert (Hall : map_Forall (λ k1 n1,
              map_Forall (λ k2 n2, Forall (λ c, c ∈ children n2 -> k1 = k2) (children n1))
                (nodes (buildDocumentFromValue Demo.sampleValue 0).1))
              (nodes (buildDocumentFromValue Demo.sampleValue 0).1)).
    { refine (bool_decide_unpack _ _). vm_compute. exact I. }
    pose proof (Hall k1 n1 Hk1 k2 n2 Hk2) as Hf. rewrite Forall_forall in Hf.
    by apply (Hf c).
Qed.

Lemma anchor_to_leads_from_the_root_witness :
  state_ok 6 5 Demo.sampleState
  ∧ doc Demo.sampleState = Some (buildDocumentFromValue Demo.sampleValue 0).1
  ∧ (6 < 7)%nat
  ∧ treeShaped (buildDocumentFromValue Demo.sampleValue 0).1
  ∧ plain_doc (buildDocumentFromValue Demo.sampleValue 0).1
  ∧ plain "id-3"
  ∧ "id-3" ≠ ""
  ∧ reachable (nodes (buildDocumentFromValue Demo.sampleValue 0).1) "id-0" "id-3"
  ∧ ∃ state',
      editorReducer (H := Demo.platform) 7 Demo.sampleState (ANCHOR_TO (Some "id-3")) 5
      = Some (state', 5%nat)
      ∧ anchorPath state' = ["id-0"; "id-2"; "id-3"]
      ∧ head (anchorPath state') = Some "id-0"
      ∧ last (anchorPath state') = Some "id-3"
      ∧ leadsDown (buildDocumentFromValue Demo.sampleValue 0).1 (anchorPath state')
      ∧ doc state' = doc Demo.sampleState
      ∧ (selectedId state' = selectedId Demo.sampleState
         ∨ selectedId state' = Some "id-3").
Proof.
  assert (Hreach : reachable (nodes (buildDocumentFromValue Demo.sampleValue 0).1)
                     "id-0" "id-3").
  { eapply (reach_child _ _ "id-2"); [eapply (reach_child _ _ "id-0")| |].
    - constructor.
    - vm_compute. reflexivity.
    - cbn [children]. set_solver.
    - vm_compute. reflexivity.
    - cbn [children]. set_solver. }
  assert (Hne : "id-3" ≠ "") by done.
  split; [exact sampleState_ok|]. split; [exact sampleState_doc|]. split; [lia|].
  split; [exact sample_treeShaped|]. split; [apply built_plain|].
  split; [reflexivity|]. split; [exact Hne|]. split; [exact Hreach|].
  destruct (anchor_to_leads_from_the_root (H := Demo.platform) 6 5 7 Demo.sampleState
              (buildDocumentFromValue Demo.sampleValue 0).1 (Some "id-3")
              sampleState_ok sampleState_doc)
    as (state' & Hrun & Hyes & _);
    [lia|exact sample_treeShaped|apply built_plain|reflexivity|].
  destruct (Hyes Hne Hreach) as (Hhead & Hlast & Hdown & Hdoc & Hsel).
  exists state'. split; [exact Hrun|].
  split; [vm_compute in Hrun; by injection Hrun as <-|].
  split; [exact Hhead|]. split; [exact Hlast|]. split; [exact Hdown|].
  split; [exact Hdoc|exact Hsel].
Defined.
